(* ===== verification/_CoqProject ===== *)
-Q . S2P
Prelude.v
Random.v
OrderedMap.v
Dictionary.v
RBTheory.v
RBCheck.v
RBHeap.v
RBTree.v
RBTreeRep.v
RBTreeInsert.v
RBTreeUnlink.v
RBTreeRemove.v
RBTreeQuery.v
RBTreeSpec.v
KvRBTree.v
KvRBTreeRep.v
KvRBTreeInsert.v
KvRBTreeUnlink.v
KvRBTreeRemove.v
KvRBTreeQuery.v
KvRBTreeSpec.v
LRUCache.v
LRUCacheSpec.v
ThreadPool.v
ThreadPoolInv.v
ThreadPoolSpec.v
LockfreeQueue.v
LockfreeQueueInv.v
LockfreeQueueSpec.v
LockfreeTest.v
LockfreeTestSpec.v
BPlusTree.v
BPlusTreeRep.v
BPlusTreeInsert.v
BPlusTreeRemove.v
BPlusTreeQuery.v
BPlusTreeSpec.v
Bytes.v
Slab.v
SlabSpec.v
KvServer.v
KvServerSpec.v
JsonConfig.v
JsonConfigInv.v
JsonDevice.v
JsonConfigSpec.v
JsonLoader.v
MyFs.v
MyFsKeep.v
MyFsFd.v
MyFsPoll.v
MyFsDevice.v
MyFsSpec.v
MyFsMain.v
MyFsTeardown.v
MyFsScript.v
MyFsLoader.v
Nvme.v
NvmeDevice.v
KvMain.v
KvMainSpec.v
NvmeOpera.v
NvmeOperaSpec.v
EchoServer.v
EchoServerSpec.v
ServerLoop.v
Singleton.v
