(* ===== verification/Prelude.v ===== *)
(** * A verification library for the learn_spdk programs

    The repository is a collection of C and C++ programs around a key-value
    store on SPDK: two red-black trees, a B+ tree, an LRU cache with expiry, a
    thread pool, a lock-free queue, a slab allocator, a key-value server and an
    echo server with its client, a file layer over a blob store, and two
    programs that use the NVMe driver.  The parts are programs of their own
    that do not link against each other; they meet where one is the client of
    another's interface, and there the library has a class: [OrderedDict] for
    the two trees, [SockHandler] for the two servers, [Spdk], [Nvme] and
    [JsonLib] for the libraries.

    ** How code is modelled

    C and C++ functions are computations [M S A] over an explicit state: a
    normal return, an exception ([Throw], also used for [exit] and failed
    assertions), undefined behaviour ([Undef]) or exhausted fuel ([NoFuel]).
    Loops are [loop fuel body]; theorems are total: from enough fuel, which each
    states, the code returns.  [wp m s Q] says that [m] returns with [Q];
    [wpu m s Q U] that it returns with [Q] or has undefined behaviour with [U].
    Concurrent code is a transition system, one step per access to shared
    state.  Unsigned machine integers carry their wrap-around where it can
    happen, the signed counter that the servers add to is undefined when it
    overflows ([add_int]); memory is a map from locations to nodes, or from
    addresses to bytes where the code works on raw bytes.

    ** The files

    Shared: this file (outcomes, loops, [wp] rules, lists), [Bytes]
    (byte-addressed memory), [OrderedMap] (keys with a total order, sorted
    association lists), [Dictionary] (the interface of a tree and the client
    scripts verified against it), [Random] (std::mt19937).

    Red-black trees, Red_Black_Tree/RBTree.hpp with its test TesTRBT.cpp
    ([RBTree]) and KV_Store/RBTree.cpp, repeated as B+Tree/temp.cpp
    ([KvRBTree]).  [RBTheory] is the functional algorithm on zippers and its
    correctness, [RBCheck] the traversals and self-checks as functions, [RBHeap]
    pointer structures in a node store.  For each class, [...Rep] relates object
    and tree, [...Insert], [...Unlink], [...Remove], [...Query] prove the
    operations, [...Spec] states the guarantees: every operation keeps the
    red-black conditions and acts as on a sorted association list, scripts of
    operations refine that list, the two classes agree on scripts where their
    difference (first or last value of a key) does not show, the self-check
    decides the conditions exactly, the height is logarithmic.  Fuel is the
    number of keys plus two.  A node that leaves the tree stays in the store;
    [weak_ptr] parents are plain pointers.

    B+ tree, KV_Store/BplusTree.cpp, repeated as B+Tree/BplusTree.cpp
    ([BPlusTree]).  The splitting of an inner node is undefined behaviour or
    loses keys (findings in [BPlusTreeSpec]), so the theorems are about trees of
    at most two levels, which all insertions up to the first inner split
    produce ([deep_range_query_misses] and [deep_remove_removes_nothing] show
    what happens beyond): insertion (duplicates stay), removal of one entry, what [find]
    misses, range queries and sizes along the leaf chain, and which trees
    [validate] refuses; the six tests are run as they are written.

    LRU_with_TTL/LRUCache.cpp ([LRUCache], [LRUCacheSpec]): iterators are
    locations in a list, the clock is an argument of every operation; the cache
    refines an abstract one, keeps its capacity, and has a use after free when
    an entry expires between two clock readings.

    ThreadPool/Threadpool.cpp ([ThreadPool], [ThreadPoolInv],
    [ThreadPoolSpec]): workers, clients, mutex, condition variable with spurious
    wake-ups; mutual exclusion, every task taken in order and run once, nothing
    lost at shutdown, and no deadlock: every run that cannot go on is finished.

    atomic/LockfreeQueue.cpp ([LockfreeQueue], [LockfreeQueueInv],
    [LockfreeQueueSpec]): the Michael-Scott queue over sequentially consistent
    memory with spuriously failing compare-exchange; linearizable for values
    whose move is a copy, obstruction free.  [LockfreeTest] and
    [LockfreeTestSpec] are the test's producers, consumers and main thread on
    top of it: proved on the specification of the queue, carried over to its
    code, at the end every item has been given out once or is still linked in
    the queue, and the test can always end.

    KV_Store/simple_slab.c ([Slab], [SlabSpec]): bytes of a page, pointers as
    eight little-endian bytes; exactly which block sizes initialise without
    overrun, and that any client that keeps to its blocks sees a stack of free
    blocks.

    KV_Store/spdk_server.c ([KvServer], [KvServerSpec]): tokenizer, command
    parser and socket handlers; spdk_echo_server ([EchoServer],
    [EchoServerSpec]): the earlier server and the client, and their composition
    with either server over a connection that delivers what was sent.
    [ServerLoop] runs either server from its start through any sequence of
    accept polls, readable sockets and shutdowns: the handlers implement
    [SockHandler], and against that class the loop keeps to the protocol of the
    sockets and refines a set of clients with byte counts, while fewer than 2^31
    bytes are written in all: beyond, the counter of written bytes overflows.

    spdk_filesystem/myfs.c ([MyFs]; [MyFsKeep] properties of the
    library that all its code keeps, [MyFsFd] the descriptor table, [MyFsPoll] polling, [MyFsSpec] the
    file operations, [MyFsMain] set-up and the program, [MyFsTeardown] releasing
    files, tearing down, and creation on a device without a readable super blob;
    [MyFsScript] any sequence of hooked calls as a table of descriptors).  SPDK
    and the kernel are the class [Spdk] of calls, callbacks and functions that
    return at once; [SpdkLaws] says that a call is answered by one callback of
    its kind within a bounded number of polls, with any error code except where
    a theorem says which the super blob may have, and has a ghost trace of all
    that passes: polls, calls, callbacks with their arguments, and the functions
    of [plain], system calls among them, with their results.  Each operation's
    theorem states what passes, in order, so that an argument the code computes
    from an answer is pinned to it, and where a loop runs to its bound, how many
    polls were made.  [MyFsDevice] is an instance on which the laws hold.  The
    number of polls allowed is the code's own bound; a poll has fuel for eight
    callbacks, more than an operation can cause.

    KV_Store/kv_main.cpp ([KvMain], [KvMainSpec]) and spdk_nvme/nvme_opera.c
    ([NvmeOpera], [NvmeOperaSpec]) over the driver class [Nvme] with the laws
    [NvmeLaws], instance in [NvmeDevice]: attaching lists the active namespaces
    or never ends, and what is written is read back and printed.

    spdk_filesystem/json_config.c ([JsonConfig]): the loader that myfs.c calls
    at set-up, as handlers of SPDK's event loop over the loader's context, which
    is freed when it calls back.  [JsonConfigInv] has the plan of a
    configuration (the calls it demands, in order), the phases between events
    and runs of the loop; [JsonConfigSpec] shows that a load carries out the
    plan or a beginning of it, calls back once, and ends within a number of
    events that the configuration gives, where the connection is polite: it
    reports nothing unasked for, and error texts that fit; without that it uses
    its freed context.  [JsonLib] is the JSON and RPC library with the laws [JsonLaws], instance in [JsonDevice].
    [JsonLoader] drives a load by an event loop with bounded idle time, and
    [MyFsLoader] puts it under the file layer: what [JsonConfigSpec] shows of
    the loader discharges the laws that myfs.c relies on for the call that loads
    its configuration, so the two programs are verified as one.

    Sigleton/Singleton.cpp ([Singleton]): which object a call returns and when
    it is built.

    ** Not modelled

    SPDK, the kernel and the network are parameters with the laws above.  The
    NVMe laws are about controllers that carry out every command; mapping a
    controller's buffer twice may give the same memory.  The file layer hands
    the client's buffers on without looking at them, so they are opaque numbers,
    and the overrun of a transfer is shown by its length ([transfer_overruns]),
    not as undefined behaviour of the call.  Memory orders of the lock-free queue
    are dropped: its memory is sequentially consistent.  The cache's times are
    unbounded: a ttl is an [int] of seconds, so that adding it to a steady clock
    in nanoseconds cannot overflow before the clock shows two centuries.  A piece
    of text longer than [INT_MAX], for which snprintf fails, is treated by
    [json_write_stdout] as any other.  In [MyFsLoader] each poll handles one event of the loader, which is the slowest
    case, and a callback inside the call that starts it is the next callback of
    the same poll.  Sleeps and log output have no state; the option structures
    filled for SPDK's start functions are not looked at by the code.  B+Tree/BplusTree.cpp and
    B+Tree/temp.cpp repeat KV_Store/BplusTree.cpp and KV_Store/RBTree.cpp word
    for word.  Code that is commented out or excluded by the preprocessor (old
    versions of [main], lines 342 to 495 of myfs.c) is left out. *)
From stdpp Require Import base gmap sets list strings.
From Stdlib Require Import ZArith Lia.

Declare Scope cpp_scope.
Delimit Scope cpp_scope with cpp.

(** ** Outcomes of a C or C++ computation *)

(** The result of running code in a state: a normal return, a C++ exception,
    undefined behaviour (null or dangling dereference, out-of-bounds access),
    or the fuel of a loop running out. *)
Inductive outcome (S A : Type) : Type :=
| Ok (a : A) (s : S)
| Throw (msg : string) (s : S)
| Undef
| NoFuel.
Arguments Ok {S A} a s.
Arguments Throw {S A} msg s.
Arguments Undef {S A}.
Arguments NoFuel {S A}.

(** Code that runs in a state of type [S] and returns an [A]. *)
Definition M (S A : Type) : Type := S → outcome S A.

Definition ret {S A} (a : A) : M S A := λ s, Ok a s.

Definition bind {S A B} (m : M S A) (f : A → M S B) : M S B := λ s,
  match m s with
  | Ok a s' => f a s'
  | Throw e s' => Throw e s'
  | Undef => Undef
  | NoFuel => NoFuel
  end.

Definition throw {S A} (msg : string) : M S A := λ s, Throw msg s.
Definition catch {S A} (m : M S A) : M S (option A) := λ s,
  match m s with
  | Ok a s' => Ok (Some a) s'
  | Throw _ s' => Ok None s'
  | Undef => Undef
  | NoFuel => NoFuel
  end.
Definition undef {S A} : M S A := λ _, Undef.
Definition no_fuel {S A} : M S A := λ _, NoFuel.
Definition gets {S A} (f : S → A) : M S A := λ s, Ok (f s) s.
Definition modify {S} (f : S → S) : M S unit := λ s, Ok tt (f s).

Notation "'let*' x ':=' m 'in' k" := (bind m (λ x, k))
  (at level 10, x binder, m at level 100, k at level 200,
   format "'[v' 'let*'  x  ':='  m  'in' '//' k ']'") : cpp_scope.
Notation "m ';;' k" := (bind m (λ _ : unit, k))
  (at level 100, k at level 200, right associativity) : cpp_scope.
Notation "'when' b 'then' m" := (if b then m else ret tt)
  (at level 10, b at level 100, m at level 99) : cpp_scope.

Open Scope cpp_scope.

(** A C++ loop over local variables of type [A]: the body either asks for
    another iteration ([inl]) or leaves the loop with a result ([inr]). *)
Fixpoint loop {S A B} (fuel : nat) (body : A → M S (A + B)) (a : A) : M S B :=
  match fuel with
  | 0 => no_fuel
  | Datatypes.S n =>
      let* r := body a in
      match r with
      | inl a' => loop n body a'
      | inr b => ret b
      end
  end.

(** ** Weakest preconditions *)

(** [wp m s Q]: run from [s], [m] returns normally (no exception, no undefined
    behaviour, no exhausted fuel) and its result and final state satisfy [Q]. *)
Definition wp {S A} (m : M S A) (s : S) (Q : A → S → Prop) : Prop :=
  match m s with Ok a s' => Q a s' | _ => False end.

(** The final state of a run that returns, the initial one otherwise. *)
Definition run_state {S A} (m : M S A) (s : S) : S :=
  match m s with Ok _ s' => s' | _ => s end.
(** The result of a run that returns. *)
Definition run_result {S A} (m : M S A) (s : S) : option A :=
  match m s with Ok a _ => Some a | _ => None end.

Lemma wp_run_state {S A} (m : M S A) s (P : S → Prop) :
  wp m s (λ _ s', P s') → P (run_state m s).
Proof. unfold wp, run_state. by destruct (m s). Qed.

Lemma wp_run_result {S A} (m : M S A) s (x : A) :
  wp m s (λ r _, r = x) → run_result m s = Some x.
Proof. unfold wp, run_result. destruct (m s); [by intros ->|done..]. Qed.

Section wp_rules.
Context {S : Type}.
Implicit Types s : S.

Lemma wp_ret {A} (a : A) s (Q : A → S → Prop) : Q a s → wp (ret a) s Q.
Proof. done. Qed.

Lemma wp_bind {A B} (m : M S A) (f : A → M S B) s Q :
  wp m s (λ a s', wp (f a) s' Q) → wp (bind m f) s Q.
Proof. unfold wp, bind. by destruct (m s). Qed.

Lemma wp_bind_inv {A B} (m : M S A) (f : A → M S B) s Q :
  wp (bind m f) s Q → wp m s (λ a s', wp (f a) s' Q).
Proof. unfold wp, bind. by destruct (m s). Qed.

Lemma wp_gets {A} (f : S → A) s (Q : A → S → Prop) : Q (f s) s → wp (gets f) s Q.
Proof. done. Qed.

Lemma wp_modify (f : S → S) s (Q : unit → S → Prop) : Q tt (f s) → wp (modify f) s Q.
Proof. done. Qed.

Lemma wp_mono {A} (m : M S A) s (P Q : A → S → Prop) :
  wp m s P → (∀ a s', P a s' → Q a s') → wp m s Q.
Proof. unfold wp. destruct (m s); eauto. Qed.

Lemma wp_if {A} (b : bool) (m1 m2 : M S A) s Q :
  (b = true → wp m1 s Q) → (b = false → wp m2 s Q) →
  wp (if b then m1 else m2) s Q.
Proof. destruct b; auto. Qed.

Lemma wp_loop {A B} n (body : A → M S (A + B)) a s Q :
  wp (body a) s (λ r s', match r with
                         | inl a' => wp (loop n body a') s' Q
                         | inr b => Q b s'
                         end) →
  wp (loop (Datatypes.S n) body a) s Q.
Proof.
  intros H. simpl. apply wp_bind. eapply wp_mono; [done|].
  by intros [a'|b] s'.
Qed.

(** A [wp] is a run that returns. *)
Lemma wp_Ok {A} (m : M S A) s Q :
  wp m s Q ↔ ∃ a s', m s = Ok a s' ∧ Q a s'.
Proof.
  unfold wp. split.
  - destruct (m s); naive_solver.
  - by intros (a & s' & -> & HQ).
Qed.

(** Code that only computes a value. *)
Lemma wp_eq {A} (m : M S A) s (x : A) : wp m s (λ r s', s' = s ∧ r = x) ↔ m s = Ok x s.
Proof. rewrite wp_Ok. naive_solver. Qed.

(** The value of a pure run is used by what follows. *)
Lemma wp_pure_run {A} (m : M S A) s (x : A) Q : m s = Ok x s → Q x s → wp m s Q.
Proof. intros Hm HQ. unfold wp. by rewrite Hm. Qed.
Lemma wp_pure_run_to {A} (m : M S A) s (x : A) s' Q : m s = Ok x s' → Q x s' → wp m s Q.
Proof. intros Hm HQ. unfold wp. by rewrite Hm. Qed.
End wp_rules.

(** ** Code that may run into undefined behaviour *)

(** [wpu m s Q U]: run from [s], [m] either returns normally and [Q] holds of
    the result, or it has undefined behaviour and [U] holds; it does not throw
    and does not run out of fuel. *)
Definition wpu {S A} (m : M S A) (s : S) (Q : A → S → Prop) (U : Prop) : Prop :=
  match m s with Ok a s' => Q a s' | Undef => U | _ => False end.

Section wpu_rules.
Context {S : Type}.
Implicit Types s : S.

Lemma wpu_wp {A} (m : M S A) s Q U : wp m s Q → wpu m s Q U.
Proof. unfold wp, wpu. by destruct (m s). Qed.

Lemma wpu_bind {A B} (m : M S A) (f : A → M S B) s Q U :
  wp m s (λ a s', wpu (f a) s' Q U) → wpu (bind m f) s Q U.
Proof. unfold wp, wpu, bind. by destruct (m s). Qed.

Lemma wpu_seq {A B} (m : M S A) (f : A → M S B) s Q U :
  wpu m s (λ a s', wpu (f a) s' Q U) U → wpu (bind m f) s Q U.
Proof. unfold wpu, bind. by destruct (m s). Qed.

Lemma wpu_undef {A} s (Q : A → S → Prop) (U : Prop) : U → wpu undef s Q U.
Proof. done. Qed.

Lemma wpu_mono {A} (m : M S A) s (P Q : A → S → Prop) (U U' : Prop) :
  wpu m s P U → (∀ a s', P a s' → Q a s') → (U → U') → wpu m s Q U'.
Proof. unfold wpu. destruct (m s); auto. Qed.

Lemma wpu_if {A} (b : bool) (m1 m2 : M S A) s Q U :
  (b = true → wpu m1 s Q U) → (b = false → wpu m2 s Q U) →
  wpu (if b then m1 else m2) s Q U.
Proof. destruct b; auto. Qed.

Lemma wpu_Undef {A} (m : M S A) s (U : Prop) : wpu m s (λ _ _, False) U → m s = Undef.
Proof. unfold wpu. by destruct (m s). Qed.
End wpu_rules.

(** One administrative step of a [wp] goal, chosen by the head of the program. *)
Ltac wp_head :=
  lazymatch goal with
  | |- wp (bind _ _) _ _ => apply wp_bind
  | |- wp (ret _) _ _ => apply wp_ret
  | |- wp (gets _) _ _ => apply wp_gets
  | |- wp (modify _) _ _ => apply wp_modify
  end.
Ltac wp_pure := repeat (wp_head; cbn beta iota).

(** ** Lists *)

Section lists.
Context {A : Type}.
Implicit Types l k : list A.

Lemma NoDup_app_perm l k : NoDup (l ++ k) → NoDup (k ++ l).
Proof. by rewrite (Permutation_app_comm l k). Qed.

Lemma elem_of_mid (x : A) l k : x ∈ l ++ x :: k.
Proof. set_solver. Qed.

(** Disjointness of lists, taken apart to facts about single members. *)
Lemma disj_cons_l (x : A) l k :
  (∀ z, z ∈ x :: l → z ∉ k) → x ∉ k ∧ (∀ z, z ∈ l → z ∉ k).
Proof. set_solver. Qed.
Lemma disj_app_l (l l' k : list A) :
  (∀ z, z ∈ l ++ l' → z ∉ k) → (∀ z, z ∈ l → z ∉ k) ∧ (∀ z, z ∈ l' → z ∉ k).
Proof. set_solver. Qed.
Lemma disj_cons_r (x : A) l k :
  (∀ z, z ∈ l → z ∉ x :: k) → x ∉ l ∧ (∀ z, z ∈ l → z ∉ k).
Proof. set_solver. Qed.
Lemma disj_app_r (l k k' : list A) :
  (∀ z, z ∈ l → z ∉ k ++ k') → (∀ z, z ∈ l → z ∉ k) ∧ (∀ z, z ∈ l → z ∉ k').
Proof. set_solver. Qed.
End lists.

(** Break [NoDup] and disjointness hypotheses into facts about single members. *)
Ltac nodup_facts :=
  repeat match goal with
  | H : NoDup (_ :: _) |- _ => apply NoDup_cons in H as [? H]
  | H : NoDup (_ ++ _) |- _ => apply NoDup_app in H as (? & ? & ?)
  | H : _ ∉ _ :: _ |- _ => apply not_elem_of_cons in H as [? ?]
  | H : _ ∉ _ ++ _ |- _ => apply not_elem_of_app in H as [? ?]
  | H : ∀ z, z ∈ _ :: _ → z ∉ _ |- _ => apply disj_cons_l in H as [? H]
  | H : ∀ z, z ∈ _ ++ _ → z ∉ _ |- _ => apply disj_app_l in H as [? H]
  | H : ∀ z, z ∈ _ → z ∉ _ :: _ |- _ => apply disj_cons_r in H as [? H]
  | H : ∀ z, z ∈ _ → z ∉ _ ++ _ |- _ => apply disj_app_r in H as [? H]
  | H : _ ∉ [] |- _ => clear H
  | H : NoDup [] |- _ => clear H
  | H : ∀ z, z ∈ [] → _ |- _ => clear H
  | H : ∀ z, z ∈ _ → z ∉ [] |- _ => clear H
  end.

(** Break membership hypotheses into cases. *)
Ltac elem_cases :=
  repeat match goal with
  | H : _ ∈ [] |- _ => by apply not_elem_of_nil in H
  | H : _ ∈ _ :: _ |- _ => apply elem_of_cons in H as [H|H]
  | H : _ ∈ _ ++ _ |- _ => apply elem_of_app in H as [H|H]
  end.

(** ** Integers *)
Lemma log2_of_nat n : 0 < n → (Z.of_nat (Nat.log2 n) ≤ Z.log2 (Z.of_nat n))%Z.
Proof.
  intros Hn. apply Z.log2_le_pow2; [lia|].
  pose proof (proj1 (Nat.log2_spec n Hn)) as Hp. apply inj_le in Hp.
  by rewrite Nat2Z.inj_pow in Hp.
Qed.
