(* ===== verification/Random.v ===== *)
(** * std::mt19937

    The generator of the standard library: 624 words of 32 bits, the next word
    from the first, the second and the 398th, tempered on the way out.  The
    library fills the words in blocks; one at a time gives the same numbers. *)
From stdpp Require Import base list.
From S2P Require Import Prelude.

Definition MT_N : nat := 624.
Definition MT_M : nat := 397.
Definition word (z : Z) : Z := (z mod 2 ^ 32)%Z.

(** The last words, the oldest first. *)
Definition mt19937 : Type := list Z.

Fixpoint mt_fill (n : nat) (i x : Z) : mt19937 :=
  match n with
  | 0 => []
  | S n => x :: mt_fill n (i + 1) (word (1812433253 * Z.lxor x (Z.shiftr x 30) + (i + 1)))
  end.
(** The constructor with a seed. *)
Definition mt_seed (seed : Z) : mt19937 := mt_fill MT_N 0 (word seed).

Definition mt_twist (x y z : Z) : Z :=
  let w := Z.lor (Z.land x 0x80000000) (Z.land y 0x7fffffff) in
  Z.lxor z (Z.lxor (Z.shiftr w 1) (if Z.odd w then 0x9908b0df else 0)).
Definition mt_temper (y : Z) : Z :=
  let y := Z.lxor y (Z.shiftr y 11) in
  let y := Z.lxor y (Z.land (word (Z.shiftl y 7)) 0x9d2c5680) in
  let y := Z.lxor y (Z.land (word (Z.shiftl y 15)) 0xefc60000) in
  Z.lxor y (Z.shiftr y 18).

(** [operator()] *)
Definition mt_next (g : mt19937) : Z * mt19937 :=
  match g with
  | x :: (y :: _) as r =>
      let z := mt_twist x y (nth MT_M g 0%Z) in (mt_temper z, r ++ [z])
  | _ => (0%Z, g)
  end.

Fixpoint mt_discard (n : nat) (g : mt19937) : mt19937 :=
  match n with 0 => g | S n => mt_discard n (mt_next g).2 end.

(** The number the C++ standard demands: the 10000th of the default seed. *)
Example mt_10000th : (mt_next (mt_discard (Pos.to_nat 9999) (mt_seed 5489))).1 = 4123659995%Z.
Proof. vm_compute. reflexivity. Qed.
