(* ===== verification/OrderedMap.v ===== *)
(** * Ordered keys and sorted association lists

    The abstract specification of the tree components: a key type with the
    total order the templates require of [operator<], and the map from keys to
    values as the association list sorted by key.  [al_find], [al_put] and
    [al_del] are the abstract look-up, insertion and removal; their laws are
    the map laws. *)
From stdpp Require Import base list.
From S2P Require Import Prelude.

(** What the templates ask of their key type: [operator<] is a strict total
    order, [operator>] its converse and [operator==] equality. *)
Class KeyOrder (K : Type) := {
  key_eq_dec :: EqDecision K;
  key_ltb : K → K → bool;
  key_irrefl : ∀ k, key_ltb k k = false;
  key_trans : ∀ a b c,
    key_ltb a b = true → key_ltb b c = true → key_ltb a c = true;
  key_total : ∀ a b, key_ltb a b = false → key_ltb b a = false → a = b;
}.

#[export] Instance Z_key_order : KeyOrder Z.
Proof.
  refine {| key_ltb := Z.ltb |}.
  - apply Z.ltb_irrefl.
  - intros a b c ?%Z.ltb_lt ?%Z.ltb_lt. apply Z.ltb_lt. lia.
  - intros a b ?%Z.ltb_ge ?%Z.ltb_ge. lia.
Defined.

Definition klt `{KeyOrder K} (a b : K) : Prop := key_ltb a b = true.
Definition key_gtb `{KeyOrder K} (a b : K) : bool := key_ltb b a.
Definition key_eqb `{KeyOrder K} (a b : K) : bool := bool_decide (a = b).

Notation "a '<ₖ' b" := (klt a b) (at level 70) : cpp_scope.

(** The association list is the abstract value of a tree. *)
Section alist.
Context `{KeyOrder K} {V : Type}.
Implicit Types (k : K) (v : V) (l : list (K * V)).

Fixpoint al_find k l : option V :=
  match l with
  | [] => None
  | (k', v) :: l' => if key_eqb k k' then Some v else al_find k l'
  end.

Fixpoint al_put k v l : list (K * V) :=
  match l with
  | [] => [(k, v)]
  | (k', v') :: l' =>
      if key_ltb k k' then (k, v) :: l
      else if key_ltb k' k then (k', v') :: al_put k v l'
      else (k, v) :: l'
  end.

Fixpoint al_del k l : list (K * V) :=
  match l with
  | [] => []
  | (k', v') :: l' => if key_eqb k k' then l' else (k', v') :: al_del k l'
  end.

(** Every key of [l] is below (above) [k]. *)
Definition all_lt l k : Prop := Forall (λ p, p.1 <ₖ k) l.
Definition all_gt k l : Prop := Forall (λ p, k <ₖ p.1) l.

Fixpoint ksorted l : Prop :=
  match l with
  | [] => True
  | (k, _) :: l' => all_gt k l' ∧ ksorted l'
  end.
End alist.

Section order_facts.
Context `{KeyOrder K}.
Implicit Types a b c k : K.

Lemma klt_irrefl k : ¬ k <ₖ k.
Proof. unfold klt. by rewrite key_irrefl. Qed.

Lemma klt_trans a b c : a <ₖ b → b <ₖ c → a <ₖ c.
Proof. apply key_trans. Qed.

Lemma klt_asym a b : a <ₖ b → ¬ b <ₖ a.
Proof. intros ? ?. apply (klt_irrefl a). by eapply klt_trans. Qed.

Lemma klt_ne a b : a <ₖ b → a ≠ b.
Proof. intros Hl ->. by apply klt_irrefl in Hl. Qed.

Lemma key_ltb_false a b : key_ltb a b = false ↔ a = b ∨ b <ₖ a.
Proof.
  split.
  - intros Hab. destruct (key_ltb b a) eqn:Hba; [by right|left].
    by apply key_total.
  - intros [->|Hba]; [apply key_irrefl|].
    destruct (key_ltb a b) eqn:Hab; [|done]. by apply klt_asym in Hba.
Qed.

Lemma key_eqb_true a b : key_eqb a b = true ↔ a = b.
Proof. apply bool_decide_eq_true. Qed.
Lemma key_eqb_false a b : key_eqb a b = false ↔ a ≠ b.
Proof. apply bool_decide_eq_false. Qed.
Lemma key_eqb_refl a : key_eqb a a = true.
Proof. by apply key_eqb_true. Qed.

Lemma klt_ltb a b : a <ₖ b → key_ltb a b = true.
Proof. done. Qed.
Lemma klt_ltb_rev a b : a <ₖ b → key_ltb b a = false.
Proof. intros. apply key_ltb_false. by right. Qed.
Lemma klt_eqb a b : a <ₖ b → key_eqb a b = false.
Proof. intros. apply key_eqb_false. by apply klt_ne. Qed.
Lemma klt_eqb_rev a b : a <ₖ b → key_eqb b a = false.
Proof. intros ?%klt_ne. by apply key_eqb_false. Qed.
End order_facts.

Create HintDb keys.
#[export] Hint Resolve klt_trans klt_ne : keys.

(** Split on the three-way comparison the code makes of two keys. *)
Tactic Notation "key_case" constr(a) constr(b) :=
  let H := fresh "Hab" in let H' := fresh "Hba" in
  destruct (key_ltb a b) eqn:H;
  [change (a <ₖ b) in H
  |destruct (key_ltb b a) eqn:H';
   [change (b <ₖ a) in H'|pose proof (key_total a b H H'); subst a]].

Section alist_facts.
Context `{KeyOrder K} {V : Type}.
Implicit Types (k : K) (v : V) (l : list (K * V)).

Lemma all_lt_app l1 l2 k : all_lt (l1 ++ l2) k ↔ all_lt l1 k ∧ all_lt l2 k.
Proof. apply Forall_app. Qed.
Lemma all_gt_app l1 l2 k : all_gt k (l1 ++ l2) ↔ all_gt k l1 ∧ all_gt k l2.
Proof. apply Forall_app. Qed.
Lemma all_gt_trans k k' l : k <ₖ k' → all_gt k' l → all_gt k l.
Proof.
  intros Hk Hl. eapply Forall_impl; [exact Hl|]. intros [a b] ?; simpl in *.
  by eapply klt_trans.
Qed.
Lemma all_lt_trans k k' l : k <ₖ k' → all_lt l k → all_lt l k'.
Proof.
  intros Hk Hl. eapply Forall_impl; [exact Hl|]. intros [a b] ?; simpl in *.
  by eapply klt_trans.
Qed.

Lemma ksorted_app l1 l2 :
  ksorted (l1 ++ l2) ↔
  ksorted l1 ∧ ksorted l2 ∧ Forall (λ p, all_gt p.1 l2) l1.
Proof.
  induction l1 as [|[k v] l1 IH]; simpl.
  - split; [intros ?; repeat split; [done|constructor]|naive_solver].
  - rewrite IH, all_gt_app, Forall_cons. simpl. tauto.
Qed.

Lemma ksorted_mid l1 k v l2 :
  ksorted (l1 ++ (k, v) :: l2) ↔
  ksorted l1 ∧ ksorted l2 ∧ all_lt l1 k ∧ all_gt k l2.
Proof.
  rewrite ksorted_app. simpl. unfold all_gt at 2. split.
  - intros (? & (? & ?) & Hf). split_and!; [done..| |done].
    eapply Forall_impl; [exact Hf|]. intros p Hp. by apply Forall_cons in Hp as [? _].
  - intros (? & ? & Hlt & Hgt). split_and!; [done..|].
    eapply Forall_impl; [exact Hlt|]. intros [k' v'] Hk; simpl in *.
    apply Forall_cons. split; [done|]. by eapply all_gt_trans.
Qed.

Lemma all_gt_find k l : all_gt k l → al_find k l = None.
Proof.
  induction l as [|[k' v] l IH]; [done|]. intros [Hk Hl]%Forall_cons; simpl in *.
  rewrite klt_eqb by done. by apply IH.
Qed.

(** Look-up, insertion and removal at a split point of a sorted list. *)
Lemma al_find_app k l1 l2 : all_lt l1 k → al_find k (l1 ++ l2) = al_find k l2.
Proof.
  induction l1 as [|[k' v] l1 IH]; [done|]. intros [Hk Hl]%Forall_cons; simpl in *.
  rewrite klt_eqb_rev by done. by apply IH.
Qed.

Lemma al_find_mid k v l1 l2 :
  all_lt l1 k → al_find k (l1 ++ (k, v) :: l2) = Some v.
Proof. intros. rewrite al_find_app by done. simpl. by rewrite key_eqb_refl. Qed.

Lemma al_find_split k l1 l2 :
  all_lt l1 k → all_gt k l2 → al_find k (l1 ++ l2) = None.
Proof. intros. rewrite al_find_app by done. by apply all_gt_find. Qed.

Lemma al_put_app k v l1 l2 :
  all_lt l1 k → al_put k v (l1 ++ l2) = l1 ++ al_put k v l2.
Proof.
  induction l1 as [|[k' v'] l1 IH]; [done|]. intros [Hk Hl]%Forall_cons; simpl in *.
  rewrite klt_ltb_rev, klt_ltb by done. f_equal. by apply IH.
Qed.

Lemma al_put_split k v l1 l2 :
  all_lt l1 k → all_gt k l2 → al_put k v (l1 ++ l2) = l1 ++ (k, v) :: l2.
Proof.
  intros ? Hl. rewrite al_put_app by done. f_equal.
  destruct Hl as [|[k' v'] l2 Hk]; [done|]. simpl in *. by rewrite klt_ltb.
Qed.

Lemma al_put_mid k v v' l1 l2 :
  all_lt l1 k → al_put k v (l1 ++ (k, v') :: l2) = l1 ++ (k, v) :: l2.
Proof. intros. rewrite al_put_app by done. simpl. by rewrite key_irrefl. Qed.

Lemma al_del_app k l1 l2 :
  all_lt l1 k → al_del k (l1 ++ l2) = l1 ++ al_del k l2.
Proof.
  induction l1 as [|[k' v'] l1 IH]; [done|]. intros [Hk Hl]%Forall_cons; simpl in *.
  rewrite klt_eqb_rev by done. f_equal. by apply IH.
Qed.

Lemma al_del_mid k v l1 l2 :
  all_lt l1 k → al_del k (l1 ++ (k, v) :: l2) = l1 ++ l2.
Proof. intros. rewrite al_del_app by done. simpl. by rewrite key_eqb_refl. Qed.

Lemma al_del_absent k l : al_find k l = None → al_del k l = l.
Proof.
  induction l as [|[k' v] l IH]; [done|]. simpl.
  destruct (key_eqb k k'); [done|]. intros. f_equal. by apply IH.
Qed.

(** The map laws. *)
Lemma al_find_put_eq k v l : al_find k (al_put k v l) = Some v.
Proof.
  induction l as [|[k' v'] l IH]; simpl; [by rewrite key_eqb_refl|].
  key_case k k'; simpl; rewrite ?key_eqb_refl; [done| |done].
  by rewrite klt_eqb_rev.
Qed.

Lemma al_find_put_ne k k' v l : k ≠ k' → al_find k (al_put k' v l) = al_find k l.
Proof.
  intros Hne. assert (key_eqb k k' = false) as E by by apply key_eqb_false.
  induction l as [|[k2 v2] l IH]; simpl; [by rewrite E|].
  key_case k' k2; simpl; rewrite ?E; [done|by rewrite IH|done].
Qed.

Lemma al_put_gt k k' v l : k <ₖ k' → all_gt k l → all_gt k (al_put k' v l).
Proof.
  intros Hk. induction l as [|[k2 v2] l IH]; simpl.
  - intros _. by constructor.
  - intros [? ?]%Forall_cons. key_case k' k2; repeat constructor; auto; by apply IH.
Qed.

Lemma ksorted_put k v l : ksorted l → ksorted (al_put k v l).
Proof.
  induction l as [|[k' v'] l IH]; simpl; [by repeat constructor|].
  intros [? ?]. key_case k k'; simpl.
  - split_and!; [|done..]. constructor; [done|]. by eapply all_gt_trans.
  - split; [by apply al_put_gt|by apply IH].
  - done.
Qed.

Lemma al_del_gt k k' l : all_gt k l → all_gt k (al_del k' l).
Proof.
  induction l as [|[k2 v2] l IH]; simpl; [done|].
  intros [? ?]%Forall_cons. destruct (key_eqb k' k2); [done|].
  constructor; [done|by apply IH].
Qed.

Lemma ksorted_del k l : ksorted l → ksorted (al_del k l).
Proof.
  induction l as [|[k' v'] l IH]; simpl; [done|].
  intros [? ?]. destruct (key_eqb k k'); [done|]. split; [by apply al_del_gt|by apply IH].
Qed.

Lemma al_find_del_eq k l : ksorted l → al_find k (al_del k l) = None.
Proof.
  induction l as [|[k' v'] l IH]; simpl; [done|]. intros [Hgt ?].
  destruct (key_eqb k k') eqn:E; simpl.
  - apply key_eqb_true in E as ->. by apply all_gt_find.
  - rewrite E. by apply IH.
Qed.

Lemma al_find_del_ne k k' l : k ≠ k' → al_find k (al_del k' l) = al_find k l.
Proof.
  intros Hne. induction l as [|[k2 v2] l IH]; simpl; [done|].
  destruct (key_eqb k' k2) eqn:E; simpl.
  - apply key_eqb_true in E as ->. by apply key_eqb_false in Hne as ->.
  - by rewrite IH.
Qed.

Lemma al_put_same k v l : ksorted l → al_find k l = Some v → al_put k v l = l.
Proof.
  induction l as [|[k' v'] l IH]; simpl; [done|]. intros [Hgt Hl].
  key_case k k'; simpl.
  - rewrite klt_eqb by done. by rewrite all_gt_find by by eapply all_gt_trans.
  - rewrite klt_eqb_rev by done. intros. f_equal. by apply IH.
  - rewrite key_eqb_refl. congruence.
Qed.

Lemma length_del k l :
  length (al_del k l) =
    match al_find k l with Some _ => length l - 1 | None => length l end.
Proof.
  induction l as [|[k' v'] l IH]; simpl; [done|].
  destruct (key_eqb k k'); simpl; [lia|]. rewrite IH.
  destruct (al_find k l) eqn:Hf; [|done]. destruct l; [done|]. simpl. lia.
Qed.

Lemma length_put k v l :
  ksorted l →
  length (al_put k v l) =
    match al_find k l with Some _ => length l | None => S (length l) end.
Proof.
  induction l as [|[k' v'] l IH]; simpl; [done|]. intros [Hgt Hl].
  key_case k k'; simpl.
  - rewrite klt_eqb by done. rewrite all_gt_find; [done|]. by eapply all_gt_trans.
  - rewrite klt_eqb_rev, IH by done. by destruct (al_find k l).
  - by rewrite key_eqb_refl.
Qed.
End alist_facts.

#[export] Hint Resolve ksorted_put ksorted_del : keys.
