(* ===== verification/Dictionary.v ===== *)
(** * What a tree promises its clients

    [OrderedDict] lists the operations a client of either red-black tree uses,
    [OrderedDictLaws] what they promise: the object stands for a sorted
    association list, and each operation acts on that list.  A client program,
    a script of dictionary commands, is verified once, against the interface;
    [RBTreeSpec] and [KvRBTreeSpec] show that the two trees provide it. *)
From stdpp Require Import base list.
From S2P Require Import Prelude OrderedMap.

(** The first argument is the fuel of the loops; [od_clash v0 v] is the value
    an insertion of [v] leaves when the key already holds [v0]. *)
Class OrderedDict (K V S : Type) := {
  od_insert : nat → K → V → M S unit;
  od_remove : nat → K → M S unit;
  od_find : nat → K → M S (option V);
  od_clash : V → V → V
}.

(** The abstract insertion. *)
Definition al_upd `{KeyOrder K} {V} (clash : V → V → V) (k : K) (v : V) (m : list (K * V))
  : list (K * V) :=
  al_put k (match al_find k m with Some v0 => clash v0 v | None => v end) m.

Class OrderedDictLaws (K V S : Type) `{KeyOrder K} `{!OrderedDict K V S}
    (models : S → list (K * V) → Prop) := {
  od_sorted s m : models s m → ksorted m;
  od_insert_ok fuel k v s m : models s m → length m + 2 ≤ fuel →
    wp (od_insert fuel k v) s (λ _ s', models s' (al_upd od_clash k v m));
  od_remove_ok fuel k s m : models s m → length m + 2 ≤ fuel →
    wp (od_remove fuel k) s (λ _ s', models s' (al_del k m));
  od_find_ok fuel k s m : models s m → length m + 2 ≤ fuel →
    od_find fuel k s = Ok (al_find k m) s
}.

(** ** A client: scripts of commands *)
Inductive command (K V : Type) :=
| Insert (k : K) (v : V)
| Remove (k : K)
| Find (k : K).
Arguments Insert {K V} k v.
Arguments Remove {K V} k.
Arguments Find {K V} k.

Section client.
Context {K V S : Type} `{KeyOrder K} `{!OrderedDict K V S}.

(** Run a script; the answers of its look-ups in order. *)
Fixpoint run_script (fuel : nat) (cs : list (command K V)) : M S (list (option V)) :=
  match cs with
  | [] => ret []
  | Insert k v :: cs' => od_insert fuel k v ;; run_script fuel cs'
  | Remove k :: cs' => od_remove fuel k ;; run_script fuel cs'
  | Find k :: cs' =>
      let* r := od_find fuel k in
      let* rs := run_script fuel cs' in
      ret (r :: rs)
  end.
End client.

Section client_spec.
Context {K V : Type} `{KeyOrder K}.
Implicit Types (m : list (K * V)) (cs : list (command K V)).

(** The same on association lists. *)
Fixpoint script_spec (clash : V → V → V) m cs : list (K * V) * list (option V) :=
  match cs with
  | [] => (m, [])
  | Insert k v :: cs' => script_spec clash (al_upd clash k v m) cs'
  | Remove k :: cs' => script_spec clash (al_del k m) cs'
  | Find k :: cs' =>
      let '(m', rs) := script_spec clash m cs' in (m', al_find k m :: rs)
  end.

(** A script that never inserts a key that is present. *)
Fixpoint no_clash m cs : bool :=
  match cs with
  | [] => true
  | Insert k v :: cs' => bool_decide (al_find k m = None) && no_clash (al_put k v m) cs'
  | Remove k :: cs' => no_clash (al_del k m) cs'
  | Find _ :: cs' => no_clash m cs'
  end.

Lemma al_upd_new clash k v m : al_find k m = None → al_upd clash k v m = al_put k v m.
Proof. unfold al_upd. by intros ->. Qed.

Lemma length_upd clash k v m : ksorted m → length (al_upd clash k v m) ≤ S (length m).
Proof. intros. unfold al_upd. rewrite length_put by done. destruct (al_find k m); lia. Qed.

Lemma length_del_le k m : length (al_del k m) ≤ length m.
Proof. rewrite length_del. destruct (al_find k m); lia. Qed.

(** Without clashes the policy does not matter. *)
Lemma script_spec_clash c1 c2 m cs :
  no_clash m cs = true → script_spec c1 m cs = script_spec c2 m cs.
Proof.
  revert m. induction cs as [|[k v|k|k] cs IH]; intros m; simpl; [done|..].
  - intros [Hk%bool_decide_eq_true Hc]%andb_true_iff. rewrite !al_upd_new by done. by apply IH.
  - apply IH.
  - intros Hc. by rewrite (IH m Hc).
Qed.
End client_spec.

Section client_proof.
Context {K V S : Type} `{KeyOrder K} `{!OrderedDict K V S}
  (models : S → list (K * V) → Prop) `{!OrderedDictLaws K V S models}.
Implicit Types (m : list (K * V)) (cs : list (command K V)).

(** A script run on any dictionary gives the answers, and leaves the
    contents, that the association list gives. *)
Lemma run_script_models fuel s m cs :
  models s m → length m + length cs + 2 ≤ fuel →
  wp (run_script fuel cs) s (λ rs s',
    models s' (script_spec od_clash m cs).1 ∧ rs = (script_spec od_clash m cs).2).
Proof.
  revert s m. induction cs as [|[k v|k|k] cs IH]; intros s m Hm Hf; simpl in Hf; simpl.
  - by apply wp_ret.
  - apply wp_bind. eapply wp_mono; [apply od_insert_ok; [exact Hm|lia]|].
    intros [] s' Hm'. apply IH; [done|].
    pose proof (length_upd od_clash k v m (od_sorted _ _ Hm)). lia.
  - apply wp_bind. eapply wp_mono; [apply od_remove_ok; [exact Hm|lia]|].
    intros [] s' Hm'. apply IH; [done|]. pose proof (length_del_le k m). lia.
  - apply wp_bind. eapply wp_pure_run; [apply od_find_ok; [exact Hm|lia]|].
    apply wp_bind. eapply wp_mono; [apply IH; [exact Hm|lia]|].
    intros rs s'. destruct (script_spec od_clash m cs) as [m' rs'].
    intros [? ->]. by apply wp_ret.
Qed.
End client_proof.
