(* ===== verification/RBTheory.v ===== *)
(** * Red-black trees: the functional algorithm and its correctness

    The pure counterpart of the two pointer implementations.  A [tree] carries
    at every node the heap location of its C++ node, so a tree determines the
    whole pointer structure; a [frame] list is the path from a node up to the
    root (a zipper), which is what following [parent] pointers walks.

    [zsearch] descends to a key, [ins_fix] and [del_fix] are the two repair
    loops, one zipper step per iteration of the C++ loop; [tree_insert] and
    [tree_remove] put them together.  The theorems: the repair loops terminate,
    re-establish the red-black properties and keep the in-order contents; a
    tree of [n] nodes is at most [2 * log2 (n + 1)] high. *)
From stdpp Require Import base list.
From S2P Require Import Prelude OrderedMap.

Inductive Color := RED | BLACK.
#[export] Instance Color_eq_dec : EqDecision Color.
Proof. solve_decision. Defined.

Abbreviation loc := positive.

Section tree_defs.
Context {K V : Type}.

Inductive tree :=
| E
| T (c : Color) (l : loc) (k : K) (v : V) (a b : tree).

(** The mirrored branches of the code are one definition over a side. *)
Inductive side := Left | Right.
Definition opp (d : side) : side := match d with Left => Right | Right => Left end.

(** A node whose child on side [d] is [near] and whose other child is [far]. *)
Definition mk (d : side) c l k v (near far : tree) : tree :=
  match d with Left => T c l k v near far | Right => T c l k v far near end.

(** One step of the path upwards: the parent node, the side the hole is on,
    and the parent's other subtree. *)
Record frame := Frame {
  f_side : side;
  f_color : Color;
  f_loc : loc;
  f_key : K;
  f_val : V;
  f_sib : tree
}.

Definition fill (f : frame) (t : tree) : tree :=
  mk (f_side f) (f_color f) (f_loc f) (f_key f) (f_val f) t (f_sib f).

(** The whole tree around a subtree; the innermost frame comes first. *)
Fixpoint plug (ctx : list frame) (t : tree) : tree :=
  match ctx with [] => t | f :: ctx' => plug ctx' (fill f t) end.

Definition color (t : tree) : Color := match t with E => BLACK | T c _ _ _ _ _ => c end.
Definition paint (c : Color) (t : tree) : tree :=
  match t with E => E | T _ l k v a b => T c l k v a b end.

Fixpoint elems (t : tree) : list (K * V) :=
  match t with E => [] | T _ _ k v a b => elems a ++ (k, v) :: elems b end.
Fixpoint locs (t : tree) : list loc :=
  match t with E => [] | T _ l _ _ a b => l :: locs a ++ locs b end.
Fixpoint tsize (t : tree) : nat :=
  match t with E => 0 | T _ _ _ _ a b => S (tsize a + tsize b) end.
Fixpoint theight (t : tree) : nat :=
  match t with E => 0 | T _ _ _ _ a b => S (Nat.max (theight a) (theight b)) end.

(** The contents to the left and to the right of the hole. *)
Fixpoint cleft (ctx : list frame) : list (K * V) :=
  match ctx with
  | [] => []
  | f :: ctx' =>
      match f_side f with
      | Left => cleft ctx'
      | Right => cleft ctx' ++ elems (f_sib f) ++ [(f_key f, f_val f)]
      end
  end.
Fixpoint cright (ctx : list frame) : list (K * V) :=
  match ctx with
  | [] => []
  | f :: ctx' =>
      match f_side f with
      | Left => (f_key f, f_val f) :: elems (f_sib f) ++ cright ctx'
      | Right => cright ctx'
      end
  end.

(** ** The red-black properties *)

(** [rbt n t]: no red node has a red child and every path to a leaf passes
    [n] black nodes. *)
Fixpoint rbt (n : nat) (t : tree) : Prop :=
  match t with
  | E => n = 0
  | T RED _ _ _ a b => rbt n a ∧ rbt n b ∧ color a = BLACK ∧ color b = BLACK
  | T BLACK _ _ _ a b => ∃ m, n = S m ∧ rbt m a ∧ rbt m b
  end.

Definition tree_ok (t : tree) : Prop := color t = BLACK ∧ ∃ n, rbt n t.

(** The same for a path: the hole expects a subtree of black height [n]. *)
Definition top_black (ctx : list frame) : Prop :=
  match ctx with [] => False | f :: _ => f_color f = BLACK end.
Fixpoint cwf (n : nat) (ctx : list frame) : Prop :=
  match ctx with
  | [] => True
  | f :: ctx' =>
      rbt n (f_sib f) ∧
      match f_color f with
      | BLACK => cwf (S n) ctx'
      | RED => color (f_sib f) = BLACK ∧ top_black ctx' ∧ cwf n ctx'
      end
  end.
Definition fits (ctx : list frame) (t : tree) : Prop :=
  match ctx with
  | [] => color t = BLACK
  | f :: _ => f_color f = RED → color t = BLACK
  end.

(** ** Repair after an insertion: the focus [t] is red *)
Fixpoint ins_fix (ctx : list frame) (t : tree) : tree :=
  match ctx with
  | [] => paint BLACK t
  | Frame dp BLACK p pk pv ps :: rest =>
      paint BLACK (plug (Frame dp BLACK p pk pv ps :: rest) t)
  | Frame dp RED p pk pv ps :: [] =>
      paint BLACK (plug [Frame dp RED p pk pv ps] t)
  | Frame dp RED p pk pv ps :: Frame dg gc g gk gv u :: rest =>
      if decide (color u = RED) then
        ins_fix rest
          (mk dg RED g gk gv (mk dp BLACK p pk pv t ps) (paint BLACK u))
      else
        match dp, dg, t with
        | Left, Right, T _ z zk zv t1 t2 =>
            paint BLACK (plug rest
              (T BLACK z zk zv (T RED g gk gv u t1) (T RED p pk pv t2 ps)))
        | Right, Left, T _ z zk zv t1 t2 =>
            paint BLACK (plug rest
              (T BLACK z zk zv (T RED p pk pv ps t1) (T RED g gk gv t2 u)))
        | _, _, _ =>
            paint BLACK (plug rest
              (mk dg BLACK p pk pv t (mk dg RED g gk gv ps u)))
        end
  end.

(** ** Repair after a removal: the focus [t] lacks one black node *)

(** Cases 2 to 4, for a black sibling [w]: [inl] goes round the loop again,
    [inr] is the repaired tree. *)
Definition del_step (p : frame) (rest : list frame) (t : tree)
  : option ((list frame * tree) + tree) :=
  let d := f_side p in
  match f_sib p with
  | E => None
  | T _ w wk wv wl wr =>
      let near := match d with Left => wl | Right => wr end in
      let far := match d with Left => wr | Right => wl end in
      if decide (color near = BLACK ∧ color far = BLACK) then
        Some (inl (rest, mk d (f_color p) (f_loc p) (f_key p) (f_val p) t
                           (T RED w wk wv wl wr)))
      else if decide (color far = BLACK) then
        match near with
        | E => None
        | T _ n nk nv nl nr =>
            let n1 := match d with Left => nl | Right => nr end in
            let n2 := match d with Left => nr | Right => nl end in
            Some (inr (plug rest
              (mk d (f_color p) n nk nv
                 (mk d BLACK (f_loc p) (f_key p) (f_val p) t n1)
                 (mk d BLACK w wk wv n2 far))))
        end
      else
        Some (inr (plug rest
          (mk d (f_color p) w wk wv
             (mk d BLACK (f_loc p) (f_key p) (f_val p) t near)
             (paint BLACK far))))
  end.

Definition with_color (c : Color) (f : frame) : frame :=
  Frame (f_side f) c (f_loc f) (f_key f) (f_val f) (f_sib f).
Definition with_sib (s : tree) (f : frame) : frame :=
  Frame (f_side f) (f_color f) (f_loc f) (f_key f) (f_val f) s.

(** Case 1, a red sibling: rotate it above the parent, and go on with the
    parent's new sibling. *)
Definition del_case1 (p : frame) (rest : list frame) : frame * list frame :=
  match f_sib p with
  | T RED w wk wv wl wr =>
      let d := f_side p in
      let near := match d with Left => wl | Right => wr end in
      let far := match d with Left => wr | Right => wl end in
      (Frame d RED (f_loc p) (f_key p) (f_val p) near,
       Frame d BLACK w wk wv far :: rest)
  | _ => (p, rest)
  end.

Fixpoint del_fix (fuel : nat) (ctx : list frame) (t : tree) : option tree :=
  match fuel with
  | 0 => None
  | S fuel' =>
      match ctx with
      | [] => Some (paint BLACK t)
      | p :: rest =>
          if decide (color t = RED) then Some (plug ctx (paint BLACK t))
          else
            let '(p', rest') := del_case1 p rest in
            match del_step p' rest' t with
            | Some (inl (ctx', t')) => del_fix fuel' ctx' t'
            | Some (inr t') => Some (paint BLACK t')
            | None => None
            end
      end
  end.
End tree_defs.
Arguments tree : clear implicits.
Arguments frame : clear implicits.

Section search_defs.
Context `{KeyOrder K} {V : Type}.

(** Descend from the focus towards key [k]. *)
Fixpoint zsearch (k : K) (ctx : list (frame K V)) (t : tree K V)
  : list (frame K V) * tree K V :=
  match t with
  | E => (ctx, E)
  | T c l k' v a b =>
      if key_ltb k k' then zsearch k (Frame Left c l k' v b :: ctx) a
      else if key_ltb k' k then zsearch k (Frame Right c l k' v a :: ctx) b
      else (ctx, t)
  end.

(** The path to the leftmost node, innermost first, with that node. *)
Fixpoint zmin (ctx : list (frame K V)) c l k v (a b : tree K V)
  : list (frame K V) * (Color * loc * K * V * tree K V) :=
  match a with
  | E => (ctx, (c, l, k, v, b))
  | T c' l' k' v' a' b' => zmin (Frame Left c l k v b :: ctx) c' l' k' v' a' b'
  end.

(** Hang a new red node at the hole and repair. *)
Definition tree_insert (ctx : list (frame K V)) (l : loc) (k : K) (v : V) : tree K V :=
  ins_fix ctx (T RED l k v E E).

(** Unlink a node: the colour that left the tree, the path to the subtree
    that took the place of the unlinked node, and that subtree. *)
Definition splice (ctx : list (frame K V)) (c : Color) (a b : tree K V)
  : Color * list (frame K V) * tree K V :=
  match a, b with
  | E, _ => (c, ctx, b)
  | _, E => (c, ctx, a)
  | _, T c' l' k' v' a' b' =>
      let '(path, (cy, y, ky, vy, xr)) := zmin [] c' l' k' v' a' b' in
      (cy, path ++ Frame Right c y ky vy a :: ctx, xr)
  end.

Definition tree_remove (fuel : nat) (ctx : list (frame K V)) (c : Color)
    (a b : tree K V) : option (tree K V) :=
  let '(cy, ctx', x) := splice ctx c a b in
  if decide (cy = BLACK) then del_fix fuel ctx' x else Some (plug ctx' x).
End search_defs.

(** ** Contents *)
Section contents.
Context {K V : Type}.
Implicit Types (t a b : tree K V) (f : frame K V) (ctx : list (frame K V)).

Lemma plug_app (c1 c2 : list (frame K V)) t : plug (c1 ++ c2) t = plug c2 (plug c1 t).
Proof. revert t. induction c1; simpl; auto. Qed.

Lemma plug_ne ctx t : t ≠ E → plug ctx t ≠ E.
Proof.
  revert t. induction ctx as [|f ctx IH]; intros t ?; [done|]. simpl. apply IH.
  unfold fill. by destruct (f_side f).
Qed.

Lemma elems_paint c t : elems (paint c t) = elems t.
Proof. by destruct t. Qed.
Lemma color_paint c t : t ≠ E → color (paint c t) = c.
Proof. by destruct t. Qed.

Lemma elems_plug ctx t : elems (plug ctx t) = cleft ctx ++ elems t ++ cright ctx.
Proof.
  revert t. induction ctx as [|[[] c l k v s] ctx IH]; intros t; simpl.
  - by rewrite app_nil_r.
  - rewrite IH. simpl. by rewrite <-!app_assoc.
  - rewrite IH. simpl. by rewrite <-!app_assoc.
Qed.

Lemma cleft_app (c1 c2 : list (frame K V)) : cleft (c1 ++ c2) = cleft c2 ++ cleft c1.
Proof.
  induction c1 as [|[[] c l k v s] c1 IH]; simpl; [by rewrite app_nil_r|done|].
  by rewrite IH, <-!app_assoc.
Qed.
Lemma cright_app (c1 c2 : list (frame K V)) : cright (c1 ++ c2) = cright c1 ++ cright c2.
Proof.
  induction c1 as [|[[] c l k v s] c1 IH]; simpl; [done| |done].
  by rewrite IH, <-!app_assoc.
Qed.

(** Equal in-order contents, whatever surrounds them. *)
Lemma elems_plug_eq ctx t t' : elems t = elems t' → elems (plug ctx t) = elems (plug ctx t').
Proof. intros E. by rewrite !elems_plug, E. Qed.

Lemma tsize_elems t : tsize t = length (elems t).
Proof. induction t; simpl; [done|]. rewrite length_app; simpl. lia. Qed.
Lemma length_locs t : length (locs t) = tsize t.
Proof. induction t; simpl; [done|]. rewrite length_app; lia. Qed.
End contents.

Create HintDb rb.
#[export] Hint Resolve elems_plug_eq : rb.

(** Solve an equation between in-order contents of concrete tree shapes. *)
Ltac elems_tac :=
  repeat progress (simpl; rewrite ?elems_paint, <-?app_assoc); done.

(** ** The red-black properties *)
Section rb_facts.
Context {K V : Type}.
Implicit Types (t a b : tree K V) (f p g : frame K V) (ctx rest : list (frame K V)).

Lemma rbt_mk_black n d l k v a b : rbt (S n) (mk d BLACK l k v a b : tree K V) ↔ rbt n a ∧ rbt n b.
Proof. destruct d; simpl; naive_solver. Qed.
Lemma rbt_mk_red n d l k v a b :
  rbt n (mk d RED l k v a b : tree K V) ↔
  rbt n a ∧ rbt n b ∧ color a = BLACK ∧ color b = BLACK.
Proof. destruct d; simpl; naive_solver. Qed.
Lemma rbt_mk_black_inv n d l k v a b :
  rbt n (mk d BLACK l k v a b : tree K V) → ∃ m, n = S m ∧ rbt m a ∧ rbt m b.
Proof. destruct d; simpl; naive_solver. Qed.
Lemma color_mk d c l k v a b : color (mk d c l k v a b : tree K V) = c.
Proof. by destruct d. Qed.
Lemma elems_mk_paint d c c' l k v a b :
  elems (mk d c l k v a b : tree K V) = elems (mk d c' l k v a b).
Proof. by destruct d. Qed.

Lemma rbt_paint_black n t : rbt n t → color t = RED → rbt (S n) (paint BLACK t).
Proof. destruct t as [|[] ?????]; simpl; naive_solver. Qed.
Lemma rbt_paint_ok n t : rbt n t → tree_ok (paint BLACK t).
Proof.
  destruct t as [|[] ?????]; simpl; intros Hr.
  - split; [done|by exists n].
  - split; [done|]. exists (S n). naive_solver.
  - split; [done|by exists n].
Qed.
Lemma tree_ok_paint t : tree_ok t → tree_ok (paint BLACK t).
Proof. intros [? [n ?]]. by eapply rbt_paint_ok. Qed.

(** A tree is well formed iff the path and the focus are, and they agree. *)
Lemma tree_ok_plug ctx t :
  tree_ok (plug ctx t) ↔ ∃ n, cwf n ctx ∧ rbt n t ∧ fits ctx t.
Proof.
  revert t. induction ctx as [|[d c l k v s] ctx IH]; intros t.
  { unfold tree_ok, fits; simpl. naive_solver. }
  simpl plug. rewrite IH. unfold fill; simpl. split.
  - intros (n & Hc & Hr & Hf). destruct c.
    + apply rbt_mk_red in Hr as (? & ? & ? & ?). exists n. split_and!; try done.
      destruct ctx as [|g ctx]; simpl in *; rewrite color_mk in Hf; [done|].
      destruct (f_color g); [|done]. by specialize (Hf eq_refl).
    + apply rbt_mk_black_inv in Hr as (m & -> & ? & ?). exists m. by split_and!.
  - intros (n & (Hs & Hc) & Hr & Hf). destruct c.
    + destruct Hc as (? & Htop & ?). exists n. split_and!; [done| |].
      * apply rbt_mk_red. split_and!; auto.
      * destruct ctx as [|g ctx]; simpl in *; [done|]. by rewrite Htop.
    + exists (S n). split_and!; [done|by apply rbt_mk_black|].
      destruct ctx as [|g ctx]; simpl; by rewrite color_mk.
Qed.

Lemma tree_ok_plug_black n ctx t :
  cwf n ctx → rbt n t → color t = BLACK → tree_ok (plug ctx t).
Proof.
  intros. apply tree_ok_plug. exists n. split_and!; [done..|].
  destruct ctx; simpl; auto.
Qed.

(** The properties do not depend on the keys and values. *)
Lemma tree_ok_relabel ctx c l k v v' a b :
  tree_ok (plug ctx (T c l k v a b)) → tree_ok (plug ctx (T c l k v' a b)).
Proof.
  intros (n & ? & ? & Hf)%tree_ok_plug. apply tree_ok_plug. exists n. by split_and!.
Qed.
End rb_facts.

#[export] Hint Resolve rbt_paint_ok tree_ok_paint tree_ok_plug_black : rb.

(** ** The insertion repair *)
Section ins_fix_facts.
Context {K V : Type}.
Implicit Types (t : tree K V) (ctx rest : list (frame K V)).

(** Induction on a path two frames at a time. *)
Lemma path_ind2 (P : list (frame K V) → Prop) :
  P [] → (∀ p, P [p]) → (∀ p g rest, P rest → P (p :: g :: rest)) → ∀ ctx, P ctx.
Proof.
  intros H0 H1 H2 ctx. assert (P ctx ∧ ∀ p, P (p :: ctx)) as [? _]; [|done].
  induction ctx as [|g ctx [IH1 IH2]]; auto.
Qed.

Lemma ins_fix_elems ctx t :
  color t = RED → elems (ins_fix ctx t) = elems (plug ctx t).
Proof.
  revert t. induction ctx as [|p|p g rest IH] using path_ind2; intros t Ht.
  - apply elems_paint.
  - destruct p as [d [] ????]; apply elems_paint.
  - destruct p as [dp [] p pk pv ps]; [|apply elems_paint].
    destruct g as [dg gc g gk gv u]. cbn [ins_fix]. case_decide.
    + rewrite IH by by rewrite color_mk. cbn [plug]. apply elems_plug_eq.
      destruct dp, dg; unfold fill, mk; elems_tac.
    + destruct t as [|c z zk zv t1 t2]; [done|].
      destruct dp, dg; rewrite elems_paint; cbn [plug]; apply elems_plug_eq;
        unfold fill, mk; elems_tac.
Qed.

Lemma ins_fix_ok n ctx t :
  cwf n ctx → rbt n t → color t = RED → tree_ok (ins_fix ctx t).
Proof.
  revert n t. induction ctx as [|p|p g rest IH] using path_ind2; intros n t Hc Hr Ht.
  - by eapply rbt_paint_ok.
  - destruct p as [d [] ????]; [simpl in Hc; naive_solver|].
    apply tree_ok_paint, tree_ok_plug. by exists n.
  - destruct p as [dp [] p pk pv ps]; cycle 1.
    { apply tree_ok_paint, tree_ok_plug. by exists n. }
    destruct Hc as (Hps & Hbps & Hgb & Hu & Hc).
    destruct g as [dg gc g gk gv u]; simpl in Hgb, Hu, Hc; subst gc. simpl in Hc.
    destruct t as [|[] z zk zv t1 t2]; try done.
    destruct Hr as (? & ? & ? & ?).
    cbn [ins_fix]. case_decide as Hcu.
    + apply (IH (S n)); [done| |by rewrite color_mk].
      apply rbt_mk_red. rewrite color_mk. split_and!; [| |done|by destruct u].
      * apply rbt_mk_black. by split_and!.
      * by apply rbt_paint_black.
    + assert (color u = BLACK) by by destruct (color u).
      destruct dp, dg; apply tree_ok_paint, (tree_ok_plug_black (S n)); try done;
        simpl; exists n; split_and!; simpl; auto.
Qed.
End ins_fix_facts.

(** ** The removal repair *)
Section del_fix_facts.
Context {K V : Type}.
Implicit Types (t : tree K V) (p : frame K V) (ctx rest : list (frame K V)).

(** The focus is one black node short: painting it black if it is red makes
    up for it, otherwise its black height is one less than expected. *)
Definition short (n : nat) (t : tree K V) : Prop :=
  match color t with RED => rbt (S n) (paint BLACK t) | BLACK => rbt n t end.

Lemma rbt_short n t : rbt n t → short n t.
Proof.
  intros. unfold short. destruct (color t) eqn:?; [by apply rbt_paint_black|done].
Qed.

Lemma short_paint_ok n t : short n t → tree_ok (paint BLACK t).
Proof.
  unfold short. destruct t as [|[] ?????]; simpl; intros Hs.
  - by apply (rbt_paint_ok n E).
  - split; [done|by eexists].
  - split; [done|by eexists].
Qed.

Lemma cwf_rest m p rest t :
  cwf m (p :: rest) → color t = f_color p →
  rbt (match f_color p with RED => m | BLACK => S m end) t → tree_ok (plug rest t).
Proof.
  intros [Hs Hc] Ht Hr. apply tree_ok_plug. destruct (f_color p).
  - destruct Hc as (_ & Htop & Hc). exists m. split_and!; [done..|].
    destruct rest as [|g rest]; simpl in *; [done|intros; congruence].
  - exists (S m). split_and!; [done..|]. destruct rest; simpl; intros; congruence.
Qed.

Lemma del_case1_ok n p rest t p' rest' :
  cwf (S n) (p :: rest) → del_case1 p rest = (p', rest') →
  cwf (S n) (p' :: rest') ∧ color (f_sib p') = BLACK ∧
  elems (plug (p' :: rest') t) = elems (plug (p :: rest) t) ∧
  (f_color p' = RED ∨ p' = p ∧ rest' = rest).
Proof.
  destruct p as [d c p pk pv s]. intros Hc Hd.
  destruct s as [|[] w wk wv wl wr]; [destruct Hc; done| |injection Hd as <- <-; naive_solver].
  destruct Hc as [(Hl & Hr & Hbl & Hbr) Hc]. destruct c; [naive_solver|].
  simpl in Hl, Hr, Hbl, Hbr, Hc. unfold del_case1 in Hd; simpl in Hd.
  injection Hd as <- <-. split_and!; try done.
  - destruct d; simpl; naive_solver.
  - by destruct d.
  - cbn [plug]. apply elems_plug_eq. destruct d; unfold fill, mk; elems_tac.
  - by left.
Qed.

Lemma del_step_ok n p rest t :
  cwf (S n) (p :: rest) → color (f_sib p) = BLACK → rbt n t → color t = BLACK →
  ∃ r, del_step p rest t = Some r ∧
    match r with
    | inl (ctx', t') =>
        ctx' = rest ∧ color t' = f_color p ∧ (∃ m, cwf (S m) rest ∧ short m t') ∧
        elems (plug rest t') = elems (plug (p :: rest) t)
    | inr t' => tree_ok t' ∧ elems t' = elems (plug (p :: rest) t)
    end.
Proof.
  destruct p as [d c p pk pv s]. intros Hc Hs Hr Ht.
  assert (Hroot := λ t', cwf_rest (S n) (Frame d c p pk pv s) rest t' Hc).
  simpl in Hs, Hroot. destruct Hc as [Hw Hc]. simpl in Hw, Hc.
  destruct s as [|[] w wk wv wl wr]; [done|done|].
  destruct Hw as (m & [= <-] & Hl & Hr').
  unfold del_step; cbn [f_side f_sib f_color f_loc f_key f_val].
  case_decide as H2; [|case_decide as H3].
  - eexists; split; [done|]. split_and!; [done|apply color_mk| |].
    + exists (match c with RED => n | BLACK => S n end).
      unfold short. rewrite color_mk. destruct c.
      * split; [naive_solver|]. destruct d; simpl; naive_solver.
      * split; [naive_solver|]. apply rbt_mk_black. destruct d; simpl; naive_solver.
    + cbn [plug]. apply elems_plug_eq. destruct d; unfold fill, mk; elems_tac.
  - assert (∃ nl nr n nk nv, match d with Left => wl | Right => wr end = T RED n nk nv nl nr)
      as (x1 & x2 & x & xk & xv & En).
    { destruct d; [destruct wl as [|[] ?????]|destruct wr as [|[] ?????]];
        naive_solver. }
    destruct d; subst; (eexists; split; [done|]; split;
      [apply Hroot; [done|destruct c; simpl in *; naive_solver]
      |cbn [plug]; apply elems_plug_eq; unfold fill, mk; elems_tac]).
  - assert (color (match d with Left => wr | Right => wl end) = RED) as Hfar.
    { destruct d; [destruct (color wr)|destruct (color wl)]; naive_solver. }
    eexists; split; [done|]. split.
    + apply Hroot; [apply color_mk|]. destruct c; [apply rbt_mk_red|apply rbt_mk_black].
      * rewrite color_mk. split_and!; [apply rbt_mk_black| |done|].
        { destruct d; naive_solver. }
        { apply rbt_paint_black; [by destruct d|done]. }
        { by destruct (match d with Left => wr | Right => wl end). }
      * split; [apply rbt_mk_black; destruct d; naive_solver|].
        apply rbt_paint_black; [by destruct d|done].
    + cbn [plug]. apply elems_plug_eq. destruct d; unfold fill, mk; elems_tac.
Qed.

Lemma del_fix_red fuel n ctx t :
  cwf (S n) ctx → short n t → color t = RED → 1 ≤ fuel →
  ∃ t', del_fix fuel ctx t = Some t' ∧ tree_ok t' ∧ elems t' = elems (plug ctx t).
Proof.
  intros Hc Hs Ht Hfuel. destruct fuel as [|fuel]; [lia|].
  destruct ctx as [|p rest]; cbn [del_fix].
  - eexists; split; [done|]. split; [by eapply short_paint_ok|apply elems_paint].
  - rewrite decide_True by done. eexists; split; [done|]. split.
    + unfold short in Hs. rewrite Ht in Hs. eapply tree_ok_plug_black; [done..|].
      by apply color_paint; intros ->.
    + apply elems_plug_eq, elems_paint.
Qed.

(** With fuel for two more iterations than the path is long, the loop ends
    in a red-black tree with the same contents. *)
Lemma del_fix_ok fuel n ctx t :
  cwf (S n) ctx → short n t → length ctx + 2 ≤ fuel →
  ∃ t', del_fix fuel ctx t = Some t' ∧ tree_ok t' ∧ elems t' = elems (plug ctx t).
Proof.
  revert n ctx t. induction fuel as [|fuel IH]; intros n ctx t Hc Hs Hfuel; [lia|].
  destruct (color t) eqn:Ht; [by eapply del_fix_red; eauto; lia|].
  destruct ctx as [|p rest]; cbn [del_fix].
  { eexists; split; [done|]. split; [by eapply short_paint_ok|apply elems_paint]. }
  rewrite decide_False by congruence.
  destruct (del_case1 p rest) as [p' rest'] eqn:H1.
  destruct (del_case1_ok n p rest t _ _ Hc H1) as (Hc' & Hs' & He & Hcase).
  unfold short in Hs. rewrite Ht in Hs.
  destruct (del_step_ok n p' rest' t Hc' Hs' Hs Ht) as ([[ctx' t']|t'] & -> & Hr).
  - destruct Hr as (-> & Hct & (m & Hm & Hsm) & He'). rewrite <-He, <-He'.
    destruct Hcase as [Hred|[-> ->]]; [|eapply IH; eauto; simpl in Hfuel; lia].
    eapply del_fix_red; eauto; [congruence|simpl in Hfuel; lia].
  - destruct Hr as [Hok He']. eexists; split; [done|].
    split; [by apply tree_ok_paint|]. by rewrite elems_paint, He', He.
Qed.
End del_fix_facts.

(** ** Search *)
Section search_facts.
Context `{KeyOrder K} {V : Type}.
Implicit Types (t a b : tree K V) (ctx : list (frame K V)) (k : K) (v : V).

(** In a sorted tree the contents around a node split at its key. *)
Lemma plug_sorted ctx c l k v a b :
  ksorted (elems (plug ctx (T c l k v a b))) →
  all_lt (cleft ctx) k ∧ all_lt (elems a) k ∧
  all_gt k (elems b) ∧ all_gt k (cright ctx).
Proof.
  rewrite elems_plug. simpl. rewrite <-(app_assoc (elems a)), (app_assoc (cleft ctx)); simpl.
  intros (_ & _ & Hlt & Hgt)%ksorted_mid.
  by apply all_lt_app in Hlt as [? ?]; apply all_gt_app in Hgt as [? ?].
Qed.

Lemma zsearch_plug k ctx t ctx' t' :
  zsearch k ctx t = (ctx', t') → plug ctx' t' = plug ctx t.
Proof.
  revert ctx. induction t as [|c l k' v a IHa b IHb]; simpl; intros ctx.
  - by intros [= <- <-].
  - destruct (key_ltb k k'); [by intros ->%IHa|].
    destruct (key_ltb k' k); [by intros ->%IHb|]. by intros [= <- <-].
Qed.

Lemma zsearch_gen k ctx t ctx' t' :
  ksorted (elems (plug ctx t)) → all_lt (cleft ctx) k → all_gt k (cright ctx) →
  zsearch k ctx t = (ctx', t') →
  plug ctx' t' = plug ctx t ∧ all_lt (cleft ctx') k ∧ all_gt k (cright ctx') ∧
  match t' with E => True | T _ _ k' _ _ _ => k' = k end.
Proof.
  revert ctx. induction t as [|c l k' v a IHa b IHb]; intros ctx Hs Hl Hr Hz; simpl in Hz.
  { by injection Hz as <- <-. }
  destruct (plug_sorted _ _ _ _ _ _ _ Hs) as (? & ? & ? & ?).
  key_case k k'.
  - apply IHa in Hz; [done|done|done|]. simpl. constructor; [done|].
    apply all_gt_app. eauto using all_gt_trans.
  - apply IHb in Hz; [done|done| |done]. simpl. rewrite !all_lt_app.
    split_and!; [done|by eapply all_lt_trans|by repeat constructor].
  - by injection Hz as <- <-.
Qed.

Lemma zsearch_spec k t ctx' t' :
  ksorted (elems t) → zsearch k [] t = (ctx', t') →
  plug ctx' t' = t ∧ all_lt (cleft ctx') k ∧ all_gt k (cright ctx') ∧
  match t' with E => True | T _ _ k' _ _ _ => k' = k end.
Proof. intros Hs. by apply (zsearch_gen k []); try constructor. Qed.

(** What the search finds, in terms of the sorted contents. *)
Lemma zsearch_find k t ctx' t' :
  ksorted (elems t) → zsearch k [] t = (ctx', t') →
  al_find k (elems t) = match t' with E => None | T _ _ _ v _ _ => Some v end.
Proof.
  intros Hs Hz. destruct (zsearch_spec _ _ _ _ Hs Hz) as (Hp & Hl & Hr & Hk).
  rewrite <-Hp in Hs |- *. destruct t' as [|c l k' v a b].
  - rewrite elems_plug. simpl. by apply al_find_split.
  - subst k'. destruct (plug_sorted _ _ _ _ _ _ _ Hs) as (? & ? & ? & ?).
    rewrite elems_plug. simpl. rewrite al_find_app by done.
    rewrite <-app_assoc. by apply al_find_mid.
Qed.

Lemma zsearch_put_new k v l t ctx' :
  ksorted (elems t) → zsearch k [] t = (ctx', E) →
  elems (tree_insert ctx' l k v) = al_put k v (elems t).
Proof.
  intros Hs Hz. destruct (zsearch_spec _ _ _ _ Hs Hz) as (<- & Hl & Hr & _).
  unfold tree_insert. rewrite ins_fix_elems by done. rewrite !elems_plug. simpl.
  by rewrite al_put_split.
Qed.

Lemma zsearch_put_old k v t ctx' c l k' v' a b :
  ksorted (elems t) → zsearch k [] t = (ctx', T c l k' v' a b) →
  elems (plug ctx' (T c l k' v a b)) = al_put k v (elems t).
Proof.
  intros Hs Hz. destruct (zsearch_spec _ _ _ _ Hs Hz) as (Hp & Hl & Hr & ->).
  rewrite <-Hp in Hs |- *. destruct (plug_sorted _ _ _ _ _ _ _ Hs) as (? & ? & ? & ?).
  rewrite !elems_plug. simpl. rewrite al_put_app by done.
  rewrite <-!app_assoc. simpl. by rewrite al_put_mid.
Qed.

Lemma zsearch_del k t ctx' c l k' v' a b :
  ksorted (elems t) → zsearch k [] t = (ctx', T c l k' v' a b) →
  cleft ctx' ++ elems a ++ elems b ++ cright ctx' = al_del k (elems t).
Proof.
  intros Hs Hz. destruct (zsearch_spec _ _ _ _ Hs Hz) as (Hp & Hl & Hr & ->).
  rewrite <-Hp in Hs |- *. destruct (plug_sorted _ _ _ _ _ _ _ Hs) as (? & ? & ? & ?).
  rewrite elems_plug. simpl. rewrite al_del_app by done.
  rewrite <-!app_assoc. simpl. by rewrite al_del_mid.
Qed.

(** The side of the hole is the one the comparison with its parent gives. *)
Lemma hole_side k f ctx :
  all_lt (cleft (f :: ctx)) k → all_gt k (cright (f :: ctx)) →
  key_ltb k (f_key f) = match f_side f with Left => true | Right => false end.
Proof.
  destruct f as [[] c l k' v b]; simpl; intros Hl Hr.
  - by apply Forall_cons in Hr as [? _].
  - apply klt_ltb_rev. rewrite !all_lt_app in Hl. destruct Hl as (_ & _ & Hl).
    by apply Forall_cons in Hl as [? _].
Qed.

(** A search path is no longer than the tree is large. *)
Lemma plug_tsize ctx t : length ctx + tsize t ≤ tsize (plug ctx t).
Proof.
  revert t. induction ctx as [|[[] c l k v s] ctx IH]; intros t; simpl; [done|..];
    (etrans; [|apply IH]); simpl; lia.
Qed.
End search_facts.

(** ** Removal *)
Section remove_facts.
Context {K V : Type}.
Implicit Types (t a b : tree K V) (ctx : list (frame K V)).

Lemma zmin_plug ctx c l k v a b ctx' cy y ky vy xr :
  zmin ctx c l k v a b = (ctx', (cy, y, ky, vy, xr)) →
  plug ctx' (T cy y ky vy E xr) = plug ctx (T c l k v a b) ∧
  cleft ctx' = cleft ctx.
Proof.
  revert ctx c l k v b. induction a as [|ca la ka va aa IHa ba _]; simpl; intros ctx c l k v b.
  - by intros [= <- <- <- <- <- <-].
  - intros Hz. by apply IHa in Hz.
Qed.

(** A path to a proper descendant is not empty. *)
Lemma zmin_path ctx c l k v a b ctx' n :
  zmin ctx c l k v a b = (ctx', n) → a ≠ E → ∃ f rest, ctx' = f :: rest.
Proof.
  revert ctx c l k v b. induction a as [|ca la ka va aa IHa ba _]; [done|].
  intros ctx c l k v b Hz _. simpl in Hz. destruct aa; [|by eapply IHa].
  injection Hz as <- _. eauto.
Qed.

(** The properties of a path do not depend on what its nodes hold. *)
Lemma cwf_relabel n path d c l k v l' k' v' s ctx :
  cwf n (path ++ Frame d c l k v s :: ctx : list (frame K V)) →
  cwf n (path ++ Frame d c l' k' v' s :: ctx).
Proof.
  revert n. induction path as [|f path IH]; intros n; simpl; [done|].
  intros [Hs Hc]. split; [done|]. destruct (f_color f); [|by apply IH].
  destruct Hc as (? & Htop & ?). split_and!; [done| |by apply IH]. by destruct path.
Qed.

Lemma splice_ok ctx c l k v a b cy ctx' x :
  tree_ok (plug ctx (T c l k v a b)) → splice ctx c a b = (cy, ctx', x) →
  elems (plug ctx' x) = cleft ctx ++ elems a ++ elems b ++ cright ctx ∧
  (cy = RED → tree_ok (plug ctx' x)) ∧
  (cy = BLACK → ∃ n, cwf (S n) ctx' ∧ rbt n x).
Proof.
  intros (n & Hc & Hr & Hf)%tree_ok_plug Hsp.
  destruct a as [|ca la ka va aa ba]; [|destruct b as [|cb lb kb vb ab bb]].
  - injection Hsp as <- <- <-. rewrite elems_plug. split; [done|].
    destruct c; [|simpl in Hr; naive_solver]. destruct Hr as (? & ? & ? & ?).
    split; [|done]. intros _. by eapply tree_ok_plug_black.
  - injection Hsp as <- <- <-. rewrite elems_plug. split; [done|].
    destruct c; [|destruct Hr as (? & ? & ? & ?); split; [done|]; subst; eauto].
    destruct Hr as (? & ? & ? & ?).
    split; [|done]. intros _. by eapply tree_ok_plug_black.
  - unfold splice in Hsp.
    destruct (zmin [] cb lb kb vb ab bb) as [path [[[[cy' y] ky] vy] xr]] eqn:Hz.
    injection Hsp as <- <- <-. apply zmin_plug in Hz as [Hp Hcl]. simpl in Hp.
    assert (elems (T cb lb kb vb ab bb) = (ky, vy) :: elems xr ++ cright path) as Hb.
    { by rewrite <-Hp, elems_plug, Hcl. }
    split; [|].
    { rewrite elems_plug, cleft_app, cright_app, Hcl, Hb. simpl.
      rewrite app_nil_r. by rewrite <-!app_assoc. }
    assert (∃ m, cwf m (path ++ Frame Right c y ky vy (T ca la ka va aa ba) :: ctx) ∧
                 rbt m (T cy' y ky vy E xr)) as (m & Hcm & Hrm).
    { assert (tree_ok (plug (path ++ Frame Right c l k v (T ca la ka va aa ba) :: ctx)
                            (T cy' y ky vy E xr))) as (m & ? & ? & _)%tree_ok_plug.
      { rewrite plug_app, Hp. simpl. apply tree_ok_plug. by exists n. }
      exists m. split; [by eapply cwf_relabel|done]. }
    split; intros ->; simpl in Hrm.
    + eapply tree_ok_plug_black; naive_solver.
    + destruct Hrm as (n' & -> & ? & ?). eauto.
Qed.

(** Unlinking and repairing terminates with fuel for as many iterations as
    the tree has nodes, plus one. *)
Lemma tree_remove_ok fuel ctx c l k v a b :
  tree_ok (plug ctx (T c l k v a b)) → tsize (plug ctx (T c l k v a b)) + 1 ≤ fuel →
  ∃ t', tree_remove fuel ctx c a b = Some t' ∧ tree_ok t' ∧
        elems t' = cleft ctx ++ elems a ++ elems b ++ cright ctx.
Proof.
  intros Hok Hfuel. unfold tree_remove.
  destruct (splice ctx c a b) as [[cy ctx'] x] eqn:Hsp.
  destruct (splice_ok _ _ _ _ _ _ _ _ _ _ Hok Hsp) as (He & Hred & Hblack).
  case_decide as Hcy.
  - destruct (Hblack Hcy) as (n & Hc & Hr). rewrite <-He.
    apply del_fix_ok with n; [done|by apply rbt_short|].
    pose proof (plug_tsize ctx' x) as Hlen.
    rewrite !tsize_elems, He, !length_app in Hlen.
    rewrite tsize_elems, elems_plug, !length_app in Hfuel; simpl in Hfuel.
    rewrite length_app in Hfuel; simpl in Hfuel. lia.
  - eexists; split; [done|]. split; [|done]. apply Hred. by destruct cy.
Qed.
End remove_facts.

(** ** Height *)
Section height_facts.
Context {K V : Type}.
Implicit Types t : tree K V.

Lemma rbt_size n t : rbt n t → 2 ^ n ≤ tsize t + 1.
Proof.
  revert n. induction t as [|[] l k v a IHa b IHb]; simpl; intros n.
  - intros ->; simpl; lia.
  - intros (Ha%IHa & Hb%IHb & _). lia.
  - intros (m & -> & Ha%IHa & Hb%IHb). simpl. lia.
Qed.

Lemma rbt_height n t :
  rbt n t → theight t ≤ 2 * n + match color t with RED => 1 | BLACK => 0 end.
Proof.
  revert n. induction t as [|[] l k v a IHa b IHb]; simpl; intros n.
  - lia.
  - intros (Ha%IHa & Hb%IHb & Hca & Hcb). rewrite Hca in Ha. rewrite Hcb in Hb. lia.
  - intros (m & -> & Ha%IHa & Hb%IHb). destruct (color a), (color b); lia.
Qed.

Lemma theight_tsize t : theight t ≤ tsize t.
Proof. induction t; simpl; lia. Qed.

Lemma theight_plug (ctx : list (frame K V)) t : theight t ≤ theight (plug ctx t).
Proof.
  revert t. induction ctx as [|[[] c l k v s] ctx IH]; intros t; simpl; [done|..];
    (etrans; [|apply IH]); simpl; lia.
Qed.

Lemma tree_ok_height t : tree_ok t → theight t ≤ 2 * Nat.log2 (tsize t + 1).
Proof.
  intros (Hc & n & Hr). pose proof (rbt_height n t Hr) as Hh. rewrite Hc in Hh.
  apply rbt_size in Hr. assert (n ≤ Nat.log2 (tsize t + 1)); [|lia].
  rewrite <-(Nat.log2_pow2 n) by lia. by apply Nat.log2_le_mono.
Qed.

Lemma tree_ok_height_Z t :
  tree_ok t →
  (0 ≤ Z.of_nat (theight t) ≤ 2 * Z.log2 (Z.of_nat (length (elems t)) + 1))%Z.
Proof.
  intros Hlog%tree_ok_height. rewrite tsize_elems in Hlog.
  pose proof (log2_of_nat (length (elems t) + 1) ltac:(lia)) as Hl.
  rewrite Nat2Z.inj_add in Hl. change (Z.of_nat 1) with 1%Z in Hl.
  revert Hl Hlog. generalize (Nat.log2 (length (elems t) + 1)). lia.
Qed.
End height_facts.
