(* ===== verification/RBCheck.v ===== *)
(** * What the traversals and self-checks of a red-black tree compute

    The entries in order and by level, and the two red-black conditions as
    boolean functions; [rb_check] is shown to decide [tree_ok].  Both trees'
    read-only operations return these functions of the represented tree. *)
From stdpp Require Import base sets list.
From S2P Require Import Prelude OrderedMap RBTheory.

(** ** What the operations compute *)
Section specs.
Context {K V : Type}.
Implicit Types (t a b u : tree K V) (ctx : list (frame K V)).

(** The printed entries, in order. *)
Fixpoint ents t : list (K * V * Color) :=
  match t with E => [] | T c _ k v a b => ents a ++ (k, v, c) :: ents b end.
(** The entries after the hole of a path. *)
Fixpoint cents ctx : list (K * V * Color) :=
  match ctx with
  | [] => []
  | Frame Left c _ k v b :: ctx' => (k, v, c) :: ents b ++ cents ctx'
  | Frame Right _ _ _ _ _ :: ctx' => cents ctx'
  end.

(** The entries by depth. *)
Fixpoint zip_app {X} (p q : list (list X)) : list (list X) :=
  match p, q with
  | x :: p', y :: q' => (x ++ y) :: zip_app p' q'
  | [], _ => q
  | _, [] => p
  end.
Fixpoint levels t : list (list (K * V * Color)) :=
  match t with E => [] | T c _ k v a b => [(k, v, c)] :: zip_app (levels a) (levels b) end.

Fixpoint red_ok t : bool :=
  match t with
  | E => true
  | T c _ _ _ a b =>
      bool_decide (c = RED → color a = BLACK ∧ color b = BLACK) && (red_ok a && red_ok b)
  end.
(** The number of black nodes above each leaf, from left to right. *)
Fixpoint leaves t (n : Z) : list Z :=
  match t with
  | E => [n]
  | T c _ _ _ a b =>
      let n' := if bool_decide (c = BLACK) then (n + 1)%Z else n in
      leaves a n' ++ leaves b n'
  end.
Definition all_same (l : list Z) : bool :=
  match l with [] => true | x :: l' => forallb (λ c, bool_decide (c = x)) l' end.
(** The verdict of [verifyRBProperties]. *)
Definition rb_check t : bool :=
  bool_decide (color t = BLACK) && (red_ok t && all_same (leaves t 0)).

Lemma ents_elems t : (ents t).*1 = elems t.
Proof. induction t; simpl; [done|]. by rewrite fmap_app, fmap_cons, IHt1, IHt2. Qed.

Lemma length_ents t : length (ents t) = tsize t.
Proof. rewrite tsize_elems, <-ents_elems. by rewrite length_fmap. Qed.

(** *** [rb_check] decides the red-black properties *)
Lemma leaves_ge t n x : x ∈ leaves t n → (n ≤ x)%Z.
Proof.
  revert n. induction t as [|c l k v a IHa b IHb]; intros n; simpl.
  - intros ->%list_elem_of_singleton. lia.
  - intros [Hx%IHa|Hx%IHb]%elem_of_app; case_bool_decide; lia.
Qed.

Lemma rbt_leaves n m t : rbt n t → Forall (λ x, x = m + Z.of_nat n)%Z (leaves t m).
Proof.
  revert n m. induction t as [|[] l k v a IHa b IHb]; intros n m; simpl.
  - intros ->. constructor; [lia|done].
  - intros (? & ? & _). apply Forall_app. auto.
  - intros (n' & -> & ? & ?). apply Forall_app.
    split; (eapply Forall_impl; [eauto|]); simpl; lia.
Qed.

Lemma rbt_red_ok n t : rbt n t → red_ok t = true.
Proof.
  revert n. induction t as [|[] l k v a IHa b IHb]; intros n; simpl; [done|..].
  - intros (?%IHa & ?%IHb & ? & ?). rewrite bool_decide_eq_true_2 by done. simpl. apply andb_true_iff; eauto.
  - intros (n' & -> & ?%IHa & ?%IHb). apply andb_true_iff; eauto.
Qed.

Lemma leaves_nonempty t n : leaves t n ≠ [].
Proof. revert n. induction t; intros n; simpl; [done|]. by intros [?%IHt1 _]%app_nil. Qed.

Lemma red_ok_rbt n m t :
  red_ok t = true → Forall (λ x, x = m + Z.of_nat n)%Z (leaves t m) → rbt n t.
Proof.
  revert n m. induction t as [|c l k v a IHa b IHb]; intros n m; simpl.
  - intros _ [? _]%Forall_cons. lia.
  - rewrite !andb_true_iff, bool_decide_eq_true, Forall_app. intros (Hc & Ha & Hb) [Hla Hlb].
    destruct c; simpl in *; [naive_solver|].
    assert (1 ≤ n) as Hn.
    { destruct (leaves a (m + 1)) as [|x xs] eqn:Hx; [by apply leaves_nonempty in Hx|].
      pose proof (leaves_ge a (m + 1) x). rewrite Hx in H. apply Forall_cons in Hla as [-> _].
      assert (m + 1 ≤ m + Z.of_nat n)%Z by (apply H; set_solver). lia. }
    exists (n - 1). split; [lia|]. split; [eapply IHa|eapply IHb]; try done;
      (eapply Forall_impl; [eassumption|]); simpl; intros x Hx; rewrite Hx; lia.
Qed.

Lemma all_same_Forall l : all_same l = true ↔ ∃ n, Forall (λ x, x = n) l.
Proof.
  destruct l as [|x l]; simpl.
  - split; [by exists 0%Z|done].
  - rewrite forallb_forall. setoid_rewrite Forall_cons. setoid_rewrite Forall_forall.
    setoid_rewrite bool_decide_eq_true. setoid_rewrite list_elem_of_In. naive_solver.
Qed.

(** The self-check accepts exactly the red-black trees. *)
Lemma rb_check_spec t : rb_check t = true ↔ tree_ok t.
Proof.
  unfold rb_check, tree_ok. rewrite !andb_true_iff, bool_decide_eq_true, all_same_Forall.
  split.
  - intros (Hc & Hr & n & Hn). split; [done|]. exists (Z.to_nat n).
    eapply red_ok_rbt with 0%Z; [done|].
    destruct (leaves t 0) as [|x xs] eqn:Hx; [by apply leaves_nonempty in Hx|].
    assert (0 ≤ n)%Z.
    { pose proof (leaves_ge t 0 x) as Hge. rewrite Hx in Hge.
      apply Forall_cons in Hn as [-> _]. apply Hge. set_solver. }
    rewrite <-Hx in *. eapply Forall_impl; [done|]. simpl. lia.
  - intros (Hc & n & Hn). split_and!; [done|by eapply rbt_red_ok|].
    exists (Z.of_nat n). eapply Forall_impl; [by eapply (rbt_leaves _ 0)|]. simpl. lia.
Qed.

(** *** Levels of a forest *)
Lemma zip_app_nil_r {X} (p : list (list X)) : zip_app p [] = p.
Proof. by destruct p. Qed.
Lemma zip_app_assoc {X} (p q r : list (list X)) :
  zip_app p (zip_app q r) = zip_app (zip_app p q) r.
Proof.
  revert q r. induction p as [|x p IH]; intros [|y q] [|z r]; simpl; try done.
  by rewrite app_assoc, IH.
Qed.

Lemma length_zip_app {X} (p q : list (list X)) :
  length (zip_app p q) = Nat.max (length p) (length q).
Proof. revert q. induction p as [|x p IH]; intros [|y q]; simpl; [done..|]. by rewrite IH. Qed.
Lemma length_levels t : length (levels t) = theight t.
Proof. induction t; simpl; [done|]. rewrite length_zip_app. congruence. Qed.

Lemma concat_zip_app {X} (p q : list (list X)) : concat (zip_app p q) ≡ₚ concat p ++ concat q.
Proof.
  revert q. induction p as [|x p IH]; intros [|y q]; simpl; [done|done|by rewrite app_nil_r|].
  rewrite IH. solve_Permutation.
Qed.
(** The lines of [levelOrder] hold every entry once. *)
Lemma concat_levels t : concat (levels t) ≡ₚ ents t.
Proof.
  induction t as [|c l k v a IHa b IHb]; simpl; [done|].
  rewrite concat_zip_app, IHa, IHb. solve_Permutation.
Qed.

Definition forest_levels (us : list (tree K V)) : list (list (K * V * Color)) :=
  foldr (λ u, zip_app (levels u)) [] us.
Definition root_ent t : list (K * V * Color) :=
  match t with E => [] | T c _ k v _ _ => [(k, v, c)] end.
Definition kids t : list (tree K V) :=
  match t with
  | E => []
  | T _ _ _ _ a b => (match a with E => [] | _ => [a] end) ++ (match b with E => [] | _ => [b] end)
  end.

Lemma forest_levels_app us us' :
  forest_levels (us ++ us') = zip_app (forest_levels us) (forest_levels us').
Proof. induction us; simpl; [by destruct (forest_levels us')|]. by rewrite IHus, zip_app_assoc. Qed.

Lemma forest_levels_kids u : forest_levels (kids u) = tail (levels u).
Proof.
  destruct u as [|c l k v a b]; [done|]. simpl. rewrite forest_levels_app.
  destruct a, b; simpl; rewrite ?zip_app_nil_r; done.
Qed.

(** The first line of a forest is its roots, the others are those of the
    children. *)
Lemma forest_levels_step us :
  us ≠ [] → Forall (λ u, u ≠ E) us →
  forest_levels us = concat (root_ent <$> us) :: forest_levels (us ≫= kids).
Proof.
  induction us as [|u us IH]; [done|]. intros _ [Hu Hus]%Forall_cons.
  destruct u as [|c l k v a b]; [done|]. cbn [mbind list_bind].
  rewrite forest_levels_app, forest_levels_kids. simpl.
  destruct us as [|u' us]; [simpl; by rewrite zip_app_nil_r|].
  rewrite IH by done. done.
Qed.
End specs.
