(* ===== verification/RBHeap.v ===== *)
(** * Pointer structures: the node store and what it represents

    A C++ node is a record of its key, value, colour and three pointers; the
    store maps locations to nodes.  [rep h par t] says that the store [h] holds
    exactly the pointer structure of the tree [t] with [par] as the parent of
    its root; [repc] says the same of a path.  The lemmas below justify each
    kind of pointer update by its effect on the represented tree. *)
From stdpp Require Import base gmap list.
From S2P Require Import Prelude OrderedMap RBTheory.

(** A [shared_ptr] or [weak_ptr]: null or a location. *)
Abbreviation ptr := (option loc).

(** A tree node (struct [Node] of both red-black trees). *)
Record node (K V : Type) := Node {
  n_key : K;
  n_value : V;
  n_color : Color;
  n_left : ptr;
  n_right : ptr;
  n_parent : ptr
}.
Arguments Node {K V} _ _ _ _ _ _.
Arguments n_key {K V} _.
Arguments n_value {K V} _.
Arguments n_color {K V} _.
Arguments n_left {K V} _.
Arguments n_right {K V} _.
Arguments n_parent {K V} _.

Section node_ops.
Context {K V : Type}.
Implicit Types n : node K V.

Definition set_value v n : node K V := Node (n_key n) v (n_color n) (n_left n) (n_right n) (n_parent n).
Definition set_color c n : node K V := Node (n_key n) (n_value n) c (n_left n) (n_right n) (n_parent n).
Definition set_left p n : node K V := Node (n_key n) (n_value n) (n_color n) p (n_right n) (n_parent n).
Definition set_right p n : node K V := Node (n_key n) (n_value n) (n_color n) (n_left n) p (n_parent n).
Definition set_parent p n : node K V := Node (n_key n) (n_value n) (n_color n) (n_left n) (n_right n) p.

(** The same by side. *)
Definition child (d : side) n := match d with Left => n_left n | Right => n_right n end.
Definition set_child (d : side) p n : node K V :=
  match d with Left => set_left p n | Right => set_right p n end.
Definition nd (d : side) k v c near far par : node K V :=
  match d with Left => Node k v c near far par | Right => Node k v c far near par end.
End node_ops.

(** The memory the program runs in: the node store and the data members of the
    tree object ([this]). *)
Record mstate (K V X : Type) := MS { mem : gmap loc (node K V); this : X }.
Arguments MS {K V X} _ _.
Arguments mem {K V X} _.
Arguments this {K V X} _.

Section mem_ops.
Context {K V X : Type}.
Abbreviation st := (mstate K V X).

(** [p->f]: undefined behaviour when [p] is null or dangling. *)
Definition rd {A} (p : ptr) (f : node K V → A) : M st A := λ s,
  match p with
  | None => Undef
  | Some l => match mem s !! l with Some n => Ok (f n) s | None => Undef end
  end.

(** [p->f = v] *)
Definition wr (p : ptr) (g : node K V → node K V) : M st unit := λ s,
  match p with
  | None => Undef
  | Some l =>
      match mem s !! l with
      | Some n => Ok tt (MS (<[l := g n]> (mem s)) (this s))
      | None => Undef
      end
  end.

(** [std::make_shared<Node>(...)]: a location not in use. *)
Definition new (n : node K V) : M st ptr := λ s,
  let l := fresh (dom (mem s)) in
  Ok (Some l) (MS (<[l := n]> (mem s)) (this s)).

Definition get_this {A} (f : X → A) : M st A := gets (λ s, f (this s)).
Definition set_this (f : X → X) : M st unit := modify (λ s, MS (mem s) (f (this s))).

Lemma wp_rd {A} l n (f : node K V → A) (s : st) Q :
  mem s !! l = Some n → Q (f n) s → wp (rd (Some l) f) s Q.
Proof. intros Hl HQ. unfold wp, rd. by rewrite Hl. Qed.

Lemma wp_wr l n g (s : st) Q :
  mem s !! l = Some n → Q tt (MS (<[l := g n]> (mem s)) (this s)) →
  wp (wr (Some l) g) s Q.
Proof. intros Hl HQ. unfold wp, wr. by rewrite Hl. Qed.

Lemma wp_get_this {A} (f : X → A) (s : st) Q : Q (f (this s)) s → wp (get_this f) s Q.
Proof. done. Qed.
Lemma wp_set_this (f : X → X) (s : st) Q :
  Q tt (MS (mem s) (f (this s))) → wp (set_this f) s Q.
Proof. done. Qed.

Lemma wp_new n (s : st) Q :
  (∀ l, mem s !! l = None → Q (Some l) (MS (<[l := n]> (mem s)) (this s))) →
  wp (new n) s Q.
Proof. intros HQ. apply HQ. apply not_elem_of_dom, is_fresh. Qed.
End mem_ops.

(** ** The represented tree *)
Section rep.
Context {K V : Type} (nilp : ptr).
Implicit Types (h : gmap loc (node K V)) (t a b : tree K V) (ctx : list (frame K V)).

(** How a pointer to a subtree looks; [nilp] stands for the empty one (a null
    pointer or the sentinel). *)
Definition ptr_of t : ptr := match t with E => nilp | T _ l _ _ _ _ => Some l end.

Fixpoint rep h (par : ptr) t : Prop :=
  match t with
  | E => True
  | T c l k v a b =>
      h !! l = Some (Node k v c (ptr_of a) (ptr_of b) par) ∧
      rep h (Some l) a ∧ rep h (Some l) b
  end.

Definition cpar ctx : ptr := match ctx with [] => None | f :: _ => Some (f_loc f) end.

Definition fnode (f : frame K V) (p par : ptr) : node K V :=
  nd (f_side f) (f_key f) (f_val f) (f_color f) p (ptr_of (f_sib f)) par.

(** The nodes of the path [ctx] whose hole is filled by pointer [p]. *)
Fixpoint repc h (p : ptr) ctx : Prop :=
  match ctx with
  | [] => True
  | f :: ctx' =>
      h !! f_loc f = Some (fnode f p (cpar ctx')) ∧
      rep h (Some (f_loc f)) (f_sib f) ∧
      repc h (Some (f_loc f)) ctx'
  end.

Fixpoint clocs ctx : list loc :=
  match ctx with [] => [] | f :: ctx' => f_loc f :: locs (f_sib f) ++ clocs ctx' end.

Lemma clocs_app (c1 c2 : list (frame K V)) : clocs (c1 ++ c2) = clocs c1 ++ clocs c2.
Proof. induction c1; simpl; [done|]. by rewrite IHc1, <-app_assoc. Qed.

(** The store holds the tree [t], and no location serves twice. *)
Definition owned h t : Prop := rep h None t ∧ NoDup (locs t).

Lemma ptr_of_mk d c l k v a b : ptr_of (mk d c l k v a b) = Some l.
Proof. by destruct d. Qed.

Lemma ptr_of_ne l t : l ∉ locs t → nilp ≠ Some l → ptr_of t ≠ Some l.
Proof. destruct t; simpl; [done|]. intros ? _ [= ->]. set_solver. Qed.

Lemma rep_mk h par d c l k v a b :
  rep h par (mk d c l k v a b) ↔
  h !! l = Some (nd d k v c (ptr_of a) (ptr_of b) par) ∧
  rep h (Some l) a ∧ rep h (Some l) b.
Proof. destruct d; simpl; naive_solver. Qed.

Lemma locs_mk d c l k v a b : locs (mk d c l k v a b : tree K V) ≡ₚ l :: locs a ++ locs b.
Proof. destruct d; simpl; [reflexivity|]. by rewrite (Permutation_app_comm (locs b)). Qed.

Lemma locs_plug ctx t : locs (plug ctx t) ≡ₚ locs t ++ clocs ctx.
Proof.
  revert t. induction ctx as [|f ctx IH]; intros t; simpl; [by rewrite app_nil_r|].
  rewrite IH. unfold fill. rewrite locs_mk. simpl.
  solve_Permutation.
Qed.

Lemma rep_plug h ctx t :
  rep h None (plug ctx t) ↔ rep h (cpar ctx) t ∧ repc h (ptr_of t) ctx.
Proof.
  revert t. induction ctx as [|f ctx IH]; intros t; simpl; [tauto|].
  rewrite IH. unfold fill at 1. rewrite rep_mk. unfold fill. rewrite ptr_of_mk.
  unfold fnode. tauto.
Qed.

Lemma rep_is_Some h par t l : rep h par t → l ∈ locs t → is_Some (h !! l).
Proof.
  revert par. induction t as [|c m k v a IHa b IHb]; simpl; intros par.
  - intros _ ?%not_elem_of_nil. done.
  - intros (Hm & Ha & Hb) [->|[?|?]%elem_of_app]%elem_of_cons; eauto.
Qed.

(** A represented tree fits in the store. *)
Lemma owned_size h t : owned h t → tsize t ≤ size h.
Proof.
  intros [Hr Hnd]. rewrite <-length_locs, <-size_dom.
  rewrite <-(size_list_to_set (C:=gset loc)) by done. apply subseteq_size.
  intros l Hl%elem_of_list_to_set. apply elem_of_dom. by eapply rep_is_Some.
Qed.

(** Frame rules. *)
Lemma rep_agree h h' par t :
  (∀ l, l ∈ locs t → h' !! l = h !! l) → rep h par t → rep h' par t.
Proof.
  revert par. induction t as [|c l k v a IHa b IHb]; simpl; intros par Hag; [done|].
  intros (Hl & Ha & Hb). split_and!.
  - rewrite Hag; [done|]. set_solver.
  - apply IHa; [|done]. set_solver.
  - apply IHb; [|done]. set_solver.
Qed.

Lemma repc_agree h h' p ctx :
  (∀ l, l ∈ clocs ctx → h' !! l = h !! l) → repc h p ctx → repc h' p ctx.
Proof.
  revert p. induction ctx as [|f ctx IH]; simpl; intros p Hag; [done|].
  intros (Hl & Hs & Hc). split_and!.
  - rewrite Hag; [done|]. set_solver.
  - eapply rep_agree; [|done]. set_solver.
  - apply IH; [|done]. set_solver.
Qed.

(** Redirecting the pointer of the innermost path node. *)
Lemma repc_redirect h h' p p' ctx :
  NoDup (clocs ctx) →
  (∀ l, l ∈ clocs ctx → Some l ≠ cpar ctx → h' !! l = h !! l) →
  match ctx with
  | [] => True
  | f :: _ => h' !! f_loc f = set_child (f_side f) p' <$> h !! f_loc f
  end →
  repc h p ctx → repc h' p' ctx.
Proof.
  destruct ctx as [|f ctx]; simpl; [done|]. intros [Hf Hnd]%NoDup_cons Hag Hp (Hl & Hs & Hc).
  split_and!.
  - rewrite Hp, Hl. simpl. by destruct f as [[] ?????].
  - eapply rep_agree; [|done]. intros l Hin. apply Hag; [set_solver|]. intros [= ->]. set_solver.
  - eapply repc_agree; [|done]. intros l Hin. apply Hag; [set_solver|]. intros [= ->]. set_solver.
Qed.

(** Giving a subtree a new parent. *)
Lemma rep_reparent h h' par par' t :
  NoDup (locs t) →
  (∀ l, l ∈ locs t → Some l ≠ ptr_of t → h' !! l = h !! l) →
  match t with E => True | T _ l _ _ _ _ => h' !! l = set_parent par' <$> h !! l end →
  rep h par t → rep h' par' t.
Proof.
  destruct t as [|c l k v a b]; simpl; [done|].
  intros [Hl [? _]%NoDup_app]%NoDup_cons Hag Hp (Hn & Ha & Hb). split_and!.
  - rewrite Hp, Hn. done.
  - eapply rep_agree; [|done]. intros x Hin. apply Hag; [set_solver|]. intros [= ->]. set_solver.
  - eapply rep_agree; [|done]. intros x Hin. apply Hag; [set_solver|]. intros [= ->]. set_solver.
Qed.
End rep.

(** Find the content of a location in a store written step by step. *)
Ltac ptr_ne := first [ assumption | apply not_eq_sym; assumption | congruence ].
Ltac mem_lookup :=
  cbn [mem this];
  repeat first [ rewrite lookup_insert_eq | rewrite lookup_insert_ne by ptr_ne ];
  first [ reflexivity | eassumption ].

(** One memory access of the program. *)
Ltac wp_mem :=
  lazymatch goal with
  | |- wp (rd (Some _) _) _ _ => eapply wp_rd; [mem_lookup|cbn beta iota]
  | |- wp (wr (Some _) _) _ _ => eapply wp_wr; [mem_lookup|cbn beta iota]
  | |- wp (get_this _) _ _ => apply wp_get_this; cbn [this]
  | |- wp (set_this _) _ _ => apply wp_set_this; cbn [this mem]
  end.
Ltac node_simp :=
  unfold fnode, nd, child, set_child, opp, set_value, set_color, set_left, set_right, set_parent;
  cbn [mem this n_key n_value n_color n_left n_right n_parent
       f_side f_color f_loc f_key f_val f_sib].
Ltac wp_step := repeat (first [ wp_head | wp_mem ]; node_simp).

(** Decide the test of a branch of the program. *)
Ltac ptr_test :=
  first [ reflexivity | ptr_ne | intros ?; ptr_ne | intros [? ?]; congruence | split; congruence
        | intros [?|?]; congruence
        | intros [= ?]; subst; contradiction
        | apply ptr_of_ne; [assumption|congruence]
        | apply not_eq_sym, ptr_of_ne; [assumption|congruence] ].
Ltac wp_test :=
  match goal with
  | |- wp (if @bool_decide ?P ?D then _ else _) _ _ =>
      first [ rewrite (@bool_decide_eq_true_2 P D) by ptr_test
            | rewrite (@bool_decide_eq_false_2 P D) by ptr_test ]
  end; cbn match.

(** ** Effect of the pointer updates on the represented tree *)
Section updates.
Context {K V : Type} (nilp : ptr).
Implicit Types (h : gmap loc (node K V)) (t a b : tree K V) (ctx : list (frame K V)).

Lemma owned_split h ctx t :
  owned nilp h (plug ctx t) ↔
  rep nilp h (cpar ctx) t ∧ repc nilp h (ptr_of nilp t) ctx ∧ NoDup (locs t ++ clocs ctx).
Proof. unfold owned. rewrite rep_plug, locs_plug. tauto. Qed.

Lemma owned_lookup h ctx c l k v a b :
  owned nilp h (plug ctx (T c l k v a b)) →
  h !! l = Some (Node k v c (ptr_of nilp a) (ptr_of nilp b) (cpar ctx)).
Proof. rewrite owned_split. simpl. naive_solver. Qed.

(** Writing a node's colour or value changes just that in the tree. *)
Lemma owned_relabel h ctx c l k v a b c' v' :
  owned nilp h (plug ctx (T c l k v a b)) →
  owned nilp (<[l := Node k v' c' (ptr_of nilp a) (ptr_of nilp b) (cpar ctx)]> h)
    (plug ctx (T c' l k v' a b)).
Proof.
  rewrite !owned_split. simpl. intros ((Hl & Ha & Hb) & Hc & Hnd).
  pose proof Hnd as [Hlx _]%NoDup_cons.
  split_and!; [by rewrite lookup_insert_eq|..| |done].
  - eapply rep_agree; [|done]. intros x Hx. apply lookup_insert_ne. set_solver.
  - eapply rep_agree; [|done]. intros x Hx. apply lookup_insert_ne. set_solver.
  - eapply repc_agree; [|done]. intros x Hx. apply lookup_insert_ne. set_solver.
Qed.

(** Replacing the whole content of a hole: the new store agrees with the old
    one on the path except for the redirected pointer. *)
Lemma owned_replace h h' ctx t t' :
  owned nilp h (plug ctx t) →
  NoDup (locs t') → (∀ l, l ∈ locs t' → l ∉ clocs ctx) →
  rep nilp h' (cpar ctx) t' →
  (∀ l, l ∈ clocs ctx → Some l ≠ cpar ctx → h' !! l = h !! l) →
  match ctx with
  | [] => True
  | f :: _ => h' !! f_loc f = set_child (f_side f) (ptr_of nilp t') <$> h !! f_loc f
  end →
  owned nilp h' (plug ctx t').
Proof.
  rewrite !owned_split. intros (Ht & Hc & Hnd) Hnd' Hdisj Hr Hag Hredir.
  apply NoDup_app in Hnd as (_ & _ & Hndc).
  split_and!; [done|by eapply repc_redirect|].
  apply NoDup_app. split_and!; [done|by intros l ?; apply Hdisj|done].
Qed.

(** Rotation: [y], the child of [x] away from side [d], moves above [x]. *)
Lemma owned_rotate h h' d ctx cx x kx vx a cy y ky vy b c :
  owned nilp h (plug ctx (mk d cx x kx vx a (mk d cy y ky vy b c))) →
  h' !! x = Some (nd d kx vx cx (ptr_of nilp a) (ptr_of nilp b) (Some y)) →
  h' !! y = Some (nd d ky vy cy (Some x) (ptr_of nilp c) (cpar ctx)) →
  match b with E => True | T _ l _ _ _ _ => h' !! l = set_parent (Some x) <$> h !! l end →
  match ctx with
  | [] => True
  | f :: _ => h' !! f_loc f = set_child (f_side f) (Some y) <$> h !! f_loc f
  end →
  (∀ l, l ≠ x → l ≠ y → l ∈ locs b ∧ Some l ≠ ptr_of nilp b ∨ l ∈ locs a ∨ l ∈ locs c ∨
        l ∈ clocs ctx ∧ Some l ≠ cpar ctx → h' !! l = h !! l) →
  owned nilp h' (plug ctx (mk d cy y ky vy (mk d cx x kx vx a b) c)).
Proof.
  intros Ho Hx Hy Hb Hf Hag. pose proof Ho as (Ht & Hc & Hnd)%owned_split.
  rewrite !rep_mk in Ht. destruct Ht as (Hx0 & Ha0 & Hy0 & Hb0 & Hc0).
  rewrite !locs_mk in Hnd. simpl in Hnd. nodup_facts.
  eapply owned_replace; [done|..].
  - rewrite !locs_mk. simpl. repeat (apply NoDup_cons; split); [set_solver..|].
    repeat (apply NoDup_app; split_and!); set_solver.
  - intros l. rewrite !locs_mk. set_solver.
  - rewrite !rep_mk, !ptr_of_mk. split_and!; [done|done|..].
    + eapply rep_agree; [|done]. intros l ?. apply Hag; [set_solver..|tauto].
    + eapply rep_reparent; [done| |done|done]. intros l ? ?. apply Hag; [set_solver..|tauto].
    + eapply rep_agree; [|done]. intros l ?. apply Hag; [set_solver..|tauto].
  - intros l ? ?. apply Hag; [set_solver..|tauto].
  - destruct ctx; [done|]. by rewrite ptr_of_mk.
Qed.
End updates.

#[export] Hint Resolve owned_lookup owned_relabel : rb.
