(* ===== verification/RBTree.v ===== *)
(** * Red_Black_Tree/RBTree.hpp: the red-black tree with a sentinel

    The class [RBTree<T>] over the node store of [RBHeap]: keys and values of
    the same type [T], a shared sentinel node [nil] in place of null children.
    Every member function is translated statement by statement; [while] loops
    are [loop]s with fuel.  [hrep] says which functional tree the object
    represents; each operation is proved to act on it as the algorithm of
    [RBTheory] does, without undefined behaviour and within the fuel
    [fuel_of], hence to implement the sorted association list of
    [OrderedMap]. *)
From stdpp Require Import base gmap list strings.
From S2P Require Import Prelude OrderedMap RBTheory RBHeap.

(** The data members of the class. *)
Record RBTree := RBT { root : ptr; nil : ptr }.

Section RBTree_defs.
Context {T : Type} `{!KeyOrder T} (T0 : T). (* [T0] is [T()] *)

Abbreviation st := (mstate T T RBTree).

Definition Node_ctor (key value : T) : node T T := Node key value RED None None None.

Definition parent_of (z : ptr) : M st ptr := rd z n_parent.
Definition grandparent_of (z : ptr) : M st ptr :=
  let* p := parent_of z in rd p n_parent.
Definition set_root (p : ptr) : M st unit := set_this (λ m, RBT p (nil m)).

Definition createNil : M st ptr :=
  let* n := new (Node_ctor T0 T0) in
  wr n (set_color BLACK) ;;
  wr n (set_left None) ;;
  wr n (set_right None) ;;
  wr n (set_parent None) ;;
  ret n.

Definition RBTree_ctor : M st unit :=
  let* n := createNil in
  set_this (λ m, RBT (root m) n) ;;
  set_this (λ m, RBT (nil m) (nil m)).

Definition leftRotate (x : ptr) : M st unit :=
  let* y := rd x n_right in
  let* yl := rd y n_left in
  wr x (set_right yl) ;;
  let* yl := rd y n_left in
  let* nl := get_this nil in
  when bool_decide (yl ≠ nl) then
    (let* yl := rd y n_left in wr yl (set_parent x)) ;;
  let* xp := rd x n_parent in
  wr y (set_parent xp) ;;
  let* xp := rd x n_parent in
  (if bool_decide (xp = None) then set_root y
   else
     let* xpl := rd xp n_left in
     if bool_decide (x = xpl) then wr xp (set_left y) else wr xp (set_right y)) ;;
  wr y (set_left x) ;;
  wr x (set_parent y).

Definition rightRotate (y : ptr) : M st unit :=
  let* x := rd y n_left in
  let* xr := rd x n_right in
  wr y (set_left xr) ;;
  let* xr := rd x n_right in
  let* nl := get_this nil in
  when bool_decide (xr ≠ nl) then
    (let* xr := rd x n_right in wr xr (set_parent y)) ;;
  let* yp := rd y n_parent in
  wr x (set_parent yp) ;;
  let* yp := rd y n_parent in
  (if bool_decide (yp = None) then set_root x
   else
     let* ypl := rd yp n_left in
     if bool_decide (y = ypl) then wr yp (set_left x) else wr yp (set_right x)) ;;
  wr x (set_right y) ;;
  wr y (set_parent x).

(** [p != nil && p->color == Color::RED] *)
Definition is_red_uncle (y : ptr) : M st bool :=
  let* nl := get_this nil in
  if bool_decide (y ≠ nl) then
    let* c := rd y n_color in ret (bool_decide (c = RED))
  else ret false.

(** The body of the [while] of [insertFixup], after its condition held:
    the new value of [z]. *)
Definition insertFixup_body (z : ptr) : M st ptr :=
  let* zp := parent_of z in
  let* g := grandparent_of z in
  let* gl := rd g n_left in
  if bool_decide (zp = gl) then
    let* g := grandparent_of z in
    let* y := rd g n_right in
    let* red := is_red_uncle y in
    if red : bool then
      let* zp := parent_of z in wr zp (set_color BLACK) ;;
      wr y (set_color BLACK) ;;
      let* g := grandparent_of z in wr g (set_color RED) ;;
      grandparent_of z
    else
      let* zp := parent_of z in
      let* zpr := rd zp n_right in
      let* z :=
        (if bool_decide (z = zpr) then
           let* z := parent_of z in leftRotate z ;; ret z
         else ret z) in
      let* zp := parent_of z in wr zp (set_color BLACK) ;;
      let* g := grandparent_of z in wr g (set_color RED) ;;
      let* g := grandparent_of z in rightRotate g ;;
      ret z
  else
    let* g := grandparent_of z in
    let* y := rd g n_left in
    let* red := is_red_uncle y in
    if red : bool then
      let* zp := parent_of z in wr zp (set_color BLACK) ;;
      wr y (set_color BLACK) ;;
      let* g := grandparent_of z in wr g (set_color RED) ;;
      grandparent_of z
    else
      let* zp := parent_of z in
      let* zpl := rd zp n_left in
      let* z :=
        (if bool_decide (z = zpl) then
           let* z := parent_of z in rightRotate z ;; ret z
         else ret z) in
      let* zp := parent_of z in wr zp (set_color BLACK) ;;
      let* g := grandparent_of z in wr g (set_color RED) ;;
      let* g := grandparent_of z in leftRotate g ;;
      ret z.

(** [z->parent.lock() != nullptr && z->parent.lock()->color == Color::RED] *)
Definition insertFixup_cond (z : ptr) : M st bool :=
  let* zp := parent_of z in
  if bool_decide (zp = None) then ret false
  else let* c := rd zp n_color in ret (bool_decide (c = RED)).

Definition insertFixup_iter (z : ptr) : M st (ptr + unit) :=
  let* go := insertFixup_cond z in
  if go : bool then
    let* z := insertFixup_body z in
    let* r := get_this root in
    if bool_decide (z = r) then ret (inr tt) else ret (inl z)
  else ret (inr tt).

Definition insertFixup (fuel : nat) (z : ptr) : M st unit :=
  let* _ := loop fuel insertFixup_iter z in
  let* r := get_this root in
  wr r (set_color BLACK).

Definition searchNode_iter (key : T) (current : ptr) : M st (ptr + ptr) :=
  let* nl := get_this nil in
  if bool_decide (current ≠ nl) then
    let* k := rd current n_key in
    if key_eqb key k then ret (inr current)
    else if key_ltb key k then let* c := rd current n_left in ret (inl c)
    else let* c := rd current n_right in ret (inl c)
  else ret (inr None).

Definition searchNode (fuel : nat) (key : T) : M st ptr :=
  let* r := get_this root in
  loop fuel (searchNode_iter key) r.

(** The descent of [insert]: [None] for its early return on an equal key,
    otherwise the last node visited. *)
Definition insert_iter (zkey : T) (xy : ptr * ptr) : M st ((ptr * ptr) + option ptr) :=
  let '(x, y) := xy in
  let* nl := get_this nil in
  if bool_decide (x ≠ nl) then
    let y := x in
    let* k := rd x n_key in
    if key_ltb zkey k then let* x := rd x n_left in ret (inl (x, y))
    else if key_gtb zkey k then let* x := rd x n_right in ret (inl (x, y))
    else ret (inr None)
  else ret (inr (Some y)).

Definition insert_descend (fuel : nat) (zkey : T) : M st (option ptr) :=
  let* r := get_this root in
  loop fuel (insert_iter zkey) (r, None).

Definition insert (fuel : nat) (key value : T) : M st unit :=
  let* existing := searchNode fuel key in
  let* nl := get_this nil in
  if bool_decide (existing ≠ None ∧ existing ≠ nl) then ret tt
  else
    let* z := new (Node_ctor key value) in
    wr z (set_left nl) ;;
    wr z (set_right nl) ;;
    let* zkey := rd z n_key in
    let* found := insert_descend fuel zkey in
    match found with
    | None => ret tt
    | Some y =>
        wr z (set_parent y) ;;
        (if bool_decide (y = None) then set_root z
         else
           let* yk := rd y n_key in
           if key_ltb zkey yk then wr y (set_left z) else wr y (set_right z)) ;;
        wr z (set_left nl) ;;
        wr z (set_right nl) ;;
        let* zp := parent_of z in
        if bool_decide (zp = None) then wr z (set_color BLACK)
        else
          let* g := grandparent_of z in
          if bool_decide (g = None) then ret tt
          else insertFixup fuel z
    end.

Definition minimum_iter (n : ptr) : M st (ptr + ptr) :=
  let* l := rd n n_left in
  let* nl := get_this nil in
  if bool_decide (l ≠ nl) then let* l := rd n n_left in ret (inl l)
  else ret (inr n).
Definition minimum (fuel : nat) (n : ptr) : M st ptr := loop fuel minimum_iter n.

Definition maximum_iter (n : ptr) : M st (ptr + ptr) :=
  let* r := rd n n_right in
  let* nl := get_this nil in
  if bool_decide (r ≠ nl) then let* r := rd n n_right in ret (inl r)
  else ret (inr n).
Definition maximum (fuel : nat) (n : ptr) : M st ptr := loop fuel maximum_iter n.

Definition transplant (u v : ptr) : M st unit :=
  let* up := parent_of u in
  (if bool_decide (up = None) then set_root v
   else
     let* upl := rd up n_left in
     if bool_decide (u = upl) then wr up (set_left v) else wr up (set_right v)) ;;
  when bool_decide (v ≠ None) then
    (let* up := parent_of u in wr v (set_parent up)).

Definition get (fuel : nat) (key : T) : M st T :=
  let* n := searchNode fuel key in
  if bool_decide (n = None) then throw "Key not found"%string else rd n n_value.

Definition modify (fuel : nat) (key value : T) : M st unit :=
  let* n := searchNode fuel key in
  when bool_decide (n ≠ None) then wr n (set_value value).

(** [p->color == Color::BLACK] *)
Definition is_black (p : ptr) : M st bool :=
  let* c := rd p n_color in ret (bool_decide (c = BLACK)).

(** The two mirrored branches of the [while] of [deleteFixup], each in two
    blocks: Case 1, which yields the sibling [w], and Cases 2 to 4, which
    yield the new value of [x]. *)
Definition delete_case1_left (x w : ptr) : M st ptr :=
  let* wc := rd w n_color in
  if bool_decide (wc = RED) then
    wr w (set_color BLACK) ;;
    let* xp := parent_of x in wr xp (set_color RED) ;;
    let* xp := parent_of x in leftRotate xp ;;
    let* xp := parent_of x in
    rd xp n_right
  else ret w.

Definition delete_cases_left (x w : ptr) : M st ptr :=
  let* wl := rd w n_left in
  let* black_l := is_black wl in
  let* both := (if black_l : bool then let* wr_ := rd w n_right in is_black wr_
                else ret false) in
  if both : bool then
    wr w (set_color RED) ;;
    parent_of x
  else
    let* wr_ := rd w n_right in
    let* far_black := is_black wr_ in
    let* w :=
      (if far_black : bool then
         let* wl := rd w n_left in wr wl (set_color BLACK) ;;
         wr w (set_color RED) ;;
         rightRotate w ;;
         let* xp := parent_of x in rd xp n_right
       else ret w) in
    let* xp := parent_of x in
    let* pc := rd xp n_color in
    wr w (set_color pc) ;;
    let* xp := parent_of x in wr xp (set_color BLACK) ;;
    let* wr_ := rd w n_right in wr wr_ (set_color BLACK) ;;
    let* xp := parent_of x in leftRotate xp ;;
    get_this root.

Definition delete_case1_right (x w : ptr) : M st ptr :=
  let* wc := rd w n_color in
  if bool_decide (wc = RED) then
    wr w (set_color BLACK) ;;
    let* xp := parent_of x in wr xp (set_color RED) ;;
    let* xp := parent_of x in rightRotate xp ;;
    let* xp := parent_of x in
    rd xp n_left
  else ret w.

Definition delete_cases_right (x w : ptr) : M st ptr :=
  let* wr_ := rd w n_right in
  let* black_r := is_black wr_ in
  let* both := (if black_r : bool then let* wl := rd w n_left in is_black wl
                else ret false) in
  if both : bool then
    wr w (set_color RED) ;;
    parent_of x
  else
    let* wl := rd w n_left in
    let* far_black := is_black wl in
    let* w :=
      (if far_black : bool then
         let* wr_ := rd w n_right in wr wr_ (set_color BLACK) ;;
         wr w (set_color RED) ;;
         leftRotate w ;;
         let* xp := parent_of x in rd xp n_left
       else ret w) in
    let* xp := parent_of x in
    let* pc := rd xp n_color in
    wr w (set_color pc) ;;
    let* xp := parent_of x in wr xp (set_color BLACK) ;;
    let* wl := rd w n_left in wr wl (set_color BLACK) ;;
    let* xp := parent_of x in rightRotate xp ;;
    get_this root.

Definition deleteFixup_body (x : ptr) : M st ptr :=
  let* xp := parent_of x in
  let* xpl := rd xp n_left in
  if bool_decide (x = xpl) then
    let* xp := parent_of x in
    let* w := rd xp n_right in
    let* w := delete_case1_left x w in
    delete_cases_left x w
  else
    let* xp := parent_of x in
    let* w := rd xp n_left in
    let* w := delete_case1_right x w in
    delete_cases_right x w.

Definition deleteFixup_iter (x : ptr) : M st (ptr + ptr) :=
  let* r := get_this root in
  if bool_decide (x ≠ r) then
    let* b := is_black x in
    if b : bool then let* x := deleteFixup_body x in ret (inl x)
    else ret (inr x)
  else ret (inr x).

Definition deleteFixup (fuel : nat) (x : ptr) : M st unit :=
  let* x := loop fuel deleteFixup_iter x in
  wr x (set_color BLACK).

(** The end of the two-child case of [remove]: [y] takes over the place, the
    left child and the colour of [z]. *)
Definition move_to (y z : ptr) : M st unit :=
  transplant z y ;;
  let* zl := rd z n_left in wr y (set_left zl) ;;
  let* yl := rd y n_left in wr yl (set_parent y) ;;
  let* zc := rd z n_color in wr y (set_color zc).

(** The middle of [remove]: unlink a node; the node [x] that moves into the
    hole, and the colour of the node that left its place. *)
Definition remove_unlink (fuel : nat) (z : ptr) (y_original_color : Color)
  : M st (ptr * Color) :=
  let* nl := get_this nil in
  let* zl := rd z n_left in
  let* zr := rd z n_right in
  if bool_decide (zl = nl) then
    let* x := rd z n_right in
    let* zr := rd z n_right in transplant z zr ;;
    ret (x, y_original_color)
  else if bool_decide (zr = nl) then
    let* x := rd z n_left in
    let* zl := rd z n_left in transplant z zl ;;
    ret (x, y_original_color)
  else
    let* zr := rd z n_right in
    let* y := minimum fuel zr in
    let* y_original_color := rd y n_color in
    let* x := rd y n_right in
    let* yp := parent_of y in
    (if bool_decide (yp = z) then wr x (set_parent y)
     else
       let* yr := rd y n_right in transplant y yr ;;
       let* zr := rd z n_right in wr y (set_right zr) ;;
       let* yr := rd y n_right in wr yr (set_parent y)) ;;
    move_to y z ;;
    ret (x, y_original_color).

Definition remove (fuel : nat) (key : T) : M st unit :=
  let* z := searchNode fuel key in
  let* nl := get_this nil in
  if bool_decide (z = None ∨ z = nl) then ret tt
  else
    let* y_original_color := rd z n_color in
    let* r := remove_unlink fuel z y_original_color in
    let '(x, y_original_color) := r in
    when bool_decide (y_original_color = BLACK) then deleteFixup fuel x ;;
    let* nl := get_this nil in wr nl (set_parent None).

(** [clear] visits the nodes and frees nothing itself. *)
Fixpoint clear (fuel : nat) (n : ptr) : M st unit :=
  match fuel with
  | 0 => no_fuel
  | S fuel =>
      let* nl := get_this nil in
      when bool_decide (n ≠ nl) then
        (let* l := rd n n_left in clear fuel l ;;
         let* r := rd n n_right in clear fuel r)
  end.

Definition empty : M st bool :=
  let* r := get_this root in
  let* nl := get_this nil in
  ret (bool_decide (r = nl)).

Definition cleanTree (fuel : nat) : M st unit :=
  let* r := get_this root in
  clear fuel r ;;
  let* nl := get_this nil in set_root nl.

Definition min (fuel : nat) : M st T :=
  let* r := get_this root in
  let* nl := get_this nil in
  if bool_decide (r = nl) then throw "Tree is empty"%string
  else let* n := minimum fuel r in rd n n_key.

Definition max (fuel : nat) : M st T :=
  let* r := get_this root in
  let* nl := get_this nil in
  if bool_decide (r = nl) then throw "Tree is empty"%string
  else let* n := maximum fuel r in rd n n_key.

(** One printed entry: key, value and colour. *)
Definition entry (p : ptr) : M st (T * T * Color) :=
  let* k := rd p n_key in
  let* v := rd p n_value in
  let* c := rd p n_color in
  ret (k, v, c).

(** The inner [while] of [inOrder]: push the left spine. *)
Definition push_left_iter (sc : list ptr * ptr) : M st ((list ptr * ptr) + list ptr) :=
  let '(s, current) := sc in
  let* nl := get_this nil in
  if bool_decide (current ≠ nl) then
    let* l := rd current n_left in ret (inl (current :: s, l))
  else ret (inr s).
Definition push_left (fuel : nat) (s : list ptr) (current : ptr) : M st (list ptr) :=
  loop fuel push_left_iter (s, current).

(** [inOrder] returns what it prints, in order. *)
Definition inOrder_iter (fuel : nat) (st0 : list ptr * ptr * list (T * T * Color))
  : M st ((list ptr * ptr * list (T * T * Color)) + list (T * T * Color)) :=
  let '(s, current, out) := st0 in
  let* nl := get_this nil in
  if bool_decide (current ≠ nl ∨ s ≠ []) then
    let* s := push_left fuel s current in
    match s with
    | [] => undef (* [top] of an empty stack *)
    | current :: s =>
        let* e := entry current in
        let* c := rd current n_right in
        ret (inl (s, c, out ++ [e]))
    end
  else ret (inr out).

Definition inOrder (fuel : nat) : M st (list (T * T * Color)) :=
  let* r := get_this root in
  loop fuel (inOrder_iter fuel) ([], r, []).

(** The [for] of [levelOrder]: one level of [n] nodes. *)
Fixpoint level (n : nat) (q : list ptr) (out : list (T * T * Color))
  : M st (list ptr * list (T * T * Color)) :=
  match n with
  | 0 => ret (q, out)
  | S n =>
      match q with
      | [] => undef (* [front] of an empty queue *)
      | x :: q =>
          let* nl := get_this nil in
          let* r :=
            (if bool_decide (x ≠ nl) then
               let* e := entry x in
               let* l := rd x n_left in
               let q := if bool_decide (l ≠ nl) then q ++ [l] else q in
               let* r := rd x n_right in
               let q := if bool_decide (r ≠ nl) then q ++ [r] else q in
               ret (q, out ++ [e])
             else ret (q, out)) in
          let '(q, out) := r in
          level n q out
      end
  end.

(** [levelOrder] returns the printed lines. *)
Definition levelOrder_iter (qo : list ptr * list (list (T * T * Color)))
  : M st ((list ptr * list (list (T * T * Color))) + list (list (T * T * Color))) :=
  let '(q, out) := qo in
  if bool_decide (q ≠ []) then
    let* lv := level (length q) q [] in
    let '(q, line) := lv in
    ret (inl (q, out ++ [line]))
  else ret (inr out).

Definition levelOrder (fuel : nat) : M st (list (list (T * T * Color))) :=
  let* r := get_this root in
  let* nl := get_this nil in
  if bool_decide (r = nl) then ret []
  else loop fuel levelOrder_iter ([r], []).

Fixpoint checkRedProperty (fuel : nat) (n : ptr) : M st bool :=
  match fuel with
  | 0 => no_fuel
  | S fuel =>
      let* nl := get_this nil in
      if bool_decide (n = nl) then ret true
      else
        let* c := rd n n_color in
        let* bad :=
          (if bool_decide (c = RED) then
             let* l := rd n n_left in
             let* lc := rd l n_color in
             if bool_decide (lc = RED) then ret true
             else
               let* r := rd n n_right in
               let* rc := rd r n_color in
               ret (bool_decide (rc = RED))
           else ret false) in
        if bad : bool then ret false
        else
          let* l := rd n n_left in
          let* bl := checkRedProperty fuel l in
          if bl : bool then let* r := rd n n_right in checkRedProperty fuel r
          else ret false
  end.

(** Returns the collected [leafBlackCounts]. *)
Fixpoint checkBlackHeight (fuel : nat) (n : ptr) (blackCount : Z) (leafBlackCounts : list Z)
  : M st (list Z) :=
  match fuel with
  | 0 => no_fuel
  | S fuel =>
      let* nl := get_this nil in
      if bool_decide (n = nl) then ret (leafBlackCounts ++ [blackCount])
      else
        let* c := rd n n_color in
        let blackCount := if bool_decide (c = BLACK) then (blackCount + 1)%Z else blackCount in
        let* l := rd n n_left in
        let* leafBlackCounts := checkBlackHeight fuel l blackCount leafBlackCounts in
        let* r := rd n n_right in
        checkBlackHeight fuel r blackCount leafBlackCounts
  end.

Definition verifyRBProperties (fuel : nat) : M st bool :=
  let* r := get_this root in
  let* nl := get_this nil in
  if bool_decide (r = nl) then ret true
  else
    let* c := rd r n_color in
    if bool_decide (c ≠ BLACK) then ret false
    else
      let* red_ok := checkRedProperty fuel r in
      if negb red_ok then ret false
      else
        let* leafBlackCounts := checkBlackHeight fuel r 0%Z [] in
        match leafBlackCounts with
        | [] => undef (* [leafBlackCounts[0]] *)
        | first :: rest => ret (forallb (λ c, bool_decide (c = first)) rest)
        end.

Fixpoint getHeight (fuel : nat) (n : ptr) : M st Z :=
  match fuel with
  | 0 => no_fuel
  | S fuel =>
      let* nl := get_this nil in
      if bool_decide (n = nl) then ret 0%Z
      else
        let* l := rd n n_left in
        let* hl := getHeight fuel l in
        let* r := rd n n_right in
        let* hr := getHeight fuel r in
        ret (1 + Z.max hl hr)%Z
  end.

Definition height (fuel : nat) : M st Z :=
  let* r := get_this root in getHeight fuel r.
End RBTree_defs.

(** ** TesTRBT.cpp: the test program *)

(** What the test prints between its headings. *)
Inductive output :=
| Entries (es : list (Z * Z * Color))
| Levels (ls : list (list (Z * Z * Color)))
| Verdict (b : bool)
| Value (v : Z).

Definition test_keys : list Z := [11; 9; 7; 6; 41; 23; 89; 1]%Z.
Definition test_values : list Z := [7; 3; 18; 10; 22; 8; 11; 26]%Z.

(** The insertion loop of [testRBTree]. *)
Fixpoint insert_all (fuel : nat) (kvs : list (Z * Z)) : M (mstate Z Z RBTree) unit :=
  match kvs with
  | Datatypes.nil => ret tt
  | (k, v) :: kvs' => insert fuel k v ;; insert_all fuel kvs'
  end.

Definition testRBTree (fuel : nat) : M (mstate Z Z RBTree) (list output) :=
  RBTree_ctor 0%Z ;;
  insert_all fuel (zip test_keys test_values) ;;
  let* es1 := inOrder fuel in
  let* ls := levelOrder fuel in
  let* ok1 := verifyRBProperties fuel in
  let* v9 := get fuel 9%Z in
  let* v7 := get fuel 7%Z in
  let* lo := min fuel in
  let* hi := max fuel in
  remove fuel 23%Z ;;
  let* es2 := inOrder fuel in
  modify fuel 1%Z 21%Z ;;
  let* es3 := inOrder fuel in
  let* ok2 := verifyRBProperties fuel in
  ret [Entries es1; Levels ls; Verdict ok1; Value v9; Value v7; Value lo; Value hi;
       Entries es2; Entries es3; Verdict ok2].
