(* ===== verification/RBTreeRep.v ===== *)
(** * RBTree.hpp: the object and the tree it represents

    [hrep] relates the state of an [RBTree<T>] object to the functional tree it
    represents; the [wp] rules give the effect of node accesses, recolouring
    and the two rotations on that tree, and the [tree_step] tactic runs code
    around a focused node with them. *)
From stdpp Require Import base gmap list strings.
From S2P Require Import Prelude OrderedMap RBTheory RBHeap RBTree.

(** Run the program as far as its branches are decided. *)
Ltac simp := unfold set_root, parent_of, grandparent_of; node_simp; cbn [root nil ptr_of].
Ltac step := repeat (first [ wp_head | wp_mem ]; simp).

(** The conditions of [owned_rotate] on a concrete store. *)
Ltac rotate_side :=
  try done; node_simp;
  try match goal with H : ?h !! ?l = Some _ |- _ = _ <$> ?h !! ?l => rewrite H; simpl end;
  try mem_lookup;
  intros l ? ? Hl; rewrite !lookup_insert_ne; try done; intros <-; destruct_or! Hl;
  destruct_and?; elem_cases; first [contradiction|congruence].

Section hrep.
Context {A : Type} `{!KeyOrder A} (A0 : A) (nl : loc).
Abbreviation st := (mstate A A RBTree).
Abbreviation nilp := (Some nl).
Implicit Types (s : st) (t a b : tree A A) (ctx rest : list (frame A A)) (np : ptr).

(** The object in state [s] represents the tree [t]; [nl] is the sentinel,
    whose [parent] is [np] (null between the public operations). *)
Record hrep np s t : Prop := {
  hr_owned : owned nilp (mem s) t;
  hr_nil : mem s !! nl = Some (Node A0 A0 BLACK None None np);
  hr_out : nl ∉ locs t;
  hr_this : this s = RBT (ptr_of nilp t) nilp
}.

Lemma ptr_of_plug_cons f ctx t t' :
  ptr_of nilp (plug (f :: ctx) t) = ptr_of nilp (plug (f :: ctx) t').
Proof.
  revert f t t'. induction ctx as [|g ctx IH]; intros f t t'; [|apply IH].
  simpl. unfold fill. by rewrite !ptr_of_mk.
Qed.

(** What the store holds around the focus. *)
Lemma hrep_facts np s ctx t :
  hrep np s (plug ctx t) →
  rep nilp (mem s) (cpar ctx) t ∧ repc nilp (mem s) (ptr_of nilp t) ctx ∧
  NoDup (locs t ++ clocs ctx) ∧ nl ∉ locs t ++ clocs ctx ∧
  mem s !! nl = Some (Node A0 A0 BLACK None None np) ∧
  this s = RBT (ptr_of nilp (plug ctx t)) nilp.
Proof.
  intros [(? & ? & ?)%owned_split ? Hout ?]. split_and!; try done.
  by rewrite <-locs_plug.
Qed.

(** Rotation in either direction; the code spells out both. *)
Definition rotate (d : side) (x : ptr) : M st unit :=
  let* y := rd x (child (opp d)) in
  let* yl := rd y (child d) in
  wr x (set_child (opp d) yl) ;;
  let* yl := rd y (child d) in
  let* nl := get_this nil in
  when bool_decide (yl ≠ nl) then
    (let* yl := rd y (child d) in wr yl (set_parent x)) ;;
  let* xp := rd x n_parent in
  wr y (set_parent xp) ;;
  let* xp := rd x n_parent in
  (if bool_decide (xp = None) then set_root y
   else
     let* xpl := rd xp n_left in
     if bool_decide (x = xpl) then wr xp (set_left y) else wr xp (set_right y)) ;;
  wr y (set_child d x) ;;
  wr x (set_parent y).

Lemma leftRotate_rotate x : leftRotate x = rotate Left x.
Proof. reflexivity. Qed.
Lemma rightRotate_rotate x : rightRotate x = rotate Right x.
Proof. reflexivity. Qed.

Lemma wp_rotate d np s ctx cx x kx vx a cy y ky vy b c Q :
  hrep np s (plug ctx (mk d cx x kx vx a (mk d cy y ky vy b c))) →
  (∀ s', hrep np s' (plug ctx (mk d cy y ky vy (mk d cx x kx vx a b) c)) → Q tt s') →
  wp (rotate d (Some x)) s Q.
Proof.
  intros Hs HQ. pose proof Hs as (Ht & Hc & Hnd & Hout & Hnil & Hthis)%hrep_facts.
  rewrite !rep_mk in Ht. rewrite !ptr_of_mk in Ht, Hc. rewrite !locs_mk in Hnd, Hout.
  simpl in Hnd, Hout. destruct Ht as (Hx & Ha & Hy & Hb & Hc').
  nodup_facts.
  assert (∀ h' r',
    r' = ptr_of nilp (plug ctx (mk d cy y ky vy (mk d cx x kx vx a b) c)) →
    h' !! nl = mem s !! nl →
    h' !! x = Some (nd d kx vx cx (ptr_of nilp a) (ptr_of nilp b) (Some y)) →
    h' !! y = Some (nd d ky vy cy (Some x) (ptr_of nilp c) (cpar ctx)) →
    match b with E => True | T _ l _ _ _ _ => h' !! l = set_parent (Some x) <$> mem s !! l end →
    match ctx with
    | [] => True
    | f :: _ => h' !! f_loc f = set_child (f_side f) (Some y) <$> mem s !! f_loc f
    end →
    (∀ l, l ≠ x → l ≠ y → l ∈ locs b ∧ Some l ≠ ptr_of nilp b ∨ l ∈ locs a ∨ l ∈ locs c ∨
        l ∈ clocs ctx ∧ Some l ≠ cpar ctx → h' !! l = mem s !! l) →
    Q tt (MS h' (RBT r' nilp))) as Hfin.
  { intros h' r' -> E ?????. apply HQ. split; simpl; [|by rewrite E| |done].
    - eapply owned_rotate; eauto. apply Hs.
    - rewrite locs_plug, !locs_mk. set_solver. }
  clear HQ Hs. unfold rotate. destruct s as [h m]; simpl in *; subst m.
  destruct d; (destruct b as [|cb lb kb vb b1 b2];
    destruct ctx as [|[[] cf lf kf vf sf] ctx]); simpl in *;
    nodup_facts; destruct_and?; step; repeat (wp_test; step);
    (apply Hfin; [try exact (ptr_of_plug_cons _ _ _ _)|..]; rotate_side).
Qed.

Lemma ptr_of_plug ctx t t' :
  ptr_of nilp t = ptr_of nilp t' →
  ptr_of nilp (plug ctx t) = ptr_of nilp (plug ctx t').
Proof. intros. destruct ctx; [done|apply ptr_of_plug_cons]. Qed.

Lemma locs_paint c t : locs (paint c t) = locs t.
Proof. by destruct t. Qed.

Lemma wp_rd_node np s ctx c l k v a b {B} (f : node A A → B) Q :
  hrep np s (plug ctx (T c l k v a b)) →
  Q (f (Node k v c (ptr_of nilp a) (ptr_of nilp b) (cpar ctx))) s →
  wp (rd (Some l) f) s Q.
Proof. intros Hs HQ. eapply wp_rd; [eapply owned_lookup, Hs|done]. Qed.

Lemma wp_rd_nil np s t {B} (f : node A A → B) Q :
  hrep np s t → Q (f (Node A0 A0 BLACK None None np)) s → wp (rd nilp f) s Q.
Proof. intros Hs HQ. eapply wp_rd; [eapply hr_nil, Hs|done]. Qed.

Lemma wp_root np s t (Q : ptr → st → Prop) :
  hrep np s t → Q (ptr_of nilp t) s → wp (get_this root) s Q.
Proof. intros Hs HQ. apply wp_get_this. by rewrite (hr_this _ _ _ Hs). Qed.
Lemma wp_nil np s t (Q : ptr → st → Prop) :
  hrep np s t → Q nilp s → wp (get_this nil) s Q.
Proof. intros Hs HQ. apply wp_get_this. by rewrite (hr_this _ _ _ Hs). Qed.

Lemma wp_relabel np s ctx c l k v a b c' v' g Q :
  hrep np s (plug ctx (T c l k v a b)) →
  (∀ p q r, g (Node k v c p q r) = Node k v' c' p q r) →
  (∀ s', hrep np s' (plug ctx (T c' l k v' a b)) → Q tt s') →
  wp (wr (Some l) g) s Q.
Proof.
  intros Hs Hg HQ. eapply wp_wr; [eapply owned_lookup, Hs|]. rewrite Hg.
  destruct Hs as [Ho Hn Hout Ht]. apply HQ. split; simpl.
  - by eapply owned_relabel.
  - rewrite lookup_insert_ne; [done|]. intros ->. apply Hout.
    rewrite locs_plug. simpl. set_solver.
  - revert Hout. by rewrite !locs_plug.
  - rewrite Ht. f_equal. by apply ptr_of_plug.
Qed.

Lemma wp_paint np s ctx c l k v a b c' Q :
  hrep np s (plug ctx (T c l k v a b)) →
  (∀ s', hrep np s' (plug ctx (T c' l k v a b)) → Q tt s') →
  wp (wr (Some l) (set_color c')) s Q.
Proof. intros Hs. by eapply wp_relabel. Qed.

Lemma wp_paint_nil np s t Q :
  hrep np s t → (∀ s', hrep np s' t → Q tt s') → wp (wr nilp (set_color BLACK)) s Q.
Proof.
  intros Hs HQ. eapply wp_wr; [eapply hr_nil, Hs|]. apply HQ.
  destruct s as [h m], Hs as [Ho Hn Hout Ht]; simpl in *.
  unfold set_color; simpl. by rewrite insert_id.
Qed.

Lemma wp_leftRotate np s ctx cx x kx vx a cy y ky vy b c Q :
  hrep np s (plug ctx (T cx x kx vx a (T cy y ky vy b c))) →
  (∀ s', hrep np s' (plug ctx (T cy y ky vy (T cx x kx vx a b) c)) → Q tt s') →
  wp (leftRotate (Some x)) s Q.
Proof. apply (wp_rotate Left). Qed.
Lemma wp_rightRotate np s ctx cx x kx vx a cy y ky vy b c Q :
  hrep np s (plug ctx (T cx x kx vx (T cy y ky vy c b) a)) →
  (∀ s', hrep np s' (plug ctx (T cy y ky vy c (T cx x kx vx b a))) → Q tt s') →
  wp (rightRotate (Some x)) s Q.
Proof. apply (wp_rotate Right). Qed.
End hrep.

(** ** Running code on an object whose tree is known around the focus *)

(** Bring the node at location [l] of the represented tree into focus. *)
Ltac find_node l ctx t k :=
  lazymatch t with
  | T ?c ?m ?key ?v ?a ?b =>
      tryif constr_eq m l then k ctx t
      else first [ find_node l (Frame Left c m key v b :: ctx) a k
                 | find_node l (Frame Right c m key v a :: ctx) b k ]
  end.
Ltac focus l H :=
  lazymatch type of H with
  | hrep ?A0 ?nl ?np ?s (plug ?ctx ?t) =>
      find_node l ctx t ltac:(fun ctx' t' => change (hrep A0 nl np s (plug ctx' t')) in H)
  | hrep ?A0 ?nl ?np ?s ?t =>
      let K := match type of t with tree ?K ?V => constr:(@Datatypes.nil (frame K V)) end in
      find_node l K t ltac:(fun ctx' t' => change (hrep A0 nl np s (plug ctx' t')) in H)
  end.
Ltac unfocus H :=
  cbn [plug fill mk f_side f_color f_loc f_key f_val f_sib paint] in H.

Ltac with_hrep k :=
  match goal with
  | H : hrep _ _ _ ?s _ |- wp _ ?s _ => k H
  end.
Ltac next_state H rule :=
  eapply rule; [exact H|]; clear H; let s := fresh "s" in intros s H; unfocus H.

Ltac tree_simp :=
  cbn [n_key n_value n_color n_left n_right n_parent ptr_of cpar
       f_side f_color f_loc f_key f_val f_sib].
Ltac tree_head :=
  first
  [ wp_head
  | lazymatch goal with
    | |- wp (parent_of ?p) ?s ?Q => change (wp (rd p n_parent) s Q)
    | |- wp (grandparent_of ?p) ?s ?Q =>
        change (wp (let* q := rd p n_parent in rd q n_parent) s Q)
    | |- wp (is_black ?p) ?s ?Q =>
        change (wp (let* c := rd p n_color in ret (bool_decide (c = BLACK))) s Q)
    end
  | with_hrep ltac:(fun H =>
      lazymatch goal with
      | |- wp (get_this root) _ _ => eapply wp_root; [exact H|]
      | |- wp (get_this nil) _ _ => eapply wp_nil; [exact H|]
      | |- wp (rd (Some ?l) _) _ _ =>
          first [ focus l H; eapply wp_rd_node; [exact H|]; unfocus H
                | eapply wp_rd_nil; [exact H|] ]
      | |- wp (wr (Some ?l) (set_color _)) _ _ =>
          first [ focus l H; next_state H wp_paint
                | next_state H wp_paint_nil ]
      | |- wp (leftRotate (Some ?l)) _ _ => focus l H; next_state H wp_leftRotate
      | |- wp (rightRotate (Some ?l)) _ _ => focus l H; next_state H wp_rightRotate
      end) ];
  tree_simp.
Ltac tree_step := repeat (first [ tree_head | wp_test ]).

(** The same for an unknown subtree [u] of the represented tree. *)
Ltac find_sub u ctx t k :=
  tryif constr_eq t u then k ctx
  else
    lazymatch t with
    | T ?c ?m ?key ?v ?a ?b =>
        first [ find_sub u (Frame Left c m key v b :: ctx) a k
              | find_sub u (Frame Right c m key v a :: ctx) b k ]
    end.
Ltac focus_sub u H :=
  lazymatch type of H with
  | hrep ?A0 ?nl ?np ?s (plug ?ctx ?t) =>
      find_sub u ctx t ltac:(fun ctx' => change (hrep A0 nl np s (plug ctx' u)) in H)
  | hrep ?A0 ?nl ?np ?s ?t =>
      let K := match type of t with tree ?K ?V => constr:(@Datatypes.nil (frame K V)) end in
      find_sub u K t ltac:(fun ctx' => change (hrep A0 nl np s (plug ctx' u)) in H)
  end.

(** *** Facts about a focus *)
Section focus_facts.
Context {A : Type} `{!KeyOrder A} (A0 : A) (nl : loc).
Abbreviation st := (mstate A A RBTree).
Abbreviation hrep := (hrep A0 nl).
Abbreviation nilp := (Some nl).
Implicit Types (s : st) (t a b u : tree A A) (ctx rest : list (frame A A)) (np : ptr).

Lemma hrep_nodup np s ctx t : hrep np s (plug ctx t) → NoDup (locs t ++ clocs ctx).
Proof. intros (? & ? & ? & _)%hrep_facts. done. Qed.
Lemma hrep_nil_out np s ctx t : hrep np s (plug ctx t) → nl ∉ locs t ++ clocs ctx.
Proof. intros (? & ? & ? & ? & _)%hrep_facts. done. Qed.

Lemma focus_ne_nil np s ctx c l k v a b :
  hrep np s (plug ctx (T c l k v a b)) → l ≠ nl.
Proof. intros Hs ->. apply hrep_nil_out in Hs. simpl in Hs. set_solver. Qed.

Lemma root_in_path f rest t :
  ∃ x, ptr_of nilp (plug (f :: rest) t) = Some x ∧ x ∈ clocs (f :: rest).
Proof.
  revert f t. induction rest as [|g rest IH]; intros f t.
  - exists (f_loc f). simpl. unfold fill. rewrite ptr_of_mk. set_solver.
  - destruct (IH g (fill f t)) as (x & Hx & ?). exists x. split; [exact Hx|]. set_solver.
Qed.

(** The root pointer is that of the focus only when the path is empty. *)
Lemma root_ne np s f rest t :
  hrep np s (plug (f :: rest) t) →
  ptr_of nilp t ≠ ptr_of nilp (plug (f :: rest) t).
Proof.
  intros Hs. pose proof (hrep_nodup _ _ _ _ Hs) as Hnd.
  pose proof (hrep_nil_out _ _ _ _ Hs) as Hout.
  destruct (root_in_path f rest t) as (x & -> & Hx). destruct t as [|c l k v a b]; simpl.
  - intros [= ->]. set_solver.
  - intros [= ->]. apply NoDup_app in Hnd as (_ & Hd & _).
    apply (Hd x); [simpl; set_solver|done].
Qed.

(** The focus and its sibling are different nodes. *)
Lemma sib_ne np s d c l k v w rest t :
  hrep np s (plug (Frame d c l k v w :: rest) t) → w ≠ E →
  ptr_of nilp t ≠ ptr_of nilp w.
Proof.
  intros Hs Hw. pose proof (hrep_nodup _ _ _ _ Hs) as Hnd.
  pose proof (hrep_nil_out _ _ _ _ Hs) as Hout. simpl in Hnd, Hout.
  destruct w as [|cw lw kw vw wl wr]; [done|]. simpl in Hnd, Hout.
  destruct t as [|c' l' k' v' a b]; simpl in *; intros [= ->]; nodup_facts; done.
Qed.

Lemma wp_is_black np s ctx u Q :
  hrep np s (plug ctx u) → Q (bool_decide (color u = BLACK)) s →
  wp (is_black (ptr_of nilp u)) s Q.
Proof. intros Hs HQ. destruct u; unfold is_black; tree_step; exact HQ. Qed.

(** The sentinel's parent is right where [deleteFixup] needs it. *)
Lemma wp_parent_of np s f rest t Q :
  hrep np s (plug (f :: rest) t) → (t = E → np = Some (f_loc f)) →
  Q (Some (f_loc f)) s → wp (parent_of (ptr_of nilp t)) s Q.
Proof.
  intros Hs Hnp HQ. destruct t as [|c l k v a b].
  - rewrite Hnp in Hs by done. by tree_step.
  - by tree_step.
Qed.
End focus_facts.
