(* ===== verification/RBTreeInsert.v ===== *)
(** * RBTree.hpp: search, insertion and the read-only operations

    The search loops follow [zsearch]; one iteration of [insertFixup]'s loop is
    one step of [ins_fix]; [insert] links a new red node and repairs. *)
From stdpp Require Import base gmap list strings.
From S2P Require Import Prelude OrderedMap RBTheory RBHeap RBTree RBTreeRep.

Section fixup.
Context {A : Type} `{!KeyOrder A} (A0 : A) (nl : loc).
Abbreviation st := (mstate A A RBTree).
Abbreviation hrep := (hrep A0 nl).
Implicit Types (s : st) (t a b u : tree A A) (ctx rest : list (frame A A)) (np : ptr).

(** One iteration: the loop is left with the repaired tree up to the final
    blackening of the root, or continues at a focus closer to the root from
    which the repair gives the same result. *)
Definition fixup_post np ctx t (r : ptr + unit) s' : Prop :=
  match r with
  | inr _ => ∃ t', hrep np s' t' ∧ t' ≠ E ∧ paint BLACK t' = ins_fix ctx t
  | inl z' => ∃ n' ctx' t', ptr_of (Some nl) t' = z' ∧ color t' = RED ∧
      cwf n' ctx' ∧ rbt n' t' ∧ hrep np s' (plug ctx' t') ∧
      ins_fix ctx' t' = ins_fix ctx t ∧ length ctx' < length ctx
  end.

Lemma insertFixup_iter_ok np n s ctx z zk zv t1 t2 :
  cwf n ctx → rbt n (T RED z zk zv t1 t2) → hrep np s (plug ctx (T RED z zk zv t1 t2)) →
  wp (insertFixup_iter (Some z)) s (fixup_post np ctx (T RED z zk zv t1 t2)).
Proof.
  intros Hc Hr Hs.
  pose proof (hrep_nodup _ _ _ _ _ _ Hs) as Hnd. pose proof (hrep_nil_out _ _ _ _ _ _ Hs) as Hout.
  unfold insertFixup_iter, insertFixup_cond, insertFixup_body.
  destruct ctx as [|[dp cp p pk pv ps] [|[dg cg g gk gv u] rest]].
  - tree_step. simpl. eauto.
  - destruct cp; [destruct Hc as (_ & _ & [] & _)|].
    destruct dp; unfocus Hs; tree_step; simpl; eauto.
  - destruct cp.
    2: { destruct dp, dg; unfocus Hs; tree_step; eexists;
           (split_and!; [exact Hs|by apply plug_ne|done]). }
    destruct Hc as (Hps & Hbps & Hg & Hu & Hc). simpl in Hg, Hc. subst cg.
    destruct u as [|[] ul uk uv ua ub]; simpl in Hnd, Hout; nodup_facts;
      destruct dg, dp; unfocus Hs; unfold is_red_uncle; tree_step.
    all: simpl in Hr, Hps, Hu; destruct_and?.
    all: lazymatch goal with |- wp (if bool_decide (Some ?l = _) then _ else _) _ _ => focus l Hs end.
    all: case_bool_decide as Hroot; apply wp_ret; simpl fixup_post.
    all: try (unfocus Hs; eexists; (split_and!; [exact Hs|by apply plug_ne|reflexivity])).
    all: try (destruct rest as [|f rest];
              [eexists; (split_and!; [exact Hs|done|reflexivity])
              |destruct (root_ne _ _ _ _ _ _ _ Hs); exact Hroot]).
    all: first
      [ exists n; do 2 eexists; (split_and!; [| | | |exact Hs|..]); simpl;
        solve [split_and?; (done || lia)]
      | exists (S n); do 2 eexists; (split_and!; [| | | |exact Hs|..]); simpl;
        solve [split_and?; eauto 10; (done || lia)] ].
Qed.

Lemma insertFixup_loop fuel np n s ctx t :
  cwf n ctx → rbt n t → color t = RED → hrep np s (plug ctx t) → length ctx < fuel →
  wp (loop fuel insertFixup_iter (ptr_of (Some nl) t)) s (λ _ s', ∃ t',
    hrep np s' t' ∧ t' ≠ E ∧ paint BLACK t' = ins_fix ctx t).
Proof.
  revert n s ctx t. induction fuel as [|fuel IH]; [lia|].
  intros n s ctx t Hc Hr Hct Hs Hfuel. apply wp_loop.
  destruct t as [|[] z zk zv t1 t2]; try done.
  eapply wp_mono; [by apply (insertFixup_iter_ok np n)|].
  intros [z'|[]] s'; simpl; [|done].
  intros (n' & ctx' & t' & <- & ? & ? & ? & ? & <- & ?). eapply IH; eauto. lia.
Qed.

(** [insertFixup] repairs the tree as the functional algorithm does. *)
Lemma wp_insertFixup fuel np n s ctx t Q :
  cwf n ctx → rbt n t → color t = RED → hrep np s (plug ctx t) → length ctx < fuel →
  (∀ s', hrep np s' (ins_fix ctx t) → Q tt s') →
  wp (insertFixup fuel (ptr_of (Some nl) t)) s Q.
Proof.
  intros ????? HQ. apply wp_bind. eapply wp_mono; [by eapply insertFixup_loop|].
  intros [] s' (t' & Hs & Hne & He). destruct t' as [|c l k v a b]; [done|].
  tree_step. apply HQ. by rewrite <-He.
Qed.
End fixup.

Section search.
Context {A : Type} `{!KeyOrder A} (A0 : A) (nl : loc).
Abbreviation st := (mstate A A RBTree).
Abbreviation hrep := (hrep A0 nl).
Abbreviation nilp := (Some nl).
Implicit Types (s : st) (t a b : tree A A) (ctx rest : list (frame A A)) (np : ptr).

Lemma searchNode_loop fuel np s key ctx t :
  hrep np s (plug ctx t) → theight t < fuel →
  wp (loop fuel (searchNode_iter key) (ptr_of nilp t)) s (λ r s', s' = s ∧
    r = match (zsearch key ctx t).2 with E => None | T _ l _ _ _ _ => Some l end).
Proof.
  revert ctx t. induction fuel as [|fuel IH]; [lia|]. intros ctx t Hs Hh.
  apply wp_loop. unfold searchNode_iter.
  destruct t as [|c l k v a b]; [by tree_step|].
  pose proof (focus_ne_nil _ _ _ _ _ _ _ _ _ _ _ Hs). tree_step. simpl in Hh |- *.
  destruct (key_eqb key k) eqn:E; [apply key_eqb_true in E as ->; rewrite key_irrefl; by tree_step|].
  key_case key k; tree_step.
  - apply (IH (Frame Left c l k v b :: ctx)); [done|lia].
  - apply (IH (Frame Right c l k v a :: ctx)); [done|lia].
  - by rewrite key_eqb_refl in E.
Qed.

Lemma insert_loop fuel np s key ctx t :
  hrep np s (plug ctx t) → theight t < fuel →
  wp (loop fuel (insert_iter key) (ptr_of nilp t, cpar ctx)) s (λ r s', s' = s ∧
    r = match zsearch key ctx t with (ctx', E) => Some (cpar ctx') | _ => None end).
Proof.
  revert ctx t. induction fuel as [|fuel IH]; [lia|]. intros ctx t Hs Hh.
  apply wp_loop. unfold insert_iter, key_gtb.
  destruct t as [|c l k v a b]; [by tree_step|].
  pose proof (focus_ne_nil _ _ _ _ _ _ _ _ _ _ _ Hs). tree_step. simpl in Hh |- *.
  key_case key k; tree_step.
  - apply (IH (Frame Left c l k v b :: ctx)); [done|lia].
  - apply (IH (Frame Right c l k v a :: ctx)); [done|lia].
  - done.
Qed.

Lemma wp_searchNode fuel np s key t Q :
  hrep np s t → theight t < fuel →
  Q (match (zsearch key [] t).2 with E => None | T _ l _ _ _ _ => Some l end) s →
  wp (searchNode fuel key) s Q.
Proof.
  intros Hs Hh HQ. unfold searchNode. tree_step.
  eapply wp_mono; [by apply (searchNode_loop _ np _ _ [])|]. by intros r s' [-> ->].
Qed.

Lemma wp_insert_descend fuel np s key t Q :
  hrep np s t → theight t < fuel →
  Q (match zsearch key [] t with (ctx', E) => Some (cpar ctx') | _ => None end) s →
  wp (insert_descend fuel key) s Q.
Proof.
  intros Hs Hh HQ. unfold insert_descend. tree_step.
  eapply wp_mono; [by apply (insert_loop _ np _ _ [])|]. by intros r s' [-> ->].
Qed.
End search.

Section insert.
Context {A : Type} `{!KeyOrder A} (A0 : A) (nl : loc).
Abbreviation st := (mstate A A RBTree).
Abbreviation hrep := (hrep A0 nl).
Abbreviation nilp := (Some nl).
Implicit Types (s : st) (t a b : tree A A) (ctx rest : list (frame A A)) (np : ptr).

(** A location the object does not use may be written freely. *)
Lemma hrep_write_other np s t z n :
  hrep np s t → z ∉ locs t → z ≠ nl → hrep np (MS (<[z:=n]> (mem s)) (this s)) t.
Proof.
  intros [[Hr Hnd] Hn Hout Ht] Hz Hzn. split; simpl; [split|..]; try done.
  - eapply rep_agree; [|done]. intros l Hl. apply lookup_insert_ne. set_solver.
  - by rewrite lookup_insert_ne.
Qed.

Lemma hrep_fresh np s t z : hrep np s t → mem s !! z = None → z ∉ locs t ∧ z ≠ nl.
Proof.
  intros [[Hr Hnd] Hn Hout Ht] Hz. split.
  - intros Hl. destruct (rep_is_Some _ _ _ _ _ Hr Hl). congruence.
  - intros ->. congruence.
Qed.

(** Hanging a new leaf node at the hole. *)
Lemma hrep_link np s ctx z c k v h' r' :
  hrep np s (plug ctx E) → z ∉ locs (plug ctx E) → z ≠ nl →
  h' !! z = Some (Node k v c nilp nilp (cpar ctx)) →
  match ctx with
  | [] => True
  | f :: _ => h' !! f_loc f = set_child (f_side f) (Some z) <$> mem s !! f_loc f
  end →
  (∀ l, l ≠ z → Some l ≠ cpar ctx → h' !! l = mem s !! l) →
  r' = ptr_of nilp (plug ctx (T c z k v E E)) →
  hrep np (MS h' (RBT r' nilp)) (plug ctx (T c z k v E E)).
Proof.
  intros [Ho Hn Hout Ht] Hz Hznl Hhz Hpar Hag ->. rewrite locs_plug in Hz, Hout.
  simpl in Hz, Hout. split; simpl; [|..].
  - eapply owned_replace; [done|..]; simpl.
    + apply NoDup_singleton.
    + intros l ->%list_elem_of_singleton. done.
    + by rewrite Hhz.
    + intros l Hl Hlp. apply Hag; [|done]. intros ->. done.
    + done.
  - rewrite Hag; [done|congruence|]. destruct ctx as [|f ctx]; simpl in *; [done|].
    intros [= ->]. set_solver.
  - rewrite locs_plug. simpl. set_solver.
  - done.
Qed.

Lemma insert_found fuel np s key v t :
  hrep np s t → theight t < fuel → (zsearch key [] t).2 ≠ E →
  wp (insert fuel key v) s (λ _ s', s' = s).
Proof.
  intros Hs Hh Hz. unfold insert. apply wp_bind. eapply wp_searchNode; [done..|].
  destruct (zsearch key [] t) as [ctx' [|c l k v' a b]] eqn:Hzs; [done|]. simpl.
  rewrite <-(zsearch_plug _ [] _ _ _ Hzs : plug _ _ = t) in Hs.
  pose proof (focus_ne_nil _ _ _ _ _ _ _ _ _ _ _ Hs). by tree_step.
Qed.

(** The end of [insert]: no repair is needed right under the root. *)
Lemma insert_finish np s fuel f rest z k v :
  cwf 0 (f :: rest) → length (f :: rest) < fuel →
  hrep np s (plug (f :: rest) (T RED z k v E E)) →
  wp (if bool_decide (cpar rest = None) then ret tt else insertFixup fuel (Some z)) s
    (λ _ s', hrep np s' (tree_insert (f :: rest) z k v)).
Proof.
  intros Hc Hlen Hs. destruct rest as [|g rest]; simpl cpar; wp_test.
  - apply wp_ret. destruct f as [d [] l k' v' b]; [destruct Hc as (_ & _ & [] & _)|].
    by destruct d.
  - eapply (wp_insertFixup A0 nl _ np 0 _ _ (T RED z k v E E)); eauto. done.
Qed.

(** On an absent key, [insert] hangs a new node at the end of the search path
    and repairs as [tree_insert] does. *)
Lemma insert_new fuel np s key v t ctx :
  hrep np s t → tree_ok t → ksorted (elems t) → zsearch key [] t = (ctx, E) →
  tsize t + 1 < fuel →
  wp (insert fuel key v) s (λ _ s', ∃ z, hrep np s' (tree_insert ctx z key v)).
Proof.
  intros Hs Hok Hsort Hz Hfuel. pose proof (theight_tsize t).
  destruct (zsearch_spec _ _ _ _ Hsort Hz) as (Hp & Hl & Hr & _).
  unfold insert. apply wp_bind. eapply wp_searchNode; [done|lia|]. rewrite Hz. simpl.
  tree_step. apply wp_new. intros z Hzn.
  destruct (hrep_fresh _ _ _ _ Hs Hzn) as [Hzt Hznl].
  pose proof Hs as Hs0. rewrite <-Hp in Hs.
  destruct s as [h m]; simpl in *. unfold Node_ctor. step.
  apply wp_bind. eapply wp_insert_descend;
    [rewrite !insert_insert_eq; by apply (hrep_write_other np (MS h m))|lia|].
  rewrite Hz. simpl. pose proof (hr_this _ _ _ _ _ Hs) as Hthis. simpl in Hthis. subst m.
  pose proof Hs as (_ & Hc & _)%hrep_facts. simpl in Hc.
  rewrite <-Hp, locs_plug in Hzt. simpl in Hzt.
  destruct ctx as [|f rest].
  { simpl. step. repeat (wp_test; step). exists z. eapply (hrep_link np _ [] z BLACK); try done.
    - by mem_lookup.
    - intros l ? _. by rewrite !lookup_insert_ne. }
  pose proof (hole_side _ _ _ Hl Hr) as Hside.
  rewrite <-Hp in Hok. apply tree_ok_plug in Hok as (n & Hcwf & Hrn & _). simpl in Hrn. subst n.
  assert (length (f :: rest) < fuel) as Hlen.
  { pose proof (plug_tsize (f :: rest) E) as Hlen. rewrite Hp in Hlen. simpl in Hlen |- *. lia. }
  destruct Hc as (Hf & Hsib & Hrest). simpl in Hzt. nodup_facts.
  destruct f as [d c l k' v' b].
  assert (∀ h', h' !! z = Some (Node key v RED nilp nilp (Some l)) →
    h' !! l = set_child d (Some z) <$> h !! l →
    (∀ x, x ≠ z → x ≠ l → h' !! x = h !! x) →
    hrep np (MS h' (RBT (ptr_of nilp (plug (Frame d c l k' v' b :: rest) E)) nilp))
      (plug (Frame d c l k' v' b :: rest) (T RED z key v E E))) as Hnew.
  { intros h' Hz' Hl' Hag. eapply (hrep_link np _ _ _ _ _ _ _ _ Hs); try done.
    - rewrite locs_plug. simpl. set_solver.
    - intros x ? ?. apply Hag; simpl in *; congruence.
    - apply (ptr_of_plug_cons nl). }
  clear Hs Hs0.
  destruct d; simpl in Hside, Hf |- *; step; rewrite Hside; step; wp_test; step;
    (eapply wp_mono; [eapply (insert_finish np); [exact Hcwf|exact Hlen|apply Hnew]|]).
  all: try (intros; by exists z).
  all: try (intros; rewrite !lookup_insert_ne by done; done).
  all: try mem_lookup.
  all: node_simp; rewrite Hf; simpl; mem_lookup.
Qed.
End insert.
