(* ===== verification/RBTreeUnlink.v ===== *)
(** * RBTree.hpp: unlinking a node

    [minimum], [transplant] and the middle part of [remove]: the object loses
    the node as the functional [splice] says. *)
From stdpp Require Import base gmap list strings.
From S2P Require Import Prelude OrderedMap RBTheory RBHeap RBTree RBTreeRep.

Section unlink.
Context {A : Type} `{!KeyOrder A} (A0 : A) (nl : loc).
Abbreviation st := (mstate A A RBTree).
Abbreviation hrep := (hrep A0 nl).
Abbreviation nilp := (Some nl).
Implicit Types (s : st) (t a b w : tree A A) (ctx rest : list (frame A A)) (np : ptr).

(** Replacing the content of a hole in the object. *)
Lemma hrep_replace np np' s ctx t t' h' r' :
  hrep np s (plug ctx t) →
  NoDup (locs t') → (∀ l, l ∈ locs t' → l ∉ clocs ctx) → nl ∉ locs t' →
  rep nilp h' (cpar ctx) t' →
  h' !! nl = Some (Node A0 A0 BLACK None None np') →
  (∀ l, l ∈ clocs ctx → Some l ≠ cpar ctx → h' !! l = mem s !! l) →
  match ctx with
  | [] => True
  | f :: _ => h' !! f_loc f = set_child (f_side f) (ptr_of nilp t') <$> mem s !! f_loc f
  end →
  r' = ptr_of nilp (plug ctx t') →
  hrep np' (MS h' (RBT r' nilp)) (plug ctx t').
Proof.
  intros Hs Hnd Hdisj Hnl Hr Hh Hag Hredir ->.
  pose proof (hrep_nil_out _ _ _ _ _ _ Hs) as Hout.
  split; simpl; [|done| |done].
  - eapply owned_replace; [apply Hs|done..].
  - rewrite locs_plug. apply not_elem_of_app in Hout as [_ ?]. by apply not_elem_of_app.
Qed.

(** The sentinel's parent after [transplant] put [w] below [p]. *)
Definition nil_parent np (p : ptr) w : ptr := match w with E => p | _ => np end.

(** [transplant] of a node with one child at most by that child; the node
    itself is left as it was. *)
Lemma wp_transplant_child np s ctx d c u k v w :
  hrep np s (plug ctx (mk d c u k v E w)) →
  wp (transplant (Some u) (ptr_of nilp w)) s (λ _ s',
    hrep (nil_parent np (cpar ctx) w) s' (plug ctx w) ∧ mem s' !! u = mem s !! u).
Proof.
  intros Hs. pose proof Hs as (Ht & Hc & Hnd & Hout & Hnil & Hthis)%hrep_facts.
  rewrite rep_mk in Ht. rewrite ptr_of_mk in Hc. rewrite locs_mk in Hnd, Hout.
  simpl in Hnd, Hout. destruct Ht as (Hu & _ & Hw). nodup_facts.
  assert (n_parent (nd d k v c nilp (ptr_of nilp w) (cpar ctx) : node A A) = cpar ctx) as Hp
    by by destruct d.
  simpl ptr_of in Hu. destruct s as [h m]; simpl in *; subst m.
  assert (∀ h' r',
    r' = ptr_of nilp (plug ctx w) →
    h' !! nl = Some (Node A0 A0 BLACK None None (nil_parent np (cpar ctx) w)) →
    h' !! u = h !! u →
    match w with E => True | T _ l _ _ _ _ => h' !! l = set_parent (cpar ctx) <$> h !! l end →
    match ctx with
    | [] => True
    | f :: _ => h' !! f_loc f = set_child (f_side f) (ptr_of nilp w) <$> h !! f_loc f
    end →
    (∀ l, l ≠ nl → Some l ≠ ptr_of nilp w → Some l ≠ cpar ctx → h' !! l = h !! l) →
    hrep (nil_parent np (cpar ctx) w) (MS h' (RBT r' nilp)) (plug ctx w) ∧ h' !! u = h !! u)
    as Hfin.
  { intros h' r' -> Hn Hu' Hw' Hf Hag. split; [|done].
    eapply hrep_replace; [exact Hs|..]; try done.
    - eapply rep_reparent; [done| |done|done]. intros l Hl Hne. apply Hag; [congruence|done|].
      destruct ctx as [|f ctx]; [done|]. simpl in *. intros [= ->]. set_solver.
    - intros l Hl Hne. apply Hag; [congruence| |done].
      destruct w; simpl in *; [congruence|]. intros [= ->]. set_solver. }
  clear Hs. unfold transplant.
  destruct w as [|cw lw kw vw w1 w2], ctx as [|[[] cf lf kf vf sf] ctx], d; simpl in *;
    nodup_facts; destruct_and?; step; repeat (wp_test; step);
    (apply Hfin; [try exact (ptr_of_plug_cons nl _ _ _ _)|..]);
    try done; node_simp;
    try match goal with H : ?h !! ?l = Some _ |- _ = _ <$> ?h !! ?l => rewrite H; simpl end;
    try mem_lookup.
  all: intros l ? ? ?; rewrite !lookup_insert_ne by congruence; done.
Qed.

Lemma minimum_loop fuel np s ctx ctx0 c l k v a b ctx' cy y ky vy xr :
  hrep np s (plug ctx (T c l k v a b)) →
  zmin ctx0 c l k v a b = (ctx', (cy, y, ky, vy, xr)) → theight a < fuel →
  wp (minimum fuel (Some l)) s (λ r s', s' = s ∧ r = Some y).
Proof.
  revert fuel ctx ctx0 c l k v b. induction a as [|ca la ka va aa IHa ba _];
    intros fuel ctx ctx0 c l k v b Hs Hz Hf; (destruct fuel as [|fuel]; [lia|]);
    unfold minimum; apply wp_loop; unfold minimum_iter; simpl in Hz, Hf.
  - injection Hz as <- <- <- <- <- <-. by tree_step.
  - change (hrep np s (plug (Frame Left c l k v b :: ctx) (T ca la ka va aa ba))) in Hs.
    pose proof (focus_ne_nil _ _ _ _ _ _ _ _ _ _ _ Hs). unfocus Hs. tree_step.
    eapply (IHa fuel (Frame Left c l k v b :: ctx)); [exact Hs|done|lia].
Qed.

(** A node [y] with subtrees [a] and [b] takes the place of the focus. *)
Lemma hrep_swap np np' s ctx t pa a pb b c y ky vy h' r' :
  hrep np s (plug ctx t) → rep nilp (mem s) pa a → rep nilp (mem s) pb b →
  NoDup (y :: locs a ++ locs b) →
  (∀ l, l ∈ y :: locs a ++ locs b → l ∉ clocs ctx ∧ l ≠ nl) →
  h' !! y = Some (Node ky vy c (ptr_of nilp a) (ptr_of nilp b) (cpar ctx)) →
  (match a with E => True | T _ l _ _ _ _ => h' !! l = set_parent (Some y) <$> mem s !! l end) →
  (match b with E => True | T _ l _ _ _ _ => h' !! l = set_parent (Some y) <$> mem s !! l end) →
  match ctx with
  | [] => True
  | f :: _ => h' !! f_loc f = set_child (f_side f) (Some y) <$> mem s !! f_loc f
  end →
  h' !! nl = Some (Node A0 A0 BLACK None None np') →
  (∀ l, l ≠ y → l ≠ nl → Some l ≠ ptr_of nilp a → Some l ≠ ptr_of nilp b →
    Some l ≠ cpar ctx → h' !! l = mem s !! l) →
  r' = ptr_of nilp (plug ctx (T c y ky vy a b)) →
  hrep np' (MS h' (RBT r' nilp)) (plug ctx (T c y ky vy a b)).
Proof.
  intros Hs Ha Hb Hnd Hout Hy Hpa Hpb Hredir Hn Hag Hr'.
  assert (∀ (u : tree A A) l, l ∉ locs u → l ≠ nl → Some l ≠ ptr_of nilp u) as Hne.
  { intros u l ? ? [=Hl]. symmetry in Hl. eapply ptr_of_ne in Hl; [done..|congruence]. }
  assert (∀ l, l ∉ clocs ctx → Some l ≠ cpar ctx) as Hne'.
  { intros l Hl. destruct ctx as [|f ctx]; simpl in *; [done|]. intros [= ->]. set_solver. }
  eapply hrep_replace; [exact Hs|exact Hnd|..]; simpl; try done; nodup_facts.
  - intros l Hl. by apply Hout.
  - intros Hl. by apply Hout in Hl as [_ ?].
  - split_and!; [done|..].
    + eapply rep_reparent; [done| |done|done]. intros l Hl ?.
      destruct (Hout l) as [? ?]; [set_solver|]. apply Hag; auto; set_solver.
    + eapply rep_reparent; [done| |done|done]. intros l Hl ?.
      destruct (Hout l) as [? ?]; [set_solver|]. apply Hag; auto; set_solver.
  - intros l Hl ?. assert (∀ x, x ∈ y :: locs a ++ locs b → l ≠ x) as Hx.
    { intros x Hx ->. by apply Hout in Hx as [? _]. }
    assert (l ≠ nl) by (intros ->; by apply hrep_nil_out in Hs; set_solver).
    apply Hag; try done; [apply Hx; set_solver|..]; apply Hne; try done;
      intros Hl'; by apply (Hx l); [set_solver|].
Qed.

(** Closing the goals of [hrep_swap] on a concrete store. *)
Ltac swap_side :=
  try done; node_simp;
  try match goal with H : ?h !! ?l = Some _ |- _ = _ <$> ?h !! ?l => rewrite H; simpl end;
  try mem_lookup;
  intros; rewrite !lookup_insert_ne by congruence; done.

(** [move_to] when [y] is the right child of [z]. *)
Lemma move_to_near np s ctx c z k v a cy y ky vy b :
  hrep np s (plug ctx (T c z k v a (T cy y ky vy E b))) → a ≠ E →
  wp (wr (ptr_of nilp b) (set_parent (Some y)) ;; move_to (Some y) (Some z)) s
    (λ _ s', hrep (nil_parent np (Some y) b) s' (plug ctx (T c y ky vy a b))).
Proof.
  intros Hs Ha. pose proof Hs as (Ht & Hc & Hnd & Hout & Hnil & Hthis)%hrep_facts.
  simpl in Ht, Hc, Hnd, Hout. destruct Ht as (Hz & Hra & Hy & _ & Hrb).
  assert (NoDup (y :: locs a ++ locs b) ∧
    ∀ l, l ∈ y :: locs a ++ locs b → l ∉ clocs ctx ∧ l ≠ nl) as [Hnd' Hout'].
  { clear -Hnd Hout; nodup_facts. split.
    - apply NoDup_cons. split; [set_solver|]. apply NoDup_app. set_solver.
    - intros l Hl. split; [set_solver|]. intros ->. set_solver. }
  pose proof (λ np' h' r', hrep_swap np np' s ctx _ _ a _ b c y ky vy h' r' Hs Hra Hrb Hnd' Hout')
    as Hfin. clear Hs Hnd' Hout'. destruct s as [h m]; simpl in *; subst m.
  destruct a as [|ca la ka va a1 a2]; [done|]. unfold move_to, transplant.
  destruct b as [|cb lb kb vb b1 b2], ctx as [|[[] cf lf kf vf sf] ctx]; simpl in *;
    nodup_facts; destruct_and?; step; repeat (wp_test; step);
    (apply Hfin; [..|try exact (ptr_of_plug_cons nl _ _ _ _)]); swap_side.
Qed.

(** ... and when [y] was unlinked from further down: it takes over both
    children. *)
Lemma move_to_far np s ctx c z k v a cy y ky vy yl yr yp b :
  hrep np s (plug ctx (T c z k v a b)) → a ≠ E → b ≠ E →
  y ∉ locs (plug ctx (T c z k v a b)) → y ≠ nl →
  mem s !! y = Some (Node ky vy cy yl yr yp) →
  wp ((let* zr := rd (Some z) n_right in wr (Some y) (set_right zr) ;;
       let* yr := rd (Some y) n_right in wr yr (set_parent (Some y))) ;;
      move_to (Some y) (Some z)) s
    (λ _ s', hrep np s' (plug ctx (T c y ky vy a b))).
Proof.
  intros Hs Ha Hb Hyt Hyn Hy.
  pose proof Hs as (Ht & Hc & Hnd & Hout & Hnil & Hthis)%hrep_facts.
  rewrite locs_plug in Hyt. simpl in Ht, Hc, Hnd, Hout, Hyt. destruct Ht as (Hz & Hra & Hrb).
  assert (NoDup (y :: locs a ++ locs b) ∧
    ∀ l, l ∈ y :: locs a ++ locs b → l ∉ clocs ctx ∧ l ≠ nl) as [Hnd' Hout'].
  { clear -Hnd Hout Hyt Hyn; nodup_facts. split.
    - apply NoDup_cons. split; [set_solver|]. apply NoDup_app. set_solver.
    - intros l Hl. split; [set_solver|]. intros ->. set_solver. }
  pose proof (λ np' h' r', hrep_swap np np' s ctx _ _ a _ b c y ky vy h' r' Hs Hra Hrb Hnd' Hout')
    as Hfin. clear Hs Hnd' Hout'. destruct s as [h m]; simpl in *; subst m.
  destruct a as [|ca la ka va a1 a2]; [done|]. destruct b as [|cb lb kb vb b1 b2]; [done|].
  unfold move_to, transplant.
  destruct ctx as [|[[] cf lf kf vf sf] ctx]; simpl in *;
    nodup_facts; destruct_and?; step; repeat (wp_test; step);
    (apply Hfin; [..|try exact (ptr_of_plug_cons nl _ _ _ _)]); swap_side.
Qed.

(** [remove_unlink] does what [splice] does; the sentinel's parent is set
    where [deleteFixup] will look for it. *)
Definition unlink_post ctx c a b (r : ptr * Color) s' : Prop :=
  let '(cy, ctx', x) := splice ctx c a b in
  r = (ptr_of nilp x, cy) ∧
  ∃ np', hrep np' s' (plug ctx' x) ∧ (x = E → np' = cpar ctx').

Lemma unlink_child_ok np s ctx d c z k v w :
  hrep np s (plug ctx (mk d c z k v E w)) →
  wp (transplant (Some z) (ptr_of nilp w) ;; ret (ptr_of nilp w, c)) s (λ r s',
    r = (ptr_of nilp w, c) ∧ ∃ np', hrep np' s' (plug ctx w) ∧ (w = E → np' = cpar ctx)).
Proof.
  intros Hs. apply wp_bind. eapply wp_mono; [by eapply wp_transplant_child|].
  intros [] s' [Hs' _]. apply wp_ret. split; [done|]. eexists; split; [exact Hs'|].
  by intros ->.
Qed.

(** The two-child case once [y] is found, next to [z] ... *)
Lemma unlink_near np s ctx c z k v a cy y ky vy b B (f : B) Q :
  hrep np s (plug ctx (T c z k v a (T cy y ky vy E b))) → a ≠ E →
  (∀ s', hrep (nil_parent np (Some y) b) s' (plug (Frame Right c y ky vy a :: ctx) b) → Q f s') →
  wp (wr (ptr_of nilp b) (set_parent (Some y))) s
    (λ _ s', wp (move_to (Some y) (Some z) ;; ret f) s' Q).
Proof.
  intros Hs Ha HQ.
  eapply wp_mono; [by eapply wp_bind_inv, move_to_near|]. intros [] s' Hm. apply wp_bind.
  eapply wp_mono; [exact Hm|]. intros [] s2 Hs2. by apply HQ.
Qed.

(** ... and further down. *)
Lemma unlink_far np s path ctx c z k v a cy y ky vy xr B (f : B) Q :
  hrep np s (plug (path ++ Frame Right c z k v a :: ctx) (T cy y ky vy E xr)) → a ≠ E →
  path ≠ [] →
  (∀ s', hrep (nil_parent np (cpar path) xr) s'
           (plug (path ++ Frame Right c y ky vy a :: ctx) xr) → Q f s') →
  wp (transplant (Some y) (ptr_of nilp xr)) s (λ _ s',
    wp (let* zr := rd (Some z) n_right in wr (Some y) (set_right zr) ;;
        let* yr := rd (Some y) n_right in wr yr (set_parent (Some y))) s'
      (λ _ s', wp (move_to (Some y) (Some z) ;; ret f) s' Q)).
Proof.
  intros Hs Ha Hpath HQ. pose proof (hrep_nodup _ _ _ _ _ _ Hs) as Hnd.
  pose proof (focus_ne_nil _ _ _ _ _ _ _ _ _ _ _ Hs) as Hyn.
  pose proof (owned_lookup _ _ _ _ _ _ _ _ _ (hr_owned _ _ _ _ _ Hs)) as Hy.
  destruct path as [|g path]; [done|].
  eapply wp_mono; [apply wp_transplant_child with (d := Left) in Hs; exact Hs|].
  intros [] s1 [Hs1 Hy1]. rewrite Hy in Hy1.
  assert (y ∉ locs (plug ((g :: path) ++ Frame Right c z k v a :: ctx) xr)) as Hyout.
  { rewrite locs_plug. simpl in Hnd |- *. nodup_facts. set_solver. }
  rewrite plug_app in Hs1, Hyout.
  change (plug (Frame Right c z k v a :: ctx) ?u) with (plug ctx (T c z k v a u)) in Hs1, Hyout.
  eapply wp_mono.
  { eapply wp_bind_inv. eapply move_to_far; [exact Hs1|done| |exact Hyout|done|exact Hy1].
    apply (plug_ne path). unfold fill. by destruct (f_side g). }
  intros [] s2 Hm2. apply wp_bind.
  eapply wp_mono; [exact Hm2|]. intros [] s3 Hs3. apply HQ. by rewrite plug_app.
Qed.

Lemma unlink_two_ok fuel np s ctx c z k v a cb lb kb vb ab bb :
  hrep np s (plug ctx (T c z k v a (T cb lb kb vb ab bb))) → a ≠ E → theight ab < fuel →
  wp (remove_unlink fuel (Some z) c) s (unlink_post ctx c a (T cb lb kb vb ab bb)).
Proof.
  intros Hs Ha Hf. unfold unlink_post.
  destruct (zmin [] cb lb kb vb ab bb) as [path [[[[cy y] ky] vy] xr]] eqn:Hz.
  assert (splice ctx c a (T cb lb kb vb ab bb) =
    (cy, path ++ Frame Right c y ky vy a :: ctx, xr)) as ->.
  { unfold splice. rewrite Hz. by destruct a. }
  pose proof (hrep_nodup _ _ _ _ _ _ Hs) as Hnd. pose proof (hrep_nil_out _ _ _ _ _ _ Hs) as Hout.
  destruct a as [|ca la ka va a1 a2]; [done|]. simpl in Hnd, Hout.
  unfold remove_unlink. nodup_facts. tree_step.
  eapply wp_mono;
    [eapply (minimum_loop fuel np s (Frame Right c z k v _ :: ctx)); [exact Hs|exact Hz|done]|].
  intros ? ? [-> ->].
  destruct (zmin_plug _ _ _ _ _ _ _ _ _ _ _ _ _ Hz) as [Hp _].
  destruct ab as [|c' l' k' v' a' b'].
  - injection Hz as <- <- <- <- <- <-. tree_step.
    eapply unlink_near; [exact Hs|done|]. intros s' Hs'. split; [done|].
    eexists; split; [exact Hs'|]. by intros ->.
  - destruct (zmin_path _ _ _ _ _ _ _ _ _ Hz) as (g & rest & ->); [done|].
    simpl in Hp. change (hrep np s (plug (Frame Right c z k v (T ca la ka va a1 a2) :: ctx)
      (T cb lb kb vb (T c' l' k' v' a' b') bb))) in Hs.
    rewrite <-Hp in Hs. change (plug rest (fill g (T cy y ky vy E xr)))
      with (plug (g :: rest) (T cy y ky vy E xr)) in Hs. rewrite <-plug_app in Hs.
    pose proof (hrep_nodup _ _ _ _ _ _ Hs) as Hnd. rewrite clocs_app in Hnd. simpl in Hnd.
    assert (f_loc g ≠ z) by (nodup_facts; done). clear Hnd.
    remember ((g :: rest) ++ Frame Right c z k v (T ca la ka va a1 a2) :: ctx) as full eqn:Hfull.
    assert (cpar full = Some (f_loc g)) as Hpar by by subst.
    tree_step. subst full.
    eapply (unlink_far np s (g :: rest)); [exact Hs|done|done|]. intros s' Hs'. split; [done|].
    eexists; split; [exact Hs'|]. by intros ->.
Qed.

(** [remove_unlink] at any node. *)
Lemma unlink_ok fuel np s ctx c z k v a b :
  hrep np s (plug ctx (T c z k v a b)) → theight b ≤ fuel →
  wp (remove_unlink fuel (Some z) c) s (unlink_post ctx c a b).
Proof.
  intros Hs Hf. pose proof (hrep_nil_out _ _ _ _ _ _ Hs) as Hout.
  destruct a as [|ca la ka va a1 a2].
  - unfold remove_unlink, unlink_post. simpl. tree_step. apply wp_bind_inv.
    by apply (unlink_child_ok np s ctx Left c z k v b).
  - destruct b as [|cb lb kb vb b1 b2].
    + simpl in Hout. nodup_facts. unfold remove_unlink, unlink_post. simpl. tree_step.
      apply wp_bind_inv.
      by apply (unlink_child_ok np s ctx Right c z k v (T ca la ka va a1 a2)).
    + eapply unlink_two_ok; [done..|]. simpl in Hf. lia.
Qed.
End unlink.
