(* ===== verification/RBTreeRemove.v ===== *)
(** * RBTree.hpp: removal

    One iteration of [deleteFixup]'s loop is one step of [del_fix]; [remove]
    unlinks a node as [splice] does and repairs. *)
From stdpp Require Import base gmap list strings.
From S2P Require Import Prelude OrderedMap RBTheory RBHeap RBTree RBTreeRep RBTreeInsert RBTreeUnlink.

Section fixup.
Context {A : Type} `{!KeyOrder A} (A0 : A) (nl : loc).
Abbreviation st := (mstate A A RBTree).
Abbreviation hrep := (hrep A0 nl).
Abbreviation nilp := (Some nl).
Implicit Types (s : st) (t a b w : tree A A) (ctx rest : list (frame A A)) (np : ptr).

(** [parent_of] at the focus [t], which may be empty: the sentinel then has
    the right parent. *)
Ltac focus_parent t Hnp H :=
  lazymatch goal with
  | |- wp (parent_of (ptr_of _ t)) ?s _ =>
      focus_sub t H; eapply wp_parent_of; [exact H|exact Hnp|]; unfocus H; tree_simp
  end.
Ltac fix_step t Hnp :=
  repeat (first [ with_hrep ltac:(fun H => focus_parent t Hnp H) | tree_head | wp_test ]).

Definition case1_post np p rest t (w' : ptr) s' : Prop :=
  let '(p', rest') := del_case1 p rest in
  w' = ptr_of nilp (f_sib p') ∧ f_loc p' = f_loc p ∧ hrep np s' (plug (p' :: rest') t).

Lemma wp_delete_case1 np s d c p pk pv w rest t :
  hrep np s (plug (Frame d c p pk pv w :: rest) t) → w ≠ E → (t = E → np = Some p) →
  wp (match d with Left => delete_case1_left (ptr_of nilp t) (ptr_of nilp w)
                 | Right => delete_case1_right (ptr_of nilp t) (ptr_of nilp w) end)
    s (case1_post np (Frame d c p pk pv w) rest t).
Proof.
  intros Hs Hw Hnp. unfold case1_post, delete_case1_left, delete_case1_right.
  destruct w as [|[] wl wk wv wa wb]; [done|..]; destruct d; unfocus Hs;
    fix_step t Hnp; simpl; eauto.
Qed.

Definition step_post np (r : (list (frame A A) * tree A A) + tree A A) (x' : ptr) s' : Prop :=
  match r with
  | inl (ctx', t') => x' = ptr_of nilp t' ∧ hrep np s' (plug ctx' t')
  | inr t' => x' = ptr_of nilp t' ∧ hrep np s' t'
  end.

Lemma wp_delete_cases np s d c p pk pv cw y wk wv wl wr rest t r :
  hrep np s (plug (Frame d c p pk pv (T cw y wk wv wl wr) :: rest) t) →
  (t = E → np = Some p) →
  del_step (Frame d c p pk pv (T cw y wk wv wl wr)) rest t = Some r →
  wp (match d with Left => delete_cases_left (ptr_of nilp t) (Some y)
                 | Right => delete_cases_right (ptr_of nilp t) (Some y) end)
    s (step_post np r).
Proof.
  intros Hs Hnp Hr. unfold delete_cases_left, delete_cases_right.
  destruct d; destruct wl as [|[] l1 k1 v1 a1 b1], wr as [|[] l2 k2 v2 a2 b2];
    unfocus Hs; injection Hr as <-; fix_step t Hnp; simpl; split; try done.
Qed.

Lemma del_step_inl p rest t ctx' t' :
  del_step p rest t = Some (inl (ctx', t')) → t' ≠ E.
Proof.
  unfold del_step. destruct (f_sib p) as [|? ? ? ? wl wr]; [done|]. cbv zeta.
  repeat case_decide.
  - intros [= _ <-]. by destruct (f_side p).
  - by destruct (f_side p); [destruct wl|destruct wr].
  - done.
Qed.

(** One iteration at a black focus below the root. *)
Lemma wp_deleteFixup_body np s f rest t f' rest' r :
  hrep np s (plug (f :: rest) t) → (t = E → np = Some (f_loc f)) →
  del_case1 f rest = (f', rest') → del_step f' rest' t = Some r →
  wp (deleteFixup_body (ptr_of nilp t)) s (step_post np r).
Proof.
  intros Hs Hnp H1 H2. destruct f as [d c p pk pv w]. simpl in Hnp.
  assert (w ≠ E) as Hw.
  { intros ->. unfold del_case1 in H1. simpl in H1. injection H1 as <- <-. done. }
  pose proof (sib_ne _ _ _ _ _ _ _ _ _ _ _ _ Hs Hw) as Hne.
  pose proof (wp_delete_case1 _ _ _ _ _ _ _ _ _ _ Hs Hw Hnp) as Hcase1.
  unfold deleteFixup_body. unfold case1_post in Hcase1. rewrite H1 in Hcase1.
  assert (f_side f' = d) as Hd.
  { unfold del_case1 in H1. destruct w as [|[] ?????]; injection H1 as <- <-; done. }
  destruct f' as [d' c' p' pk' pv' [|cw y wk wv wl wr]]; [done|]. simpl in Hd. subst d'.
  destruct d; unfocus Hs; fix_step t Hnp; (eapply wp_mono; [exact Hcase1|]);
    simpl; intros w' s' (-> & -> & Hs'); simpl;
    first [ by apply (wp_delete_cases _ _ Left _ _ _ _ _ _ _ _ _ _ _ _ _ Hs')
          | by apply (wp_delete_cases _ _ Right _ _ _ _ _ _ _ _ _ _ _ _ _ Hs') ].
Qed.

Lemma deleteFixup_iter_root np s t :
  hrep np s t → wp (deleteFixup_iter (ptr_of nilp t)) s (λ r s', s' = s ∧ r = inr (ptr_of nilp t)).
Proof. intros Hs. unfold deleteFixup_iter. by tree_step. Qed.

(** The loop stops at a focus whose blackening completes the repair. *)
Definition fixed np t' (x : ptr) s' : Prop :=
  ∃ ctx t, x = ptr_of nilp t ∧ hrep np s' (plug ctx t) ∧ plug ctx (paint BLACK t) = t'.

Lemma deleteFixup_loop fuel np s ctx t t' :
  del_fix fuel ctx t = Some t' → hrep np s (plug ctx t) → (t = E → np = cpar ctx) →
  wp (loop (S fuel) deleteFixup_iter (ptr_of nilp t)) s (fixed np t').
Proof.
  revert s ctx t. induction fuel as [|fuel IH]; [done|].
  intros s ctx t Hfix Hs Hnp. apply wp_loop. destruct ctx as [|f rest]; cbn [del_fix] in Hfix.
  { injection Hfix as <-. eapply wp_mono; [by eapply deleteFixup_iter_root|].
    intros ? ? [-> ->]. by exists [], t. }
  pose proof (root_ne _ _ _ _ _ _ _ Hs) as Hne. unfold deleteFixup_iter. do 2 tree_head.
  rewrite bool_decide_eq_true_2 by done.
  apply wp_bind. eapply wp_is_black; [exact Hs|].
  case_decide as Hred; [rewrite bool_decide_eq_false_2 by congruence|].
  { injection Hfix as <-. apply wp_ret. by exists (f :: rest), t. }
  rewrite bool_decide_eq_true_2 by by destruct (color t).
  destruct (del_case1 f rest) as [f' rest'] eqn:H1.
  destruct (del_step f' rest' t) as [r|] eqn:H2; [|done].
  apply wp_bind. eapply wp_mono; [by eapply wp_deleteFixup_body|].
  intros x' s' Hpost. apply wp_ret. destruct r as [[ctx' t1]|t1]; destruct Hpost as [-> Hs'].
  - apply IH with ctx'; [done|done|]. intros ->. by apply del_step_inl in H2.
  - injection Hfix as <-. apply wp_loop. eapply wp_mono; [by eapply deleteFixup_iter_root|].
    intros ? ? [-> ->]. by exists [], t1.
Qed.

Lemma wp_deleteFixup fuel np s ctx t t' Q :
  del_fix fuel ctx t = Some t' → hrep np s (plug ctx t) → (t = E → np = cpar ctx) →
  (∀ s', hrep np s' t' → Q tt s') →
  wp (deleteFixup (S fuel) (ptr_of nilp t)) s Q.
Proof.
  intros Hfix Hs Hnp HQ. apply wp_bind. eapply wp_mono; [by eapply deleteFixup_loop|].
  intros x s' (ctx' & t1 & -> & Hs' & <-). destruct t1 as [|c l k v a b].
  - eapply wp_paint_nil; [exact Hs'|]. exact HQ.
  - eapply wp_paint; [exact Hs'|]. exact HQ.
Qed.
End fixup.


Section remove.
Context {A : Type} `{!KeyOrder A} (A0 : A) (nl : loc).
Abbreviation st := (mstate A A RBTree).
Abbreviation hrep := (hrep A0 nl).
Abbreviation nilp := (Some nl).
Implicit Types (s : st) (t a b : tree A A) (ctx : list (frame A A)) (np : ptr).

(** The last statement of [remove] detaches the sentinel from the tree. *)
Lemma wp_reset_nil np s t Q :
  hrep np s t → (∀ s', hrep None s' t → Q tt s') → wp (wr nilp (set_parent None)) s Q.
Proof.
  intros Hs HQ. eapply wp_wr; [eapply hr_nil, Hs|]. apply HQ.
  destruct Hs as [[Hr Hnd] Hn Hout Ht]. split; simpl; [split|..]; try done.
  - eapply rep_agree; [|done]. intros l Hl. apply lookup_insert_ne. set_solver.
  - by rewrite lookup_insert_eq.
Qed.

Lemma remove_absent fuel np s key t :
  hrep np s t → theight t < fuel → (zsearch key [] t).2 = E →
  wp (remove fuel key) s (λ _ s', s' = s).
Proof.
  intros Hs Hf Hz. unfold remove. apply wp_bind. eapply wp_searchNode; [done..|].
  rewrite Hz. by tree_step.
Qed.

(** On a key that is present, [remove] unlinks its node and repairs as
    [tree_remove] does. *)
Lemma remove_found fuel np s key t ctx c z k v a b t' :
  hrep np s t → theight t < S fuel → zsearch key [] t = (ctx, T c z k v a b) →
  tree_remove fuel ctx c a b = Some t' →
  wp (remove (S fuel) key) s (λ _ s', hrep None s' t').
Proof.
  intros Hs Hf Hz Hrem. unfold remove. apply wp_bind. eapply wp_searchNode; [done..|].
  rewrite Hz. simpl. pose proof (theight_plug ctx (T c z k v a b)) as Hh.
  rewrite <-(zsearch_plug _ [] _ _ _ Hz : plug _ _ = t) in Hs, Hf.
  pose proof (focus_ne_nil _ _ _ _ _ _ _ _ _ _ _ Hs) as Hzn. tree_step.
  eapply wp_mono; [eapply unlink_ok; [exact Hs|simpl in Hh; lia]|].
  intros r s' Hpost. unfold unlink_post in Hpost. unfold tree_remove in Hrem.
  destruct (splice ctx c a b) as [[cy ctx'] x].
  destruct Hpost as (-> & np' & Hs' & Hnp). apply wp_bind.
  case_decide as Hcy.
  - rewrite bool_decide_eq_true_2 by done. eapply wp_deleteFixup; [done|exact Hs'|done|].
    intros s2 Hs2. tree_step. by eapply wp_reset_nil.
  - rewrite bool_decide_eq_false_2 by done. injection Hrem as <-. apply wp_ret.
    tree_step. by eapply wp_reset_nil.
Qed.
End remove.
