(* ===== verification/RBTreeQuery.v ===== *)
(** * RBTree.hpp: the read-only operations

    [min], [max], the traversals [inOrder] and [levelOrder], [height], the
    self-check [verifyRBProperties] and [clear], on any represented tree: each
    leaves the state alone and returns a function of the tree. *)
From stdpp Require Import base gmap list strings.
From S2P Require Import Prelude OrderedMap RBTheory RBCheck RBHeap RBTree RBTreeRep RBTreeInsert RBTreeUnlink.

(** ** The operations *)
Section queries.
Context {A : Type} `{!KeyOrder A} (A0 : A) (nl : loc).
Abbreviation st := (mstate A A RBTree).
Abbreviation hrep := (hrep A0 nl).
Abbreviation nilp := (Some nl).
Implicit Types (s : st) (t a b u : tree A A) (ctx : list (frame A A)) (np : ptr).

(** Enter the children of the focus. *)
Ltac enter Hs :=
  pose proof (focus_ne_nil _ _ _ _ _ _ _ _ _ _ _ Hs);
  lazymatch type of Hs with
  | RBTreeRep.hrep _ _ ?np ?s (plug ?ctx (T ?c ?l ?k ?v ?a ?b)) =>
      let Ha := fresh "Hl" in let Hb := fresh "Hr" in
      assert (hrep np s (plug (Frame Left c l k v b :: ctx) a)) as Ha by exact Hs;
      assert (hrep np s (plug (Frame Right c l k v a :: ctx) b)) as Hb by exact Hs
  end.
Local Tactic Notation "run" uconstr(H) := eapply wp_pure_run; [apply H; first [eassumption|lia]|].

Lemma getHeight_ok fuel np s ctx u :
  hrep np s (plug ctx u) → theight u < fuel →
  getHeight fuel (ptr_of nilp u) s = Ok (Z.of_nat (theight u)) s.
Proof.
  revert ctx u. induction fuel as [|fuel IH]; [lia|]. intros ctx u Hs Hf. apply wp_eq.
  cbn [getHeight]. destruct u as [|c l k v a b]; [by tree_step|]. simpl in Hf.
  enter Hs. tree_step. run (IH _ _ Hl). tree_step. run (IH _ _ Hr). tree_step.
  split; [done|]. simpl theight. lia.
Qed.

Lemma clear_ok fuel np s ctx u :
  hrep np s (plug ctx u) → theight u < fuel → clear fuel (ptr_of nilp u) s = Ok tt s.
Proof.
  revert ctx u. induction fuel as [|fuel IH]; [lia|]. intros ctx u Hs Hf. apply wp_eq.
  cbn [clear]. destruct u as [|c l k v a b]; [by tree_step|]. simpl in Hf.
  enter Hs. tree_step. run (IH _ _ Hl). tree_step.
  by run (IH _ _ Hr).
Qed.

Lemma color_read np s ctx u : hrep np s (plug ctx u) → rd (ptr_of nilp u) n_color s = Ok (color u) s.
Proof. intros Hs. apply wp_eq. destruct u; tree_simp; by tree_step. Qed.

Lemma checkRedProperty_ok fuel np s ctx u :
  hrep np s (plug ctx u) → theight u < fuel →
  checkRedProperty fuel (ptr_of nilp u) s = Ok (red_ok u) s.
Proof.
  revert ctx u. induction fuel as [|fuel IH]; [lia|]. intros ctx u Hs Hf. apply wp_eq.
  cbn [checkRedProperty]. destruct u as [|c l k v a b]; [by tree_step|]. simpl in Hf.
  enter Hs. tree_step. simpl red_ok. destruct c; tree_step.
  - run (color_read _ _ _ _ Hl). destruct (color a) eqn:Ea; tree_step.
    { rewrite bool_decide_eq_false_2 by naive_solver. done. }
    run (color_read _ _ _ _ Hr). destruct (color b) eqn:Eb; tree_step.
    { rewrite bool_decide_eq_false_2 by naive_solver. done. }
    rewrite (bool_decide_eq_true_2 (RED = RED → _)) by done. simpl.
    run (IH _ _ Hl). destruct (red_ok a); tree_step; [|done].
    by run (IH _ _ Hr).
  - rewrite (bool_decide_eq_true_2 (BLACK = RED → _)) by done. simpl.
    run (IH _ _ Hl). destruct (red_ok a); tree_step; [|done].
    by run (IH _ _ Hr).
Qed.

Lemma checkBlackHeight_ok fuel np s ctx u n acc :
  hrep np s (plug ctx u) → theight u < fuel →
  checkBlackHeight fuel (ptr_of nilp u) n acc s = Ok (acc ++ leaves u n) s.
Proof.
  revert ctx u n acc. induction fuel as [|fuel IH]; [lia|]. intros ctx u n acc Hs Hf.
  apply wp_eq. cbn [checkBlackHeight]. destruct u as [|c l k v a b]; [by tree_step|].
  simpl in Hf. enter Hs. tree_step. run (IH _ _ _ _ Hl). tree_step.
  run (IH _ _ _ _ Hr). split; [done|]. simpl leaves.
  by rewrite app_assoc.
Qed.

(** The self-check returns its verdict on the represented tree. *)
Lemma verifyRBProperties_ok fuel np s t :
  hrep np s t → theight t < fuel → verifyRBProperties fuel s = Ok (rb_check t) s.
Proof.
  intros Hs Hf. apply wp_eq. unfold verifyRBProperties, rb_check.
  destruct t as [|c l k v a b] eqn:Et; [by tree_step|]. rewrite <-Et in Hf |- *.
  pose proof (focus_ne_nil _ _ _ _ [] _ _ _ _ _ _ Hs). tree_step.
  subst t. destruct c; tree_step; simpl color; [done|].
  change (Some l) with (ptr_of nilp (T BLACK l k v a b)).
  run (checkRedProperty_ok _ _ _ [] _ Hs). destruct (red_ok _); cbn [negb]; tree_step; [|done].
  run (checkBlackHeight_ok _ _ _ [] _ _ _ Hs). rewrite app_nil_l.
  destruct (leaves _ _) eqn:El; [by apply leaves_nonempty in El|]. done.
Qed.

(** *** Minimum and maximum *)
Lemma maximum_loop fuel np s ctx c l k v a b :
  hrep np s (plug ctx (T c l k v a b)) → theight b < fuel →
  wp (maximum fuel (Some l)) s (λ r s', s' = s ∧ ∃ ctx' c' l' k' v' a',
    r = Some l' ∧ plug ctx' (T c' l' k' v' a' E) = plug ctx (T c l k v a b) ∧
    last (elems (T c l k v a b)) = Some (k', v')).
Proof.
  revert fuel ctx c l k v a. induction b as [|cb lb kb vb ab _ bb IHb];
    intros fuel ctx c l k v a Hs Hf; (destruct fuel as [|fuel]; [lia|]);
    unfold maximum; apply wp_loop; unfold maximum_iter; simpl in Hf.
  - tree_step. split; [done|]. do 6 eexists. split_and!; [done..|]. apply last_snoc.
  - assert (hrep np s (plug (Frame Right c l k v a :: ctx) (T cb lb kb vb ab bb))) as Hr
      by exact Hs.
    pose proof (focus_ne_nil _ _ _ _ _ _ _ _ _ _ _ Hr). tree_step.
    eapply wp_mono; [apply (IHb fuel _ _ _ _ _ _ Hr); lia|].
    intros r s' (-> & ctx' & c' & l' & k' & v' & a' & -> & Hp & Hl). split; [done|].
    do 6 eexists. split_and!; [done|exact Hp|]. rewrite <-Hl. simpl.
    rewrite !last_app, !last_cons, !last_app, !last_cons. by destruct (last (elems bb)).
Qed.

Lemma min_ok fuel np s t :
  hrep np s t → theight t < fuel →
  min fuel s = match elems t with
               | [] => Throw "Tree is empty"%string s
               | (k, _) :: _ => Ok k s
               end.
Proof.
  intros Hs Hf. destruct t as [|c l k v a b].
  { unfold min, bind, get_this, gets. rewrite (hr_this _ _ _ _ _ Hs). simpl.
    by rewrite bool_decide_eq_true_2. }
  destruct (zmin [] c l k v a b) as [path [[[[cy y] ky] vy] xr]] eqn:Hz.
  destruct (zmin_plug _ _ _ _ _ _ _ _ _ _ _ _ _ Hz) as [Hp Hcl]. simpl in Hp, Hcl.
  assert (elems (T c l k v a b) = (ky, vy) :: elems xr ++ cright path) as ->.
  { by rewrite <-Hp, elems_plug, Hcl. }
  apply wp_eq. pose proof (focus_ne_nil _ _ _ _ [] _ _ _ _ _ _ Hs). unfold min. tree_step.
  eapply wp_mono; [eapply (minimum_loop _ _ _ _ _ []); [exact Hs|exact Hz|simpl in Hf; lia]|].
  intros r s' [-> ->]. rewrite <-Hp in Hs. by tree_step.
Qed.

Lemma max_ok fuel np s t :
  hrep np s t → theight t < fuel →
  max fuel s = match last (elems t) with
               | None => Throw "Tree is empty"%string s
               | Some (k, _) => Ok k s
               end.
Proof.
  intros Hs Hf. destruct t as [|c l k v a b].
  { unfold max, bind, get_this, gets. rewrite (hr_this _ _ _ _ _ Hs). simpl.
    by rewrite bool_decide_eq_true_2. }
  pose proof (focus_ne_nil _ _ _ _ [] _ _ _ _ _ _ Hs).
  assert (wp (max fuel) s (λ r s', s' = s ∧ ∃ v', last (elems (T c l k v a b)) = Some (r, v')))
    as (r & s' & -> & -> & v' & ->)%wp_Ok; [|done].
  unfold max. tree_step.
  eapply wp_mono; [eapply (maximum_loop _ _ _ []); [exact Hs|simpl in Hf; lia]|].
  intros r s' (-> & ctx' & c' & l' & k' & v' & a' & -> & Hp & Hl).
  simpl plug in Hp at 2. rewrite <-Hp in Hs. tree_step. rewrite Hl. eauto.
Qed.

(** *** In-order traversal *)

(** The stack holds the nodes of the path that wait for their left subtree. *)
Fixpoint stack_of ctx : list ptr :=
  match ctx with
  | [] => []
  | Frame Left _ l _ _ _ :: ctx' => Some l :: stack_of ctx'
  | Frame Right _ _ _ _ _ :: ctx' => stack_of ctx'
  end.

Lemma stack_of_nil ctx : stack_of ctx = [] → cents ctx = [].
Proof. induction ctx as [|[[] ?????] ctx IH]; simpl; [done..|]. auto. Qed.

Lemma stack_of_cons ctx u x st' :
  stack_of ctx = x :: st' → ∃ c l k v a w rest,
    x = Some l ∧ st' = stack_of rest ∧ plug ctx u = plug rest (T c l k v a w) ∧
    cents ctx = (k, v, c) :: ents w ++ cents rest.
Proof.
  revert u. induction ctx as [|[[] c l k v w] ctx IH]; intros u; simpl; [done|..].
  - intros [= <- <-]. by exists c, l, k, v, u, w, ctx.
  - apply IH.
Qed.

Lemma push_left_ok fuel np s ctx u :
  hrep np s (plug ctx u) → theight u < fuel →
  wp (push_left fuel (stack_of ctx) (ptr_of nilp u)) s (λ r s', s' = s ∧ ∃ ctx',
    r = stack_of ctx' ∧ plug ctx' E = plug ctx u ∧ cents ctx' = ents u ++ cents ctx).
Proof.
  revert fuel ctx. induction u as [|c l k v a IHa b _]; intros fuel ctx Hs Hf;
    (destruct fuel as [|fuel]; [lia|]); unfold push_left; apply wp_loop;
    unfold push_left_iter; simpl in Hf.
  - tree_step. split; [done|]. by exists ctx.
  - enter Hs. tree_step.
    eapply wp_mono; [apply (IHa fuel (Frame Left c l k v b :: ctx) Hl); lia|].
    intros r s' (-> & ctx' & -> & Hp & Hc). split; [done|]. exists ctx'.
    split_and!; [done|exact Hp|]. rewrite Hc. simpl. by rewrite <-app_assoc.
Qed.

Lemma inOrder_loop fuel0 fuel np s ctx u out :
  hrep np s (plug ctx u) → theight (plug ctx u) < fuel0 →
  length (ents u ++ cents ctx) < fuel →
  loop fuel (inOrder_iter fuel0) (stack_of ctx, ptr_of nilp u, out) s =
    Ok (out ++ ents u ++ cents ctx) s.
Proof.
  revert ctx u out. induction fuel as [|fuel IH]; [lia|].
  intros ctx u out Hs Hf0 Hf. apply wp_eq, wp_loop. unfold inOrder_iter. do 2 tree_head.
  case_bool_decide as Hgo.
  - apply wp_bind. eapply wp_mono.
    { eapply push_left_ok; [exact Hs|]. pose proof (theight_plug ctx u). lia. }
    intros r s' (-> & ctx' & -> & Hp & Hc). rewrite <-Hc in Hf |- *.
    destruct (stack_of ctx') as [|x st'] eqn:Hst.
    { destruct Hgo as [Hu|Hst0]; [destruct u as [|c l k v a b]; [done|]|].
      - apply stack_of_nil in Hst. rewrite Hst in Hc. simpl in Hc.
        by destruct (ents a).
      - destruct (stack_of ctx) eqn:Hst1; [done|].
        apply (stack_of_cons _ u) in Hst1 as (? & ? & ? & ? & ? & ? & ? & _ & _ & _ & Hc1).
        apply stack_of_nil in Hst. rewrite Hst, Hc1 in Hc. by destruct (ents u). }
    apply (stack_of_cons _ E) in Hst as (c & l & k & v & a & w & rest & -> & -> & Hp' & Hc').
    rewrite <-Hp, Hp' in Hs, Hf0. unfold entry. tree_step.
    rewrite Hc' in Hf |- *. simpl in Hf.
    apply wp_eq. change (RBTreeRep.hrep A0 nl np s (plug (Frame Right c l k v a :: rest) w)) in Hs.
    etrans; [apply (IH (Frame Right c l k v a :: rest) w (out ++ [(k, v, c)])); [exact Hs|exact Hf0|simpl; lia]|].
    simpl. by rewrite <-app_assoc.
  - apply wp_ret. split; [done|].
    assert (u = E ∧ stack_of ctx = []) as [-> Hst%stack_of_nil].
    { split; [|by destruct (stack_of ctx); [|destruct Hgo; right]].
      destruct u as [|c l k v a b]; [done|]. destruct Hgo. left. simpl.
      pose proof (focus_ne_nil _ _ _ _ _ _ _ _ _ _ _ Hs). congruence. }
    rewrite Hst. simpl. by rewrite app_nil_r.
Qed.

(** [inOrder] prints the entries in key order. *)
Lemma inOrder_ok fuel np s t :
  hrep np s t → tsize t < fuel → inOrder fuel s = Ok (ents t) s.
Proof.
  intros Hs Hf. apply wp_eq. unfold inOrder. tree_step.
  pose proof (theight_tsize t).
  eapply wp_pure_run; [apply (inOrder_loop _ _ np _ [] t []); [exact Hs|simpl; lia|]|].
  - simpl. rewrite app_nil_r, length_ents. done.
  - simpl. by rewrite app_nil_r.
Qed.

(** *** Level-order traversal *)
Definition subtree np s u : Prop := u ≠ E ∧ ∃ ctx, hrep np s (plug ctx u).

Lemma subtree_kids np s u : subtree np s u → Forall (subtree np s) (kids u).
Proof.
  intros [Hu [ctx Hs]]. destruct u as [|c l k v a b]; [done|]. enter Hs. simpl.
  apply Forall_app.
  split; [destruct a|destruct b]; constructor; try done; split; try done; eauto.
Qed.

Lemma level_ok np s us q out :
  Forall (subtree np s) us →
  level (length us) ((ptr_of nilp <$> us) ++ q) out s =
    Ok (q ++ (ptr_of nilp <$> (us ≫= kids)), out ++ concat (root_ent <$> us)) s.
Proof.
  revert q out. induction us as [|u us IH]; intros q out Hus.
  { simpl. by rewrite !app_nil_r. }
  apply Forall_cons in Hus as [[Hu [ctx Hs]] Hus]. destruct u as [|c l k v a b]; [done|].
  apply wp_eq. cbn [length level fmap list_fmap app].
  assert (∀ (q : list ptr), (if bool_decide (ptr_of nilp a ≠ nilp) then q ++ [ptr_of nilp a] else q)
    = q ++ (ptr_of nilp <$> (match a with E => [] | _ => [a] end))) as Ha.
  { enter Hs. intros q'. destruct a; [by rewrite bool_decide_eq_false_2, app_nil_r by (simpl; congruence)|].
    apply focus_ne_nil in Hl. by rewrite bool_decide_eq_true_2 by (simpl; congruence). }
  assert (∀ (q : list ptr), (if bool_decide (ptr_of nilp b ≠ nilp) then q ++ [ptr_of nilp b] else q)
    = q ++ (ptr_of nilp <$> (match b with E => [] | _ => [b] end))) as Hb.
  { enter Hs. intros q'. destruct b; [by rewrite bool_decide_eq_false_2, app_nil_r by (simpl; congruence)|].
    apply focus_ne_nil in Hr. by rewrite bool_decide_eq_true_2 by (simpl; congruence). }
  pose proof (focus_ne_nil _ _ _ _ _ _ _ _ _ _ _ Hs). unfold entry. tree_step.
  rewrite Ha, Hb, <-!app_assoc, <-fmap_app. eapply wp_pure_run; [by apply IH|].
  split; [done|]. rewrite bind_cons. cbn [concat root_ent kids].
  by rewrite !fmap_app, <-!app_assoc.
Qed.

Lemma levelOrder_loop fuel np s us out :
  Forall (subtree np s) us → length (forest_levels us) < fuel →
  loop fuel levelOrder_iter (ptr_of nilp <$> us, out) s = Ok (out ++ forest_levels us) s.
Proof.
  revert us out. induction fuel as [|fuel IH]; [lia|]. intros us out Hus Hf.
  apply wp_eq, wp_loop. unfold levelOrder_iter. destruct us as [|u us'] eqn:Hu.
  { simpl. apply wp_ret. by rewrite app_nil_r. }
  rewrite <-Hu in *. rewrite bool_decide_eq_true_2 by by subst.
  apply wp_bind. rewrite length_fmap. eapply wp_pure_run.
  { rewrite <-(app_nil_r (ptr_of nilp <$> us)). by apply (level_ok np). }
  assert (forest_levels us = concat (root_ent <$> us) :: forest_levels (us ≫= kids)) as Hl.
  { apply forest_levels_step; [by subst|]. eapply Forall_impl; [done|]. by intros ? [? _]. }
  rewrite Hl in Hf |- *.
  apply wp_ret, wp_eq. simpl. etrans; [apply IH|].
  - apply Forall_bind. eapply Forall_impl; [done|]. apply subtree_kids.
  - simpl in Hf. lia.
  - by rewrite <-app_assoc.
Qed.

Lemma levelOrder_ok fuel np s t :
  hrep np s t → theight t < fuel → levelOrder fuel s = Ok (levels t) s.
Proof.
  intros Hs Hf. apply wp_eq. unfold levelOrder. tree_step.
  destruct t as [|c l k v a b] eqn:Et; [by tree_step|]. rewrite <-Et in *.
  pose proof Hs as Hs'. rewrite Et in Hs'.
  pose proof (focus_ne_nil _ _ _ _ [] _ _ _ _ _ _ Hs').
  assert (ptr_of nilp t ≠ nilp) by (subst; simpl; congruence). wp_test.
  assert (forest_levels [t] = levels t) as Hl by apply zip_app_nil_r.
  rewrite <-Hl. eapply wp_pure_run; [|split; [done|reflexivity]].
  apply (levelOrder_loop fuel np s [t] []).
  - constructor; [|done]. split; [by subst|]. by exists [].
  - by rewrite Hl, length_levels.
Qed.

(** *** Height and emptiness *)
Lemma height_ok fuel np s t :
  hrep np s t → theight t < fuel → height fuel s = Ok (Z.of_nat (theight t)) s.
Proof.
  intros Hs Hf. apply wp_eq. unfold height. tree_step.
  eapply wp_pure_run; [by apply (getHeight_ok _ np _ [])|done].
Qed.

Lemma empty_ok np s t : hrep np s t → empty s = Ok (bool_decide (elems t = [])) s.
Proof.
  intros Hs. apply wp_eq. unfold empty. destruct t as [|c l k v a b].
  { tree_step. by rewrite !bool_decide_eq_true_2. }
  pose proof (focus_ne_nil _ _ _ _ [] _ _ _ _ _ _ Hs). tree_step. split; [done|].
  rewrite !bool_decide_eq_false_2; [done|simpl; by destruct (elems a)|congruence].
Qed.

Lemma wp_cleanTree fuel np s t :
  hrep np s t → theight t < fuel → wp (cleanTree fuel) s (λ _ s', hrep np s' E).
Proof.
  intros Hs Hf. unfold cleanTree. tree_step.
  eapply wp_pure_run; [by apply (clear_ok _ np _ [])|]. tree_step. unfold set_root. wp_mem.
  destruct Hs as [_ Hn _ Ht]. split; simpl; [|done|set_solver|by rewrite Ht].
  split; [done|constructor].
Qed.
End queries.
