(* ===== verification/RBTreeSpec.v ===== *)
(** * RBTree.hpp: what the class guarantees

    [models s m]: the object in state [s] is a red-black tree holding exactly
    the sorted association list [m].  The constructor establishes it, every
    public operation preserves it and acts on [m] as a dictionary that keeps
    the first value of a key; loops need [length m + 2] iterations at most.
    The class provides the interface [OrderedDict], and the scenario of
    TesTRBT.cpp is run on the model. *)
From stdpp Require Import base gmap list strings.
From S2P Require Import Prelude OrderedMap Dictionary RBTheory RBCheck RBHeap RBTree RBTreeRep RBTreeInsert.
From S2P Require Import RBTreeUnlink RBTreeRemove RBTreeQuery.

Section models.
Context {A : Type} `{!KeyOrder A} (A0 : A).
Abbreviation st := (mstate A A RBTree).
Implicit Types (s : st) (t : tree A A) (m : list (A * A)).

(** The object is a red-black tree with contents [m]. *)
Definition models s m : Prop :=
  ∃ nl t, hrep A0 nl None s t ∧ tree_ok t ∧ ksorted (elems t) ∧ elems t = m.

Lemma models_sorted s m : models s m → ksorted m.
Proof. by intros (nl & t & ? & ? & ? & <-). Qed.

Lemma models_height nl s t fuel m :
  hrep A0 nl None s t → elems t = m → length m + 2 ≤ fuel → theight t + 2 ≤ fuel.
Proof. intros _ <-. rewrite <-tsize_elems. pose proof (theight_tsize t). lia. Qed.

Lemma ctor_models s : wp (RBTree_ctor A0) s (λ _ s', models s' []).
Proof.
  unfold RBTree_ctor, createNil, Node_ctor. apply wp_bind, wp_bind, wp_new.
  intros l Hl. destruct s as [h m]; simpl in *. step.
  exists l, E. split; [|split; [split; [done|by exists 0]|done]].
  split; simpl; [by split; [|constructor]|by mem_lookup|set_solver|done].
Qed.

Lemma insert_models fuel k v s m :
  models s m → length m + 2 ≤ fuel →
  wp (insert fuel k v) s (λ _ s', models s' (al_upd (λ v0 _, v0) k v m)).
Proof.
  intros (nl & t & Hs & Hok & Hsort & <-) Hf. rewrite <-tsize_elems in Hf.
  pose proof (theight_tsize t). destruct (zsearch k [] t) as [ctx [|c l k' v' a b]] eqn:Hz;
    pose proof (zsearch_find _ _ _ _ Hsort Hz) as Hfind.
  - eapply wp_mono; [eapply insert_new; eauto; lia|]. intros _ s' [z Hs'].
    exists nl, (tree_insert ctx z k v).
    destruct (zsearch_spec _ _ _ _ Hsort Hz) as (Hp & _).
    rewrite (zsearch_put_new _ _ _ _ _ Hsort Hz), al_upd_new by done.
    split_and!; [done| |by apply ksorted_put|done].
    rewrite <-Hp in Hok. apply tree_ok_plug in Hok as (n & Hc & -> & _).
    by apply (ins_fix_ok 0).
  - eapply wp_mono; [eapply insert_found; [exact Hs|lia|by rewrite Hz]|]. intros _ s' ->.
    exists nl, t. unfold al_upd. rewrite Hfind, al_put_same by done. done.
Qed.

Lemma remove_models fuel k s m :
  models s m → length m + 2 ≤ fuel →
  wp (remove fuel k) s (λ _ s', models s' (al_del k m)).
Proof.
  intros (nl & t & Hs & Hok & Hsort & <-) Hf. rewrite <-tsize_elems in Hf.
  pose proof (theight_tsize t). destruct (zsearch k [] t) as [ctx [|c l k' v' a b]] eqn:Hz;
    pose proof (zsearch_find _ _ _ _ Hsort Hz) as Hfind.
  - eapply wp_mono; [eapply remove_absent; [exact Hs|lia|by rewrite Hz]|]. intros _ s' ->.
    exists nl, t. by rewrite al_del_absent.
  - destruct fuel as [|fuel]; [lia|]. pose proof (zsearch_plug _ _ _ _ _ Hz) as Hp.
    simpl in Hp. rewrite <-Hp in Hok.
    destruct (tree_remove_ok fuel _ _ _ _ _ _ _ Hok) as (t' & Hrem & Hok' & He).
    { rewrite Hp. lia. }
    eapply wp_mono; [eapply (remove_found A0 nl fuel None s k t); [exact Hs|lia|exact Hz|exact Hrem]|].
    intros [] s' Hs'.
    exists nl, t'. rewrite He, (zsearch_del _ _ _ _ _ _ _ _ _ Hsort Hz).
    split_and!; [done|done|by apply ksorted_del|done].
Qed.

(** [get], as the outcome of the call. *)
Lemma get_models fuel k s m :
  models s m → length m + 2 ≤ fuel →
  get fuel k s = match al_find k m with
                 | Some v => Ok v s
                 | None => Throw "Key not found"%string s
                 end.
Proof.
  intros (nl & t & Hs & Hok & Hsort & He) Hf.
  pose proof (models_height _ _ _ _ _ Hs He Hf) as Hh. subst m.
  destruct (zsearch k [] t) as [ctx t'] eqn:Hz.
  rewrite (zsearch_find _ _ _ _ Hsort Hz). pose proof (zsearch_plug _ _ _ _ _ Hz) as Hp.
  simpl in Hp. assert (searchNode fuel k s =
    Ok (match t' with E => None | T _ l _ _ _ _ => Some l end) s) as Hsearch.
  { apply wp_eq. eapply wp_searchNode; [exact Hs|lia|]. by rewrite Hz. }
  unfold get, bind. rewrite Hsearch. destruct t' as [|c l k' v' a b]; [done|].
  rewrite bool_decide_eq_false_2 by done. apply wp_eq. rewrite <-Hp in Hs. by tree_step.
Qed.

Lemma modify_models fuel k v s m :
  models s m → length m + 2 ≤ fuel →
  wp (RBTree.modify fuel k v) s (λ _ s',
    models s' (match al_find k m with Some _ => al_put k v m | None => m end)).
Proof.
  intros (nl & t & Hs & Hok & Hsort & He) Hf.
  pose proof (models_height _ _ _ _ _ Hs He Hf) as Hh. subst m.
  destruct (zsearch k [] t) as [ctx t'] eqn:Hz.
  rewrite (zsearch_find _ _ _ _ Hsort Hz). pose proof (zsearch_plug _ _ _ _ _ Hz) as Hp.
  simpl in Hp. unfold RBTree.modify. apply wp_bind.
  eapply wp_searchNode; [exact Hs|lia|]. rewrite Hz.
  destruct t' as [|c l k' v' a b]; cbn [snd]; wp_test; [apply wp_ret; by exists nl, t|].
  rewrite <-Hp in Hs. eapply wp_relabel with (v' := v) (c' := c); [exact Hs|done|].
  intros s' Hs'. exists nl, (plug ctx (T c l k' v a b)).
  rewrite <-Hp in Hok. split_and!; [done|..].
  - by eapply tree_ok_relabel.
  - erewrite zsearch_put_old by eassumption. by apply ksorted_put.
  - by erewrite zsearch_put_old by eassumption.
Qed.

(** [get] with its exception caught. *)
Definition find_value (fuel : nat) (k : A) : M st (option A) := catch (get fuel k).

#[export] Instance RBTree_dict : OrderedDict A A st := {
  od_insert := insert;
  od_remove := remove;
  od_find := find_value;
  od_clash := λ v0 _, v0
}.

#[export] Instance RBTree_dict_laws : OrderedDictLaws A A st models.
Proof.
  split.
  - apply models_sorted.
  - apply insert_models.
  - apply remove_models.
  - intros fuel k s m Hm Hf. simpl. unfold find_value, catch.
    rewrite (get_models _ _ _ _ Hm Hf). by destruct (al_find k m).
Qed.
End models.

(** ** A concrete object *)
Definition no_tree {A} : mstate A A RBTree := MS ∅ (RBT None None).

Definition sample_tree : mstate Z Z RBTree :=
  run_state (RBTree_ctor 0%Z ;; insert 10 5%Z 50%Z ;; insert 10 3%Z 30%Z ;; insert 10 8%Z 80%Z)
    no_tree.

Lemma sample_tree_models : models 0%Z sample_tree [(3, 30); (5, 50); (8, 80)]%Z.
Proof.
  unfold sample_tree. apply (wp_run_state _ _ (λ s, models 0%Z s _)), wp_bind. eapply wp_mono; [apply ctor_models|]. intros [] s1 H1. apply wp_bind.
  eapply wp_mono; [apply (insert_models 0%Z); [exact H1|simpl; lia]|]. intros [] s2 H2. apply wp_bind.
  eapply wp_mono; [apply (insert_models 0%Z); [exact H2|simpl; lia]|]. intros [] s3 H3.
  eapply wp_mono; [apply (insert_models 0%Z); [exact H3|simpl; lia]|]. by intros [] s4 H4.
Qed.

(** ** The guarantees *)
Section guarantees.
Context {A : Type} `{!KeyOrder A} (A0 : A).
Implicit Types (s : mstate A A RBTree) (m : list (A * A)).

(** C3: On a red-black tree object with contents [m], every operation returns
    within [length m + 2] loop iterations and without undefined behaviour, and
    leaves such an object: inserting keeps the value of a present key and adds
    an absent one, removing leaves the contents without the key, looking up
    returns the value or throws, and modifying overwrites the value of a
    present key and ignores an absent one. *)
Theorem RBTree_operations_spec fuel k v s m :
  models A0 s m → length m + 2 ≤ fuel →
  wp (insert fuel k v) s (λ _ s',
    models A0 s' (match al_find k m with Some _ => m | None => al_put k v m end)) ∧
  wp (remove fuel k) s (λ _ s', models A0 s' (al_del k m)) ∧
  get fuel k s = (match al_find k m with
                  | Some v' => Ok v' s
                  | None => Throw "Key not found"%string s
                  end) ∧
  wp (RBTree.modify fuel k v) s (λ _ s',
    models A0 s' (match al_find k m with Some _ => al_put k v m | None => m end)).
Proof.
  intros Hm Hf. split_and!; [|by apply remove_models|by apply (get_models A0)|by apply (modify_models A0)].
  eapply wp_mono; [by apply (insert_models A0)|]. intros [] s'.
  unfold al_upd. destruct (al_find k m) eqn:Hk; [|done].
  rewrite al_put_same; [done|by eapply models_sorted|done].
Qed.

(** [min] and [max] return the first and the last key of the sorted
    contents, and throw "Tree is empty" on an empty tree. *)
Theorem RBTree_min_max_spec fuel s m :
  models A0 s m → length m + 2 ≤ fuel →
  ksorted m ∧
  min fuel s = (match m with
                | [] => Throw "Tree is empty"%string s
                | (k, _) :: _ => Ok k s
                end) ∧
  max fuel s = (match last m with
                | None => Throw "Tree is empty"%string s
                | Some (k, _) => Ok k s
                end).
Proof.
  intros (nl & t & Hs & Hok & Hsort & He) Hf.
  pose proof (models_height _ _ _ _ _ _ Hs He Hf) as Hh. subst m.
  split_and!; [done|by eapply min_ok; [done|lia]|by eapply max_ok; [done|lia]].
Qed.

(** [inOrder] prints the contents in key order; [levelOrder] prints the
    same entries, one line for each level of the tree, as many lines as
    [height] returns. *)
Theorem RBTree_traversal_spec fuel s m :
  models A0 s m → length m + 2 ≤ fuel →
  ∃ es ls, inOrder fuel s = Ok es s ∧ levelOrder fuel s = Ok ls s ∧
    es.*1 = m ∧ concat ls ≡ₚ es ∧ height fuel s = Ok (Z.of_nat (length ls)) s.
Proof.
  intros (nl & t & Hs & Hok & Hsort & He) Hf.
  pose proof (models_height _ _ _ _ _ _ Hs He Hf) as Hh. subst m.
  rewrite <-tsize_elems in Hf. exists (ents t), (levels t).
  rewrite length_levels. split_and!.
  - eapply inOrder_ok; [done|lia].
  - eapply levelOrder_ok; [done|lia].
  - apply ents_elems.
  - apply concat_levels.
  - eapply height_ok; [done|lia].
Qed.

(** C5: The self-check [verifyRBProperties] is exact: on any object whose
    pointers form a tree, balanced or not, it returns [true] if and only if
    the tree has a black root, no red node with a red child and the same
    number of black nodes on every path. *)
Theorem RBTree_verify_exact fuel nl np s t :
  hrep A0 nl np s t → theight t < fuel →
  ∃ b, verifyRBProperties fuel s = Ok b s ∧ (b = true ↔ tree_ok t).
Proof.
  intros Hs Hf. exists (rb_check t). split; [by eapply verifyRBProperties_ok|apply rb_check_spec].
Qed.

(** C6: On an object with contents [m] the self-check succeeds, and the
    height is at most [2 * log2 (length m + 1)]. *)
Theorem RBTree_balanced fuel s m :
  models A0 s m → length m + 2 ≤ fuel →
  verifyRBProperties fuel s = Ok true s ∧
  ∃ h, height fuel s = Ok h s ∧ (0 ≤ h ≤ 2 * Z.log2 (Z.of_nat (length m) + 1))%Z.
Proof.
  intros (nl & t & Hs & Hok & Hsort & He) Hf.
  pose proof (models_height _ _ _ _ _ _ Hs He Hf) as Hh. subst m. split.
  - rewrite (verifyRBProperties_ok A0 nl fuel None s t Hs) by lia.
    by apply rb_check_spec in Hok as ->.
  - exists (Z.of_nat (theight t)). split; [eapply height_ok; [done|lia]|].
    by apply tree_ok_height_Z.
Qed.

(** [cleanTree] empties the object, after which [empty] returns [true]. *)
Theorem RBTree_clean_spec fuel s m :
  models A0 s m → length m + 2 ≤ fuel →
  wp (cleanTree fuel ;; empty) s (λ b s', b = true ∧ models A0 s' []).
Proof.
  intros (nl & t & Hs & Hok & Hsort & He) Hf.
  pose proof (models_height _ _ _ _ _ _ Hs He Hf) as Hh. apply wp_bind.
  eapply wp_mono; [eapply wp_cleanTree; [exact Hs|lia]|]. intros [] s' Hs'.
  eapply wp_pure_run; [by eapply empty_ok|]. split; [done|].
  exists nl, E. split_and!; try done. by split; [|exists 0].
Qed.

(** C1: From the constructor on, any script of insertions, removals and
    look-ups returns what a dictionary keeping the first value of each key
    would return, and leaves a red-black tree with that dictionary's
    contents. *)
Theorem RBTree_script_spec fuel s (cs : list (command A A)) :
  length cs + 2 ≤ fuel →
  wp (RBTree_ctor A0 ;; run_script fuel cs) s (λ rs s',
    models A0 s' (script_spec (λ v0 _, v0) [] cs).1 ∧
    rs = (script_spec (λ v0 _, v0) [] cs).2).
Proof.
  intros Hf. apply wp_bind. eapply wp_mono; [apply ctor_models|]. intros [] s' Hm.
  eapply wp_mono; [apply (run_script_models (models A0) fuel s' [] cs Hm); simpl; lia|done].
Qed.
End guarantees.

(** The test program prints what its recorded run (UTTestResult.txt)
    shows: the same traversals, colours included, values, extrema and
    verdicts. *)
Theorem testRBTree_output :
  run_result (testRBTree 20) no_tree = Some [
    Entries [(1, 26, RED); (6, 10, BLACK); (7, 18, RED); (9, 3, BLACK); (11, 7, BLACK);
             (23, 8, RED); (41, 22, BLACK); (89, 11, RED)];
    Levels [[(9, 3, BLACK)]; [(6, 10, BLACK); (23, 8, RED)];
            [(1, 26, RED); (7, 18, RED); (11, 7, BLACK); (41, 22, BLACK)]; [(89, 11, RED)]];
    Verdict true; Value 3; Value 18; Value 1; Value 89;
    Entries [(1, 26, RED); (6, 10, BLACK); (7, 18, RED); (9, 3, BLACK); (11, 7, BLACK);
             (41, 22, RED); (89, 11, BLACK)];
    Entries [(1, 21, RED); (6, 10, BLACK); (7, 18, RED); (9, 3, BLACK); (11, 7, BLACK);
             (41, 22, RED); (89, 11, BLACK)];
    Verdict true]%Z.
Proof. vm_compute. reflexivity. Qed.

(** ** Instances at concrete inputs *)
Lemma RBTree_operations_witness :
  wp (insert 5 7%Z 70%Z) sample_tree (λ _ s', models 0%Z s' [(3, 30); (5, 50); (7, 70); (8, 80)]%Z) ∧
  wp (remove 5 5%Z) sample_tree (λ _ s', models 0%Z s' [(3, 30); (8, 80)]%Z) ∧
  get 5 8%Z sample_tree = Ok 80%Z sample_tree ∧
  wp (RBTree.modify 5 8%Z 81%Z) sample_tree (λ _ s', models 0%Z s' [(3, 30); (5, 50); (8, 81)]%Z).
Proof.
  assert (length [(3, 30); (5, 50); (8, 80)]%Z + 2 ≤ 5) as Hf by (simpl; lia).
  destruct (RBTree_operations_spec 0%Z 5 7%Z 70%Z sample_tree _ sample_tree_models Hf) as (Hins & _).
  destruct (RBTree_operations_spec 0%Z 5 5%Z 0%Z sample_tree _ sample_tree_models Hf) as (_ & Hrem & _).
  destruct (RBTree_operations_spec 0%Z 5 8%Z 81%Z sample_tree _ sample_tree_models Hf) as (_ & _ & Hget & Hmod).
  split; [exact Hins|]. split; [exact Hrem|]. split; [exact Hget|exact Hmod].
Defined.

Lemma RBTree_min_max_witness :
  ksorted [(3, 30); (5, 50); (8, 80)]%Z ∧
  min 5 sample_tree = Ok 3%Z sample_tree ∧ max 5 sample_tree = Ok 8%Z sample_tree.
Proof.
  refine (RBTree_min_max_spec 0%Z 5 sample_tree _ sample_tree_models _). simpl. lia.
Defined.

Lemma RBTree_traversal_witness :
  ∃ es ls, inOrder 5 sample_tree = Ok es sample_tree ∧
    levelOrder 5 sample_tree = Ok ls sample_tree ∧
    es.*1 = [(3, 30); (5, 50); (8, 80)]%Z ∧ concat ls ≡ₚ es ∧
    height 5 sample_tree = Ok (Z.of_nat (length ls)) sample_tree.
Proof.
  refine (RBTree_traversal_spec 0%Z 5 sample_tree _ sample_tree_models _). simpl. lia.
Defined.

Lemma RBTree_verify_witness :
  ∃ nl t b, hrep 0%Z nl None sample_tree t ∧
    verifyRBProperties 5 sample_tree = Ok b sample_tree ∧ (b = true ↔ tree_ok t).
Proof.
  destruct sample_tree_models as (nl & t & Hs & Hok & Hsort & He). exists nl, t.
  destruct (RBTree_verify_exact 0%Z 5 nl None sample_tree t Hs) as (b & Hv & Hb); [|exact (ex_intro _ b (conj Hs (conj Hv Hb)))].
  pose proof (theight_tsize t) as Hh. rewrite tsize_elems, He in Hh. simpl in Hh. lia.
Defined.

Lemma RBTree_balanced_witness :
  verifyRBProperties 5 sample_tree = Ok true sample_tree ∧
  ∃ h, height 5 sample_tree = Ok h sample_tree ∧ (0 ≤ h ≤ 2 * Z.log2 (Z.of_nat 3 + 1))%Z.
Proof.
  refine (RBTree_balanced 0%Z 5 sample_tree _ sample_tree_models _). simpl. lia.
Defined.

Lemma RBTree_clean_witness :
  wp (cleanTree 5 ;; empty) sample_tree (λ b s', b = true ∧ models 0%Z s' []).
Proof.
  refine (RBTree_clean_spec 0%Z 5 sample_tree _ sample_tree_models _). simpl. lia.
Defined.

Lemma RBTree_script_witness :
  wp (RBTree_ctor 0%Z ;;
      run_script 6 [Insert 1%Z 10%Z; Insert 1%Z 11%Z; Find 1%Z; Remove 1%Z]) no_tree
    (λ rs s', models 0%Z s' [] ∧ rs = [Some 10%Z]).
Proof.
  refine (RBTree_script_spec 0%Z 6 no_tree
    [Insert 1%Z 10%Z; Insert 1%Z 11%Z; Find 1%Z; Remove 1%Z] _). simpl. lia.
Defined.
