(* ===== verification/KvRBTree.v ===== *)
(** * KV_Store/RBTree.cpp: the red-black tree with null leaves

    The class [RedBlackTree<K, V>]: null pointers for missing children, an
    element counter, an insertion that overwrites the value of a present key.
    Every member function is translated statement by statement over the node
    store of [RBHeap]; [while] loops are [loop]s with fuel, [break] leaves them
    with [inr].  The same text is B+Tree/temp.cpp. *)
From stdpp Require Import base gmap list strings pretty.
From S2P Require Import Prelude OrderedMap RBTheory RBHeap.

(** The data members; [count] is a [size_t]. *)
Record RedBlackTree := KV { kv_root : ptr; kv_count : Z }.

Definition size_t_max : Z := (2 ^ 64)%Z.
Definition size_t (n : Z) : Z := (n mod size_t_max)%Z.

Section KvRBTree_defs.
Context {K V : Type} `{!KeyOrder K}.

Abbreviation st := (mstate K V RedBlackTree).

Definition set_kv_root (p : ptr) : M st unit := set_this (λ m, KV p (kv_count m)).
Definition set_count (n : Z) : M st unit := set_this (λ m, KV (kv_root m) n).

(** *** Node *)
Definition kv_node (key : K) (value : V) (c : Color) : node K V :=
  Node key value c None None None.

Definition is_left_child (self : ptr) : M st bool :=
  let* p := rd self n_parent in
  if bool_decide (p ≠ None) then
    let* l := rd p n_left in ret (bool_decide (l = self))
  else ret false.

Definition sibling (self : ptr) : M st ptr :=
  let* p := rd self n_parent in
  if bool_decide (p = None) then ret None
  else
    let* isl := is_left_child self in
    if isl : bool then rd p n_right else rd p n_left.

Definition uncle (self : ptr) : M st ptr :=
  let* p := rd self n_parent in
  if bool_decide (p = None) then ret None
  else
    let* gp := rd p n_parent in
    if bool_decide (gp = None) then ret None
    else
      let* isl := is_left_child p in
      if isl : bool then rd gp n_right else rd gp n_left.

Definition grandparent (self : ptr) : M st ptr :=
  let* p := rd self n_parent in
  if bool_decide (p = None) then ret None else rd p n_parent.

(** *** Rotations *)
Definition left_rotate (x : ptr) : M st unit :=
  let* y := rd x n_right in
  if bool_decide (y = None) then ret tt
  else
    let* yl := rd y n_left in
    wr x (set_right yl) ;;
    let* yl := rd y n_left in
    when bool_decide (yl ≠ None) then
      (let* yl := rd y n_left in wr yl (set_parent x)) ;;
    let* xp := rd x n_parent in
    wr y (set_parent xp) ;;
    let* xp := rd x n_parent in
    (if bool_decide (xp = None) then set_kv_root y
     else
       let* isl := is_left_child x in
       if isl : bool then let* xp := rd x n_parent in wr xp (set_left y)
       else let* xp := rd x n_parent in wr xp (set_right y)) ;;
    wr y (set_left x) ;;
    wr x (set_parent y).

Definition right_rotate (y : ptr) : M st unit :=
  let* x := rd y n_left in
  if bool_decide (x = None) then ret tt
  else
    let* xr := rd x n_right in
    wr y (set_left xr) ;;
    let* xr := rd x n_right in
    when bool_decide (xr ≠ None) then
      (let* xr := rd x n_right in wr xr (set_parent y)) ;;
    let* yp := rd y n_parent in
    wr x (set_parent yp) ;;
    let* yp := rd y n_parent in
    (if bool_decide (yp = None) then set_kv_root x
     else
       let* isl := is_left_child y in
       if isl : bool then let* yp := rd y n_parent in wr yp (set_left x)
       else let* yp := rd y n_parent in wr yp (set_right x)) ;;
    wr x (set_right y) ;;
    wr y (set_parent x).

(** [p && p->color == Color::RED] *)
Definition is_red (p : ptr) : M st bool :=
  if bool_decide (p ≠ None) then let* c := rd p n_color in ret (bool_decide (c = RED))
  else ret false.
(** [!p || p->color == Color::BLACK] *)
Definition null_or_black (p : ptr) : M st bool :=
  if bool_decide (p = None) then ret true
  else let* c := rd p n_color in ret (bool_decide (c = BLACK)).
(** [p ? p->parent.lock() : nullptr] *)
Definition parent_or_null (p : ptr) : M st ptr :=
  if bool_decide (p = None) then ret None else rd p n_parent.

(** *** fix_insert *)

(** Case 2: the new [node], [parent] and [grandparent], or [None] for the
    [break]. *)
Definition fix_insert_case2 (rotate : ptr → M st unit) (parent : ptr)
  : M st (option (ptr * ptr * ptr)) :=
  let node := parent in
  rotate node ;;
  let* parent := rd node n_parent in
  let* grandparent := parent_or_null parent in
  if bool_decide (grandparent = None) then ret None
  else ret (Some (node, parent, grandparent)).

Definition fix_insert_body (node : ptr) : M st (ptr + unit) :=
  let* parent := rd node n_parent in
  let* grandparent := rd parent n_parent in
  if bool_decide (grandparent = None) then ret (inr tt)
  else
    let* isl := is_left_child parent in
    if isl : bool then
      let* uncle := sibling parent in
      let* red := is_red uncle in
      if red : bool then
        wr parent (set_color BLACK) ;;
        wr uncle (set_color BLACK) ;;
        wr grandparent (set_color RED) ;;
        ret (inl grandparent)
      else
        let* node_left := is_left_child node in
        let* r := (if negb node_left then fix_insert_case2 left_rotate parent
                   else ret (Some (node, parent, grandparent))) in
        match r with
        | None => ret (inr tt)
        | Some (node, parent, grandparent) =>
            wr parent (set_color BLACK) ;;
            wr grandparent (set_color RED) ;;
            right_rotate grandparent ;;
            ret (inl node)
        end
    else
      let* uncle := sibling parent in
      let* red := is_red uncle in
      if red : bool then
        wr parent (set_color BLACK) ;;
        wr uncle (set_color BLACK) ;;
        wr grandparent (set_color RED) ;;
        ret (inl grandparent)
      else
        let* node_left := is_left_child node in
        let* r := (if node_left : bool then fix_insert_case2 right_rotate parent
                   else ret (Some (node, parent, grandparent))) in
        match r with
        | None => ret (inr tt)
        | Some (node, parent, grandparent) =>
            wr parent (set_color BLACK) ;;
            wr grandparent (set_color RED) ;;
            left_rotate grandparent ;;
            ret (inl node)
        end.

Definition fix_insert_iter (node : ptr) : M st (ptr + unit) :=
  let* r := get_this kv_root in
  if bool_decide (node ≠ r) then
    let* p := rd node n_parent in
    let* c := rd p n_color in
    if bool_decide (c = RED) then fix_insert_body node else ret (inr tt)
  else ret (inr tt).

Definition fix_insert (fuel : nat) (node : ptr) : M st unit :=
  let* _ := loop fuel fix_insert_iter node in
  let* r := get_this kv_root in
  when bool_decide (r ≠ None) then wr r (set_color BLACK).

(** *** Search *)
Definition kv_minimum_iter (node : ptr) : M st (ptr + ptr) :=
  let* l := rd node n_left in
  if bool_decide (l ≠ None) then let* l := rd node n_left in ret (inl l)
  else ret (inr node).
Definition kv_minimum (fuel : nat) (node : ptr) : M st ptr :=
  if bool_decide (node = None) then ret None else loop fuel kv_minimum_iter node.

Definition find_node_iter (key : K) (current : ptr) : M st (ptr + ptr) :=
  if bool_decide (current ≠ None) then
    let* k := rd current n_key in
    if key_ltb key k then let* c := rd current n_left in ret (inl c)
    else if key_gtb key k then let* c := rd current n_right in ret (inl c)
    else ret (inr current)
  else ret (inr None).
Definition find_node (fuel : nat) (key : K) : M st ptr :=
  let* r := get_this kv_root in
  loop fuel (find_node_iter key) r.

Definition kv_transplant (u v : ptr) : M st unit :=
  let* parent := rd u n_parent in
  (if bool_decide (parent = None) then set_kv_root v
   else
     let* isl := is_left_child u in
     if isl : bool then wr parent (set_left v) else wr parent (set_right v)) ;;
  when bool_decide (v ≠ None) then
    (let* up := rd u n_parent in wr v (set_parent up)).

(** *** fix_delete

    The two mirrored halves of the loop body in three blocks: Case 1 and
    Case 3 yield the new sibling, or [None] for their [break]; Cases 2 and 4
    yield the new [node] and [parent], or [inr] for a [break]. *)

Definition fix_delete_case1_left (parent sibling : ptr) : M st (option ptr) :=
  let* c := rd sibling n_color in
  if bool_decide (c = RED) then
    wr sibling (set_color BLACK) ;;
    wr parent (set_color RED) ;;
    left_rotate parent ;;
    let* sibling := rd parent n_right in
    ret (if bool_decide (sibling = None) then None else Some sibling)
  else ret (Some sibling).

Definition fix_delete_case3_left (parent sibling : ptr) : M st (option ptr) :=
  let* far := rd sibling n_right in
  let* far_black := null_or_black far in
  if far_black : bool then
    let* near := rd sibling n_left in
    when bool_decide (near ≠ None) then
      (let* near := rd sibling n_left in wr near (set_color BLACK)) ;;
    wr sibling (set_color RED) ;;
    right_rotate sibling ;;
    let* sibling := rd parent n_right in
    ret (if bool_decide (sibling = None) then None else Some sibling)
  else ret (Some sibling).

Definition fix_delete_cases_left (node parent sibling : ptr) : M st ((ptr * ptr) + ptr) :=
  let* l := rd sibling n_left in
  let* l_black := null_or_black l in
  let* both := (if l_black : bool then let* r := rd sibling n_right in null_or_black r
                else ret false) in
  if both : bool then
    wr sibling (set_color RED) ;;
    let node := parent in
    let* parent := rd node n_parent in
    ret (inl (node, parent))
  else
    let* s := fix_delete_case3_left parent sibling in
    match s with
    | None => ret (inr node)
    | Some sibling =>
        let* pc := rd parent n_color in
        wr sibling (set_color pc) ;;
        wr parent (set_color BLACK) ;;
        let* far := rd sibling n_right in
        when bool_decide (far ≠ None) then
          (let* far := rd sibling n_right in wr far (set_color BLACK)) ;;
        left_rotate parent ;;
        let* node := get_this kv_root in
        ret (inr node)
    end.

Definition fix_delete_left (node parent : ptr) : M st ((ptr * ptr) + ptr) :=
  let* sibling := rd parent n_right in
  if bool_decide (sibling = None) then ret (inr node)
  else
    let* s := fix_delete_case1_left parent sibling in
    match s with
    | None => ret (inr node)
    | Some sibling => fix_delete_cases_left node parent sibling
    end.

Definition fix_delete_case1_right (parent sibling : ptr) : M st (option ptr) :=
  let* c := rd sibling n_color in
  if bool_decide (c = RED) then
    wr sibling (set_color BLACK) ;;
    wr parent (set_color RED) ;;
    right_rotate parent ;;
    let* sibling := rd parent n_left in
    ret (if bool_decide (sibling = None) then None else Some sibling)
  else ret (Some sibling).

Definition fix_delete_case3_right (parent sibling : ptr) : M st (option ptr) :=
  let* far := rd sibling n_left in
  let* far_black := null_or_black far in
  if far_black : bool then
    let* near := rd sibling n_right in
    when bool_decide (near ≠ None) then
      (let* near := rd sibling n_right in wr near (set_color BLACK)) ;;
    wr sibling (set_color RED) ;;
    left_rotate sibling ;;
    let* sibling := rd parent n_left in
    ret (if bool_decide (sibling = None) then None else Some sibling)
  else ret (Some sibling).

Definition fix_delete_cases_right (node parent sibling : ptr) : M st ((ptr * ptr) + ptr) :=
  let* l := rd sibling n_left in
  let* l_black := null_or_black l in
  let* both := (if l_black : bool then let* r := rd sibling n_right in null_or_black r
                else ret false) in
  if both : bool then
    wr sibling (set_color RED) ;;
    let node := parent in
    let* parent := rd node n_parent in
    ret (inl (node, parent))
  else
    let* s := fix_delete_case3_right parent sibling in
    match s with
    | None => ret (inr node)
    | Some sibling =>
        let* pc := rd parent n_color in
        wr sibling (set_color pc) ;;
        wr parent (set_color BLACK) ;;
        let* far := rd sibling n_left in
        when bool_decide (far ≠ None) then
          (let* far := rd sibling n_left in wr far (set_color BLACK)) ;;
        right_rotate parent ;;
        let* node := get_this kv_root in
        ret (inr node)
    end.

Definition fix_delete_right (node parent : ptr) : M st ((ptr * ptr) + ptr) :=
  let* sibling := rd parent n_left in
  if bool_decide (sibling = None) then ret (inr node)
  else
    let* s := fix_delete_case1_right parent sibling in
    match s with
    | None => ret (inr node)
    | Some sibling => fix_delete_cases_right node parent sibling
    end.

Definition fix_delete_iter (np : ptr * ptr) : M st ((ptr * ptr) + ptr) :=
  let '(node, parent) := np in
  let* r := get_this kv_root in
  let* go := (if bool_decide (node ≠ r) then null_or_black node else ret false) in
  if go : bool then
    if bool_decide (parent = None) then ret (inr node)
    else
      let* pl := rd parent n_left in
      if bool_decide (node = pl) then fix_delete_left node parent
      else fix_delete_right node parent
  else ret (inr node).

Definition fix_delete (fuel : nat) (node parent : ptr) : M st unit :=
  let* r := get_this kv_root in
  if bool_decide (r = None) then ret tt
  else
    let* node := loop fuel fix_delete_iter (node, parent) in
    when bool_decide (node ≠ None) then wr node (set_color BLACK).

(** *** The public operations *)
Definition RedBlackTree_ctor : M st unit :=
  set_this (λ _, KV None 0%Z).

(** The descent of [insert]: [inr (inl current)] for a present key, otherwise
    the last node visited. *)
Definition kv_insert_iter (key : K) (cp : ptr * ptr) : M st ((ptr * ptr) + (ptr + ptr)) :=
  let '(current, parent) := cp in
  if bool_decide (current ≠ None) then
    let* k := rd current n_key in
    if key_ltb key k then
      let parent := current in let* c := rd current n_left in ret (inl (c, parent))
    else if key_gtb key k then
      let parent := current in let* c := rd current n_right in ret (inl (c, parent))
    else ret (inr (inl current))
  else ret (inr (inr parent)).

Definition kv_insert (fuel : nat) (key : K) (value : V) : M st bool :=
  let* r := get_this kv_root in
  if bool_decide (r = None) then
    let* n := new (kv_node key value BLACK) in
    set_kv_root n ;;
    set_count 1%Z ;;
    ret true
  else
    let* d := loop fuel (kv_insert_iter key) (r, None) in
    match d with
    | inl current => wr current (set_value value) ;; ret false
    | inr parent =>
        let* new_node := new (kv_node key value RED) in
        wr new_node (set_parent parent) ;;
        let* pk := rd parent n_key in
        (if key_ltb key pk then wr parent (set_left new_node)
         else wr parent (set_right new_node)) ;;
        fix_insert fuel new_node ;;
        let* c := get_this kv_count in
        set_count (size_t (c + 1)) ;;
        ret true
    end.

(** The end of the two-child case of [remove]. *)
Definition kv_move_to (successor node : ptr) : M st unit :=
  kv_transplant node successor ;;
  let* nl := rd node n_left in wr successor (set_left nl) ;;
  let* sl := rd successor n_left in
  when bool_decide (sl ≠ None) then
    (let* sl := rd successor n_left in wr sl (set_parent successor)) ;;
  let* nc := rd node n_color in wr successor (set_color nc).

(** The middle of [remove]: [x], [parent] and [original_color]. *)
Definition kv_unlink (fuel : nat) (node : ptr) (original_color : Color)
  : M st (ptr * ptr * Color) :=
  let* nl := rd node n_left in
  let* nr := rd node n_right in
  if bool_decide (nl = None) then
    let* x := rd node n_right in
    let* parent := rd node n_parent in
    let* nr := rd node n_right in kv_transplant node nr ;;
    ret (x, parent, original_color)
  else if bool_decide (nr = None) then
    let* x := rd node n_left in
    let* parent := rd node n_parent in
    let* nl := rd node n_left in kv_transplant node nl ;;
    ret (x, parent, original_color)
  else
    let* nr := rd node n_right in
    let* successor := kv_minimum fuel nr in
    let* original_color := rd successor n_color in
    let* x := rd successor n_right in
    let* parent := rd successor n_parent in
    let* sp := rd successor n_parent in
    let* parent :=
      (if bool_decide (sp ≠ node) then
         let* sr := rd successor n_right in kv_transplant successor sr ;;
         let* nr := rd node n_right in wr successor (set_right nr) ;;
         let* sr := rd successor n_right in
         when bool_decide (sr ≠ None) then
           (let* sr := rd successor n_right in wr sr (set_parent successor)) ;;
         ret parent
       else ret successor) in
    kv_move_to successor node ;;
    ret (x, parent, original_color).

Definition kv_remove (fuel : nat) (key : K) : M st bool :=
  let* node := find_node fuel key in
  if bool_decide (node = None) then ret false
  else
    let* original_color := rd node n_color in
    let* u := kv_unlink fuel node original_color in
    let '(x, parent, original_color) := u in
    when bool_decide (original_color = BLACK) then
      (let* r := get_this kv_root in
       if bool_decide (x = r) then
         when bool_decide (x ≠ None) then wr x (set_color BLACK)
       else when bool_decide (parent ≠ None) then fix_delete fuel x parent) ;;
    let* c := get_this kv_count in
    set_count (size_t (c - 1)) ;;
    ret true.

(** [find] returns the address of the value field: that of its node, or null. *)
Definition kv_find (fuel : nat) (key : K) : M st ptr :=
  let* node := find_node fuel key in
  if bool_decide (node ≠ None) then ret node else ret None.
(** Reading through the pointer [find] returned. *)
Definition deref (p : ptr) : M st V := rd p n_value.

Definition contains (fuel : nat) (key : K) : M st bool :=
  let* node := find_node fuel key in ret (bool_decide (node ≠ None)).
Definition kv_size : M st Z := get_this kv_count.
Definition kv_empty : M st bool := let* c := get_this kv_count in ret (bool_decide (c = 0%Z)).
Definition kv_clear : M st unit := set_kv_root None ;; set_count 0%Z.

Fixpoint inorder_traversal (fuel : nat) (node : ptr) (result : list (K * V)) : M st (list (K * V)) :=
  match fuel with
  | 0 => no_fuel
  | S fuel =>
      if bool_decide (node = None) then ret result
      else
        let* l := rd node n_left in
        let* result := inorder_traversal fuel l result in
        let* k := rd node n_key in
        let* v := rd node n_value in
        let* r := rd node n_right in
        inorder_traversal fuel r (result ++ [(k, v)])
  end.
Definition inorder (fuel : nat) : M st (list (K * V)) :=
  let* r := get_this kv_root in inorder_traversal fuel r [].

(** The [for] of [level_order]. *)
Fixpoint kv_level (n : nat) (q : list ptr) (level : list (K * Color))
  : M st (list ptr * list (K * Color)) :=
  match n with
  | 0 => ret (q, level)
  | S n =>
      match q with
      | [] => undef (* [front] of an empty queue *)
      | x :: q =>
          let* k := rd x n_key in
          let* c := rd x n_color in
          let* l := rd x n_left in
          let q := if bool_decide (l ≠ None) then q ++ [l] else q in
          let* r := rd x n_right in
          let q := if bool_decide (r ≠ None) then q ++ [r] else q in
          kv_level n q (level ++ [(k, c)])
      end
  end.
Definition level_order_iter (qr : list ptr * list (list (K * Color)))
  : M st ((list ptr * list (list (K * Color))) + list (list (K * Color))) :=
  let '(q, result) := qr in
  if bool_decide (q ≠ []) then
    let* lv := kv_level (length q) q [] in
    let '(q, level) := lv in
    ret (inl (q, result ++ [level]))
  else ret (inr result).
Definition level_order (fuel : nat) : M st (list (list (K * Color))) :=
  let* r := get_this kv_root in
  if bool_decide (r = None) then ret []
  else loop fuel level_order_iter ([r], []).

(** The result and the new value of the reference [path_black_count]. *)
Fixpoint validate_rb (fuel : nat) (node : ptr) (black_count path_black_count : Z)
  : M st (bool * Z) :=
  match fuel with
  | 0 => no_fuel
  | S fuel =>
      if bool_decide (node = None) then
        let path_black_count :=
          if bool_decide (path_black_count = (-1)%Z) then black_count else path_black_count in
        ret (bool_decide (black_count = path_black_count), path_black_count)
      else
        let* c := rd node n_color in
        let* bad :=
          (if bool_decide (c = RED) then
             let* l := rd node n_left in
             let* l_red := is_red l in
             if l_red : bool then ret true
             else let* r := rd node n_right in is_red r
           else ret false) in
        if bad : bool then ret (false, path_black_count)
        else
          let new_black_count :=
            (black_count + (if bool_decide (c = BLACK) then 1 else 0))%Z in
          let* l := rd node n_left in
          let* v := validate_rb fuel l new_black_count path_black_count in
          let '(ok, path_black_count) := v in
          if ok : bool then
            let* r := rd node n_right in validate_rb fuel r new_black_count path_black_count
          else ret (false, path_black_count)
  end.
Definition validate (fuel : nat) : M st bool :=
  let* r := get_this kv_root in
  if bool_decide (r = None) then ret true
  else
    let* c := rd r n_color in
    if bool_decide (c ≠ BLACK) then ret false
    else let* v := validate_rb fuel r 0%Z (-1)%Z in ret v.1.

Fixpoint kv_height (fuel : nat) (node : ptr) : M st Z :=
  match fuel with
  | 0 => no_fuel
  | S fuel =>
      if bool_decide (node = None) then ret 0%Z
      else
        let* l := rd node n_left in
        let* hl := kv_height fuel l in
        let* r := rd node n_right in
        let* hr := kv_height fuel r in
        ret (1 + Z.max hl hr)%Z
  end.
Definition get_height (fuel : nat) : M st Z :=
  let* r := get_this kv_root in kv_height fuel r.
End KvRBTree_defs.

(** ** test_redblack_tree *)
Section KvRBTree_test.
Context {V : Type}.
Abbreviation st := (mstate Z V RedBlackTree).

Fixpoint kv_insert_all (fuel : nat) (kvs : list (Z * V)) : M st unit :=
  match kvs with
  | [] => ret tt
  | (k, v) :: kvs' => let* _ := kv_insert fuel k v in kv_insert_all fuel kvs'
  end.

(** The loops that stop at the first key that is not found. *)
Fixpoint contains_all (fuel : nat) (ks : list Z) : M st bool :=
  match ks with
  | [] => ret true
  | k :: ks' =>
      let* found := contains fuel k in
      if negb found then ret false else contains_all fuel ks'
  end.

(** The loop of Test 9: remove each key and validate after each removal. *)
Fixpoint remove_all (fuel : nat) (ks : list Z) : M st bool :=
  match ks with
  | [] => ret true
  | k :: ks' =>
      let* _ := kv_remove fuel k in
      let* ok := validate fuel in
      if negb ok then ret false else remove_all fuel ks'
  end.

(** [std::is_sorted] on the keys. *)
Fixpoint is_sorted (kvs : list (Z * V)) : bool :=
  match kvs with
  | a :: ((b :: _) as kvs') => negb (Z.ltb b.1 a.1) && is_sorted kvs'
  | _ => true
  end.
End KvRBTree_test.

Definition test_data : list (Z * string) :=
  [(10, "Alice"); (20, "Bob"); (30, "Charlie"); (15, "David"); (25, "Eve"); (5, "Frank");
   (3, "Grace"); (8, "Henry"); (12, "Ivy"); (18, "Jack")]%Z%string.

(** Tests 1 to 5, on one tree: the verdicts of their [if]s, with the level
    order and the sorted keys that are printed. *)
Definition test_basic (fuel : nat)
  : M (mstate Z string RedBlackTree) (list bool * list (list (Z * Color)) * list Z) :=
  RedBlackTree_ctor ;;
  kv_insert_all fuel test_data ;;
  let* all_found := contains_all fuel test_data.*1 in
  let* valid := validate fuel in
  let* levels := level_order fuel in
  let* sorted := inorder fuel in
  let delete_key := 15%Z in
  let* present := contains fuel delete_key in
  let* deleted :=
    (if present : bool then
       let* _ := kv_remove fuel delete_key in
       let* still := contains fuel delete_key in
       let* valid := validate fuel in
       ret [negb still; valid]
     else ret []) in
  let update_key := 10%Z in
  let new_value := "Alice_Updated"%string in
  let* inserted := kv_insert fuel update_key new_value in
  let* value_ptr := kv_find fuel update_key in
  let* updated :=
    (if negb inserted && bool_decide (value_ptr ≠ None) then
       let* v := deref value_ptr in ret (bool_decide (v = new_value))
     else ret false) in
  ret ([all_found; valid; is_sorted sorted] ++ deleted ++ [updated], levels, sorted.*1).

(** Test 6: a fresh tree. *)
Definition test_edge (fuel : nat) : M (mstate Z Z RedBlackTree) (list bool) :=
  RedBlackTree_ctor ;;
  let* e := kv_empty in
  let* n := kv_size in
  let* c := contains fuel 999%Z in
  ret [e && bool_decide (n = 0%Z); negb c].

(** Test 7, with the number of keys as a parameter: found, valid, and the
    height against [2 * static_cast<int>(std::log2(NUM_KEYS + 1))]. *)
Definition test_bulk (fuel : nat) (num_keys : nat) : M (mstate Z Z RedBlackTree) (list bool) :=
  RedBlackTree_ctor ;;
  let keys := Z.of_nat <$> seq 0 num_keys in
  kv_insert_all fuel ((λ i, (i, i * 10)%Z) <$> keys) ;;
  let* all_keys_found := contains_all fuel keys in
  let* valid := validate fuel in
  let* height := get_height fuel in
  let max_height_upper_bound := (2 * Z.log2 (Z.of_nat num_keys + 1))%Z in
  ret [all_keys_found; valid; bool_decide (height ≤ max_height_upper_bound)%Z].

(** Test 8: keys 1 to 20 in order; the verdict and the height. *)
Definition test_sorted (fuel : nat) : M (mstate Z string RedBlackTree) (bool * Z) :=
  RedBlackTree_ctor ;;
  kv_insert_all fuel ((λ i, (Z.of_nat i, "Value" +:+ pretty (Z.of_nat i))) <$> seq 1 20) ;;
  let* valid := validate fuel in
  let* h := get_height fuel in
  ret (valid, h).

(** Test 9: insert ten keys, remove them one by one. *)
Definition test_delete_all (fuel : nat) : M (mstate Z Z RedBlackTree) (list bool) :=
  RedBlackTree_ctor ;;
  kv_insert_all fuel ((λ i, (Z.of_nat i, Z.of_nat i)) <$> seq 0 10) ;;
  let* ok := remove_all fuel (Z.of_nat <$> seq 0 10) in
  let* e := kv_empty in
  ret [ok; e].
