(* ===== verification/KvRBTreeRep.v ===== *)
(** * KV_Store/RBTree.cpp: the object and the tree it represents

    [krep n s t]: the object in state [s] represents the tree [t] and its
    counter is [n].  The rules below give the effect of node accesses, of the
    helpers [is_left_child] and [sibling], of recolouring and of the rotations
    on that tree, and [ktree_step] runs code around a focused node. *)
From stdpp Require Import base gmap list strings.
From S2P Require Import Prelude OrderedMap RBTheory RBHeap RBTreeRep KvRBTree.

Ltac ksimp := unfold set_kv_root, set_count; node_simp; cbn [kv_root kv_count ptr_of].
Ltac kstep := repeat (first [ wp_head | wp_mem ]; ksimp).

Section krep.
Context {K V : Type} `{!KeyOrder K}.
Abbreviation st := (mstate K V RedBlackTree).
Implicit Types (s : st) (t a b u w : tree K V) (ctx rest : list (frame K V)) (n : Z).

Record krep n s t : Prop := {
  kr_owned : owned None (mem s) t;
  kr_this : this s = KV (ptr_of None t) n
}.

Lemma kptr_of_plug_cons f ctx t t' :
  ptr_of None (plug (f :: ctx) t) = ptr_of None (plug (f :: ctx) t').
Proof.
  revert f t t'. induction ctx as [|g ctx IH]; intros f t t'; [|apply IH].
  simpl. unfold fill. by rewrite !ptr_of_mk.
Qed.
Lemma kptr_of_plug ctx t t' :
  ptr_of None t = ptr_of None t' → ptr_of None (plug ctx t) = ptr_of None (plug ctx t').
Proof. intros. destruct ctx; [done|apply kptr_of_plug_cons]. Qed.

Lemma krep_facts n s ctx t :
  krep n s (plug ctx t) →
  rep None (mem s) (cpar ctx) t ∧ repc None (mem s) (ptr_of None t) ctx ∧
  NoDup (locs t ++ clocs ctx) ∧ this s = KV (ptr_of None (plug ctx t)) n.
Proof. by intros [(? & ? & ?)%owned_split ?]. Qed.

Lemma krep_nodup n s ctx t : krep n s (plug ctx t) → NoDup (locs t ++ clocs ctx).
Proof. by intros (? & ? & ? & _)%krep_facts. Qed.

Lemma wp_krd_node n s ctx c l k v a b {B} (f : node K V → B) Q :
  krep n s (plug ctx (T c l k v a b)) →
  Q (f (Node k v c (ptr_of None a) (ptr_of None b) (cpar ctx))) s →
  wp (rd (Some l) f) s Q.
Proof. intros Hs HQ. eapply wp_rd; [eapply owned_lookup, Hs|done]. Qed.

Lemma wp_kroot n s t (Q : ptr → st → Prop) :
  krep n s t → Q (ptr_of None t) s → wp (get_this kv_root) s Q.
Proof. intros Hs HQ. apply wp_get_this. by rewrite (kr_this _ _ _ Hs). Qed.
Lemma wp_kcount n s t (Q : Z → st → Prop) :
  krep n s t → Q n s → wp (get_this kv_count) s Q.
Proof. intros Hs HQ. apply wp_get_this. by rewrite (kr_this _ _ _ Hs). Qed.
Lemma wp_set_count n n' s t Q :
  krep n s t → (∀ s', krep n' s' t → Q tt s') → wp (set_count n') s Q.
Proof.
  intros [Ho Ht] HQ. apply wp_set_this, HQ. split; simpl; [done|]. by rewrite Ht.
Qed.

Lemma wp_krelabel n s ctx c l k v a b c' v' g Q :
  krep n s (plug ctx (T c l k v a b)) →
  (∀ p q r, g (Node k v c p q r) = Node k v' c' p q r) →
  (∀ s', krep n s' (plug ctx (T c' l k v' a b)) → Q tt s') →
  wp (wr (Some l) g) s Q.
Proof.
  intros Hs Hg HQ. eapply wp_wr; [eapply owned_lookup, Hs|]. rewrite Hg.
  destruct Hs as [Ho Ht]. apply HQ. split; simpl.
  - by eapply owned_relabel.
  - rewrite Ht. f_equal. by apply kptr_of_plug.
Qed.

Lemma wp_kpaint n s ctx c l k v a b c' Q :
  krep n s (plug ctx (T c l k v a b)) →
  (∀ s', krep n s' (plug ctx (T c' l k v a b)) → Q tt s') →
  wp (wr (Some l) (set_color c')) s Q.
Proof. intros Hs. by eapply wp_krelabel. Qed.

(** [Node::is_left_child] and [Node::sibling] read the innermost frame. *)
Lemma run_is_left_child n s f rest c l k v a b :
  krep n s (plug (f :: rest) (T c l k v a b)) →
  is_left_child (Some l) s = Ok (match f_side f with Left => true | Right => false end) s.
Proof.
  intros Hs. pose proof Hs as (Ht & Hc & Hnd & _)%krep_facts. simpl in Ht, Hc, Hnd.
  destruct Ht as (Hl & _), Hc as (Hf & _). nodup_facts.
  apply wp_eq. unfold is_left_child. destruct f as [[] cf lf kf vf sf]; simpl in *.
  - kstep. wp_test. kstep. by rewrite bool_decide_eq_true_2.
  - kstep. wp_test. kstep. rewrite bool_decide_eq_false_2; [done|].
    destruct sf as [|? m ????]; simpl in *; [done|]. intros [= ->]. set_solver.
Qed.
Lemma run_is_left_child_root n s c l k v a b :
  krep n s (T c l k v a b) → is_left_child (Some l) s = Ok false s.
Proof.
  intros Hs. pose proof (krep_facts n s [] _ Hs) as ((Hl & _) & _). simpl in Hl.
  apply wp_eq. unfold is_left_child. kstep. by wp_test.
Qed.

Lemma wp_is_left_child n s f rest c l k v a b (Q : bool → st → Prop) :
  krep n s (plug (f :: rest) (T c l k v a b)) →
  Q (match f_side f with Left => true | Right => false end) s →
  wp (is_left_child (Some l)) s Q.
Proof. intros Hs. apply wp_pure_run. by eapply run_is_left_child. Qed.

Lemma wp_sibling n s f rest c l k v a b Q :
  krep n s (plug (f :: rest) (T c l k v a b)) →
  Q (ptr_of None (f_sib f)) s → wp (sibling (Some l)) s Q.
Proof.
  intros Hs HQ. pose proof Hs as (Ht & Hc & _)%krep_facts. simpl in Ht, Hc.
  destruct Ht as (Hl & _), Hc as (Hf & _).
  unfold sibling. kstep. wp_test. apply wp_bind.
  eapply wp_pure_run; [by eapply run_is_left_child|].
  destruct f as [[] cf lf kf vf sf]; simpl in *; kstep; exact HQ.
Qed.

(** Rotation in either direction. *)
Definition kv_rotate (d : side) (x : ptr) : M st unit :=
  let* y := rd x (child (opp d)) in
  if bool_decide (y = None) then ret tt
  else
    let* yl := rd y (child d) in
    wr x (set_child (opp d) yl) ;;
    let* yl := rd y (child d) in
    when bool_decide (yl ≠ None) then
      (let* yl := rd y (child d) in wr yl (set_parent x)) ;;
    let* xp := rd x n_parent in
    wr y (set_parent xp) ;;
    let* xp := rd x n_parent in
    (if bool_decide (xp = None) then set_kv_root y
     else
       let* isl := is_left_child x in
       if isl : bool then let* xp := rd x n_parent in wr xp (set_left y)
       else let* xp := rd x n_parent in wr xp (set_right y)) ;;
    wr y (set_child d x) ;;
    wr x (set_parent y).

Lemma left_rotate_rotate x : left_rotate x = kv_rotate Left x.
Proof. reflexivity. Qed.
Lemma right_rotate_rotate x : right_rotate x = kv_rotate Right x.
Proof. reflexivity. Qed.

Lemma wp_kv_rotate d n s ctx cx x kx vx a cy y ky vy b c Q :
  krep n s (plug ctx (mk d cx x kx vx a (mk d cy y ky vy b c))) →
  (∀ s', krep n s' (plug ctx (mk d cy y ky vy (mk d cx x kx vx a b) c)) → Q tt s') →
  wp (kv_rotate d (Some x)) s Q.
Proof.
  intros Hs HQ. pose proof Hs as (Ht & Hc & Hnd & Hthis)%krep_facts.
  rewrite !rep_mk in Ht. rewrite !ptr_of_mk in Ht, Hc. rewrite !locs_mk in Hnd.
  simpl in Hnd. destruct Ht as (Hx & Ha & Hy & Hb & Hc').
  nodup_facts.
  assert (∀ h' r',
    r' = ptr_of None (plug ctx (mk d cy y ky vy (mk d cx x kx vx a b) c)) →
    h' !! x = Some (nd d kx vx cx (ptr_of None a) (ptr_of None b) (Some y)) →
    h' !! y = Some (nd d ky vy cy (Some x) (ptr_of None c) (cpar ctx)) →
    match b with E => True | T _ l _ _ _ _ => h' !! l = set_parent (Some x) <$> mem s !! l end →
    match ctx with
    | [] => True
    | f :: _ => h' !! f_loc f = set_child (f_side f) (Some y) <$> mem s !! f_loc f
    end →
    (∀ l, l ≠ x → l ≠ y → l ∈ locs b ∧ Some l ≠ ptr_of None b ∨ l ∈ locs a ∨ l ∈ locs c ∨
        l ∈ clocs ctx ∧ Some l ≠ cpar ctx → h' !! l = mem s !! l) →
    Q tt (MS h' (KV r' n))) as Hfin.
  { intros h' r' -> ?????. apply HQ. split; simpl; [|done].
    eapply owned_rotate; eauto. apply Hs. }
  clear HQ Hs. unfold kv_rotate, is_left_child. destruct s as [h m]; simpl in *; subst m.
  destruct d; (destruct b as [|cb lb kb vb b1 b2];
    destruct ctx as [|[[] cf lf kf vf sf] ctx]); simpl in *;
    nodup_facts; destruct_and?; kstep;
    repeat (first [wp_test | rewrite (bool_decide_eq_true_2 (Some x = Some x)) by done
                  | rewrite bool_decide_eq_false_2 by ptr_test]; kstep);
    (apply Hfin; [try exact (kptr_of_plug_cons _ _ _ _)|..]); rotate_side.
Qed.

Lemma wp_left_rotate n s ctx cx x kx vx a cy y ky vy b c Q :
  krep n s (plug ctx (T cx x kx vx a (T cy y ky vy b c))) →
  (∀ s', krep n s' (plug ctx (T cy y ky vy (T cx x kx vx a b) c)) → Q tt s') →
  wp (left_rotate (Some x)) s Q.
Proof. apply (wp_kv_rotate Left). Qed.
Lemma wp_right_rotate n s ctx cx x kx vx a cy y ky vy b c Q :
  krep n s (plug ctx (T cx x kx vx (T cy y ky vy c b) a)) →
  (∀ s', krep n s' (plug ctx (T cy y ky vy c (T cx x kx vx b a))) → Q tt s') →
  wp (right_rotate (Some x)) s Q.
Proof. apply (wp_kv_rotate Right). Qed.
End krep.

(** ** Running code on an object whose tree is known around the focus *)
Ltac kfocus l H :=
  lazymatch type of H with
  | krep ?n ?s (plug ?ctx ?t) =>
      find_node l ctx t ltac:(fun ctx' t' => change (krep n s (plug ctx' t')) in H)
  | krep ?n ?s ?t =>
      let K := match type of t with tree ?K ?V => constr:(@Datatypes.nil (frame K V)) end in
      find_node l K t ltac:(fun ctx' t' => change (krep n s (plug ctx' t')) in H)
  end.
Ltac kfocus_sub u H :=
  lazymatch type of H with
  | krep ?n ?s (plug ?ctx ?t) =>
      find_sub u ctx t ltac:(fun ctx' => change (krep n s (plug ctx' u)) in H)
  | krep ?n ?s ?t =>
      let K := match type of t with tree ?K ?V => constr:(@Datatypes.nil (frame K V)) end in
      find_sub u K t ltac:(fun ctx' => change (krep n s (plug ctx' u)) in H)
  end.
Ltac with_krep k :=
  match goal with
  | H : krep _ ?s _ |- wp _ ?s _ => k H
  end.
Ltac ktree_head :=
  first
  [ wp_head
  | with_krep ltac:(fun H =>
      lazymatch goal with
      | |- wp (get_this kv_root) _ _ => eapply wp_kroot; [exact H|]
      | |- wp (get_this kv_count) _ _ => eapply wp_kcount; [exact H|]
      | |- wp (set_count _) _ _ => next_state H wp_set_count
      | |- wp (rd (Some ?l) _) _ _ => kfocus l H; eapply wp_krd_node; [exact H|]; unfocus H
      | |- wp (is_left_child (Some ?l)) _ _ =>
          kfocus l H; eapply wp_is_left_child; [exact H|]; unfocus H
      | |- wp (sibling (Some ?l)) _ _ =>
          kfocus l H; eapply wp_sibling; [exact H|]; unfocus H
      | |- wp (wr (Some ?l) (set_color _)) _ _ => kfocus l H; next_state H wp_kpaint
      | |- wp (left_rotate (Some ?l)) _ _ => kfocus l H; next_state H wp_left_rotate
      | |- wp (right_rotate (Some ?l)) _ _ => kfocus l H; next_state H wp_right_rotate
      end)
  | lazymatch goal with
    | |- wp (is_red ?p) ?s ?Q =>
        change (wp (if bool_decide (p ≠ None) then
          let* c := rd p n_color in ret (bool_decide (c = RED)) else ret false) s Q)
    | |- wp (null_or_black ?p) ?s ?Q =>
        change (wp (if bool_decide (p = None) then ret true
          else let* c := rd p n_color in ret (bool_decide (c = BLACK))) s Q)
    | |- wp (parent_or_null ?p) ?s ?Q =>
        change (wp (if bool_decide (p = None) then ret None else rd p n_parent) s Q)
    end ];
  tree_simp.
Ltac ktree_step := repeat (first [ ktree_head | wp_test ]).

(** *** Facts about a focus *)
Section kfocus_facts.
Context {K V : Type} `{!KeyOrder K}.
Abbreviation st := (mstate K V RedBlackTree).
Implicit Types (s : st) (t a b u w : tree K V) (ctx rest : list (frame K V)) (n : Z).

Lemma kroot_in_path f rest t :
  ∃ x, ptr_of None (plug (f :: rest) t) = Some x ∧ x ∈ clocs (f :: rest).
Proof.
  revert f t. induction rest as [|g rest IH]; intros f t.
  - exists (f_loc f). simpl. unfold fill. rewrite ptr_of_mk. set_solver.
  - destruct (IH g (fill f t)) as (x & Hx & ?). exists x. split; [exact Hx|]. set_solver.
Qed.

Lemma kroot_ne n s f rest t :
  krep n s (plug (f :: rest) t) → ptr_of None t ≠ ptr_of None (plug (f :: rest) t).
Proof.
  intros Hs. pose proof (krep_nodup _ _ _ _ Hs) as Hnd.
  destruct (kroot_in_path f rest t) as (x & -> & Hx). destruct t as [|c l k v a b]; simpl; [done|].
  intros [= ->]. apply NoDup_app in Hnd as (_ & Hd & _).
  apply (Hd x); [simpl; set_solver|done].
Qed.

Lemma ksib_ne n s d c l k v w rest t :
  krep n s (plug (Frame d c l k v w :: rest) t) → w ≠ E → ptr_of None t ≠ ptr_of None w.
Proof.
  intros Hs Hw. pose proof (krep_nodup _ _ _ _ Hs) as Hnd. simpl in Hnd.
  destruct w as [|cw lw kw vw wl wr]; [done|]. simpl in Hnd.
  destruct t as [|c' l' k' v' a b]; simpl in *; [done|]. intros [= ->]; nodup_facts; done.
Qed.

Lemma wp_null_or_black n s ctx u Q :
  krep n s (plug ctx u) → Q (bool_decide (color u = BLACK)) s →
  wp (null_or_black (ptr_of None u)) s Q.
Proof. intros Hs HQ. destruct u; unfold null_or_black; tree_simp; ktree_step; exact HQ. Qed.
End kfocus_facts.
