(* ===== verification/KvRBTreeInsert.v ===== *)
(** * KV_Store/RBTree.cpp: search and insertion

    One iteration of [fix_insert]'s loop is one step of [ins_fix]. *)
From stdpp Require Import base gmap list strings.
From S2P Require Import Prelude OrderedMap RBTheory RBHeap RBTreeRep KvRBTree KvRBTreeRep.

Section fixup.
Context {K V : Type} `{!KeyOrder K}.
Abbreviation st := (mstate K V RedBlackTree).
Implicit Types (s : st) (t a b u : tree K V) (ctx rest : list (frame K V)) (m : Z).

(** One iteration leaves the loop with the repaired tree up to the final
    blackening of the root, or goes on closer to the root. *)
Definition fix_post m ctx t (r : ptr + unit) s' : Prop :=
  match r with
  | inr _ => ∃ t', krep m s' t' ∧ t' ≠ E ∧ paint BLACK t' = ins_fix ctx t
  | inl z' => ∃ n' ctx' t', ptr_of None t' = z' ∧ color t' = RED ∧
      cwf n' ctx' ∧ rbt n' t' ∧ krep m s' (plug ctx' t') ∧
      ins_fix ctx' t' = ins_fix ctx t ∧ length ctx' < length ctx
  end.

Lemma fix_insert_iter_ok m n s ctx z zk zv t1 t2 :
  cwf n ctx → rbt n (T RED z zk zv t1 t2) → krep m s (plug ctx (T RED z zk zv t1 t2)) →
  wp (fix_insert_iter (Some z)) s (fix_post m ctx (T RED z zk zv t1 t2)).
Proof.
  intros Hc Hr Hs. pose proof (krep_nodup _ _ _ _ Hs) as Hnd.
  unfold fix_insert_iter, fix_insert_body, fix_insert_case2.
  destruct ctx as [|f0 ctx0]; [unfocus Hs; ktree_step; simpl; eauto|].
  pose proof (kroot_ne _ _ _ _ _ Hs) as Hroot. do 2 ktree_head.
  rewrite bool_decide_eq_true_2 by exact Hroot. clear Hroot.
  destruct f0 as [dp cp p pk pv ps], ctx0 as [|[dg cg g gk gv u] rest].
  - destruct cp; [destruct Hc as (_ & _ & [] & _)|].
    destruct dp; unfocus Hs; ktree_step; simpl; eauto.
  - destruct cp.
    2: { destruct dp, dg; unfocus Hs; ktree_step; eexists;
           (split_and!; [exact Hs|by apply plug_ne|done]). }
    destruct Hc as (Hps & Hbps & Hg & Hu & Hc). simpl in Hg, Hc. subst cg.
    destruct u as [|[] ul uk uv ua ub]; simpl in Hnd; nodup_facts;
      destruct dg, dp; unfocus Hs; ktree_step; cbn [negb]; ktree_step.
    all: simpl in Hr, Hps, Hu, Hbps; destruct_and?.
    all: lazymatch goal with
         | |- fix_post _ _ _ (inl (Some ?l)) _ => kfocus l Hs
         end; unfold fix_post.
    all: first
      [ exists n; do 2 eexists; (split_and!; [| | | |exact Hs|..]); simpl;
        solve [split_and?; (done || lia)]
      | exists (S n); do 2 eexists; (split_and!; [| | | |exact Hs|..]); simpl;
        solve [split_and?; eauto 10; (done || lia)] ].
Qed.

Lemma fix_insert_loop fuel m n s ctx t :
  cwf n ctx → rbt n t → color t = RED → krep m s (plug ctx t) → length ctx < fuel →
  wp (loop fuel fix_insert_iter (ptr_of None t)) s (λ _ s', ∃ t',
    krep m s' t' ∧ t' ≠ E ∧ paint BLACK t' = ins_fix ctx t).
Proof.
  revert n s ctx t. induction fuel as [|fuel IH]; [lia|].
  intros n s ctx t Hc Hr Hct Hs Hfuel. apply wp_loop.
  destruct t as [|[] z zk zv t1 t2]; try done.
  eapply wp_mono; [by apply (fix_insert_iter_ok m n)|].
  intros [z'|[]] s'; simpl; [|done].
  intros (n' & ctx' & t' & <- & ? & ? & ? & ? & <- & ?). eapply IH; eauto. lia.
Qed.

(** [fix_insert] repairs the tree as the functional algorithm does. *)
Lemma wp_fix_insert fuel m n s ctx t Q :
  cwf n ctx → rbt n t → color t = RED → krep m s (plug ctx t) → length ctx < fuel →
  (∀ s', krep m s' (ins_fix ctx t) → Q tt s') →
  wp (fix_insert fuel (ptr_of None t)) s Q.
Proof.
  intros ????? HQ. apply wp_bind. eapply wp_mono; [by eapply fix_insert_loop|].
  intros [] s' (t' & Hs & Hne & He). destruct t' as [|c l k v a b]; [done|].
  ktree_step. apply HQ. by rewrite <-He.
Qed.
End fixup.

Section insert.
Context {K V : Type} `{!KeyOrder K}.
Abbreviation st := (mstate K V RedBlackTree).
Implicit Types (s : st) (t a b : tree K V) (ctx rest : list (frame K V)) (n : Z).

Lemma find_node_loop fuel n s key ctx t :
  krep n s (plug ctx t) → theight t < fuel →
  wp (loop fuel (find_node_iter key) (ptr_of None t)) s (λ r s', s' = s ∧
    r = match (zsearch key ctx t).2 with E => None | T _ l _ _ _ _ => Some l end).
Proof.
  revert ctx t. induction fuel as [|fuel IH]; [lia|]. intros ctx t Hs Hh.
  apply wp_loop. unfold find_node_iter, key_gtb.
  destruct t as [|c l k v a b]; tree_simp; ktree_step; [done|]. simpl in Hh |- *.
  key_case key k; ktree_step.
  - apply (IH (Frame Left c l k v b :: ctx)); [done|lia].
  - apply (IH (Frame Right c l k v a :: ctx)); [done|lia].
  - done.
Qed.

Lemma wp_find_node fuel n s key t Q :
  krep n s t → theight t < fuel →
  Q (match (zsearch key [] t).2 with E => None | T _ l _ _ _ _ => Some l end) s →
  wp (find_node fuel key) s Q.
Proof.
  intros Hs Hh HQ. unfold find_node. ktree_step.
  eapply wp_mono; [by apply (find_node_loop _ n _ _ [])|]. by intros r s' [-> ->].
Qed.

Lemma kv_insert_loop fuel n s key ctx t :
  krep n s (plug ctx t) → theight t < fuel →
  wp (loop fuel (kv_insert_iter key) (ptr_of None t, cpar ctx)) s (λ r s', s' = s ∧
    r = match zsearch key ctx t with
        | (ctx', E) => inr (cpar ctx')
        | (_, T _ l _ _ _ _) => inl (Some l)
        end).
Proof.
  revert ctx t. induction fuel as [|fuel IH]; [lia|]. intros ctx t Hs Hh.
  apply wp_loop. unfold kv_insert_iter, key_gtb.
  destruct t as [|c l k v a b]; tree_simp; ktree_step; [done|]. simpl in Hh |- *.
  key_case key k; ktree_step.
  - apply (IH (Frame Left c l k v b :: ctx)); [done|lia].
  - apply (IH (Frame Right c l k v a :: ctx)); [done|lia].
  - done.
Qed.

Lemma krep_fresh n s t z : krep n s t → mem s !! z = None → z ∉ locs t.
Proof.
  intros [[Hr Hnd] Ht] Hz Hl. destruct (rep_is_Some _ _ _ _ _ Hr Hl). congruence.
Qed.

(** Hanging a new leaf node at the hole. *)
Lemma krep_link n s f rest z c k v h' :
  krep n s (plug (f :: rest) E) → z ∉ locs (plug (f :: rest) E) →
  h' !! z = Some (Node k v c None None (Some (f_loc f))) →
  h' !! f_loc f = set_child (f_side f) (Some z) <$> mem s !! f_loc f →
  (∀ l, l ≠ z → l ≠ f_loc f → h' !! l = mem s !! l) →
  krep n (MS h' (this s)) (plug (f :: rest) (T c z k v E E)).
Proof.
  intros [Ho Ht] Hz Hhz Hpar Hag. rewrite locs_plug in Hz. split; simpl.
  - eapply (owned_replace _ _ _ (f :: rest)); [done|..]; simpl.
    + apply NoDup_singleton.
    + intros l ->%list_elem_of_singleton. done.
    + by rewrite Hhz.
    + intros l Hl Hlp. apply Hag; [set_solver|congruence].
    + done.
  - rewrite Ht. f_equal. apply kptr_of_plug_cons.
Qed.

Lemma kv_insert_empty fuel n s key v :
  krep n s E → wp (kv_insert fuel key v) s (λ r s', r = true ∧
    ∃ z, krep 1 s' (tree_insert [] z key v)).
Proof.
  intros [Ho Ht]. destruct s as [h m]; simpl in *; subst m. unfold kv_insert, kv_node. kstep.
  wp_test. apply wp_bind, wp_new. intros z Hz. simpl. kstep. split; [done|]. exists z.
  split; simpl; [|done]. split; simpl; [split; [by mem_lookup|done]|apply NoDup_singleton].
Qed.

Lemma kv_insert_found fuel n s key v t ctx c l k' v' a b :
  krep n s t → theight t < fuel → zsearch key [] t = (ctx, T c l k' v' a b) →
  wp (kv_insert fuel key v) s (λ r s', r = false ∧ krep n s' (plug ctx (T c l k' v a b))).
Proof.
  intros Hs Hh Hz. unfold kv_insert. pose proof (zsearch_plug _ [] _ _ _ Hz) as Hp.
  simpl in Hp. assert (t ≠ E) as Hne by (rewrite <-Hp; by apply plug_ne). ktree_step.
  rewrite bool_decide_eq_false_2 by by destruct t. apply wp_bind.
  eapply wp_mono; [by apply (kv_insert_loop fuel n s key [] t)|].
  intros r s' [-> ->]. rewrite Hz. rewrite <-Hp in Hs. apply wp_bind.
  eapply wp_krelabel with (v' := v) (c' := c); [exact Hs|done|]. intros s' Hs'. by apply wp_ret.
Qed.

Lemma kv_insert_new fuel n s key v t ctx :
  krep n s t → t ≠ E → tree_ok t → ksorted (elems t) → zsearch key [] t = (ctx, E) →
  tsize t + 1 < fuel →
  wp (kv_insert fuel key v) s (λ r s', r = true ∧
    ∃ z, krep (size_t (n + 1)) s' (tree_insert ctx z key v)).
Proof.
  intros Hs Hne Hok Hsort Hz Hfuel. pose proof (theight_tsize t).
  destruct (zsearch_spec _ _ _ _ Hsort Hz) as (Hp & Hl & Hr & _).
  unfold kv_insert. ktree_step. rewrite bool_decide_eq_false_2 by by destruct t. apply wp_bind.
  eapply wp_mono; [apply (kv_insert_loop fuel n s key [] t); [done|lia]|].
  intros r s' [-> ->]. rewrite Hz. apply wp_bind, wp_new. intros z Hzn.
  pose proof (krep_fresh _ _ _ _ Hs Hzn) as Hzt. rewrite <-Hp in Hs, Hok, Hzt.
  destruct ctx as [|f rest]; [by simpl in Hp; subst|].
  pose proof (hole_side _ _ _ Hl Hr) as Hside.
  apply tree_ok_plug in Hok as (n0 & Hcwf & Hrn & _). simpl in Hrn. subst n0.
  assert (length (f :: rest) < fuel) as Hlen.
  { pose proof (plug_tsize (f :: rest) E) as Hlen. rewrite Hp in Hlen. simpl in Hlen |- *. lia. }
  pose proof Hs as (_ & (Hf & _) & _)%krep_facts.
  assert (z ≠ f_loc f) as Hzf.
  { intros ->. rewrite locs_plug in Hzt. simpl in Hzt. set_solver. }
  assert (∀ h', h' !! z = Some (Node key v RED None None (Some (f_loc f))) →
    h' !! f_loc f = set_child (f_side f) (Some z) <$> mem s !! f_loc f →
    (∀ l, l ≠ z → l ≠ f_loc f → h' !! l = mem s !! l) →
    wp (fix_insert fuel (Some z)) (MS h' (this s)) (λ _ s', ∃ z,
      krep n s' (tree_insert (f :: rest) z key v))) as Hfix.
  { intros h' ???. eapply (wp_fix_insert _ n 0 _ (f :: rest) (T RED z key v E E)); try done.
    - eapply krep_link; done.
    - intros s' Hs'. by exists z. }
  destruct f as [d c l k' v' b]. destruct s as [h m]. simpl in Hside, Hf, Hfix, Hzn, Hzf.
  unfold kv_node. cbn [cpar f_loc].
  destruct d; simpl in Hf; kstep; rewrite Hside; kstep;
    (eapply wp_mono; [eapply Hfix|]).
  all: try (intros; rewrite !lookup_insert_ne by done; done).
  all: try mem_lookup.
  all: try (rewrite Hf; simpl; mem_lookup).
  all: intros [] s' [z' Hs']; ktree_step; split; [done|]; exists z'.
  all: split; [by apply Hs'|]; simpl; by rewrite (kr_this _ _ _ Hs').
Qed.
End insert.
