(* ===== verification/KvRBTreeUnlink.v ===== *)
(** * KV_Store/RBTree.cpp: unlinking a node

    [minimum], [transplant] and the middle part of [remove]: the object loses
    the node as the functional [splice] says. *)
From stdpp Require Import base gmap list strings.
From S2P Require Import Prelude OrderedMap RBTheory RBHeap RBTreeRep KvRBTree KvRBTreeRep.

(** Closing the side conditions of the replacement lemmas on a concrete store. *)
Ltac kswap_side :=
  try done; node_simp;
  try match goal with H : ?h !! ?l = Some _ |- _ = _ <$> ?h !! ?l => rewrite H; simpl end;
  try mem_lookup;
  intros; rewrite !lookup_insert_ne by congruence; done.
Ltac krun :=
  repeat (first [wp_test | rewrite bool_decide_eq_true_2 by reflexivity
                | rewrite bool_decide_eq_false_2 by ptr_test]; kstep).

Section unlink.
Context {K V : Type} `{!KeyOrder K}.
Abbreviation st := (mstate K V RedBlackTree).
Implicit Types (s : st) (t a b w : tree K V) (ctx rest : list (frame K V)) (n : Z).

Lemma krep_replace n s ctx t t' h' r' :
  krep n s (plug ctx t) →
  NoDup (locs t') → (∀ l, l ∈ locs t' → l ∉ clocs ctx) →
  rep None h' (cpar ctx) t' →
  (∀ l, l ∈ clocs ctx → Some l ≠ cpar ctx → h' !! l = mem s !! l) →
  match ctx with
  | [] => True
  | f :: _ => h' !! f_loc f = set_child (f_side f) (ptr_of None t') <$> mem s !! f_loc f
  end →
  r' = ptr_of None (plug ctx t') →
  krep n (MS h' (KV r' n)) (plug ctx t').
Proof.
  intros Hs Hnd Hdisj Hr Hag Hredir ->. split; simpl; [|done].
  eapply owned_replace; [apply Hs|done..].
Qed.

Lemma wp_kv_transplant_child n s ctx d c u k v w :
  krep n s (plug ctx (mk d c u k v E w)) →
  wp (kv_transplant (Some u) (ptr_of None w)) s (λ _ s',
    krep n s' (plug ctx w) ∧ mem s' !! u = mem s !! u).
Proof.
  intros Hs. pose proof Hs as (Ht & Hc & Hnd & Hthis)%krep_facts.
  rewrite rep_mk in Ht. rewrite ptr_of_mk in Hc. rewrite locs_mk in Hnd.
  simpl in Hnd. destruct Ht as (Hu & _ & Hw). nodup_facts.
  assert (∀ h' r',
    r' = ptr_of None (plug ctx w) →
    h' !! u = mem s !! u →
    match w with E => True | T _ l _ _ _ _ => h' !! l = set_parent (cpar ctx) <$> mem s !! l end →
    match ctx with
    | [] => True
    | f :: _ => h' !! f_loc f = set_child (f_side f) (ptr_of None w) <$> mem s !! f_loc f
    end →
    (∀ l, Some l ≠ ptr_of None w → Some l ≠ cpar ctx → h' !! l = mem s !! l) →
    krep n (MS h' (KV r' n)) (plug ctx w) ∧ h' !! u = mem s !! u) as Hfin.
  { intros h' r' -> Hu' Hw' Hf Hag. split; [|done].
    eapply krep_replace; [exact Hs|..]; try done.
    - eapply rep_reparent; [done| |done|done]. intros l Hl Hne. apply Hag; [done|].
      destruct ctx as [|f ctx]; [done|]. simpl in *. intros [= ->]. set_solver.
    - intros l Hl Hne. apply Hag; [|done].
      destruct w; simpl in *; [congruence|]. intros [= ->]. set_solver. }
  simpl ptr_of in Hu. destruct s as [h m]; simpl in *; subst m. clear Hs.
  unfold kv_transplant, is_left_child.
  destruct w as [|cw lw kw vw w1 w2], ctx as [|[[] cf lf kf vf sf] ctx], d; simpl in *;
    nodup_facts; destruct_and?; kstep; krun;
    (apply Hfin; [try exact (kptr_of_plug_cons _ _ _ _)|..]); kswap_side.
Qed.

Lemma kv_minimum_loop fuel n s ctx ctx0 c l k v a b ctx' cy y ky vy xr :
  krep n s (plug ctx (T c l k v a b)) →
  zmin ctx0 c l k v a b = (ctx', (cy, y, ky, vy, xr)) → theight a < fuel →
  wp (loop fuel kv_minimum_iter (Some l)) s (λ r s', s' = s ∧ r = Some y).
Proof.
  revert fuel ctx ctx0 c l k v b. induction a as [|ca la ka va aa IHa ba _];
    intros fuel ctx ctx0 c l k v b Hs Hz Hf; (destruct fuel as [|fuel]; [lia|]);
    apply wp_loop; unfold kv_minimum_iter; simpl in Hz, Hf.
  - injection Hz as <- <- <- <- <- <-. by ktree_step.
  - ktree_step. eapply (IHa fuel (Frame Left c l k v b :: ctx)); [exact Hs|done|lia].
Qed.

(** A node [y] with subtrees [a] and [b] takes the place of the focus. *)
Lemma krep_swap n s ctx t pa a pb b c y ky vy h' r' :
  krep n s (plug ctx t) → rep None (mem s) pa a → rep None (mem s) pb b →
  NoDup (y :: locs a ++ locs b) →
  (∀ l, l ∈ y :: locs a ++ locs b → l ∉ clocs ctx) →
  h' !! y = Some (Node ky vy c (ptr_of None a) (ptr_of None b) (cpar ctx)) →
  (match a with E => True | T _ l _ _ _ _ => h' !! l = set_parent (Some y) <$> mem s !! l end) →
  (match b with E => True | T _ l _ _ _ _ => h' !! l = set_parent (Some y) <$> mem s !! l end) →
  match ctx with
  | [] => True
  | f :: _ => h' !! f_loc f = set_child (f_side f) (Some y) <$> mem s !! f_loc f
  end →
  (∀ l, l ≠ y → Some l ≠ ptr_of None a → Some l ≠ ptr_of None b →
    Some l ≠ cpar ctx → h' !! l = mem s !! l) →
  r' = ptr_of None (plug ctx (T c y ky vy a b)) →
  krep n (MS h' (KV r' n)) (plug ctx (T c y ky vy a b)).
Proof.
  intros Hs Ha Hb Hnd Hout Hy Hpa Hpb Hredir Hag Hr'.
  assert (∀ (u : tree K V) l, l ∉ locs u → Some l ≠ ptr_of None u) as Hne.
  { intros u l ? Hl. symmetry in Hl. eapply ptr_of_ne in Hl; [done..|congruence]. }
  assert (∀ l, l ∉ clocs ctx → Some l ≠ cpar ctx) as Hne'.
  { intros l Hl. destruct ctx as [|f ctx]; simpl in *; [done|]. intros [= ->]. set_solver. }
  assert (∀ l x, l ∈ clocs ctx → x ∈ y :: locs a ++ locs b → l ≠ x) as Hx.
  { intros l x Hl Hx ->. by apply Hout in Hx. }
  eapply krep_replace; [exact Hs|exact Hnd|..]; simpl; try done; nodup_facts.
  - split_and!; [done|..].
    + eapply rep_reparent; [done| |done|done]. intros l Hl ?.
      assert (l ∉ clocs ctx) by eauto. apply Hag; auto; set_solver.
    + eapply rep_reparent; [done| |done|done]. intros l Hl ?.
      assert (l ∉ clocs ctx) by eauto. apply Hag; auto; set_solver.
  - intros l Hl ?. apply Hag; try done; [apply Hx; [done|apply elem_of_cons; by left]|..];
      apply Hne; intros Hl'; (apply (Hx l l); [done| |done]); clear -Hl'; set_solver.
Qed.

(** [kv_move_to] when [y] is the right child of [z]. *)
Lemma kv_move_to_near n s ctx c z k v a cy y ky vy b :
  krep n s (plug ctx (T c z k v a (T cy y ky vy E b))) → a ≠ E →
  wp (kv_move_to (Some y) (Some z)) s (λ _ s', krep n s' (plug ctx (T c y ky vy a b))).
Proof.
  intros Hs Ha. pose proof Hs as (Ht & Hc & Hnd & Hthis)%krep_facts.
  simpl in Ht, Hc, Hnd. destruct Ht as (Hz & Hra & Hy & _ & Hrb).
  assert (NoDup (y :: locs a ++ locs b) ∧
    ∀ l, l ∈ y :: locs a ++ locs b → l ∉ clocs ctx) as [Hnd' Hout'].
  { clear -Hnd; nodup_facts. split.
    - apply NoDup_cons. split; [set_solver|]. apply NoDup_app. set_solver.
    - set_solver. }
  pose proof (λ h' r', krep_swap n s ctx _ _ a _ b c y ky vy h' r' Hs Hra Hrb Hnd' Hout')
    as Hfin. clear Hs Hnd' Hout'. destruct s as [h m]; simpl in *; subst m.
  destruct a as [|ca la ka va a1 a2]; [done|]. unfold kv_move_to, kv_transplant, is_left_child.
  destruct b as [|cb lb kb vb b1 b2], ctx as [|[[] cf lf kf vf sf] ctx]; simpl in *;
    nodup_facts; destruct_and?; kstep; krun;
    (apply Hfin; [..|try exact (kptr_of_plug_cons _ _ _ _)]); kswap_side.
Qed.

(** ... and when [y] was unlinked from further down. *)
Lemma kv_move_to_far n s ctx c z k v a cy y ky vy yl yr yp b (p : ptr) :
  krep n s (plug ctx (T c z k v a b)) → a ≠ E → b ≠ E →
  y ∉ locs (plug ctx (T c z k v a b)) →
  mem s !! y = Some (Node ky vy cy yl yr yp) →
  wp (let* nr := rd (Some z) n_right in wr (Some y) (set_right nr) ;;
      let* sr := rd (Some y) n_right in
      when bool_decide (sr ≠ None) then
        (let* sr := rd (Some y) n_right in wr sr (set_parent (Some y))) ;;
      ret p) s
    (λ q s', q = p ∧ wp (kv_move_to (Some y) (Some z)) s'
      (λ _ s', krep n s' (plug ctx (T c y ky vy a b)))).
Proof.
  intros Hs Ha Hb Hyt Hy. pose proof Hs as (Ht & Hc & Hnd & Hthis)%krep_facts.
  rewrite locs_plug in Hyt. simpl in Ht, Hc, Hnd, Hyt. destruct Ht as (Hz & Hra & Hrb).
  assert (NoDup (y :: locs a ++ locs b) ∧
    ∀ l, l ∈ y :: locs a ++ locs b → l ∉ clocs ctx) as [Hnd' Hout'].
  { clear -Hnd Hyt; nodup_facts. split.
    - apply NoDup_cons. split; [set_solver|]. apply NoDup_app. set_solver.
    - set_solver. }
  pose proof (λ h' r', krep_swap n s ctx _ _ a _ b c y ky vy h' r' Hs Hra Hrb Hnd' Hout')
    as Hfin. clear Hs Hnd' Hout'. destruct s as [h m]; simpl in *; subst m.
  destruct a as [|ca la ka va a1 a2]; [done|]. destruct b as [|cb lb kb vb b1 b2]; [done|].
  destruct ctx as [|[[] cf lf kf vf sf] ctx]; simpl in *;
    nodup_facts; destruct_and?; kstep; krun; (split; [done|]);
    unfold kv_move_to, kv_transplant, is_left_child; kstep; krun;
    (apply Hfin; [..|try exact (kptr_of_plug_cons _ _ _ _)]); kswap_side.
Qed.

(** [kv_unlink] does what [splice] does; its [parent] is where [fix_delete]
    starts. *)
Definition kunlink_post n ctx c a b (r : ptr * ptr * Color) s' : Prop :=
  let '(cy, ctx', x) := splice ctx c a b in
  r = (ptr_of None x, cpar ctx', cy) ∧ krep n s' (plug ctx' x).

Lemma kunlink_child_ok n s ctx d c z k v w :
  krep n s (plug ctx (mk d c z k v E w)) →
  wp (kv_transplant (Some z) (ptr_of None w) ;; ret (ptr_of None w, cpar ctx, c)) s (λ r s',
    r = (ptr_of None w, cpar ctx, c) ∧ krep n s' (plug ctx w)).
Proof.
  intros Hs. apply wp_bind. eapply wp_mono; [by eapply wp_kv_transplant_child|].
  intros [] s' [Hs' _]. by apply wp_ret.
Qed.

Lemma kunlink_near n s ctx c z k v a cy y ky vy b B (f : B) Q :
  krep n s (plug ctx (T c z k v a (T cy y ky vy E b))) → a ≠ E →
  (∀ s', krep n s' (plug (Frame Right c y ky vy a :: ctx) b) → Q f s') →
  wp (kv_move_to (Some y) (Some z) ;; ret f) s Q.
Proof.
  intros Hs Ha HQ. apply wp_bind. eapply wp_mono; [by eapply kv_move_to_near|].
  intros [] s' Hm. by apply HQ.
Qed.

Lemma kunlink_far n s path ctx c z k v a cy y ky vy xr B (f : ptr → B) p Q :
  krep n s (plug (path ++ Frame Right c z k v a :: ctx) (T cy y ky vy E xr)) → a ≠ E →
  path ≠ [] →
  (∀ s', krep n s' (plug (path ++ Frame Right c y ky vy a :: ctx) xr) → Q (f p) s') →
  wp (kv_transplant (Some y) (ptr_of None xr)) s (λ _ s',
    wp (let* nr := rd (Some z) n_right in wr (Some y) (set_right nr) ;;
        let* sr := rd (Some y) n_right in
        when bool_decide (sr ≠ None) then
          (let* sr := rd (Some y) n_right in wr sr (set_parent (Some y))) ;;
        ret p) s'
      (λ q s', wp (kv_move_to (Some y) (Some z) ;; ret (f q)) s' Q)).
Proof.
  intros Hs Ha Hpath HQ. pose proof (krep_nodup _ _ _ _ Hs) as Hnd.
  pose proof (owned_lookup _ _ _ _ _ _ _ _ _ (kr_owned _ _ _ Hs)) as Hy.
  destruct path as [|h path]; [done|].
  eapply wp_mono; [apply wp_kv_transplant_child with (d := Left) in Hs; exact Hs|].
  intros [] s1 [Hs1 Hy1]. rewrite Hy in Hy1.
  assert (y ∉ locs (plug ((h :: path) ++ Frame Right c z k v a :: ctx) xr)) as Hyout.
  { rewrite locs_plug. simpl in Hnd |- *. nodup_facts. set_solver. }
  rewrite plug_app in Hs1, Hyout.
  change (plug (Frame Right c z k v a :: ctx) ?u) with (plug ctx (T c z k v a u)) in Hs1, Hyout.
  eapply wp_mono.
  { eapply kv_move_to_far; [exact Hs1|done| |exact Hyout|exact Hy1].
    apply (plug_ne path). unfold fill. by destruct (f_side h). }
  intros q s2 [-> Hm2]. apply wp_bind.
  eapply wp_mono; [exact Hm2|]. intros [] s3 Hs3. apply HQ. by rewrite plug_app.
Qed.

Lemma kunlink_two_ok fuel n s ctx c z k v a cb lb kb vb ab bb :
  krep n s (plug ctx (T c z k v a (T cb lb kb vb ab bb))) → a ≠ E → theight ab < fuel →
  wp (kv_unlink fuel (Some z) c) s (kunlink_post n ctx c a (T cb lb kb vb ab bb)).
Proof.
  intros Hs Ha Hf. unfold kunlink_post.
  destruct (zmin [] cb lb kb vb ab bb) as [path [[[[cy y] ky] vy] xr]] eqn:Hz.
  assert (splice ctx c a (T cb lb kb vb ab bb) =
    (cy, path ++ Frame Right c y ky vy a :: ctx, xr)) as ->.
  { unfold splice. rewrite Hz. by destruct a. }
  pose proof (krep_nodup _ _ _ _ Hs) as Hnd.
  destruct a as [|ca la ka va a1 a2]; [done|]. simpl in Hnd.
  unfold kv_unlink, kv_minimum. nodup_facts. ktree_step.
  eapply wp_mono;
    [eapply (kv_minimum_loop fuel n s (Frame Right c z k v _ :: ctx)); [exact Hs|exact Hz|done]|].
  intros ? ? [-> ->].
  destruct (zmin_plug _ _ _ _ _ _ _ _ _ _ _ _ _ Hz) as [Hp _].
  destruct ab as [|c' l' k' v' a' b'].
  - injection Hz as <- <- <- <- <- <-. ktree_step.
    apply wp_bind_inv. eapply kunlink_near; [exact Hs|done|]. intros s' Hs'. by split.
  - destruct (zmin_path _ _ _ _ _ _ _ _ _ Hz) as (g & rest & ->); [done|].
    simpl in Hp. change (krep n s (plug (Frame Right c z k v (T ca la ka va a1 a2) :: ctx)
      (T cb lb kb vb (T c' l' k' v' a' b') bb))) in Hs.
    rewrite <-Hp in Hs. change (plug rest (fill g (T cy y ky vy E xr)))
      with (plug (g :: rest) (T cy y ky vy E xr)) in Hs. rewrite <-plug_app in Hs.
    pose proof (krep_nodup _ _ _ _ Hs) as Hnd. rewrite clocs_app in Hnd. simpl in Hnd.
    assert (f_loc g ≠ z) by (nodup_facts; done). clear Hnd.
    remember ((g :: rest) ++ Frame Right c z k v (T ca la ka va a1 a2) :: ctx) as full eqn:Hfull.
    assert (cpar full = Some (f_loc g)) as Hpar by by subst.
    ktree_step. subst full.
    eapply (kunlink_far n s (g :: rest)) with (f := λ q, (_, q, _)); [exact Hs|done|done|]. intros s' Hs'. by split.
Qed.

Lemma kunlink_ok fuel n s ctx c z k v a b :
  krep n s (plug ctx (T c z k v a b)) → theight b ≤ fuel →
  wp (kv_unlink fuel (Some z) c) s (kunlink_post n ctx c a b).
Proof.
  intros Hs Hf.
  destruct a as [|ca la ka va a1 a2].
  - unfold kv_unlink, kunlink_post. simpl. ktree_step. apply wp_bind_inv.
    by apply (kunlink_child_ok n s ctx Left c z k v b).
  - destruct b as [|cb lb kb vb b1 b2].
    + unfold kv_unlink, kunlink_post. simpl. ktree_step. apply wp_bind_inv.
      by apply (kunlink_child_ok n s ctx Right c z k v (T ca la ka va a1 a2)).
    + eapply kunlink_two_ok; [done..|]. simpl in Hf. lia.
Qed.
End unlink.
