(* ===== verification/KvRBTreeRemove.v ===== *)
(** * KV_Store/RBTree.cpp: removal

    One iteration of [fix_delete]'s loop is one step of [del_fix]; [remove]
    unlinks a node as [splice] does and repairs. *)
From stdpp Require Import base gmap list strings.
From S2P Require Import Prelude OrderedMap RBTheory RBHeap RBTreeRep KvRBTree KvRBTreeRep.
From S2P Require Import KvRBTreeInsert KvRBTreeUnlink.

Section fixup.
Context {K V : Type} `{!KeyOrder K}.
Abbreviation st := (mstate K V RedBlackTree).
Implicit Types (s : st) (t a b w : tree K V) (ctx rest : list (frame K V)) (n : Z).

Definition kcase1_post n p rest t (r : option ptr) s' : Prop :=
  let '(p', rest') := del_case1 p rest in
  r = (match f_sib p' with E => None | _ => Some (ptr_of None (f_sib p')) end) ∧
  f_loc p' = f_loc p ∧ krep n s' (plug (p' :: rest') t).

Lemma wp_fix_delete_case1 n s d c p pk pv w rest t :
  krep n s (plug (Frame d c p pk pv w :: rest) t) → w ≠ E →
  wp (match d with Left => fix_delete_case1_left (Some p) (ptr_of None w)
                 | Right => fix_delete_case1_right (Some p) (ptr_of None w) end)
    s (kcase1_post n (Frame d c p pk pv w) rest t).
Proof.
  intros Hs Hw. unfold kcase1_post, fix_delete_case1_left, fix_delete_case1_right.
  destruct w as [|[] wl wk wv wa wb]; [done|..]; destruct d; unfocus Hs;
    ktree_step; simpl; try (split_and!; [done|done|exact Hs]).
  all: match goal with |- context [bool_decide (ptr_of None ?u = None)] => destruct u end; simpl; split_and!; try done; try exact Hs.
Qed.

Definition kstep_post n (r : (list (frame K V) * tree K V) + tree K V)
    (x' : (ptr * ptr) + ptr) s' : Prop :=
  match r with
  | inl (ctx', t') => x' = inl (ptr_of None t', cpar ctx') ∧ krep n s' (plug ctx' t')
  | inr t' => x' = inr (ptr_of None t') ∧ krep n s' t'
  end.

Lemma wp_fix_delete_cases n s d c p pk pv cw y wk wv wl wr rest t r :
  krep n s (plug (Frame d c p pk pv (T cw y wk wv wl wr) :: rest) t) →
  del_step (Frame d c p pk pv (T cw y wk wv wl wr)) rest t = Some r →
  wp (match d with Left => fix_delete_cases_left (ptr_of None t) (Some p) (Some y)
                 | Right => fix_delete_cases_right (ptr_of None t) (Some p) (Some y) end)
    s (kstep_post n r).
Proof.
  intros Hs Hr.
  unfold fix_delete_cases_left, fix_delete_cases_right, fix_delete_case3_left,
    fix_delete_case3_right.
  destruct d; destruct wl as [|[] l1 k1 v1 a1 b1], wr as [|[] l2 k2 v2 a2 b2];
    unfocus Hs; injection Hr as <-; ktree_step; cbn match;
    try (rewrite bool_decide_eq_false_2 by done; cbn match); ktree_step.
  all: simpl; split; first [done|exact Hs].
Qed.

(** One iteration at a black focus below the root. *)
Lemma wp_fix_delete_body n s f rest t f' rest' r :
  krep n s (plug (f :: rest) t) →
  del_case1 f rest = (f', rest') → del_step f' rest' t = Some r →
  wp (let* pl := rd (Some (f_loc f)) n_left in
      if bool_decide (ptr_of None t = pl) then fix_delete_left (ptr_of None t) (Some (f_loc f))
      else fix_delete_right (ptr_of None t) (Some (f_loc f))) s (kstep_post n r).
Proof.
  intros Hs H1 H2. destruct f as [d c p pk pv w].
  assert (w ≠ E) as Hw.
  { intros ->. unfold del_case1 in H1. simpl in H1. injection H1 as <- <-. done. }
  pose proof (ksib_ne _ _ _ _ _ _ _ _ _ _ Hs Hw) as Hne.
  pose proof (wp_fix_delete_case1 _ _ _ _ _ _ _ _ _ _ Hs Hw) as Hcase1.
  unfold fix_delete_left, fix_delete_right, kcase1_post in *. rewrite H1 in Hcase1.
  assert (f_side f' = d) as Hd.
  { unfold del_case1 in H1. destruct w as [|[] ?????]; injection H1 as <- <-; done. }
  destruct f' as [d' c' p' pk' pv' [|cw y wk wv wl wr]]; [done|]. simpl in Hd. subst d'.
  simpl f_loc. assert (ptr_of None w ≠ None) as Hwn by by destruct w.
  destruct d; unfocus Hs; ktree_step; (eapply wp_mono; [exact Hcase1|]);
    simpl; intros w' s' (-> & -> & Hs'); simpl;
    first [ by apply (wp_fix_delete_cases _ _ Left _ _ _ _ _ _ _ _ _ _ _ _ _ Hs')
          | by apply (wp_fix_delete_cases _ _ Right _ _ _ _ _ _ _ _ _ _ _ _ _ Hs') ].
Qed.

Definition kfixed n t' (x : ptr) s' : Prop :=
  ∃ ctx t, x = ptr_of None t ∧ krep n s' (plug ctx t) ∧ plug ctx (paint BLACK t) = t'.

Lemma fix_delete_loop fuel n s ctx t t' :
  del_fix fuel ctx t = Some t' → krep n s (plug ctx t) →
  wp (loop fuel fix_delete_iter (ptr_of None t, cpar ctx)) s (kfixed n t').
Proof.
  revert s ctx t. induction fuel as [|fuel IH]; [done|].
  intros s ctx t Hfix Hs. apply wp_loop. unfold fix_delete_iter.
  destruct ctx as [|f rest]; cbn [del_fix] in Hfix.
  { injection Hfix as <-. unfocus Hs. ktree_step. by exists [], t. }
  pose proof (kroot_ne _ _ _ _ _ Hs) as Hne. do 2 ktree_head.
  rewrite bool_decide_eq_true_2 by done.
  apply wp_bind. eapply wp_null_or_black; [exact Hs|].
  case_decide as Hred; [rewrite bool_decide_eq_false_2 by congruence|].
  { injection Hfix as <-. apply wp_ret. by exists (f :: rest), t. }
  rewrite bool_decide_eq_true_2 by by destruct (color t).
  destruct (del_case1 f rest) as [f' rest'] eqn:H1.
  destruct (del_step f' rest' t) as [r|] eqn:H2; [|done]. simpl cpar. wp_test.
  eapply wp_mono; [by eapply wp_fix_delete_body|].
  intros x' s' Hpost. destruct r as [[ctx' t1]|t1]; destruct Hpost as [-> Hs'].
  - by apply IH.
  - injection Hfix as <-. by exists [], t1.
Qed.

Lemma wp_fix_delete fuel n s ctx t t' Q :
  del_fix fuel ctx t = Some t' → krep n s (plug ctx t) → plug ctx t ≠ E →
  (∀ s', krep n s' t' → Q tt s') →
  wp (fix_delete fuel (ptr_of None t) (cpar ctx)) s Q.
Proof.
  intros Hfix Hs Hne HQ. unfold fix_delete. ktree_step.
  rewrite bool_decide_eq_false_2 by by destruct (plug ctx t).
  apply wp_bind. eapply wp_mono; [by eapply fix_delete_loop|].
  intros x s' (ctx' & t1 & -> & Hs' & <-). destruct t1 as [|c l k v a b]; tree_simp; wp_test.
  - apply wp_ret, HQ. exact Hs'.
  - eapply wp_kpaint; [exact Hs'|]. exact HQ.
Qed.
End fixup.

Section remove.
Context {K V : Type} `{!KeyOrder K}.
Abbreviation st := (mstate K V RedBlackTree).
Implicit Types (s : st) (t a b : tree K V) (ctx : list (frame K V)) (n : Z).

Lemma kv_remove_absent fuel n s key t :
  krep n s t → theight t < fuel → (zsearch key [] t).2 = E →
  kv_remove fuel key s = Ok false s.
Proof.
  intros Hs Hf Hz. apply wp_eq. unfold kv_remove. apply wp_bind.
  eapply wp_find_node; [done..|]. rewrite Hz. by wp_test.
Qed.

Lemma del_fix_root fuel t t' : del_fix fuel [] t = Some t' → t' = paint BLACK t.
Proof. destruct fuel; simpl; congruence. Qed.

(** On a key that is present, [remove] unlinks its node and repairs as
    [tree_remove] does. *)
Lemma kv_remove_found fuel n s key t ctx c z k v a b t' :
  krep n s t → theight t < fuel → zsearch key [] t = (ctx, T c z k v a b) →
  tree_remove fuel ctx c a b = Some t' →
  wp (kv_remove fuel key) s (λ r s', r = true ∧ krep (size_t (n - 1)) s' t').
Proof.
  intros Hs Hf Hz Hrem. unfold kv_remove. apply wp_bind. eapply wp_find_node; [done..|].
  rewrite Hz. simpl snd. cbn match. pose proof (theight_plug ctx (T c z k v a b)) as Hh.
  rewrite <-(zsearch_plug _ [] _ _ _ Hz : plug _ _ = t) in Hs, Hf. ktree_step.
  eapply wp_mono; [eapply kunlink_ok; [exact Hs|simpl in Hh; lia]|].
  intros r s' Hpost. unfold kunlink_post in Hpost. unfold tree_remove in Hrem.
  destruct (splice ctx c a b) as [[cy ctx'] x]. destruct Hpost as (-> & Hs'). apply wp_bind.
  apply wp_mono with (P := λ _ s2, krep n s2 t').
  2: { intros [] s2 Hs2. ktree_step. done. }
  case_decide as Hcy.
  2: { rewrite bool_decide_eq_false_2 by done. injection Hrem as <-. by apply wp_ret. }
  rewrite bool_decide_eq_true_2 by done. ktree_head; ktree_head.
  destruct ctx' as [|f rest].
  - apply del_fix_root in Hrem as ->. simpl plug. rewrite bool_decide_eq_true_2 by done.
    destruct x as [|cx lx kx vx xa xb]; tree_simp; wp_test; [by apply wp_ret|].
    eapply (wp_kpaint n _ []); [exact Hs'|]. done.
  - pose proof (kroot_ne _ _ _ _ _ Hs') as Hne. rewrite bool_decide_eq_false_2 by done.
    cbn [cpar]. wp_test. eapply (wp_fix_delete _ n _ (f :: rest)); [done|exact Hs'| |done].
    apply (plug_ne rest). unfold fill. by destruct (f_side f).
Qed.
End remove.
