(* ===== verification/KvRBTreeQuery.v ===== *)
(** * KV_Store/RBTree.cpp: the read-only operations

    [inorder], [level_order], [validate] and [get_height], on any represented
    tree: each leaves the state alone and returns a function of the tree. *)
From stdpp Require Import base gmap list strings.
From S2P Require Import Prelude OrderedMap RBTheory RBCheck RBHeap RBTreeRep KvRBTree KvRBTreeRep.

Section queries.
Context {K V : Type} `{!KeyOrder K}.
Abbreviation st := (mstate K V RedBlackTree).
Implicit Types (s : st) (t a b u : tree K V) (ctx : list (frame K V)) (n : Z).

Ltac enter Hs :=
  lazymatch type of Hs with
  | krep ?n ?s (plug ?ctx (T ?c ?l ?k ?v ?a ?b)) =>
      let Ha := fresh "Hl" in let Hb := fresh "Hr" in
      assert (krep n s (plug (Frame Left c l k v b :: ctx) a)) as Ha by exact Hs;
      assert (krep n s (plug (Frame Right c l k v a :: ctx) b)) as Hb by exact Hs
  end.
Local Tactic Notation "run" uconstr(H) :=
  eapply wp_pure_run; [apply H; first [eassumption|lia]|].

Lemma kv_height_ok fuel n s ctx u :
  krep n s (plug ctx u) → theight u < fuel →
  kv_height fuel (ptr_of None u) s = Ok (Z.of_nat (theight u)) s.
Proof.
  revert ctx u. induction fuel as [|fuel IH]; [lia|]. intros ctx u Hs Hf. apply wp_eq.
  cbn [kv_height]. destruct u as [|c l k v a b]; tree_simp; [by ktree_step|]. simpl in Hf.
  enter Hs. ktree_step. run (IH _ _ Hl). ktree_step. run (IH _ _ Hr). ktree_step.
  split; [done|]. simpl theight. lia.
Qed.

Lemma inorder_traversal_ok fuel n s ctx u acc :
  krep n s (plug ctx u) → theight u < fuel →
  inorder_traversal fuel (ptr_of None u) acc s = Ok (acc ++ elems u) s.
Proof.
  revert ctx u acc. induction fuel as [|fuel IH]; [lia|]. intros ctx u acc Hs Hf. apply wp_eq.
  cbn [inorder_traversal]. destruct u as [|c l k v a b]; tree_simp.
  { ktree_step. by rewrite app_nil_r. }
  simpl in Hf. enter Hs. ktree_step. run (IH _ _ _ Hl). ktree_step. run (IH _ _ _ Hr).
  simpl. by rewrite <-!app_assoc.
Qed.

Lemma run_is_red n s ctx u :
  krep n s (plug ctx u) → is_red (ptr_of None u) s = Ok (bool_decide (color u = RED)) s.
Proof. intros Hs. apply wp_eq. unfold is_red. destruct u; tree_simp; by ktree_step. Qed.

(** *** validate *)

(** The black count every leaf is compared with. *)
Definition target u (bc pbc : Z) : Z :=
  if bool_decide (pbc = (-1)%Z) then hd 0%Z (leaves u bc) else pbc.
Definition leaves_eq u (bc x : Z) : bool := forallb (λ c, bool_decide (c = x)) (leaves u bc).

Lemma target_ne u bc pbc : (0 ≤ bc)%Z → target u bc pbc ≠ (-1)%Z.
Proof.
  intros. unfold target. case_bool_decide; [|done].
  destruct (leaves u bc) as [|x l] eqn:Hl; [by apply leaves_nonempty in Hl|].
  assert (bc ≤ x)%Z; [|simpl; lia]. apply (leaves_ge u). rewrite Hl. set_solver.
Qed.

Definition verdict u bc pbc : bool := red_ok u && leaves_eq u bc (target u bc pbc).

Lemma target_node c l k v a b bc pbc :
  (0 ≤ bc)%Z →
  let bc' := (bc + (if bool_decide (c = BLACK) then 1 else 0))%Z in
  verdict (T c l k v a b) bc pbc =
    bool_decide (c = RED → color a = BLACK ∧ color b = BLACK) &&
    (verdict a bc' pbc && verdict b bc' (target a bc' pbc)) ∧
  target (T c l k v a b) bc pbc = target a bc' pbc ∧ (0 ≤ bc')%Z.
Proof.
  intros Hbc bc'.
  assert (leaves (T c l k v a b) bc = leaves a bc' ++ leaves b bc') as Hl.
  { simpl. unfold bc'. case_bool_decide; [done|]. by rewrite Z.add_0_r. }
  assert (0 ≤ bc')%Z as Hbc' by (unfold bc'; case_bool_decide; lia).
  assert (target (T c l k v a b) bc pbc = target a bc' pbc) as Ht.
  { unfold target. rewrite Hl. case_bool_decide; [|done].
    destruct (leaves a bc') eqn:Ha; [by apply leaves_nonempty in Ha|done]. }
  assert (target b bc' (target a bc' pbc) = target a bc' pbc) as Htb.
  { unfold target at 1. rewrite bool_decide_eq_false_2; [done|by apply target_ne]. }
  split_and!; [|done|done]. unfold verdict, leaves_eq. rewrite Htb, Ht, Hl, forallb_app.
  simpl red_ok. set (p := bool_decide _).
  by destruct p, (red_ok a), (red_ok b); simpl; rewrite ?andb_false_r.
Qed.

Lemma validate_rb_ok fuel n s ctx u bc pbc :
  krep n s (plug ctx u) → theight u < fuel → (0 ≤ bc)%Z →
  ∃ p', validate_rb fuel (ptr_of None u) bc pbc s = Ok (verdict u bc pbc, p') s ∧
    (verdict u bc pbc = true → p' = target u bc pbc).
Proof.
  revert ctx u bc pbc. induction fuel as [|fuel IH]; [lia|].
  intros ctx u bc pbc Hs Hf Hbc. cbn [validate_rb]. destruct u as [|c l k v a b].
  { exists (target E bc pbc). split; [|done]. unfold verdict, leaves_eq, target. simpl.
    by rewrite andb_true_r. }
  simpl in Hf. destruct (target_node c l k v a b bc pbc Hbc) as (-> & -> & Hbc').
  set (bc' := (bc + _)%Z) in *. enter Hs.
  destruct (IH _ a bc' pbc Hl) as (p1 & Ha & Hp1); [lia|done|].
  destruct (IH _ b bc' p1 Hr) as (p2 & Hb & Hp2); [lia|done|].
  assert (wp (validate_rb fuel (ptr_of None a) bc' pbc) s (λ x s',
    wp (let '(ok, path_black_count) := x in
        if ok : bool then
          let* r := rd (Some l) n_right in validate_rb fuel r bc' path_black_count
        else ret (false, path_black_count)) s'
      (λ x s', s' = s ∧ x.1 = verdict a bc' pbc && verdict b bc' (target a bc' pbc) ∧
        (x.1 = true → x.2 = target a bc' pbc)))) as Hrest.
  { eapply wp_pure_run; [exact Ha|]. destruct (verdict a bc' pbc) eqn:Hva; simpl.
    2: { by apply wp_ret. }
    rewrite Hp1 in * by done. ktree_step. eapply wp_pure_run; [exact Hb|]. simpl.
    split_and!; [done|done|]. intros ->%Hp2. unfold target at 1.
    rewrite bool_decide_eq_false_2; [done|by apply target_ne]. }
  assert (wp (validate_rb (S fuel) (Some l) bc pbc) s (λ x s', s' = s ∧
    x.1 = bool_decide (c = RED → color a = BLACK ∧ color b = BLACK) &&
      (verdict a bc' pbc && verdict b bc' (target a bc' pbc)) ∧
    (x.1 = true → x.2 = target a bc' pbc))) as (x & s' & Hx & -> & Hx1 & Hx2)%wp_Ok.
  { cbn [validate_rb]. ktree_step. destruct c; ktree_step.
    - run (run_is_red _ _ _ _ Hl). destruct (color a) eqn:Ea; ktree_step.
      { rewrite bool_decide_eq_false_2 by naive_solver. by split_and!. }
      run (run_is_red _ _ _ _ Hr). destruct (color b) eqn:Eb; ktree_step.
      { rewrite bool_decide_eq_false_2 by naive_solver. by split_and!. }
      rewrite (bool_decide_eq_true_2 (RED = RED → _)) by done. exact Hrest.
    - rewrite (bool_decide_eq_true_2 (BLACK = RED → _)) by done. exact Hrest. }
  exists x.2. rewrite <-Hx1. split; [|done]. etrans; [exact Hx|]. by destruct x.
Qed.

(** [validate] returns the verdict on the represented tree. *)
Lemma validate_ok fuel n s t :
  krep n s t → theight t < fuel → validate fuel s = Ok (rb_check t) s.
Proof.
  intros Hs Hf. apply wp_eq. unfold validate, rb_check.
  destruct t as [|c l k v a b] eqn:Et; [by ktree_step|]. rewrite <-Et in Hf.
  destruct c; ktree_step; [done|].
  destruct (validate_rb_ok fuel n s [] (T BLACK l k v a b) 0 (-1) Hs) as (p' & Hv & _);
    [by subst|done|].
  eapply wp_pure_run; [exact Hv|]. apply wp_ret. split; [done|]. cbn [fst color].
  rewrite (bool_decide_eq_true_2 (BLACK = BLACK)) by done. unfold verdict, leaves_eq, target.
  rewrite (bool_decide_eq_true_2 (-1 = -1)%Z) by done. rewrite andb_true_l. f_equal.
  unfold all_same. destruct (leaves _ 0) as [|x xs] eqn:Hl; [by apply leaves_nonempty in Hl|].
  simpl. by rewrite bool_decide_eq_true_2.
Qed.

(** *** level_order *)
Definition key_color (e : K * V * Color) : K * Color := (e.1.1, e.2).
Definition line_kc (line : list (K * V * Color)) : list (K * Color) := key_color <$> line.
Definition ksubtree n s u : Prop := u ≠ E ∧ ∃ ctx, krep n s (plug ctx u).

Lemma ksubtree_kids n s u : ksubtree n s u → Forall (ksubtree n s) (kids u).
Proof.
  intros [Hu [ctx Hs]]. destruct u as [|c l k v a b]; [done|]. enter Hs. simpl.
  apply Forall_app.
  split; [destruct a|destruct b]; constructor; try done; split; try done; eauto.
Qed.

Lemma push_kid (q : list ptr) u :
  (if bool_decide (ptr_of None u ≠ None) then q ++ [ptr_of None u] else q) =
  q ++ (ptr_of None <$> (match u with E => [] | _ => [u] end)).
Proof. destruct u; simpl; [by rewrite app_nil_r|done]. Qed.

Lemma kv_level_ok n s us q out :
  Forall (ksubtree n s) us →
  kv_level (length us) ((ptr_of None <$> us) ++ q) out s =
    Ok (q ++ (ptr_of None <$> (us ≫= kids)),
        out ++ (key_color <$> concat (root_ent <$> us))) s.
Proof.
  revert q out. induction us as [|u us IH]; intros q out Hus.
  { simpl. by rewrite !app_nil_r. }
  apply Forall_cons in Hus as [[Hu [ctx Hs]] Hus]. destruct u as [|c l k v a b]; [done|].
  apply wp_eq. cbn [length kv_level fmap list_fmap app]. ktree_step.
  rewrite !push_kid, <-!app_assoc, <-fmap_app. eapply wp_pure_run; [by apply IH|].
  split; [done|]. rewrite bind_cons. cbn [concat root_ent kids].
  by rewrite !fmap_app, <-!app_assoc.
Qed.

Lemma level_order_loop fuel n s us out :
  Forall (ksubtree n s) us → length (forest_levels us) < fuel →
  loop fuel level_order_iter (ptr_of None <$> us, out) s =
    Ok (out ++ (line_kc <$> forest_levels us)) s.
Proof.
  revert us out. induction fuel as [|fuel IH]; [lia|]. intros us out Hus Hf.
  apply wp_eq, wp_loop. unfold level_order_iter. destruct us as [|u us'] eqn:Hu.
  { simpl. apply wp_ret. by rewrite app_nil_r. }
  rewrite <-Hu in *. rewrite bool_decide_eq_true_2 by by subst.
  apply wp_bind. rewrite length_fmap. eapply wp_pure_run.
  { rewrite <-(app_nil_r (ptr_of None <$> us)). by apply (kv_level_ok n). }
  assert (forest_levels us = concat (root_ent <$> us) :: forest_levels (us ≫= kids)) as Hl.
  { apply forest_levels_step; [by subst|]. eapply Forall_impl; [done|]. by intros ? [? _]. }
  rewrite Hl in Hf |- *. apply wp_ret, wp_eq. simpl. etrans; [apply IH|].
  - apply Forall_bind. eapply Forall_impl; [done|]. apply ksubtree_kids.
  - simpl in Hf. lia.
  - by rewrite <-app_assoc.
Qed.

Lemma level_order_ok fuel n s t :
  krep n s t → theight t < fuel →
  level_order fuel s = Ok (line_kc <$> levels t) s.
Proof.
  intros Hs Hf. apply wp_eq. unfold level_order. ktree_step.
  destruct t as [|c l k v a b] eqn:Et; [by apply wp_ret|]. rewrite <-Et in *.
  rewrite bool_decide_eq_false_2 by by subst.
  assert (forest_levels [t] = levels t) as Hl by apply zip_app_nil_r.
  rewrite <-Hl. eapply wp_pure_run; [|split; [done|reflexivity]].
  apply (level_order_loop fuel n s [t] []).
  - constructor; [|done]. split; [by subst|]. by exists [].
  - by rewrite Hl, length_levels.
Qed.

Lemma inorder_ok fuel n s t :
  krep n s t → theight t < fuel → inorder fuel s = Ok (elems t) s.
Proof.
  intros Hs Hf. apply wp_eq. unfold inorder. ktree_step.
  eapply wp_pure_run; [by apply (inorder_traversal_ok _ n _ [])|done].
Qed.

Lemma get_height_ok fuel n s t :
  krep n s t → theight t < fuel → get_height fuel s = Ok (Z.of_nat (theight t)) s.
Proof.
  intros Hs Hf. apply wp_eq. unfold get_height. ktree_step.
  eapply wp_pure_run; [by apply (kv_height_ok _ n _ [])|done].
Qed.
End queries.
