(* ===== verification/KvRBTreeSpec.v ===== *)
(** * KV_Store/RBTree.cpp: what the class guarantees

    [kv_models s m]: the object in state [s] is a red-black tree holding
    exactly the sorted association list [m], and its counter is the length of
    [m] as a [size_t].  The class provides the interface [OrderedDict] with the
    last value of a key kept; on scripts without repeated insertions it
    answers as the class of RBTree.hpp does. *)
From stdpp Require Import base gmap list strings.
From S2P Require Import Prelude OrderedMap Dictionary RBTheory RBCheck RBHeap RBTree RBTreeRep.
From S2P Require Import RBTreeSpec KvRBTree KvRBTreeRep KvRBTreeInsert KvRBTreeUnlink.
From S2P Require Import KvRBTreeRemove KvRBTreeQuery.

(** ** Counter arithmetic *)
Lemma size_t_small n : (0 ≤ n < size_t_max)%Z → size_t n = n.
Proof. apply Z.mod_small. Qed.
Lemma size_t_succ n : size_t (size_t (Z.of_nat n) + 1) = size_t (Z.of_nat (S n)).
Proof. unfold size_t. rewrite Zplus_mod_idemp_l. f_equal. lia. Qed.
Lemma size_t_pred n : n ≠ 0 → size_t (size_t (Z.of_nat n) - 1) = size_t (Z.of_nat (n - 1)).
Proof. intros. unfold size_t. rewrite Zminus_mod_idemp_l. f_equal. lia. Qed.

Section models.
Context {K V : Type} `{!KeyOrder K}.
Abbreviation st := (mstate K V RedBlackTree).
Implicit Types (s : st) (t : tree K V) (m : list (K * V)).

Definition counter m : Z := size_t (Z.of_nat (length m)).

Definition kv_models s m : Prop :=
  ∃ t, krep (counter m) s t ∧ tree_ok t ∧ ksorted (elems t) ∧ elems t = m.

Lemma kv_models_sorted s m : kv_models s m → ksorted m.
Proof. by intros (t & ? & ? & ? & <-). Qed.

Lemma kv_height_fuel t m fuel : elems t = m → length m + 2 ≤ fuel → theight t + 2 ≤ fuel.
Proof. intros <-. rewrite <-tsize_elems. pose proof (theight_tsize t). lia. Qed.

Lemma kv_empty_models s h : s = MS h (KV None 0%Z) → kv_models s [].
Proof.
  intros ->. exists E. split; [|split; [split; [done|by exists 0]|done]].
  split; [|done]. by split; [|constructor].
Qed.

Lemma kv_ctor_models s : wp RedBlackTree_ctor s (λ _ s', kv_models s' []).
Proof. by eapply kv_empty_models. Qed.

Lemma kv_insert_models fuel k v s m :
  kv_models s m → length m + 2 ≤ fuel →
  wp (kv_insert fuel k v) s (λ r s',
    r = bool_decide (al_find k m = None) ∧ kv_models s' (al_put k v m)).
Proof.
  intros (t & Hs & Hok & Hsort & <-) Hf.
  pose proof (kv_height_fuel t _ fuel eq_refl Hf) as Hh. rewrite <-tsize_elems in Hf.
  destruct (zsearch k [] t) as [ctx [|c l k' v' a b]] eqn:Hz;
    pose proof (zsearch_find _ _ _ _ Hsort Hz) as Hfind; rewrite Hfind; cycle 1.
  - rewrite bool_decide_eq_false_2 by done.
    eapply wp_mono; [eapply kv_insert_found; [exact Hs|lia|exact Hz]|].
    intros r s' [-> Hs']. split; [done|]. exists (plug ctx (T c l k' v a b)).
    pose proof (zsearch_plug _ _ _ _ _ Hz) as Hp. simpl in Hp. rewrite <-Hp in Hok.
    pose proof (zsearch_put_old _ v _ _ _ _ _ _ _ _ Hsort Hz) as He.
    split_and!; [|by eapply tree_ok_relabel|rewrite He; by apply ksorted_put|done].
    unfold counter. rewrite length_put, Hfind by done. done.
  - rewrite bool_decide_eq_true_2 by done.
    destruct (zsearch_spec _ _ _ _ Hsort Hz) as (Hp & _).
    assert (∀ s' z, krep (counter (al_put k v (elems t))) s' (tree_insert ctx z k v) →
      kv_models s' (al_put k v (elems t))) as Hnew.
    { intros s' z Hs'. exists (tree_insert ctx z k v).
      rewrite (zsearch_put_new _ _ _ _ _ Hsort Hz).
      split_and!; [done| |by apply ksorted_put|done].
      rewrite <-Hp in Hok. apply tree_ok_plug in Hok as (n & Hc & -> & _).
      by apply (ins_fix_ok 0). }
    assert (counter (al_put k v (elems t)) = size_t (Z.of_nat (S (length (elems t))))) as Hc.
    { unfold counter. by rewrite length_put, Hfind by done. }
    rewrite Hc in Hnew. destruct (decide (tsize t = 0)) as [Ht|Ht].
    + destruct t as [|]; [|done]. injection Hz as <-.
      eapply wp_mono; [by eapply kv_insert_empty|]. intros r s' [-> [z Hs']].
      split; [done|]. by eapply Hnew.
    + assert (t ≠ E) by (by intros ->).
      eapply wp_mono; [eapply kv_insert_new; eauto; lia|]. intros r s' [-> [z Hs']].
      split; [done|]. eapply Hnew. unfold counter in Hs'. by rewrite size_t_succ in Hs'.
Qed.

Lemma kv_remove_models fuel k s m :
  kv_models s m → length m + 2 ≤ fuel →
  wp (kv_remove fuel k) s (λ r s',
    r = bool_decide (al_find k m ≠ None) ∧ kv_models s' (al_del k m)).
Proof.
  intros (t & Hs & Hok & Hsort & <-) Hf.
  pose proof (kv_height_fuel t _ fuel eq_refl Hf) as Hh. rewrite <-tsize_elems in Hf.
  destruct (zsearch k [] t) as [ctx [|c l k' v' a b]] eqn:Hz;
    pose proof (zsearch_find _ _ _ _ Hsort Hz) as Hfind; rewrite Hfind.
  - rewrite bool_decide_eq_false_2 by naive_solver.
    eapply wp_pure_run; [eapply kv_remove_absent; [exact Hs|lia|by rewrite Hz]|].
    split; [done|]. rewrite al_del_absent by done. by exists t.
  - rewrite bool_decide_eq_true_2 by done. pose proof (zsearch_plug _ _ _ _ _ Hz) as Hp.
    simpl in Hp. rewrite <-Hp in Hok.
    destruct (tree_remove_ok fuel _ _ _ _ _ _ _ Hok) as (t' & Hrem & Hok' & He).
    { rewrite Hp. lia. }
    eapply wp_mono; [eapply kv_remove_found; [exact Hs|lia|exact Hz|exact Hrem]|].
    intros r s' [-> Hs']. split; [done|]. exists t'.
    rewrite He, (zsearch_del _ _ _ _ _ _ _ _ _ Hsort Hz).
    split_and!; [|done|by apply ksorted_del|done].
    unfold counter in Hs' |- *. rewrite length_del, Hfind. rewrite size_t_pred in Hs'; [done|].
    rewrite <-tsize_elems. by destruct t.
Qed.

(** [find] and reading through its result. *)
Lemma kv_find_models fuel k s m :
  kv_models s m → length m + 2 ≤ fuel →
  ∃ p, kv_find fuel k s = Ok p s ∧
    match al_find k m with
    | Some v => p ≠ None ∧ deref p s = Ok v s
    | None => p = None
    end.
Proof.
  intros (t & Hs & Hok & Hsort & He) Hf. pose proof (kv_height_fuel t m fuel He Hf) as Hh.
  subst m. destruct (zsearch k [] t) as [ctx t'] eqn:Hz.
  rewrite (zsearch_find _ _ _ _ Hsort Hz). pose proof (zsearch_plug _ _ _ _ _ Hz) as Hp.
  simpl in Hp. exists (match t' with E => None | T _ l _ _ _ _ => Some l end). split.
  - apply wp_eq. unfold kv_find. apply wp_bind. eapply wp_find_node; [exact Hs|lia|].
    rewrite Hz. destruct t'; cbn [snd]; by wp_test.
  - destruct t' as [|c l k' v' a b]; [done|]. split; [done|].
    apply wp_eq. rewrite <-Hp in Hs. unfold deref. by ktree_step.
Qed.

(** A look-up as a client does it. *)
Definition kv_find_value (fuel : nat) (k : K) : M st (option V) :=
  let* p := kv_find fuel k in
  if bool_decide (p = None) then ret None
  else let* v := deref p in ret (Some v).
Definition kv_insert_ (fuel : nat) (k : K) (v : V) : M st unit :=
  let* _ := kv_insert fuel k v in ret tt.
Definition kv_remove_ (fuel : nat) (k : K) : M st unit :=
  let* _ := kv_remove fuel k in ret tt.

Lemma kv_insert__models fuel k v s m :
  kv_models s m → length m + 2 ≤ fuel →
  wp (kv_insert_ fuel k v) s (λ _ s', kv_models s' (al_put k v m)).
Proof.
  intros Hm Hf. apply wp_bind.
  eapply wp_mono; [by apply kv_insert_models|]. intros r s' [_ Hm']. by apply wp_ret.
Qed.

#[export] Instance RedBlackTree_dict : OrderedDict K V st := {
  od_insert := kv_insert_;
  od_remove := kv_remove_;
  od_find := kv_find_value;
  od_clash := λ _ v, v
}.

Lemma al_upd_last k v m : al_upd (λ _ v, v) k v m = al_put k v m.
Proof. unfold al_upd. by destruct (al_find k m). Qed.

#[export] Instance RedBlackTree_dict_laws : OrderedDictLaws K V st kv_models.
Proof.
  split.
  - apply kv_models_sorted.
  - intros fuel k v s m Hm Hf. simpl. rewrite al_upd_last. by apply kv_insert__models.
  - intros fuel k s m Hm Hf. simpl. apply wp_bind.
    eapply wp_mono; [by apply kv_remove_models|]. intros r s' [_ Hm']. by apply wp_ret.
  - intros fuel k s m Hm Hf. simpl. apply wp_eq. unfold kv_find_value. apply wp_bind.
    destruct (kv_find_models fuel k s m Hm Hf) as (p & Hp & Hv).
    eapply wp_pure_run; [exact Hp|]. destruct (al_find k m) as [v|].
    + destruct Hv as [Hne Hv]. rewrite bool_decide_eq_false_2 by done. apply wp_bind.
      eapply wp_pure_run; [exact Hv|]. by apply wp_ret.
    + subst p. by apply wp_ret.
Qed.
End models.

(** ** Concrete objects *)
Definition no_kv {V} : mstate Z V RedBlackTree := MS ∅ (KV None 0%Z).

Definition sample_kv : mstate Z Z RedBlackTree :=
  run_state (RedBlackTree_ctor ;; kv_insert_ 10 5%Z 50%Z ;; kv_insert_ 10 3%Z 30%Z ;;
             kv_insert_ 10 8%Z 80%Z) no_kv.

Lemma sample_kv_models : kv_models sample_kv [(3, 30); (5, 50); (8, 80)]%Z.
Proof.
  unfold sample_kv. apply (wp_run_state _ _ (λ s, kv_models s _)), wp_bind.
  eapply wp_mono; [apply kv_ctor_models|]. intros [] s1 H1. apply wp_bind.
  eapply wp_mono; [apply kv_insert__models; [exact H1|simpl; lia]|].
  intros [] s2 H2. apply wp_bind.
  eapply wp_mono; [apply kv_insert__models; [exact H2|simpl; lia]|].
  intros [] s3 H3.
  eapply wp_mono; [apply kv_insert__models; [exact H3|simpl; lia]|].
  by intros [] s4 H4.
Qed.

(** ** The guarantees *)
Section guarantees.
Context {K V : Type} `{!KeyOrder K}.
Implicit Types (s : mstate K V RedBlackTree) (m : list (K * V)).

(** Inserting into a red-black tree object with contents [m] returns
    within [length m + 2] loop iterations and without undefined behaviour:
    [true] for a new key, [false] for a present one, whose value is
    overwritten; the object is again a red-black tree, and its counter the
    number of its keys. *)
Theorem kv_insert_spec fuel k v s m :
  kv_models s m → length m + 2 ≤ fuel →
  wp (kv_insert fuel k v) s (λ r s',
    r = bool_decide (al_find k m = None) ∧ kv_models s' (al_put k v m)).
Proof. apply kv_insert_models. Qed.

(** Removing a key returns within the same bound: [true] for a present
    key, which is removed, [false] for an absent one. *)
Theorem kv_remove_spec fuel k s m :
  kv_models s m → length m + 2 ≤ fuel →
  wp (kv_remove fuel k) s (λ r s',
    r = bool_decide (al_find k m ≠ None) ∧ kv_models s' (al_del k m)).
Proof. apply kv_remove_models. Qed.

(** [find] returns null for an absent key and otherwise a valid pointer to
    the value of the key; [contains] tells the two cases apart; neither
    changes the object. *)
Theorem kv_find_spec fuel k s m :
  kv_models s m → length m + 2 ≤ fuel →
  contains fuel k s = Ok (bool_decide (al_find k m ≠ None)) s ∧
  ∃ p, kv_find fuel k s = Ok p s ∧
    match al_find k m with
    | Some v => p ≠ None ∧ deref p s = Ok v s
    | None => p = None
    end.
Proof.
  intros Hm Hf. pose proof (kv_find_models fuel k s m Hm Hf) as Hfind. split; [|done].
  destruct Hfind as (p & Hp & Hv). unfold contains, kv_find, bind in *.
  destruct (find_node fuel k s) as [q s'| | |]; try done.
  assert (q = p ∧ s' = s) as [-> ->].
  { revert Hp. case_bool_decide as Hq; unfold ret; intros [= <- <-]; [done|].
    split; [|done]. destruct q; [|done]. by destruct Hq. }
  unfold ret. f_equal. apply bool_decide_ext. destruct (al_find k m); naive_solver.
Qed.

(** [size] and [empty] report the number of keys, as long as that number
    is a [size_t]; [clear] empties the object. *)
Theorem kv_size_spec s m :
  kv_models s m → (Z.of_nat (length m) < size_t_max)%Z →
  kv_size s = Ok (Z.of_nat (length m)) s ∧
  kv_empty s = Ok (bool_decide (m = [])) s ∧
  wp kv_clear s (λ _ s', kv_models s' []).
Proof.
  intros (t & Hs & Hok & Hsort & He) Hm. pose proof (kr_this _ _ _ Hs) as Ht.
  assert (counter m = Z.of_nat (length m)) as Hc by (apply size_t_small; lia).
  split_and!.
  - unfold kv_size, get_this, gets. by rewrite Ht, <-Hc.
  - unfold kv_empty, bind, get_this, gets, ret. rewrite Ht. simpl. rewrite Hc. f_equal.
    apply bool_decide_ext. destruct m; simpl; split; intros; (done || lia).
  - by eapply kv_empty_models.
Qed.

(** [inorder] returns the contents sorted by key; [level_order] lists the
    same keys, one line for each level, as many as [get_height] returns. *)
Theorem kv_traversal_spec fuel s m :
  kv_models s m → length m + 2 ≤ fuel →
  ksorted m ∧ inorder fuel s = Ok m s ∧
  ∃ ls, level_order fuel s = Ok ls s ∧ (concat ls).*1 ≡ₚ m.*1 ∧
    get_height fuel s = Ok (Z.of_nat (length ls)) s.
Proof.
  intros (t & Hs & Hok & Hsort & He) Hf. pose proof (kv_height_fuel t m fuel He Hf) as Hh.
  subst m. split_and!; [done|eapply inorder_ok; [done|lia]|].
  exists (line_kc <$> levels t). rewrite length_fmap, length_levels. split_and!.
  - eapply level_order_ok; [done|lia].
  - rewrite <-ents_elems, <-concat_levels. unfold line_kc. induction (levels t) as [|l ls IH]; [done|].
    simpl. rewrite !fmap_app, IH. apply Permutation_app_tail.
    rewrite <-!list_fmap_compose. done.
  - eapply get_height_ok; [done|lia].
Qed.

(** The self-check [validate] is exact: on any object whose pointers form
    a tree, it returns [true] if and only if the tree satisfies the red-black
    properties, although it compares every leaf only with the first. *)
Theorem kv_validate_exact fuel n s (t : tree K V) :
  krep n s t → theight t < fuel →
  ∃ b, validate fuel s = Ok b s ∧ (b = true ↔ tree_ok t).
Proof.
  intros Hs Hf. exists (rb_check t). split; [by eapply validate_ok|apply rb_check_spec].
Qed.

(** On an object with contents [m] the self-check succeeds, and the
    height is at most [2 * log2 (length m + 1)], the bound the test program
    prints. *)
Theorem kv_balanced fuel s m :
  kv_models s m → length m + 2 ≤ fuel →
  validate fuel s = Ok true s ∧
  ∃ h, get_height fuel s = Ok h s ∧ (0 ≤ h ≤ 2 * Z.log2 (Z.of_nat (length m) + 1))%Z.
Proof.
  intros (t & Hs & Hok & Hsort & He) Hf. pose proof (kv_height_fuel t m fuel He Hf) as Hh.
  subst m. split.
  - rewrite (validate_ok fuel _ s t Hs) by lia. by apply rb_check_spec in Hok as ->.
  - exists (Z.of_nat (theight t)). split; [eapply get_height_ok; [done|lia]|].
    by apply tree_ok_height_Z.
Qed.

(** C2: From the constructor on, any script of insertions, removals and
    look-ups returns what a dictionary keeping the last value of each key
    would return, and leaves a red-black tree with that dictionary's
    contents. *)
Theorem kv_script_spec fuel s (cs : list (command K V)) :
  length cs + 2 ≤ fuel →
  wp (RedBlackTree_ctor ;; run_script fuel cs) s (λ rs s',
    kv_models s' (script_spec (λ _ v, v) [] cs).1 ∧
    rs = (script_spec (λ _ v, v) [] cs).2).
Proof.
  intros Hf. apply wp_bind. eapply wp_mono; [apply kv_ctor_models|]. intros [] s' Hm.
  eapply wp_mono; [apply (run_script_models kv_models fuel s' [] cs Hm); simpl; lia|done].
Qed.
End guarantees.

(** C4: The two red-black trees of the repository agree: on any script that
    never inserts a key that is present, the class of RBTree.hpp and the class
    of KV_Store/RBTree.cpp, each from its constructor, return the same
    answers. *)
Theorem red_black_trees_agree {A} `{!KeyOrder A} (A0 : A) fuel s1 s2 (cs : list (command A A)) :
  length cs + 2 ≤ fuel → no_clash [] cs = true →
  ∃ answers,
    run_result (RBTree_ctor A0 ;; run_script fuel cs) s1 = Some answers ∧
    run_result (RedBlackTree_ctor ;; run_script fuel cs) s2 = Some answers.
Proof.
  intros Hf Hc. exists (script_spec (λ v0 _, v0) [] cs).2. split.
  - apply wp_run_result, wp_bind. eapply wp_mono; [apply (ctor_models A0)|]. intros [] s' Hm.
    eapply wp_mono; [apply (run_script_models (models A0) fuel s' [] cs Hm); simpl; lia|].
    by intros rs s2' [_ ?].
  - rewrite (script_spec_clash _ (λ _ v, v) _ _ Hc). apply wp_run_result, wp_bind.
    eapply wp_mono; [apply kv_ctor_models|]. intros [] s' Hm.
    eapply wp_mono; [apply (run_script_models kv_models fuel s' [] cs Hm); simpl; lia|].
    by intros rs s2' [_ ?].
Qed.

(** ** The test program *)
Section test.
Lemma contains_models fuel k (s : mstate Z Z RedBlackTree) m :
  kv_models s m → length m + 2 ≤ fuel →
  contains fuel k s = Ok (bool_decide (al_find k m ≠ None)) s.
Proof.
  intros (t & Hs & Hok & Hsort & <-) Hf. pose proof (kv_height_fuel t _ fuel eq_refl Hf) as Hh.
  apply wp_eq. unfold contains. apply wp_bind. eapply wp_find_node; [exact Hs|lia|].
  destruct (zsearch k [] t) as [ctx t'] eqn:Hz.
  rewrite (zsearch_find _ _ _ _ Hsort Hz). apply wp_ret. by destruct t'.
Qed.

(** The contents after inserting [kvs] into an object with contents [m]. *)
Definition put_all (kvs m : list (Z * Z)) : list (Z * Z) :=
  foldl (λ m kv, al_put kv.1 kv.2 m) m kvs.

Lemma kv_insert_all_models fuel kvs (s : mstate Z Z RedBlackTree) m :
  kv_models s m → length m + length kvs + 2 ≤ fuel →
  wp (kv_insert_all fuel kvs) s (λ _ s',
    kv_models s' (put_all kvs m) ∧ length (put_all kvs m) ≤ length m + length kvs).
Proof.
  revert s m. induction kvs as [|[k v] kvs IH]; intros s m Hm Hf; simpl in *.
  { apply wp_ret. split; [done|]. unfold put_all. simpl. lia. }
  apply wp_bind. eapply wp_mono; [apply (kv_insert_models fuel k v s m); [done|lia]|].
  intros r s' [_ Hm'].
  assert (length (al_put k v m) ≤ S (length m)).
  { rewrite length_put by by eapply kv_models_sorted. destruct (al_find k m); lia. }
  eapply wp_mono; [apply IH; [exact Hm'|lia]|]. intros [] s2 [Hm2 Hl]. split; [exact Hm2|].
  unfold put_all in *. simpl. lia.
Qed.

Lemma put_all_find kvs m k : k ∈ kvs.*1 ∨ al_find k m ≠ None → al_find k (put_all kvs m) ≠ None.
Proof.
  revert m. induction kvs as [|[k' v'] kvs IH]; intros m Hk; simpl in *.
  - destruct Hk as [Hk|?]; [by apply not_elem_of_nil in Hk|done].
  - apply IH. destruct (decide (k = k')) as [->|Hne]; [right; by rewrite al_find_put_eq|].
    rewrite al_find_put_ne by done. destruct Hk as [[?|?]%elem_of_cons|?]; auto.
Qed.

Lemma contains_all_models fuel ks (s : mstate Z Z RedBlackTree) m :
  kv_models s m → length m + 2 ≤ fuel → Forall (λ k, al_find k m ≠ None) ks →
  contains_all fuel ks s = Ok true s.
Proof.
  intros Hm Hf. induction ks as [|k ks IH]; [done|]. intros [Hk Hks]%Forall_cons. simpl.
  apply wp_eq, wp_bind. eapply wp_pure_run; [by apply (contains_models _ _ _ m)|].
  rewrite bool_decide_eq_true_2 by done. simpl. by apply wp_eq, IH.
Qed.
End test.

(** Test 7 of the test program succeeds for every number of keys, not only
    for 1000: all keys are found, the tree is valid and its height is within
    the printed bound. *)
Theorem test_bulk_passes fuel num_keys s :
  num_keys + 2 ≤ fuel →
  run_result (test_bulk fuel num_keys) s = Some [true; true; true].
Proof.
  intros Hf. apply wp_run_result. unfold test_bulk. apply wp_bind.
  eapply wp_mono; [apply kv_ctor_models|]. intros [] s1 H1. cbv zeta.
  set (keys := Z.of_nat <$> seq 0 num_keys).
  assert (length keys = num_keys) as Hlen by (unfold keys; by rewrite length_fmap, length_seq).
  apply wp_bind. eapply wp_mono.
  { apply (kv_insert_all_models fuel _ s1 []); [done|]. rewrite length_fmap. simpl. lia. }
  intros [] s2 [H2 Hl]. rewrite length_fmap, Hlen in Hl. simpl in Hl.
  set (kvs := (λ i, (i, i * 10)%Z) <$> keys) in *.
  apply wp_bind. eapply wp_pure_run.
  { eapply contains_all_models; [exact H2|lia|]. apply Forall_forall. intros k Hk.
    apply put_all_find. left. unfold kvs. rewrite <-list_fmap_compose. simpl.
    unfold compose. simpl. by rewrite list_fmap_id. }
  destruct H2 as (t & Hs & Hok & Hsort & He).
  assert (theight t + 2 ≤ fuel) by (eapply kv_height_fuel; [exact He|lia]).
  apply wp_bind. eapply wp_pure_run; [by eapply validate_ok; [exact Hs|lia]|].
  apply wp_bind. eapply wp_pure_run; [by eapply get_height_ok; [exact Hs|lia]|].
  apply wp_ret. pose proof Hok as Hv%rb_check_spec. rewrite Hv.
  rewrite bool_decide_eq_true_2; [done|]. pose proof (tree_ok_height_Z t Hok) as [_ Hh].
  etrans; [exact Hh|]. rewrite He. apply Z.mul_le_mono_nonneg_l; [lia|]. apply Z.log2_le_mono. lia.
Qed.

(** The remaining tests of the test program succeed with every check it
    makes, and print these levels and keys. *)
Theorem test_redblack_tree_passes :
  run_result (test_basic 20) no_kv = Some
    ([true; true; true; true; true; true],
     [[(20, BLACK)]; [(10, RED); (30, BLACK)]; [(5, BLACK); (15, BLACK); (25, RED)];
      [(3, RED); (8, RED); (12, RED); (18, RED)]],
     [3; 5; 8; 10; 12; 15; 18; 20; 25; 30])%Z ∧
  run_result (test_edge 20) no_kv = Some [true; true] ∧
  run_result (test_sorted 30) no_kv = Some (true, 6%Z) ∧
  run_result (test_delete_all 20) no_kv = Some [true; true].
Proof. vm_compute. auto. Qed.

(** ** Instances at concrete inputs *)
Lemma kv_insert_witness :
  wp (kv_insert 5 3%Z 31%Z) sample_kv (λ r s',
    r = false ∧ kv_models s' [(3, 31); (5, 50); (8, 80)]%Z).
Proof. refine (kv_insert_spec 5 3%Z 31%Z sample_kv _ sample_kv_models _). simpl. lia. Defined.

Lemma kv_remove_witness :
  wp (kv_remove 5 5%Z) sample_kv (λ r s', r = true ∧ kv_models s' [(3, 30); (8, 80)]%Z).
Proof. refine (kv_remove_spec 5 5%Z sample_kv _ sample_kv_models _). simpl. lia. Defined.

Lemma kv_find_witness :
  contains 5 8%Z sample_kv = Ok true sample_kv ∧
  ∃ p, kv_find 5 8%Z sample_kv = Ok p sample_kv ∧ p ≠ None ∧ deref p sample_kv = Ok 80%Z sample_kv.
Proof. refine (kv_find_spec 5 8%Z sample_kv _ sample_kv_models _). simpl. lia. Defined.

Lemma kv_size_witness :
  kv_size sample_kv = Ok 3%Z sample_kv ∧ kv_empty sample_kv = Ok false sample_kv ∧
  wp kv_clear sample_kv (λ _ s', kv_models s' []).
Proof. refine (kv_size_spec sample_kv _ sample_kv_models _). reflexivity. Defined.

Lemma kv_traversal_witness :
  ksorted [(3, 30); (5, 50); (8, 80)]%Z ∧
  inorder 5 sample_kv = Ok [(3, 30); (5, 50); (8, 80)]%Z sample_kv ∧
  ∃ ls, level_order 5 sample_kv = Ok ls sample_kv ∧ (concat ls).*1 ≡ₚ [3; 5; 8]%Z ∧
    get_height 5 sample_kv = Ok (Z.of_nat (length ls)) sample_kv.
Proof. refine (kv_traversal_spec 5 sample_kv _ sample_kv_models _). simpl. lia. Defined.

Lemma kv_validate_witness :
  ∃ t b, krep 3 sample_kv t ∧ validate 5 sample_kv = Ok b sample_kv ∧ (b = true ↔ tree_ok t).
Proof.
  destruct sample_kv_models as (t & Hs & Hok & Hsort & He). exists t.
  destruct (kv_validate_exact 5 _ sample_kv t Hs) as (b & Hv & Hb);
    [|exact (ex_intro _ b (conj Hs (conj Hv Hb)))].
  pose proof (kv_height_fuel t _ 5 He (le_n 5)). lia.
Defined.

Lemma kv_balanced_witness :
  validate 5 sample_kv = Ok true sample_kv ∧
  ∃ h, get_height 5 sample_kv = Ok h sample_kv ∧ (0 ≤ h ≤ 2 * Z.log2 (Z.of_nat 3 + 1))%Z.
Proof. refine (kv_balanced 5 sample_kv _ sample_kv_models _). simpl. lia. Defined.

Lemma kv_script_witness :
  wp (RedBlackTree_ctor ;;
      run_script 6 [Insert 1%Z 10%Z; Insert 1%Z 11%Z; Find 1%Z; Remove 1%Z]) no_kv
    (λ rs s', kv_models s' [] ∧ rs = [Some 11%Z]).
Proof.
  refine (kv_script_spec 6 no_kv [Insert 1%Z 10%Z; Insert 1%Z 11%Z; Find 1%Z; Remove 1%Z] _).
  simpl. lia.
Defined.

Lemma red_black_trees_agree_witness :
  ∃ answers,
    run_result (RBTree_ctor 0%Z ;; run_script 6 [Insert 1%Z 10%Z; Insert 2%Z 11%Z; Find 2%Z])
      no_tree = Some answers ∧
    run_result (RedBlackTree_ctor ;; run_script 6 [Insert 1%Z 10%Z; Insert 2%Z 11%Z; Find 2%Z])
      no_kv = Some answers.
Proof.
  refine (red_black_trees_agree 0%Z 6 no_tree no_kv [Insert 1%Z 10%Z; Insert 2%Z 11%Z; Find 2%Z] _ _);
    [simpl; lia|reflexivity].
Defined.

Lemma test_bulk_witness :
  run_result (test_bulk 1002 1000) no_kv = Some [true; true; true].
Proof. apply (test_bulk_passes 1002 1000 no_kv). apply Nat.leb_le. reflexivity. Defined.
