(* ===== verification/LRUCache.v ===== *)
(** * LRU_with_TTL/LRUCache.cpp: an LRU cache whose entries expire

    The class keeps a [std::list] of nodes, most recently used first, and a map
    from keys to list iterators.  The model keeps the iterators: a list is a
    list of node locations with the store of the nodes, an iterator is a
    location, and using one whose node was erased is undefined behaviour.
    [steady_clock::now()] is a parameter: [clk n] is the [n]-th reading of the
    clock.  Times are in nanoseconds. *)
From stdpp Require Import base gmap list.
From S2P Require Import Prelude.

Record LNode := LN { key : Z; value : Z; expire_time : Z }.

Record LRUCacheWithTTL := LRU {
  ttl : Z;
  capacity : Z;
  cache : list positive;
  nodes : gmap positive LNode;
  key_map : gmap Z positive;
  ticks : nat (* clock readings so far *)
}.

Definition set_key (m : gmap Z positive) (s : LRUCacheWithTTL) : LRUCacheWithTTL :=
  LRU (ttl s) (capacity s) (cache s) (nodes s) m (ticks s).
Definition set_cache (l : list positive) (h : gmap positive LNode) (s : LRUCacheWithTTL)
  : LRUCacheWithTTL :=
  LRU (ttl s) (capacity s) l h (key_map s) (ticks s).

(** [chrono::seconds] to nanoseconds. *)
Definition seconds (n : Z) : Z := (n * 1000000000)%Z.

Section LRU_defs.
Context (clk : nat → Z).
Abbreviation M := (M LRUCacheWithTTL).

Definition now : M Z := λ s,
  Ok (clk (ticks s))
     (LRU (ttl s) (capacity s) (cache s) (nodes s) (key_map s) (S (ticks s))).

(** *** [std::list]: an iterator is a node location, [None] is [end()] *)
Fixpoint next (l : list positive) (it : positive) : option positive :=
  match l with
  | [] => None
  | x :: l' => if bool_decide (x = it) then head l' else next l' it
  end.

(** [*it] *)
Definition deref (it : positive) : M LNode := λ s,
  match nodes s !! it with Some n => Ok n s | None => Undef end.
Definition assign (it : positive) (n : LNode) : M unit := λ s,
  match nodes s !! it with
  | Some _ => Ok tt (set_cache (cache s) (<[it := n]> (nodes s)) s)
  | None => Undef
  end.
(** [cache.erase(it)]: the node is destroyed; the following iterator. *)
Definition erase (it : positive) : M (option positive) := λ s,
  match nodes s !! it with
  | Some _ =>
      Ok (next (cache s) it)
         (set_cache (filter (λ x, x ≠ it) (cache s)) (delete it (nodes s)) s)
  | None => Undef
  end.
(** [cache.splice(cache.begin(), cache, it)] *)
Definition splice_front (it : positive) : M unit := λ s,
  match nodes s !! it with
  | Some _ => Ok tt (set_cache (it :: filter (λ x, x ≠ it) (cache s)) (nodes s) s)
  | None => Undef
  end.
Definition emplace_front (n : LNode) : M unit := λ s,
  let l := fresh (dom (nodes s)) in
  Ok tt (set_cache (l :: cache s) (<[l := n]> (nodes s)) s).
(** [cache.back()], undefined on an empty list. *)
Definition back : M positive := λ s,
  match last (cache s) with Some x => Ok x s | None => Undef end.
Definition pop_back : M unit :=
  let* it := back in
  let* _ := erase it in
  ret tt.
(** [cache.begin()] *)
Definition begin : M (option positive) := gets (λ s, head (cache s)).

(** *** [std::unordered_map] *)
Definition map_erase (k : Z) : M unit := modify (λ s, set_key (delete k (key_map s)) s).
Definition map_find (k : Z) : M (option positive) := gets (λ s, key_map s !! k).
Definition map_set (k : Z) (it : positive) : M unit :=
  modify (λ s, set_key (<[k := it]> (key_map s)) s).

(** *** The class *)
Definition clean_expire_iter (now : Z) (it : option positive)
  : M (option positive + unit) :=
  match it with
  | None => ret (inr tt)
  | Some it =>
      let* n := deref it in
      if bool_decide (expire_time n ≤ now)%Z then
        map_erase (key n) ;;
        let* it := erase it in
        ret (inl it)
      else gets (λ s, inl (next (cache s) it))
  end.
Definition clean_expire (fuel : nat) : M unit :=
  let* it := begin in
  let* now := now in
  loop fuel (clean_expire_iter now) it.

Definition is_expired (n : LNode) : M bool :=
  let* t := now in
  ret (bool_decide (expire_time n ≤ t)%Z).

(** The constructor: [LRUCacheWithTTL(capacity, ttl)]. *)
Definition LRUCache_ctor (cap ttl : Z) : LRUCacheWithTTL :=
  LRU (seconds ttl) cap [] ∅ ∅ 0.

Definition get (fuel : nat) (k : Z) : M Z :=
  clean_expire fuel ;;
  let* it := map_find k in
  match it with
  | None => ret (-1)%Z
  | Some it =>
      let* n := deref it in
      let* expired := is_expired n in
      if expired : bool then
        let* _ := erase it in
        let* n := deref it in (* [it->second->key], after the erase *)
        map_erase (key n) ;;
        ret (-1)%Z
      else
        splice_front it ;;
        let* n := deref it in
        ret (value n)
  end.

(** [cache.size() == capacity]: the [int] is converted to [size_t]. *)
Definition is_full : M bool :=
  gets (λ s, bool_decide (Z.of_nat (length (cache s)) = capacity s mod 2 ^ 64)%Z).

Definition put (fuel : nat) (k v : Z) : M unit :=
  clean_expire fuel ;;
  let* it := map_find k in
  match it with
  | None =>
      let* full := is_full in
      when full then
        (let* b := back in
         let* n := deref b in
         map_erase (key n) ;;
         pop_back) ;;
      let* t := now in
      let* d := gets ttl in
      emplace_front (LN k v (t + d)) ;;
      let* b := begin in
      match b with Some it => map_set k it | None => undef end
  | Some it =>
      let* n := deref it in
      assign it (LN (key n) v (expire_time n)) ;;
      let* t := now in
      let* d := gets ttl in
      let* n := deref it in
      assign it (LN (key n) (value n) (t + d)) ;;
      splice_front it
  end.
End LRU_defs.

(** The test program: the answers of its three look-ups. *)
Definition lru_main (clk : nat → Z) : M LRUCacheWithTTL (list Z) :=
  put clk 10 1 1 ;;
  put clk 10 2 2 ;;
  let* a := get clk 10 1 in
  put clk 10 3 3 ;;
  let* b := get clk 10 2 in
  (* three seconds pass here *)
  let* c := get clk 10 1 in
  ret [a; b; c].

(** ** The abstract cache: the entries, most recently used first *)
Section spec.
Definition purge (t : Z) (l : list LNode) : list LNode :=
  filter (λ n, ¬ expire_time n ≤ t)%Z l.
Fixpoint lookup_key (k : Z) (l : list LNode) : option LNode :=
  match l with
  | [] => None
  | n :: l' => if bool_decide (key n = k) then Some n else lookup_key k l'
  end.
Definition remove_key (k : Z) (l : list LNode) : list LNode := filter (λ n, key n ≠ k) l.

(** The abstract cache: the number of clock readings so far and the entries.
    An operation that the class leaves undefined is [None]. *)
Abbreviation astate := (nat * list LNode)%type.
Context (clk : nat → Z).

(** A look-up: expired entries go, a hit becomes the most recent.  An entry
    that is alive at the first reading of the clock and has expired at the
    second is used after it was erased. *)
Definition lru_get (a : astate) (k : Z) : option (Z * astate) :=
  let '(n, l) := a in
  let l := purge (clk n) l in
  match lookup_key k l with
  | None => Some ((-1)%Z, (S n, l))
  | Some e =>
      if bool_decide (expire_time e ≤ clk (S n))%Z then None
      else Some (value e, (S (S n), e :: remove_key k l))
  end.

(** An update: a new key evicts the least recent entry of a full cache, which
    is undefined when a cache of capacity 0 has none. *)
Definition lru_put (cap : nat) (ttl : Z) (a : astate) (k v : Z) : option (unit * astate) :=
  let '(n, l) := a in
  let l := purge (clk n) l in
  let e := LN k v (clk (S n) + ttl) in
  match lookup_key k l with
  | Some _ => Some (tt, (S (S n), e :: remove_key k l))
  | None =>
      if bool_decide (length l = cap) then
        if bool_decide (l = []) then None
        else Some (tt, (S (S n), e :: removelast l))
      else Some (tt, (S (S n), e :: l))
  end.
End spec.

(** Scripts of operations; an update answers [None]. *)
Inductive lru_op := LGet (k : Z) | LPut (k v : Z).

Fixpoint run_ops (clk : nat → Z) (fuel : nat) (ops : list lru_op)
  : M LRUCacheWithTTL (list (option Z)) :=
  match ops with
  | [] => ret []
  | LGet k :: ops' =>
      let* r := get clk fuel k in
      let* rs := run_ops clk fuel ops' in
      ret (Some r :: rs)
  | LPut k v :: ops' =>
      put clk fuel k v ;;
      let* rs := run_ops clk fuel ops' in
      ret (None :: rs)
  end.

Fixpoint lru_ops (clk : nat → Z) (cap : nat) (ttl : Z) (a : nat * list LNode) (ops : list lru_op)
  : option (list (option Z) * (nat * list LNode)) :=
  match ops with
  | [] => Some ([], a)
  | LGet k :: ops' =>
      '(r, a) ← lru_get clk a k;
      '(rs, a) ← lru_ops clk cap ttl a ops';
      Some (Some r :: rs, a)
  | LPut k v :: ops' =>
      '(_, a) ← lru_put clk cap ttl a k v;
      '(rs, a) ← lru_ops clk cap ttl a ops';
      Some (None :: rs, a)
  end.
