(* ===== verification/LRUCacheSpec.v ===== *)
(** * LRUCache.cpp: the cache refines the abstract one

    [lrep p s]: the list, its node store and the key map of [s] hold the
    entries [p], paired with the locations of their nodes.  The operations act
    on the entries as the abstract [lru_get] and [lru_put] do. *)
From stdpp Require Import base gmap list.
From S2P Require Import Prelude LRUCache.

Abbreviation entry := (prod positive LNode).

Definition ekey (x : entry) : Z := key x.2.

Fixpoint pfind (k : Z) (p : list entry) : option entry :=
  match p with
  | [] => None
  | x :: p' => if bool_decide (ekey x = k) then Some x else pfind k p'
  end.

Record lrep (p : list entry) (s : LRUCacheWithTTL) : Prop := {
  lr_cache : cache s = p.*1;
  lr_locs : NoDup p.*1;
  lr_keys : NoDup (ekey <$> p);
  lr_nodes : Forall (λ x, nodes s !! x.1 = Some x.2) p;
  lr_map : ∀ k, key_map s !! k = fst <$> pfind k p
}.

Section list_facts.
Implicit Types (p q : list entry) (l : list positive).

Lemma next_mid l1 x l2 : NoDup (l1 ++ x :: l2) → next (l1 ++ x :: l2) x = head l2.
Proof.
  induction l1 as [|y l1 IH]; simpl.
  - intros _. by rewrite bool_decide_eq_true_2.
  - intros [Hy Hnd]%NoDup_cons. rewrite bool_decide_eq_false_2; [by apply IH|].
    intros ->. apply Hy, elem_of_mid.
Qed.

Lemma filter_all (A : Type) (P : A → Prop) `{∀ x, Decision (P x)} (l : list A) :
  Forall P l → filter P l = l.
Proof. induction 1; [done|]. rewrite filter_cons_True by done. congruence. Qed.

Lemma filter_ne_mid l1 x l2 :
  NoDup (l1 ++ x :: l2) → filter (λ y, y ≠ x) (l1 ++ x :: l2) = l1 ++ l2.
Proof.
  intros Hnd. rewrite filter_app, filter_cons_False by naive_solver.
  nodup_facts. rewrite !filter_all; [done|..]; apply Forall_forall; intros y Hy ->; set_solver.
Qed.

Lemma pfind_app k p q :
  pfind k (p ++ q) = match pfind k p with Some x => Some x | None => pfind k q end.
Proof. induction p as [|x p IH]; simpl; [done|]. by case_bool_decide. Qed.

Lemma pfind_Some k p x :
  pfind k p = Some x → ekey x = k ∧ ∃ p1 p2, p = p1 ++ x :: p2.
Proof.
  induction p as [|y p IH]; simpl; [done|]. case_bool_decide.
  - intros [= <-]. split; [done|]. by exists [], p.
  - intros (? & p1 & p2 & ->)%IH. split; [done|]. by exists (y :: p1), p2.
Qed.

Lemma pfind_None k p : pfind k p = None ↔ k ∉ ekey <$> p.
Proof.
  induction p as [|y p IH]; simpl; [set_solver|]. case_bool_decide; [set_solver|].
  rewrite IH. set_solver.
Qed.

Lemma pfind_lookup k p : lookup_key k p.*2 = snd <$> pfind k p.
Proof. induction p as [|x p IH]; [done|]. simpl. unfold ekey. by case_bool_decide. Qed.

Lemma ekey_snd p : ekey <$> p = key <$> p.*2.
Proof. by rewrite <-list_fmap_compose. Qed.

(** Removing the entry with key [k]. *)
Lemma remove_key_mid k (x : entry) p q :
  NoDup (ekey <$> (p ++ x :: q)) → ekey x = k → remove_key k (p ++ x :: q).*2 = (p ++ q).*2.
Proof.
  intros Hnd <-. unfold remove_key. rewrite !fmap_app, fmap_cons, filter_app.
  rewrite filter_cons_False by naive_solver.
  rewrite fmap_app, fmap_cons in Hnd. nodup_facts.
  rewrite !filter_all; [done|..]; apply Forall_fmap, Forall_forall; intros y Hy Hk;
    apply (list_elem_of_fmap_2 ekey) in Hy; change (ekey y = ekey x) in Hk;
    rewrite Hk in Hy; contradiction.
Qed.
End list_facts.

Section lrep_facts.
Implicit Types (p q : list entry) (s : LRUCacheWithTTL).

(** Reading the clock does not matter to the entries. *)
Definition same_entries s s' : Prop :=
  cache s' = cache s ∧ nodes s' = nodes s ∧ key_map s' = key_map s.
Lemma lrep_same p s s' : same_entries s s' → lrep p s → lrep p s'.
Proof. intros (E1 & E2 & E3) []. split; rewrite ?E1, ?E2, ?E3; done. Qed.

Lemma lrep_lookup p1 x p2 s : lrep (p1 ++ x :: p2) s → nodes s !! x.1 = Some x.2.
Proof. intros [_ _ _ Hn _]. apply Forall_app in Hn as [_ Hn]. by apply Forall_cons in Hn as [? _]. Qed.

Lemma lrep_nodup_l p1 x p2 s : lrep (p1 ++ x :: p2) s → NoDup (p1.*1 ++ x.1 :: p2.*1).
Proof. intros [_ Hl _ _ _]. by rewrite fmap_app, fmap_cons in Hl. Qed.

Lemma lrep_cache_mid p1 x p2 s : lrep (p1 ++ x :: p2) s → cache s = p1.*1 ++ x.1 :: p2.*1.
Proof. intros [-> _ _ _ _]. by rewrite fmap_app, fmap_cons. Qed.

(** Erasing an entry from the map and the list. *)
Lemma lrep_erase p1 x p2 s cs h km :
  lrep (p1 ++ x :: p2) s → cs = p1.*1 ++ p2.*1 → h = delete x.1 (nodes s) →
  km = delete (ekey x) (key_map s) →
  lrep (p1 ++ p2) (LRU (ttl s) (capacity s) cs h km (ticks s)).
Proof.
  intros Hs -> -> ->. pose proof (lrep_nodup_l _ _ _ _ Hs) as Hnd.
  destruct Hs as [_ _ Hk Hn Hm]. rewrite fmap_app, fmap_cons in Hk.
  split; simpl.
  - by rewrite fmap_app.
  - rewrite fmap_app. nodup_facts. apply NoDup_app. auto.
  - rewrite fmap_app. nodup_facts. apply NoDup_app. auto.
  - apply Forall_app in Hn as [Hn1 Hn2]. apply Forall_cons in Hn2 as [_ Hn2]. nodup_facts.
    rewrite Forall_forall in Hn1. rewrite Forall_forall in Hn2.
    apply Forall_app; split; apply Forall_forall; intros y Hy;
      (rewrite lookup_delete_ne; [auto|]); intros Heq;
      apply (list_elem_of_fmap_2 fst) in Hy; rewrite <-Heq in Hy; contradiction.
  - intros k. rewrite pfind_app. destruct (decide (ekey x = k)) as [<-|Hne].
    + rewrite lookup_delete_eq. nodup_facts.
      assert (pfind (ekey x) p1 = None) as -> by by apply pfind_None.
      assert (pfind (ekey x) p2 = None) as -> by by apply pfind_None. done.
    + rewrite lookup_delete_ne, Hm, pfind_app by done. simpl.
      by rewrite (bool_decide_eq_false_2 (ekey x = k)).
Qed.
End lrep_facts.

Section steps.
Context (clk : nat → Z).
Implicit Types (p q : list entry) (s : LRUCacheWithTTL).

Definition same_config s s' : Prop := ttl s' = ttl s ∧ capacity s' = capacity s.

Lemma wp_now s (Q : Z → LRUCacheWithTTL → Prop) :
  Q (clk (ticks s)) (LRU (ttl s) (capacity s) (cache s) (nodes s) (key_map s) (S (ticks s))) →
  wp (now clk) s Q.
Proof. done. Qed.

Lemma wp_deref p1 x p2 s Q :
  lrep (p1 ++ x :: p2) s → Q x.2 s → wp (deref x.1) s Q.
Proof. intros Hs HQ. unfold wp, deref. by rewrite (lrep_lookup _ _ _ _ Hs). Qed.

(** Moving an entry to the front. *)
Lemma wp_splice_front p1 x p2 s (Q : unit → LRUCacheWithTTL → Prop) :
  lrep (p1 ++ x :: p2) s →
  (∀ s', lrep (x :: p1 ++ p2) s' → same_config s s' → ticks s' = ticks s → Q tt s') →
  wp (splice_front x.1) s Q.
Proof.
  intros Hs HQ. unfold wp, splice_front. rewrite (lrep_lookup _ _ _ _ Hs).
  pose proof (lrep_nodup_l _ _ _ _ Hs) as Hnd. apply HQ; [|done|done].
  rewrite (lrep_cache_mid _ _ _ _ Hs), filter_ne_mid by done.
  destruct Hs as [_ Hl Hk Hn Hm].
  assert (x :: p1 ++ p2 ≡ₚ p1 ++ x :: p2) as Hperm by by rewrite <-Permutation_middle.
  split; simpl; [by rewrite fmap_app| | | |].
  - by rewrite <-fmap_cons, Hperm.
  - by rewrite <-fmap_cons, Hperm.
  - change (Forall (λ x, nodes s !! x.1 = Some x.2) (x :: p1 ++ p2)). by rewrite Hperm.
  - intros k. rewrite Hm, !pfind_app. simpl. case_bool_decide as Hxk; [|done].
    rewrite fmap_app, fmap_cons in Hk. nodup_facts.
    assert (pfind k p1 = None) as ->; [|done]. apply pfind_None. by rewrite <-Hxk.
Qed.

(** Writing to a node without changing its key. *)
Lemma wp_assign p1 x p2 s n (Q : unit → LRUCacheWithTTL → Prop) :
  lrep (p1 ++ x :: p2) s → key n = ekey x →
  (∀ s', lrep (p1 ++ (x.1, n) :: p2) s' → same_config s s' → ticks s' = ticks s → Q tt s') →
  wp (assign x.1 n) s Q.
Proof.
  intros Hs Hkey HQ. unfold wp, assign. rewrite (lrep_lookup _ _ _ _ Hs).
  pose proof (lrep_nodup_l _ _ _ _ Hs) as Hnd. apply HQ; [|done|done].
  destruct Hs as [Hc Hl Hk Hn Hm]. split; simpl.
  - by rewrite Hc, !fmap_app.
  - rewrite fmap_app, fmap_cons in Hl |- *. done.
  - rewrite fmap_app, fmap_cons in Hk |- *. change (ekey (x.1, n)) with (key n). by rewrite Hkey.
  - apply Forall_app in Hn as [Hn1 Hn2]. apply Forall_cons in Hn2 as [_ Hn2].
    nodup_facts. rewrite Forall_forall in Hn1. rewrite Forall_forall in Hn2.
    apply Forall_app; split; [|apply Forall_cons; split; [by rewrite lookup_insert_eq|]];
      apply Forall_forall; intros y Hy;
      (rewrite lookup_insert_ne; [auto|]); intros Heq;
      apply (list_elem_of_fmap_2 fst) in Hy; rewrite <-Heq in Hy; contradiction.
  - intros k. rewrite Hm, !pfind_app. simpl. change (ekey (x.1, n)) with (key n).
    rewrite Hkey. destruct (pfind k p1); [done|]. by case_bool_decide.
Qed.

(** A new entry at the front. *)
Lemma wp_emplace_front p s n (Q : unit → LRUCacheWithTTL → Prop) :
  lrep p s → key n ∉ ekey <$> p →
  (∀ s', (∃ l, lrep ((l, n) :: p) s') → same_config s s' → ticks s' = ticks s → Q tt s') →
  wp (emplace_front n ;; let* b := begin in
      match b with Some it => map_set (key n) it | None => undef end) s Q.
Proof.
  intros [Hc Hl Hk Hn Hm] Hfresh HQ. unfold wp, emplace_front, begin, map_set, bind, gets, modify.
  simpl. pose proof (is_fresh (dom (nodes s))) as Hl0.
  set (l := fresh (dom (nodes s))) in *. apply not_elem_of_dom in Hl0.
  apply HQ; [|done|done]. exists l. rewrite Forall_forall in Hn.
  split; simpl.
  - by rewrite Hc.
  - apply NoDup_cons. split; [|done]. intros ([l' n'] & Hle & Hin)%list_elem_of_fmap_1.
    simpl in Hle. subst l'. apply Hn in Hin. simpl in Hin. congruence.
  - by apply NoDup_cons.
  - apply Forall_cons. split; [by rewrite lookup_insert_eq|]. apply Forall_forall. intros y Hy.
    rewrite lookup_insert_ne; [auto|]. intros Heq. apply Hn in Hy. congruence.
  - intros k. change (ekey (l, n)) with (key n).
    destruct (decide (key n = k)) as [<-|Hne].
    + by rewrite lookup_insert_eq, bool_decide_eq_true_2.
    + by rewrite lookup_insert_ne, bool_decide_eq_false_2, Hm.
Qed.

Definition live (t : Z) p : list entry := filter (λ x, ¬ expire_time x.2 ≤ t)%Z p.

Lemma live_purge t p : (live t p).*2 = purge t p.*2.
Proof.
  unfold live, purge. induction p as [|x p IH]; [done|]. rewrite fmap_cons.
  destruct (decide (expire_time x.2 ≤ t)%Z).
  - rewrite !filter_cons_False by naive_solver. done.
  - rewrite !filter_cons_True by done. rewrite fmap_cons. by rewrite IH.
Qed.

Lemma clean_loop fuel t s p q :
  lrep (p ++ q) s → length q < fuel →
  wp (loop fuel (clean_expire_iter t) (head q.*1)) s (λ _ s',
    lrep (p ++ live t q) s' ∧ same_config s s' ∧ ticks s' = ticks s).
Proof.
  revert s p q. induction fuel as [|fuel IH]; [lia|]. intros s p q Hs Hf.
  apply wp_loop. destruct q as [|x q]; simpl in Hf |- *; [by apply wp_ret|].
  unfold clean_expire_iter. apply wp_bind. eapply wp_deref; [exact Hs|].
  pose proof (lrep_nodup_l _ _ _ _ Hs) as Hnd. case_bool_decide as He.
  - apply wp_bind, wp_modify. unfold live. rewrite filter_cons_False by naive_solver.
    unfold erase, bind, wp. simpl. rewrite (lrep_lookup _ _ _ _ Hs). simpl.
    rewrite (lrep_cache_mid _ _ _ _ Hs), next_mid, filter_ne_mid by done.
    eapply wp_mono; [apply IH; [|lia]|].
    + eapply (lrep_erase p x q s); [exact Hs|reflexivity..].
    + intros _ s' (? & [??] & ?). done.
  - apply wp_gets. unfold live. rewrite filter_cons_True by done.
    rewrite (lrep_cache_mid _ _ _ _ Hs), next_mid by done.
    eapply wp_mono; [apply (IH s (p ++ [x]) q); [by rewrite <-app_assoc|lia]|].
    intros [] s' (Hs' & ? & ?). by rewrite <-app_assoc in Hs'.
Qed.

(** [clean_expire] drops exactly the entries that have expired. *)
Lemma wp_clean_expire fuel p s (Q : unit → LRUCacheWithTTL → Prop) :
  lrep p s → length p < fuel →
  (∀ s', lrep (live (clk (ticks s)) p) s' → same_config s s' → ticks s' = S (ticks s) → Q tt s') →
  wp (clean_expire clk fuel) s Q.
Proof.
  intros Hs Hf HQ. unfold clean_expire. apply wp_bind, wp_gets, wp_bind, wp_now.
  rewrite (lr_cache _ _ Hs). eapply wp_mono; [apply (clean_loop _ _ _ [] p); [|done]|].
  - apply (lrep_same _ s); [split; [by rewrite (lr_cache _ _ Hs)|done]|done].
  - intros [] s' (? & ? & ?). by apply HQ.
Qed.
End steps.

(** ** Refinement *)

(** [s] holds the abstract state [a] and has the constants of [s0]. *)
Definition holds (a : nat * list LNode) (s0 s : LRUCacheWithTTL) : Prop :=
  ticks s = a.1 ∧ (∃ p, lrep p s ∧ p.*2 = a.2) ∧ same_config s0 s.

(** The code does what the abstract operation prescribes, and is undefined
    exactly where it prescribes nothing. *)
Definition refines {A} (m : M LRUCacheWithTTL A) (s0 s : LRUCacheWithTTL)
    (o : option (A * (nat * list LNode))) : Prop :=
  wpu m s (λ r s', ∃ a, o = Some (r, a) ∧ holds a s0 s') (o = None).

(** The capacity as the code compares it: converted to [size_t]. *)
Definition cap_of (s : LRUCacheWithTTL) : nat := Z.to_nat (capacity s mod 2 ^ 64).

Section refinement.
Context (clk : nat → Z).
Implicit Types (p q : list entry) (s : LRUCacheWithTTL).

Lemma length_purge t l : length (purge t l) ≤ length l.
Proof. apply length_filter. Qed.

Lemma pfind_hit k p e :
  lookup_key k p.*2 = Some e →
  ∃ p1 l p2, p = p1 ++ (l, e) :: p2 ∧ key e = k ∧ pfind k p = Some (l, e).
Proof.
  rewrite pfind_lookup. destruct (pfind k p) as [[l e']|] eqn:Hp; [|done].
  intros [= ->]. destruct (pfind_Some _ _ _ Hp) as (Hk & p1 & p2 & ->).
  by exists p1, l, p2.
Qed.

(** Both operations begin with the same two lines. *)
Lemma wpu_clean_find {A} fuel k a s0 s (f : option positive → M LRUCacheWithTTL A) Q U :
  holds a s0 s → length a.2 < fuel →
  (∀ p s', lrep p s' → p.*2 = purge (clk a.1) a.2 → ticks s' = S a.1 → same_config s0 s' →
     wpu (f (fst <$> pfind k p)) s' Q U) →
  wpu (clean_expire clk fuel ;; let* it := map_find k in f it) s Q U.
Proof.
  intros (Hn & (p & Hp & Hl) & Hc) Hf HQ. apply wpu_bind.
  eapply wp_clean_expire; [exact Hp|by rewrite <-Hl, length_fmap in Hf|].
  intros s' Hs' Hc' Ht. apply wpu_bind, wp_gets. rewrite (lr_map _ _ Hs').
  apply HQ; [done|by rewrite live_purge, Hl, Hn|congruence|].
  destruct Hc, Hc'. split; congruence.
Qed.

Lemma get_refines fuel a s0 s k :
  holds a s0 s → length a.2 < fuel → refines (get clk fuel k) s0 s (lru_get clk a k).
Proof.
  intros Hs Hf. eapply wpu_clean_find; [exact Hs|done|]. clear s Hs.
  intros p s Hp Hl Ht Hc. destruct a as [n l]. simpl in Hl, Ht |- *. rewrite <-Hl.
  destruct (lookup_key k p.*2) as [e|] eqn:Hk.
  - destruct (pfind_hit _ _ _ Hk) as (p1 & lc & p2 & -> & Hek & ->). simpl.
    apply wpu_bind. eapply (wp_deref p1 (lc, e)); [exact Hp|]. simpl.
    apply wpu_bind. unfold is_expired. apply wp_bind, wp_now, wp_ret. rewrite Ht.
    apply (lrep_same _ s (LRU (ttl s) (capacity s) (cache s) (nodes s) (key_map s) (S (ticks s))))
      in Hp as Hp'; [|done]. rewrite Ht in Hp'.
    case_bool_decide.
    + pose proof (lrep_lookup _ _ _ _ Hp) as Hlk. simpl in Hlk.
      unfold wpu, erase, bind. simpl. rewrite Hlk. simpl. unfold deref. simpl. by rewrite lookup_delete_eq.
    + apply wpu_bind. eapply (wp_splice_front p1 (lc, e)); [exact Hp'|].
      intros s' Hs' Hc' Ht'. apply wpu_bind. eapply (wp_deref [] (lc, e)); [exact Hs'|].
      exists (S (S n), e :: remove_key k (p1 ++ (lc, e) :: p2).*2). split; [done|].
      split_and!; [by rewrite Ht'| |destruct Hc, Hc'; split; simpl in *; congruence].
      exists ((lc, e) :: p1 ++ p2). split; [done|].
      rewrite remove_key_mid; [done|apply (lr_keys _ _ Hp)|done].
  - rewrite pfind_lookup in Hk. destruct (pfind k p); [done|]. simpl.
    exists (S n, p.*2). split; [done|]. split; [done|]. split; [by exists p|done].
Qed.

(** Evicting the last entry. *)
Lemma wp_evict p x s (Q : unit → LRUCacheWithTTL → Prop) :
  lrep (p ++ [x]) s →
  (∀ s', lrep p s' → same_config s s' → ticks s' = ticks s → Q tt s') →
  wp (let* b := back in let* n := deref b in map_erase (key n) ;; pop_back) s Q.
Proof.
  intros Hs HQ. pose proof (lrep_nodup_l _ _ _ _ Hs) as Hnd.
  unfold wp, pop_back, back, erase, deref, map_erase, modify, bind. simpl.
  rewrite (lrep_cache_mid _ _ _ _ Hs). simpl. rewrite last_snoc.
  rewrite (lrep_lookup _ _ _ _ Hs). simpl. rewrite (lrep_cache_mid _ _ _ _ Hs). simpl.
  rewrite last_snoc. simpl. rewrite (lrep_lookup _ _ _ _ Hs). simpl.
  rewrite (lrep_cache_mid _ _ _ _ Hs), filter_ne_mid by done.
  apply HQ; [|done|done].
  pose proof (lrep_erase p x [] s _ _ _ Hs eq_refl eq_refl eq_refl) as Hr.
  by rewrite app_nil_r in Hr.
Qed.

Lemma wp_is_full p s (Q : bool → LRUCacheWithTTL → Prop) :
  lrep p s → Q (bool_decide (length p.*2 = cap_of s)) s → wp is_full s Q.
Proof.
  intros Hs HQ. apply wp_gets. rewrite (lr_cache _ _ Hs), length_fmap.
  rewrite length_fmap in HQ.
  assert (bool_decide (Z.of_nat (length p) = capacity s mod 2 ^ 64)%Z
          = bool_decide (length p = cap_of s)) as ->; [|done].
  apply bool_decide_ext. unfold cap_of.
  pose proof (Z.mod_pos_bound (capacity s) (2 ^ 64)). lia.
Qed.

(** The last lines of [put] for a new key. *)
Lemma wpu_put_new p s0 s k v (o : option (unit * (nat * list LNode))) :
  lrep p s → k ∉ ekey <$> p → same_config s0 s →
  o = Some (tt, (S (ticks s), LN k v (clk (ticks s) + ttl s0) :: p.*2)) →
  refines (let* t := now clk in
           let* d := gets ttl in
           emplace_front (LN k v (t + d)) ;;
           let* b := begin in
           match b with Some it => map_set k it | None => undef end) s0 s o.
Proof.
  intros Hp Hk Hc ->. apply wpu_bind, wp_now, wpu_bind, wp_gets. simpl.
  rewrite (proj1 Hc). apply wpu_wp.
  eapply (wp_emplace_front p _ (LN k v (clk (ticks s) + ttl s0)));
    [by eapply lrep_same; [|exact Hp]|done|].
  intros s' (lc & Hs') Hc' Ht. eexists. split; [done|]. split_and!; [done| |].
  - by exists ((lc, LN k v (clk (ticks s) + ttl s0)) :: p).
  - destruct Hc, Hc'. split; simpl in *; congruence.
Qed.

Lemma put_refines fuel a s0 s k v :
  holds a s0 s → length a.2 < fuel →
  refines (put clk fuel k v) s0 s (lru_put clk (cap_of s0) (ttl s0) a k v).
Proof.
  intros Hs Hf. eapply wpu_clean_find; [exact Hs|done|]. clear s Hs.
  intros p s Hp Hl Ht Hc. destruct a as [n l]. simpl in Hl, Ht |- *. rewrite <-Hl.
  destruct (lookup_key k p.*2) as [e|] eqn:Hk.
  - destruct (pfind_hit _ _ _ Hk) as (p1 & lc & p2 & -> & Hek & ->). simpl. apply wpu_wp.
    apply wp_bind. eapply (wp_deref p1 (lc, e)); [exact Hp|].
    apply wp_bind. eapply (wp_assign p1 (lc, e)); [exact Hp|done|]. simpl. intros s1 Hs1 Hc1 Ht1.
    apply wp_bind, wp_now, wp_bind, wp_gets, wp_bind.
    eapply (wp_deref p1 (lc, _)); [eapply lrep_same; [|exact Hs1]; done|]. simpl.
    apply wp_bind. eapply (wp_assign p1 (lc, _)); [eapply lrep_same; [|exact Hs1]; done|done|].
    simpl. intros s2 Hs2 Hc2 Ht2. eapply (wp_splice_front p1 (lc, _)); [exact Hs2|].
    intros s3 Hs3 Hc3 Ht3. simpl in *. rewrite Ht1, Ht in *.
    assert (ttl s1 = ttl s0) as Hd by (destruct Hc, Hc1; congruence). rewrite Hd, Hek in *.
    eexists. split; [done|]. split_and!; [simpl; lia| |].
    + eexists. split; [exact Hs3|]. rewrite remove_key_mid; [done|apply (lr_keys _ _ Hp)|done].
    + destruct Hc, Hc1, Hc2, Hc3. split; simpl in *; congruence.
  - rewrite pfind_lookup in Hk. destruct (pfind k p) eqn:Hpk; [done|]. simpl.
    apply pfind_None in Hpk. apply wpu_bind. eapply wp_is_full; [exact Hp|].
    assert (cap_of s = cap_of s0) as -> by (unfold cap_of; by destruct Hc as [_ ->]).
    case_bool_decide; simpl.
    + destruct p as [|x p _] using rev_ind; simpl.
      { unfold wpu, bind, back. by rewrite (lr_cache _ _ Hp). }
      apply wpu_bind. eapply wp_evict; [exact Hp|]. intros s' Hs' Hc' Ht'.
      rewrite bool_decide_eq_false_2
        by (rewrite fmap_app; intros []%app_eq_nil; done).
      rewrite fmap_app, (removelast_last p.*2 x.2). eapply wpu_put_new; [exact Hs'| | |].
      * rewrite fmap_app in Hpk. set_solver.
      * destruct Hc, Hc'. split; congruence.
      * by rewrite Ht', Ht.
    + apply wpu_bind, wp_ret. eapply wpu_put_new; [exact Hp|done|done|]. by rewrite Ht.
Qed.
End refinement.

Section scripts.
Context (clk : nat → Z).
Implicit Types (s : LRUCacheWithTTL) (a : nat * list LNode).

Lemma refines_bind {A B} (m : M LRUCacheWithTTL A) (f : A → M LRUCacheWithTTL B) s0 s o g :
  refines m s0 s o →
  (∀ r a s', o = Some (r, a) → holds a s0 s' → refines (f r) s0 s' (g (r, a))) →
  refines (bind m f) s0 s (o ≫= g).
Proof.
  intros Hm Hf. apply wpu_seq. eapply wpu_mono; [exact Hm| |by intros ->].
  simpl. intros r s' (a & -> & Ha). by apply (Hf r a).
Qed.

Lemma refines_ret {A} (r : A) a s0 s : holds a s0 s → refines (ret r) s0 s (Some (r, a)).
Proof. intros Ha. by exists a. Qed.

Lemma length_remove_key k l : length (remove_key k l) ≤ length l.
Proof. apply length_filter. Qed.

Lemma remove_key_hit k l e : lookup_key k l = Some e → length (remove_key k l) < length l.
Proof.
  induction l as [|n l IH]; simpl; [done|]. case_bool_decide as Hk.
  - intros _. unfold remove_key. rewrite filter_cons_False by naive_solver.
    pose proof (length_remove_key k l). unfold remove_key in *. lia.
  - intros He. unfold remove_key. rewrite filter_cons_True by done. simpl.
    apply IH in He. unfold remove_key in *. lia.
Qed.

Lemma lru_get_length a k r a' : lru_get clk a k = Some (r, a') → length a'.2 ≤ length a.2.
Proof.
  destruct a as [n l]. simpl. pose proof (length_purge (clk n) l).
  destruct (lookup_key k (purge (clk n) l)) eqn:Hk; [|intros [= <- <-]; done].
  case_bool_decide; [done|]. intros [= <- <-]. simpl. apply remove_key_hit in Hk. lia.
Qed.

(** An update adds at most one entry, and none beyond a positive capacity. *)
Lemma lru_put_length cap d a k v r a' :
  lru_put clk cap d a k v = Some (r, a') →
  length a'.2 ≤ S (length a.2) ∧ (length a.2 ≤ cap → length a'.2 ≤ cap).
Proof.
  destruct a as [n l]. simpl. pose proof (length_purge (clk n) l).
  destruct (lookup_key k (purge (clk n) l)) eqn:Hk.
  { intros [= <- <-]. apply remove_key_hit in Hk. simpl. lia. }
  case_bool_decide as Hcap; [|intros [= <- <-]; simpl; lia].
  case_bool_decide as Hnil; [done|]. intros [= <- <-]. simpl.
  destruct (purge (clk n) l) as [|x l' _] eqn:Hl using rev_ind; [done|].
  rewrite removelast_last. rewrite length_app in *. simpl in *. lia.
Qed.

Lemma run_ops_refines fuel ops a s0 s :
  holds a s0 s → length a.2 + length ops < fuel →
  refines (run_ops clk fuel ops) s0 s (lru_ops clk (cap_of s0) (ttl s0) a ops).
Proof.
  revert a s. induction ops as [|[k|k v] ops IH]; intros a s Ha Hf; simpl in *.
  - by apply refines_ret.
  - apply refines_bind; [by apply get_refines; [|lia]|].
    intros r a' s' Hr Ha'. apply lru_get_length in Hr.
    apply refines_bind; [apply IH; [done|lia]|]. intros rs a'' s'' _ Ha''. by apply refines_ret.
  - apply refines_bind; [by apply put_refines; [|lia]|].
    intros r a' s' Hr Ha'. apply lru_put_length in Hr as [Hr _].
    apply refines_bind; [apply IH; [done|lia]|]. intros rs a'' s'' _ Ha''. by apply refines_ret.
Qed.

Lemma lru_ops_length cap d ops a rs a' :
  lru_ops clk cap d a ops = Some (rs, a') → length a.2 ≤ cap → length a'.2 ≤ cap.
Proof.
  revert a rs. induction ops as [|[k|k v] ops IH]; intros a rs; simpl; [by intros [= <- <-]|..].
  - intros ([r a1] & H1 & ([rs' a2] & H2 & [= <- <-])%bind_Some)%bind_Some ?.
    eapply IH; [exact H2|]. apply lru_get_length in H1. lia.
  - intros ([r a1] & H1 & ([rs' a2] & H2 & [= <- <-])%bind_Some)%bind_Some ?.
    eapply IH; [exact H2|]. apply lru_put_length in H1. naive_solver.
Qed.

Lemma ctor_holds cap d : holds (0, []) (LRUCache_ctor cap d) (LRUCache_ctor cap d).
Proof.
  split; [done|]. split; [|done]. exists []. split; [|done].
  split; [done|constructor|constructor|done|]. intros k. apply lookup_empty.
Qed.
End scripts.

Section theorems.
Context (clk : nat → Z).

(** C7: From the constructor on, any script of look-ups and updates gives the
    answers of the abstract least-recently-used cache: entries are dropped
    once expired, a hit or an update makes the entry the most recent, a new
    key evicts the least recent entry of a full cache.  The code is undefined
    exactly where the abstract cache prescribes nothing, for any clock. *)
Theorem LRU_script_spec fuel cap d ops :
  length ops < fuel →
  refines (run_ops clk fuel ops) (LRUCache_ctor cap d) (LRUCache_ctor cap d)
    (lru_ops clk (Z.to_nat (cap mod 2 ^ 64)) (seconds d) (0, []) ops).
Proof. intros Hf. by apply run_ops_refines; [apply ctor_holds|]. Qed.

Lemma lrep_keys p s k :
  lrep p s →
  is_Some (key_map s !! k) ↔ ∃ it n, it ∈ cache s ∧ nodes s !! it = Some n ∧ key n = k.
Proof.
  intros Hs. rewrite (lr_map _ _ Hs), (lr_cache _ _ Hs). split.
  - intros [it Hit]. destruct (pfind k p) as [[it' n]|] eqn:Hp; [|done].
    injection Hit as <-. destruct (pfind_Some _ _ _ Hp) as (Hk & p1 & p2 & ->).
    exists it', n. split; [exact (list_elem_of_fmap_2 fst _ _ (elem_of_mid (it', n) p1 p2))|].
    split; [|done]. exact (lrep_lookup _ _ _ _ Hs).
  - intros (it & n & ((it' & n') & -> & Hin)%list_elem_of_fmap_1 & Hn & Hk).
    pose proof (lr_nodes _ _ Hs) as Hall. rewrite Forall_forall in Hall.
    apply Hall in Hin as Hn'. simpl in Hn, Hn'. simplify_eq.
    destruct (pfind (key n) p) eqn:Hp; [by eexists|]. apply pfind_None in Hp. destruct Hp.
    by apply (list_elem_of_fmap_2 ekey) in Hin.
Qed.

(** C8: With a positive capacity the cache never holds more entries than that,
    each of its list nodes is in the list once, and the map has an iterator
    for exactly the keys of the list. *)
Theorem LRU_capacity fuel cap d ops :
  (1 ≤ cap < 2 ^ 31)%Z → length ops < fuel →
  wpu (run_ops clk fuel ops) (LRUCache_ctor cap d) (λ _ s,
    (Z.of_nat (length (cache s)) ≤ cap)%Z ∧ NoDup (cache s) ∧
    ∀ k, is_Some (key_map s !! k) ↔
         ∃ it n, it ∈ cache s ∧ nodes s !! it = Some n ∧ key n = k) True.
Proof.
  intros Hcap Hf.
  eapply wpu_mono; [by apply run_ops_refines; [apply ctor_holds|]| |done].
  intros rs s (a & Ha & _ & (p & Hp & Hl) & _). apply lru_ops_length in Ha; [|simpl; lia].
  split_and!; [|rewrite (lr_cache _ _ Hp); apply (lr_locs _ _ Hp)|intros k; by eapply lrep_keys].
  rewrite (lr_cache _ _ Hp), length_fmap, <-(length_fmap snd), Hl.
  unfold cap_of in Ha. simpl in Ha. rewrite Z.mod_small in Ha by lia. lia.
Qed.

(** A value put is the value got, as long as the entry has not expired at
    the two readings of the clock that the look-up makes. *)
Theorem LRU_put_get fuel p s k v :
  lrep p s → S (length p) < fuel → cap_of s ≠ 0 →
  (clk (2 + ticks s) < clk (1 + ticks s) + ttl s)%Z →
  (clk (3 + ticks s) < clk (1 + ticks s) + ttl s)%Z →
  wp (put clk fuel k v ;; get clk fuel k) s (λ r _, r = v).
Proof.
  intros Hp Hf Hcap H2 H3.
  assert (∃ l', lru_put clk (cap_of s) (ttl s) (ticks s, p.*2) k v
            = Some (tt, (S (S (ticks s)), LN k v (clk (S (ticks s)) + ttl s) :: l'))) as [l' Hput].
  { simpl. destruct (lookup_key k (purge (clk (ticks s)) p.*2)); [by eexists|].
    case_bool_decide; [|by eexists]. case_bool_decide as Hnil; [|by eexists].
    rewrite Hnil in *. simpl in *. congruence. }
  pose proof (lru_put_length _ _ _ _ _ _ _ _ Hput) as [Hlen _].
  assert (holds (ticks s, p.*2) s s) as Ha by (split; [done|split; [by exists p|done]]).
  apply (put_refines clk fuel _ _ _ k v) in Ha; [|simpl; rewrite length_fmap; lia].
  rewrite Hput in Ha. unfold refines, wpu in Ha. apply wp_bind. unfold wp.
  destruct (put clk fuel k v s) as [[] s'| | |]; [|done..]. destruct Ha as (a & [= <-] & Ha).
  apply (get_refines clk fuel _ _ _ k) in Ha; [|simpl in *; rewrite length_fmap in Hlen; lia].
  simpl in Ha. unfold purge in Ha. rewrite filter_cons_True in Ha by (simpl in *; lia).
  simpl in Ha. rewrite bool_decide_eq_true_2, bool_decide_eq_false_2 in Ha by (simpl in *; lia).
  unfold refines, wpu in Ha. destruct (get clk fuel k s') as [r s''| | |]; [|done..].
  by destruct Ha as (a & [= -> _] & _).
Qed.

(** C9: The error branch of [get] is wrong: when an entry is alive for
    [clean_expire] but expired for [is_expired], [get] reads the key of the
    list node it has just erased. *)
Theorem LRU_get_use_after_free fuel p s k e :
  lrep p s → length p < fuel →
  lookup_key k (purge (clk (ticks s)) p.*2) = Some e →
  (expire_time e ≤ clk (S (ticks s)))%Z →
  get clk fuel k s = Undef.
Proof.
  intros Hp Hf Hk He.
  assert (holds (ticks s, p.*2) s s) as Ha by (split; [done|split; [by exists p|done]]).
  apply (get_refines clk fuel _ _ _ k) in Ha; [|simpl; by rewrite length_fmap].
  simpl in Ha. rewrite Hk, bool_decide_eq_true_2 in Ha by done.
  unfold refines, wpu in Ha. by destruct (get clk fuel k s) as [? ?| | |]; [naive_solver|..].
Qed.

Lemma purge_live t l : Forall (λ e, (t < expire_time e)%Z) l → purge t l = l.
Proof. intros Hl. apply filter_all. eapply Forall_impl; [exact Hl|]. simpl. lia. Qed.

Lemma lookup_key_None k l : Forall (λ e, key e ≠ k) l → lookup_key k l = None.
Proof. induction 1; [done|]. simpl. by rewrite bool_decide_eq_false_2. Qed.

(** Updates with new keys while nothing expires and the cache is not full. *)
Lemma lru_puts_new cap d i n a :
  (∀ i j, clk j < clk i + d)%Z → length a.2 + n < cap →
  Forall (λ e, key e < Z.of_nat i ∧ ∃ j, expire_time e = clk j + d)%Z a.2 →
  ∃ rs a', lru_ops clk cap d a ((λ i, LPut (Z.of_nat i) 0) <$> seq i n) = Some (rs, a') ∧
           length a'.2 = length a.2 + n.
Proof.
  intros Hclk. revert i a. induction n as [|n IH]; intros i [m l] Hlen Hall.
  { eexists _, _. split; [done|]. simpl. lia. }
  cbn [seq]. rewrite fmap_cons. cbn [lru_ops lru_put].
  simpl in Hlen, Hall.
  rewrite purge_live by (eapply Forall_impl; [exact Hall|]; intros e (_ & j & ->); apply Hclk).
  rewrite lookup_key_None by (eapply Forall_impl; [exact Hall|]; simpl; lia).
  rewrite bool_decide_eq_false_2 by lia. cbn [mbind option_bind].
  destruct (IH (S i) (S (S m), LN (Z.of_nat i) 0 (clk (S m) + d) :: l)) as (rs & a' & -> & Ha').
  - simpl. lia.
  - constructor; simpl; [split; [lia|by eexists]|].
    eapply Forall_impl; [exact Hall|]. intros e (? & ?). split; [simpl in *; lia|done].
  - eexists _, _. split; [done|]. simpl in *. lia.
Qed.

(** Capacities that are not positive are accepted and misbehave: with
    capacity 0 the first update reads the last element of an empty list, and
    a negative capacity, compared as a [size_t], is no bound at all. *)
Theorem LRU_bad_capacity fuel cap d n :
  (- 2 ^ 31 ≤ cap < 0)%Z → (Z.of_nat n < 2 ^ 31)%Z → n < fuel →
  (∀ i j, clk j < clk i + seconds d)%Z →
  (∀ k v, put clk fuel k v (LRUCache_ctor 0 d) = Undef) ∧
  wp (run_ops clk fuel ((λ i, LPut (Z.of_nat i) 0) <$> seq 0 n)) (LRUCache_ctor cap d)
    (λ _ s, length (cache s) = n).
Proof.
  intros Hcap Hn Hf Hclk. split.
  - intros k v. pose proof (put_refines clk fuel _ _ _ k v (ctor_holds 0 d)) as Hp.
    unfold refines, wpu in Hp. specialize (Hp ltac:(simpl; lia)). simpl in Hp.
    destruct (put _ _ _ _ _) as [? ?| | |]; [naive_solver|done..].
  - pose proof (run_ops_refines clk fuel ((λ i, LPut (Z.of_nat i) 0) <$> seq 0 n) _ _ _
                  (ctor_holds cap d)) as Hr.
    assert (cap mod 2 ^ 64 = cap + 2 ^ 64)%Z as Hmod.
    { symmetry. apply (Z.mod_unique _ _ (-1)); lia. }
    destruct (lru_puts_new (cap_of (LRUCache_ctor cap d)) (seconds d) 0 n (0, []))
      as (rs & a & Hops & Hlen); [done| |constructor|].
    { unfold cap_of. simpl. rewrite Hmod. lia. }
    simpl in Hr, Hops. rewrite Hops in Hr. rewrite length_fmap, length_seq in Hr.
    specialize (Hr ltac:(lia)). unfold refines, wpu in Hr. unfold wp.
    destruct (run_ops _ _ _ _) as [? ?| | |]; [|done..].
    destruct Hr as (a' & [= <- <-] & _ & (p & Hp & Hl) & _).
    by rewrite (lr_cache _ _ Hp), length_fmap, <-(length_fmap snd), Hl.
Qed.
End theorems.

Section main_program.
Context (clk : nat → Z).

(** What the test program does to the abstract cache. *)
Definition lru_main_ops : option (list Z * (nat * list LNode)) :=
  let put := lru_put clk 2 (seconds 2) in
  '(_, a) ← put (0, []) 1%Z 1%Z;
  '(_, a) ← put a 2%Z 2%Z;
  '(x, a) ← lru_get clk a 1%Z;
  '(_, a) ← put a 3%Z 3%Z;
  '(y, a) ← lru_get clk a 2%Z;
  '(z, a) ← lru_get clk a 1%Z;
  Some ([x; y; z], a).

Lemma lru_main_refines :
  refines (lru_main clk) (LRUCache_ctor 2 2) (LRUCache_ctor 2 2) lru_main_ops.
Proof.
  assert (∀ r a k v, lru_put clk 2 (seconds 2) a k v = Some r → length a.2 ≤ 2 → length r.2.2 ≤ 2)
    as Hput by (intros [[] a'] a k v Hr; apply lru_put_length in Hr as [_ Hr]; exact Hr).
  assert (∀ r a k, lru_get clk a k = Some r → length a.2 ≤ 2 → length r.2.2 ≤ 2)
    as Hget by (intros [z a'] a k Hr; apply lru_get_length in Hr; simpl in *; lia).
  pose proof (ctor_holds 2 2) as Ha. set (s0 := LRUCache_ctor 2 2) in *.
  assert (length (0, @nil LNode).2 ≤ 2) as Hl by (simpl; lia).
  do 2 (apply refines_bind; [apply (put_refines _ 10); [exact Ha|simpl in *; lia]|];
        clear Ha; intros [] ? ? Ho Ha; apply Hput in Ho; [clear Hl; rename Ho into Hl|exact Hl]).
  apply refines_bind; [apply (get_refines _ 10); [exact Ha|simpl in *; lia]|].
  clear Ha. intros ? ? ? Ho Ha. apply Hget in Ho; [clear Hl; rename Ho into Hl|exact Hl].
  apply refines_bind; [apply (put_refines _ 10); [exact Ha|simpl in *; lia]|].
  clear Ha. intros [] ? ? Ho Ha. apply Hput in Ho; [clear Hl; rename Ho into Hl|exact Hl].
  do 2 (apply refines_bind; [apply (get_refines _ 10); [exact Ha|simpl in *; lia]|];
        clear Ha; intros ? ? ? Ho Ha; apply Hget in Ho; [clear Hl; rename Ho into Hl|exact Hl]).
  by apply refines_ret.
Qed.

Lemma purge_expired t l : Forall (λ e, (expire_time e ≤ t)%Z) l → purge t l = [].
Proof.
  induction 1; [done|]. unfold purge in *. rewrite filter_cons_False by naive_solver. done.
Qed.

(** The test program prints 1, -1, -1 if its first nine readings of the
    clock lie within two seconds and the last one, after the sleep, is at
    least two seconds later than each of them. *)
Theorem lru_main_output :
  (∀ i j : nat, i < 9 → j < 9 → (clk j < clk i + seconds 2)%Z) →
  (∀ i : nat, i < 9 → (clk i + seconds 2 ≤ clk 9)%Z) →
  wp (lru_main clk) (LRUCache_ctor 2 2) (λ r _, r = [1; -1; -1]%Z).
Proof.
  intros Hnear Hfar. pose proof lru_main_refines as Hr.
  assert (∃ a, lru_main_ops = Some ([1; -1; -1]%Z, a)) as [a Ho].
  { unfold lru_main_ops.
    repeat (cbn [lru_get lru_put];
      rewrite ?purge_live by (repeat constructor; apply Hnear; lia);
      rewrite ?purge_expired by (repeat constructor; apply Hfar; lia);
      cbn [lookup_key key]; repeat (rewrite bool_decide_eq_false_2 by done);
      repeat (rewrite bool_decide_eq_true_2 by done); simpl;
      rewrite ?(bool_decide_eq_false_2 (_ ≤ _)%Z) by (apply Z.lt_nge, Hnear; lia);
      unfold remove_key; simpl). all: by eexists. }
  rewrite Ho in Hr. unfold refines, wpu in Hr. unfold wp.
  destruct (lru_main clk _) as [r s| | |]; [|done..]. by destruct Hr as (? & [= <- _] & _).
Qed.
End main_program.

(** ** Witnesses *)

(** A cache of capacity 2 holding one entry that expires at time 5. *)
Definition sample_cache : LRUCacheWithTTL :=
  LRU (seconds 2) 2 [1%positive] {[1%positive := LN 7 8 5]} {[7%Z := 1%positive]} 0.
Lemma sample_cache_rep : lrep [(1%positive, LN 7 8 5)] sample_cache.
Proof.
  split; [done|by apply NoDup_singleton|by apply NoDup_singleton|by repeat constructor|].
  intros k. simpl. change (ekey (1%positive, LN 7 8 5)) with 7%Z. case_bool_decide as Hk.
  - subst k. apply lookup_singleton_eq.
  - by apply lookup_singleton_ne.
Qed.

Lemma LRU_script_witness :
  length [LPut 1 5; LGet 1] < 3 ∧
  refines (run_ops (λ _, 0%Z) 3 [LPut 1 5; LGet 1]) (LRUCache_ctor 2 30) (LRUCache_ctor 2 30)
    (Some ([None; Some 5%Z], (4, [LN 1 5 (seconds 30)]))).
Proof. split; [simpl; lia|]. exact (LRU_script_spec (λ _, 0%Z) 3 2 30 [LPut 1 5; LGet 1] ltac:(simpl; lia)). Defined.

Lemma LRU_capacity_witness :
  (1 ≤ 2 < 2 ^ 31)%Z ∧
  wpu (run_ops (λ _, 0%Z) 4 [LPut 1 5; LPut 2 6; LPut 3 7]) (LRUCache_ctor 2 30) (λ _ s,
    (Z.of_nat (length (cache s)) ≤ 2)%Z ∧ NoDup (cache s) ∧
    ∀ k, is_Some (key_map s !! k) ↔
         ∃ it n, it ∈ cache s ∧ nodes s !! it = Some n ∧ key n = k) True.
Proof. split; [lia|]. refine (LRU_capacity _ 4 2 30 _ _ _); simpl; lia. Defined.

Lemma LRU_put_get_witness :
  lrep [(1%positive, LN 7 8 5)] sample_cache ∧
  wp (put (λ _, 0%Z) 5 9 4 ;; get (λ _, 0%Z) 5 9) sample_cache (λ r _, r = 4%Z).
Proof.
  split; [exact sample_cache_rep|].
  refine (LRU_put_get (λ _, 0%Z) 5 _ _ 9 4 sample_cache_rep _ _ _ _).
  - simpl. lia.
  - vm_compute. lia.
  - vm_compute. done.
  - vm_compute. done.
Defined.

Lemma LRU_get_use_after_free_witness :
  lrep [(1%positive, LN 7 8 5)] sample_cache ∧
  get (λ n, 5 * Z.of_nat n)%Z 5 7 sample_cache = Undef.
Proof.
  split; [exact sample_cache_rep|].
  refine (LRU_get_use_after_free _ 5 _ _ 7 (LN 7 8 5) sample_cache_rep _ _ _).
  - simpl. lia.
  - reflexivity.
  - vm_compute. done.
Defined.

Lemma LRU_bad_capacity_witness :
  (- 2 ^ 31 ≤ -1 < 0)%Z ∧
  (∀ k v, put (λ _, 0%Z) 101 k v (LRUCache_ctor 0 30) = Undef) ∧
  wp (run_ops (λ _, 0%Z) 101 ((λ i, LPut (Z.of_nat i) 0) <$> seq 0 100)) (LRUCache_ctor (-1) 30)
    (λ _ s, length (cache s) = 100).
Proof.
  split; [lia|]. refine (LRU_bad_capacity (λ _, 0%Z) 101 (-1) 30 100 _ _ _ _); try lia.
  intros _ _. vm_compute. done.
Defined.

Lemma lru_main_witness :
  let clk := λ n : nat, if bool_decide (n < 9) then Z.of_nat n else seconds 3 in
  (∀ i j : nat, i < 9 → j < 9 → (clk j < clk i + seconds 2)%Z) ∧
  wp (lru_main clk) (LRUCache_ctor 2 2) (λ r _, r = [1; -1; -1]%Z).
Proof.
  intros clk.
  assert (∀ i j : nat, i < 9 → j < 9 → (clk j < clk i + seconds 2)%Z) as H1.
  { intros i j Hi Hj. unfold clk, seconds. rewrite !bool_decide_eq_true_2 by done. lia. }
  split; [exact H1|]. apply (lru_main_output clk H1).
  intros i Hi. unfold clk, seconds. rewrite bool_decide_eq_true_2 by done.
  rewrite bool_decide_eq_false_2 by lia. lia.
Defined.
