(* ===== verification/ThreadPool.v ===== *)
(** * ThreadPool/Threadpool.cpp: a thread pool with a task queue

    The pool is a transition system.  Each worker thread and each client thread
    has a program counter between the points where it touches shared state; one
    step is one critical-section action of the code: taking the mutex,
    evaluating the predicate of [condition.wait], popping a task, notifying,
    joining.  [condition.wait(lock, pred)] is the loop the standard prescribes:
    test, release and sleep, reacquire, test again; spurious wake-ups are steps
    of the system.  A task is named by the call of [add_task] that made it;
    what running it yields, a value or an exception stored in its future, is
    the parameter [exec]. *)
From stdpp Require Import base gmap list strings relations.
From S2P Require Import Prelude.

(** The result of a task: a value, or the exception that it threw. *)
Abbreviation result := (Z + string)%type.

(** *** Worker threads *)
Inductive wpc :=
| WLock            (* before [unique_lock lock(queue_mutex)] *)
| WPred            (* mutex held, before the predicate of [wait] *)
| WWait            (* asleep in [wait], mutex released *)
| WWoken           (* woken up, before reacquiring the mutex *)
| WTake            (* mutex held, [wait] has returned *)
| WRun (t : nat)   (* running a task, mutex released *)
| WExit.           (* the thread function has returned *)

(** *** Client threads: a script of calls *)
Inductive op :=
| Add (t : nat)    (* [add_task] *)
| Get (t : nat)    (* [get] on the future of a task *)
| Destroy.         (* [~Threadpool] *)

Inductive cpc :=
| CReady           (* between calls *)
| CPush (t : nat)  (* in [add_task], mutex held *)
| CNotify          (* in [add_task], before [notify_one] *)
| CStop            (* in [~Threadpool], mutex held *)
| CNotifyAll       (* in [~Threadpool], before [notify_all] *)
| CJoin (i : nat)  (* in [~Threadpool], joining worker [i] *)
| CThrown          (* left by an exception *)
| CUndef.          (* used the pool after its destruction *)

Record client := Client { c_pc : cpc; c_script : list op; c_output : list Z }.

Inductive thread := Worker (i : nat) | ClientOf (j : nat).
#[global] Instance thread_eq_dec : EqDecision thread.
Proof. solve_decision. Defined.
#[global] Instance wpc_eq_dec : EqDecision wpc.
Proof. solve_decision. Defined.

(** *** The pool: the data members, the mutex with its owner, the futures *)
Record Threadpool := Pool {
  workers : list wpc;
  tasks : list nat;
  stop : bool;
  queue_mutex : option thread;
  futures : gmap nat result;
  destroyed : bool
}.

(** What happens to tasks, in order. *)
Inductive event := Pushed (t : nat) | Taken (t : nat) | Ran (t : nat) | Refused (t : nat).

Record system := Sys { pool : Threadpool; clients : list client; log : list event }.

Definition set_worker (i : nat) (w : wpc) (p : Threadpool) : Threadpool :=
  Pool (<[i := w]> (workers p)) (tasks p) (stop p) (queue_mutex p) (futures p) (destroyed p).
Definition set_mutex (m : option thread) (p : Threadpool) : Threadpool :=
  Pool (workers p) (tasks p) (stop p) m (futures p) (destroyed p).
Definition set_tasks (q : list nat) (p : Threadpool) : Threadpool :=
  Pool (workers p) q (stop p) (queue_mutex p) (futures p) (destroyed p).
Definition set_stop (p : Threadpool) : Threadpool :=
  Pool (workers p) (tasks p) true (queue_mutex p) (futures p) (destroyed p).
Definition set_future (t : nat) (r : result) (p : Threadpool) : Threadpool :=
  Pool (workers p) (tasks p) (stop p) (queue_mutex p) (<[t := r]> (futures p)) (destroyed p).
Definition set_destroyed (p : Threadpool) : Threadpool :=
  Pool (workers p) (tasks p) (stop p) (queue_mutex p) (futures p) true.

Definition is_empty {A} (l : list A) : bool := match l with [] => true | _ => false end.

Definition lock (who : thread) (p : Threadpool) : option Threadpool :=
  match queue_mutex p with None => Some (set_mutex (Some who) p) | Some _ => None end.

(** The predicate of [condition.wait]. *)
Definition wait_pred (p : Threadpool) : bool := stop p || negb (is_empty (tasks p)).

Definition Threadpool_ctor (thread_count : Z) : Threadpool :=
  Pool (replicate (Z.to_nat thread_count) WLock) [] false None ∅ false.

(** [condition.notify_one()]: one sleeping worker wakes up, if there is one. *)
Definition notify_one (choice : option nat) (p : Threadpool) : option Threadpool :=
  match choice with
  | Some i => if bool_decide (workers p !! i = Some WWait) then Some (set_worker i WWoken p) else None
  | None => if bool_decide (WWait ∈ workers p) then None else Some p
  end.
Definition wake (w : wpc) : wpc := match w with WWait => WWoken | _ => w end.
Definition notify_all (p : Threadpool) : Threadpool :=
  Pool (wake <$> workers p) (tasks p) (stop p) (queue_mutex p) (futures p) (destroyed p).

Section pool_defs.
Context (exec : nat → result).

(** The body of the worker loop; [None] when the thread cannot move. *)
Definition worker_step (i : nat) (s : system) : option system :=
  let p := pool s in
  match workers p !! i with
  | Some WLock | Some WWoken =>
      p ← lock (Worker i) p;
      Some (Sys (set_worker i WPred p) (clients s) (log s))
  | Some WPred =>
      if wait_pred p then Some (Sys (set_worker i WTake p) (clients s) (log s))
      else Some (Sys (set_mutex None (set_worker i WWait p)) (clients s) (log s))
  | Some WTake =>
      if stop p && is_empty (tasks p) then
        Some (Sys (set_mutex None (set_worker i WExit p)) (clients s) (log s))
      else
        match tasks p with
        | [] => None (* [front] of an empty queue *)
        | t :: q =>
            Some (Sys (set_mutex None (set_tasks q (set_worker i (WRun t) p)))
                      (clients s) (log s ++ [Taken t]))
        end
  | Some (WRun t) =>
      Some (Sys (set_future t (exec t) (set_worker i WLock p)) (clients s) (log s ++ [Ran t]))
  | Some WWait | Some WExit | None => None
  end.

(** A call begins by taking the mutex of the pool. *)
Definition enter (j : nat) (pc : cpc) (script : list op) (out : list Z) (p : Threadpool)
  : option (Threadpool * client) :=
  if destroyed p then Some (p, Client CUndef script out)
  else p ← lock (ClientOf j) p; Some (p, Client pc script out).

(** The part of [add_task] that holds the mutex, and what follows it. *)
Definition add_task_step (choice : option nat) (c : client) (p : Threadpool)
  : option (Threadpool * client * list event) :=
  match c_pc c with
  | CPush t =>
      if stop p then
        Some (set_mutex None p, Client CThrown (c_script c) (c_output c), [Refused t])
      else
        Some (set_mutex None (set_tasks (tasks p ++ [t]) p),
              Client CNotify (c_script c) (c_output c), [Pushed t])
  | CNotify =>
      p ← notify_one choice p;
      Some (p, Client CReady (c_script c) (c_output c), [])
  | _ => None
  end.

(** The destructor after its lock. *)
Definition destructor_step (c : client) (p : Threadpool) : option (Threadpool * client) :=
  match c_pc c with
  | CStop => Some (set_mutex None (set_stop p), Client CNotifyAll (c_script c) (c_output c))
  | CNotifyAll => Some (notify_all p, Client (CJoin 0) (c_script c) (c_output c))
  | CJoin i =>
      match workers p !! i with
      | Some WExit => Some (p, Client (CJoin (S i)) (c_script c) (c_output c))
      | Some _ => None
      | None => Some (set_destroyed p, Client CReady (c_script c) (c_output c))
      end
  | _ => None
  end.

Definition client_step (j : nat) (choice : option nat) (s : system) : option system :=
  let p := pool s in
  c ← clients s !! j;
  match c_pc c with
  | CReady =>
      match c_script c with
      | [] => None
      | Add t :: rest =>
          '(p, c) ← enter j (CPush t) rest (c_output c) p;
          Some (Sys p (<[j := c]> (clients s)) (log s))
      | Destroy :: rest =>
          '(p, c) ← enter j CStop rest (c_output c) p;
          Some (Sys p (<[j := c]> (clients s)) (log s))
      | Get t :: rest =>
          match futures p !! t with
          | Some (inl v) =>
              Some (Sys p (<[j := Client CReady rest (c_output c ++ [v])]> (clients s)) (log s))
          | Some (inr _) =>
              Some (Sys p (<[j := Client CThrown rest (c_output c)]> (clients s)) (log s))
          | None => None
          end
      end
  | CPush _ | CNotify =>
      '(p, c, evs) ← add_task_step choice c p;
      Some (Sys p (<[j := c]> (clients s)) (log s ++ evs))
  | CStop | CNotifyAll | CJoin _ =>
      '(p, c) ← destructor_step c p;
      Some (Sys p (<[j := c]> (clients s)) (log s))
  | CThrown | CUndef => None
  end.

(** *** Runs *)
Inductive action := AWorker (i : nat) | AClient (j : nat) (choice : option nat).

Definition act (a : action) (s : system) : option system :=
  match a with
  | AWorker i => worker_step i s
  | AClient j choice => client_step j choice s
  end.

(** One step of the program, without the spurious wake-ups. *)
Inductive internal (s : system) : system → Prop :=
| internal_act a s' : act a s = Some s' → internal s s'.

Inductive step (s : system) : system → Prop :=
| step_internal s' : internal s s' → step s s'
| step_spurious i :
    workers (pool s) !! i = Some WWait →
    step s (Sys (set_worker i WWoken (pool s)) (clients s) (log s)).

Definition reachable (s0 s : system) : Prop := rtc step s0 s.

(** No thread can move on its own. *)
Definition blocked (s : system) : Prop := ∀ s', ¬ internal s s'.

(** Run a schedule. *)
Fixpoint run (l : list action) (s : system) : option system :=
  match l with
  | [] => Some s
  | a :: l' => s ← act a s; run l' s
  end.

(** A new pool and its clients. *)
Definition start (thread_count : Z) (scripts : list (list op)) : system :=
  Sys (Threadpool_ctor thread_count) ((λ sc, Client CReady sc []) <$> scripts) [].
End pool_defs.

(** *** main: eight tasks, then their results in order, then the destructor *)
Definition main_exec (i : nat) : result := inl (Z.of_nat i * Z.of_nat i)%Z.
Definition main_script : list op := (Add <$> seq 0 8) ++ (Get <$> seq 0 8) ++ [Destroy].
Definition main_start : system := start 4 [main_script].
