(* ===== verification/ThreadPoolInv.v ===== *)
(** * Threadpool.cpp: the invariants of the pool

    [move] lists the steps of the system with the state each leads to; the
    invariants are proved over it, in three groups: who owns the mutex, where
    the tasks are, and why no wake-up is lost. *)
From stdpp Require Import base gmap list strings relations.
From S2P Require Import Prelude ThreadPool.

(** ** The history of tasks *)
Definition pushed (l : list event) : list nat := omap (λ e, match e with Pushed t => Some t | _ => None end) l.
Definition taken (l : list event) : list nat := omap (λ e, match e with Taken t => Some t | _ => None end) l.
Definition ran (l : list event) : list nat := omap (λ e, match e with Ran t => Some t | _ => None end) l.
(** The task a worker is running. *)
Definition run_of (w : wpc) : list nat := match w with WRun t => [t] | _ => [] end.
Definition running (ws : list wpc) : list nat := ws ≫= run_of.

Lemma pushed_app l k : pushed (l ++ k) = pushed l ++ pushed k.
Proof. apply omap_app. Qed.
Lemma taken_app l k : taken (l ++ k) = taken l ++ taken k.
Proof. apply omap_app. Qed.
Lemma ran_app l k : ran (l ++ k) = ran l ++ ran k.
Proof. apply omap_app. Qed.

Lemma running_insert ws i w w' :
  ws !! i = Some w → run_of w ++ running (<[i := w']> ws) ≡ₚ run_of w' ++ running ws.
Proof.
  intros Hi. rewrite (insert_take_drop ws i w') by (by eapply lookup_lt_Some).
  rewrite <-(take_drop_middle ws i w Hi) at 3. unfold running.
  rewrite !bind_app, !bind_cons. solve_Permutation.
Qed.

Lemma running_insert_same ws i w w' :
  ws !! i = Some w → run_of w = [] → run_of w' = [] → running (<[i := w']> ws) ≡ₚ running ws.
Proof. intros Hi H1 H2. pose proof (running_insert ws i w w' Hi). by rewrite H1, H2 in *. Qed.

Lemma running_wake ws : running (wake <$> ws) = running ws.
Proof. induction ws as [|[] ws IH]; unfold running in *; csimpl; by rewrite ?IH. Qed.

Section moves.
Context (exec : nat → result).

(** ** The steps, with the state each leads to; spurious wake-ups are marked *)
Inductive move (s : system) : bool → system → Prop :=
| m_lock i w :
    workers (pool s) !! i = Some w → w = WLock ∨ w = WWoken → queue_mutex (pool s) = None →
    move s false (Sys (set_worker i WPred (set_mutex (Some (Worker i)) (pool s))) (clients s) (log s))
| m_pred i :
    workers (pool s) !! i = Some WPred → wait_pred (pool s) = true →
    move s false (Sys (set_worker i WTake (pool s)) (clients s) (log s))
| m_sleep i :
    workers (pool s) !! i = Some WPred → wait_pred (pool s) = false →
    move s false (Sys (set_mutex None (set_worker i WWait (pool s))) (clients s) (log s))
| m_exit i :
    workers (pool s) !! i = Some WTake → stop (pool s) = true → tasks (pool s) = [] →
    move s false (Sys (set_mutex None (set_worker i WExit (pool s))) (clients s) (log s))
| m_take i t q :
    workers (pool s) !! i = Some WTake → tasks (pool s) = t :: q →
    move s false (Sys (set_mutex None (set_tasks q (set_worker i (WRun t) (pool s))))
                (clients s) (log s ++ [Taken t]))
| m_ran i t :
    workers (pool s) !! i = Some (WRun t) →
    move s false (Sys (set_future t (exec t) (set_worker i WLock (pool s))) (clients s) (log s ++ [Ran t]))
| m_wake i :
    workers (pool s) !! i = Some WWait →
    move s true (Sys (set_worker i WWoken (pool s)) (clients s) (log s))
| m_enter j c pc rest o :
    clients s !! j = Some c → c_pc c = CReady → c_script c = o :: rest →
    (∃ t, o = Add t ∧ pc = CPush t) ∨ (o = Destroy ∧ pc = CStop) →
    queue_mutex (pool s) = None → destroyed (pool s) = false →
    move s false (Sys (set_mutex (Some (ClientOf j)) (pool s))
                (<[j := Client pc rest (c_output c)]> (clients s)) (log s))
| m_undef j c rest o :
    clients s !! j = Some c → c_pc c = CReady → c_script c = o :: rest →
    (∃ t, o = Add t) ∨ o = Destroy → destroyed (pool s) = true →
    move s false (Sys (pool s) (<[j := Client CUndef rest (c_output c)]> (clients s)) (log s))
| m_refuse j c t :
    clients s !! j = Some c → c_pc c = CPush t → stop (pool s) = true →
    move s false (Sys (set_mutex None (pool s))
                (<[j := Client CThrown (c_script c) (c_output c)]> (clients s)) (log s ++ [Refused t]))
| m_push j c t :
    clients s !! j = Some c → c_pc c = CPush t → stop (pool s) = false →
    move s false (Sys (set_mutex None (set_tasks (tasks (pool s) ++ [t]) (pool s)))
                (<[j := Client CNotify (c_script c) (c_output c)]> (clients s)) (log s ++ [Pushed t]))
| m_notify j c i :
    clients s !! j = Some c → c_pc c = CNotify → workers (pool s) !! i = Some WWait →
    move s false (Sys (set_worker i WWoken (pool s))
                (<[j := Client CReady (c_script c) (c_output c)]> (clients s)) (log s ++ []))
| m_notify_none j c :
    clients s !! j = Some c → c_pc c = CNotify → WWait ∉ workers (pool s) →
    move s false (Sys (pool s) (<[j := Client CReady (c_script c) (c_output c)]> (clients s)) (log s ++ []))
| m_stop j c :
    clients s !! j = Some c → c_pc c = CStop →
    move s false (Sys (set_mutex None (set_stop (pool s)))
                (<[j := Client CNotifyAll (c_script c) (c_output c)]> (clients s)) (log s))
| m_notify_all j c :
    clients s !! j = Some c → c_pc c = CNotifyAll →
    move s false (Sys (notify_all (pool s))
                (<[j := Client (CJoin 0) (c_script c) (c_output c)]> (clients s)) (log s))
| m_join j c i :
    clients s !! j = Some c → c_pc c = CJoin i → workers (pool s) !! i = Some WExit →
    move s false (Sys (pool s) (<[j := Client (CJoin (S i)) (c_script c) (c_output c)]> (clients s)) (log s))
| m_destroyed j c i :
    clients s !! j = Some c → c_pc c = CJoin i → workers (pool s) !! i = None →
    move s false (Sys (set_destroyed (pool s))
                (<[j := Client CReady (c_script c) (c_output c)]> (clients s)) (log s))
| m_get j c t rest r :
    clients s !! j = Some c → c_pc c = CReady → c_script c = Get t :: rest →
    futures (pool s) !! t = Some r →
    move s false (Sys (pool s)
                (<[j := match r with
                        | inl v => Client CReady rest (c_output c ++ [v])
                        | inr _ => Client CThrown rest (c_output c)
                        end]> (clients s)) (log s)).

Lemma lock_Some who p p' : lock who p = Some p' → queue_mutex p = None ∧ p' = set_mutex (Some who) p.
Proof. unfold lock. destruct (queue_mutex p); naive_solver. Qed.

Lemma enter_Some j pc script out p p' c :
  enter j pc script out p = Some (p', c) →
  (destroyed p = true ∧ p' = p ∧ c = Client CUndef script out) ∨
  (destroyed p = false ∧ queue_mutex p = None ∧ p' = set_mutex (Some (ClientOf j)) p ∧
   c = Client pc script out).
Proof.
  unfold enter. destruct (destroyed p); [naive_solver|].
  intros (p1 & [-> ->]%lock_Some & [= <- <-])%bind_Some. naive_solver.
Qed.

Lemma worker_moves i s s' : worker_step exec i s = Some s' → move s false s'.
Proof.
  unfold worker_step. destruct (workers (pool s) !! i) as [w|] eqn:Hw; [|done]. destruct w; [..|done].
  - intros (p & [? ->]%lock_Some & [= <-])%bind_Some. eapply m_lock; eauto.
  - destruct (wait_pred _) eqn:Hp; intros [= <-]; eauto using move.
  - done.
  - intros (p & [? ->]%lock_Some & [= <-])%bind_Some. eapply m_lock; eauto.
  - destruct (stop (pool s) && is_empty (tasks (pool s))) eqn:Hp.
    + apply andb_true_iff in Hp as [? Hq]. intros [= <-]. apply m_exit; [done..|].
      by destruct (tasks (pool s)).
    + destruct (tasks (pool s)) eqn:Hq; [done|]. intros [= <-]. by apply m_take.
  - intros [= <-]. by apply m_ran.
Qed.

Lemma client_moves j ch s s' : client_step j ch s = Some s' → move s false s'.
Proof.
  unfold client_step. intros (c & Hc & Hs)%bind_Some. destruct (c_pc c) eqn:Hpc; [..|done|done].
  - destruct (c_script c) as [|[t|t|] rest] eqn:Hsc; [done|..].
    + apply bind_Some in Hs as ([p c'] & Hen & [= <-]).
      apply enter_Some in Hen as [(? & -> & ->)|(? & ? & -> & ->)]; eauto using move.
    + destruct (futures (pool s) !! t) as [[v|e]|] eqn:Hf; [| |done]; injection Hs as <-;
        exact (m_get s j c t rest _ Hc Hpc Hsc Hf).
    + apply bind_Some in Hs as ([p c'] & Hen & [= <-]).
      apply enter_Some in Hen as [(? & -> & ->)|(? & ? & -> & ->)]; [by eapply m_undef; eauto|].
      eapply m_enter; eauto.
  - unfold add_task_step in Hs. rewrite Hpc in Hs.
    destruct (stop (pool s)) eqn:Hst; injection Hs as <-; eauto using move.
  - unfold add_task_step in Hs. rewrite Hpc in Hs.
    apply bind_Some in Hs as ([[p c'] evs] & Hn & [= <-]).
    apply bind_Some in Hn as (p' & Hn & [= <- <- <-]). unfold notify_one in Hn.
    destruct ch; case_bool_decide; simplify_eq; eauto using move.
  - unfold destructor_step in Hs. rewrite Hpc in Hs. injection Hs as <-. eauto using move.
  - unfold destructor_step in Hs. rewrite Hpc in Hs. injection Hs as <-. eauto using move.
  - unfold destructor_step in Hs. rewrite Hpc in Hs.
    destruct (workers (pool s) !! i) as [[]|] eqn:Hw; simplify_eq/=; eauto using move.
Qed.

Lemma internal_moves s s' : internal exec s s' → move s false s'.
Proof. intros [[i|j ch] s2 Ha]; [by eapply worker_moves|by eapply client_moves]. Qed.

Lemma step_moves s s' : step exec s s' → ∃ b, move s b s'.
Proof. intros [s1 Hs|i Hi]; [exists false; by apply internal_moves|exists true; by apply m_wake]. Qed.
End moves.

(** ** Who owns the mutex *)
Definition w_holds (w : wpc) : bool := match w with WPred | WTake => true | _ => false end.
Definition c_holds (pc : cpc) : bool := match pc with CPush _ | CStop => true | _ => false end.

Definition holds (who : thread) (ws : list wpc) (cs : list client) : Prop :=
  match who with
  | Worker i => ∃ w, ws !! i = Some w ∧ w_holds w = true
  | ClientOf j => ∃ c, cs !! j = Some c ∧ c_holds (c_pc c) = true
  end.

(** The owner of the mutex is the one thread inside a critical section. *)
Definition inv_mutex (m : option thread) (ws : list wpc) (cs : list client) : Prop :=
  ∀ who, m = Some who ↔ holds who ws cs.

Section mutex.
Implicit Types (ws : list wpc) (cs : list client) (who : thread).

Lemma holds_worker_same ws cs i w w' who :
  ws !! i = Some w → w_holds w' = w_holds w → holds who (<[i := w']> ws) cs ↔ holds who ws cs.
Proof.
  intros Hi Hw. destruct who as [k|k]; [|done]. simpl.
  destruct (decide (i = k)) as [<-|Hne]; [|by rewrite list_lookup_insert_ne].
  rewrite list_lookup_insert_eq by (by eapply lookup_lt_Some). rewrite Hi. naive_solver congruence.
Qed.

Lemma holds_client_same ws cs j c c' who :
  cs !! j = Some c → c_holds (c_pc c') = c_holds (c_pc c) →
  holds who ws (<[j := c']> cs) ↔ holds who ws cs.
Proof.
  intros Hj Hc. destruct who as [k|k]; [done|]. simpl.
  destruct (decide (j = k)) as [<-|Hne]; [|by rewrite list_lookup_insert_ne].
  rewrite list_lookup_insert_eq by (by eapply lookup_lt_Some). rewrite Hj. naive_solver congruence.
Qed.

Lemma holds_worker_other ws cs i w' who :
  who ≠ Worker i → holds who (<[i := w']> ws) cs ↔ holds who ws cs.
Proof. destruct who as [k|k]; [|done]. simpl. intros ?. rewrite list_lookup_insert_ne; naive_solver. Qed.

Lemma holds_client_other ws cs j c' who :
  who ≠ ClientOf j → holds who ws (<[j := c']> cs) ↔ holds who ws cs.
Proof. destruct who as [k|k]; [done|]. simpl. intros ?. rewrite list_lookup_insert_ne; naive_solver. Qed.

Lemma holds_worker_at ws cs i w w' :
  ws !! i = Some w → holds (Worker i) (<[i := w']> ws) cs ↔ w_holds w' = true.
Proof.
  intros Hi. simpl. rewrite list_lookup_insert_eq by (by eapply lookup_lt_Some). naive_solver.
Qed.

Lemma holds_client_at ws cs j c c' :
  cs !! j = Some c → holds (ClientOf j) ws (<[j := c']> cs) ↔ c_holds (c_pc c') = true.
Proof.
  intros Hi. simpl. rewrite list_lookup_insert_eq by (by eapply lookup_lt_Some). naive_solver.
Qed.

Lemma holds_wake ws cs who : holds who (wake <$> ws) cs ↔ holds who ws cs.
Proof.
  destruct who as [i|j]; [|done]. simpl. rewrite list_lookup_fmap.
  destruct (ws !! i) as [[]|]; simpl; naive_solver.
Qed.

Lemma mutex_same m ws cs ws' cs' :
  inv_mutex m ws cs → (∀ who, holds who ws' cs' ↔ holds who ws cs) → inv_mutex m ws' cs'.
Proof. intros Hm Hh who. by rewrite Hh. Qed.

Lemma mutex_acquire who ws cs ws' cs' :
  inv_mutex None ws cs → (∀ who', who' ≠ who → holds who' ws' cs' ↔ holds who' ws cs) →
  holds who ws' cs' → inv_mutex (Some who) ws' cs'.
Proof.
  intros Hm Hh Hwho who'. split; [by intros [= <-]|].
  destruct (decide (who' = who)) as [->|Hne]; [done|]. rewrite Hh by done.
  intros Hw. by apply Hm in Hw.
Qed.

Lemma mutex_release who m ws cs ws' cs' :
  inv_mutex m ws cs → holds who ws cs →
  (∀ who', who' ≠ who → holds who' ws' cs' ↔ holds who' ws cs) →
  ¬ holds who ws' cs' → inv_mutex None ws' cs'.
Proof.
  intros Hm Hwho Hh Hno who'. split; [done|].
  destruct (decide (who' = who)) as [->|Hne]; [done|]. rewrite Hh by done.
  intros Hw. apply Hm in Hw. apply Hm in Hwho. congruence.
Qed.

Lemma mutex_release_worker m ws cs i w w' :
  inv_mutex m ws cs → ws !! i = Some w → w_holds w = true → w_holds w' = false →
  inv_mutex None (<[i := w']> ws) cs.
Proof.
  intros Hm Hi Hw Hw'. eapply (mutex_release (Worker i)); [done|by exists w| |].
  - intros who' ?. by apply holds_worker_other.
  - rewrite holds_worker_at by done. by rewrite Hw'.
Qed.

Lemma mutex_release_client m ws cs j c c' :
  inv_mutex m ws cs → cs !! j = Some c → c_holds (c_pc c) = true → c_holds (c_pc c') = false →
  inv_mutex None ws (<[j := c']> cs).
Proof.
  intros Hm Hi Hw Hw'. eapply (mutex_release (ClientOf j)); [done|by exists c| |].
  - intros who' ?. by apply holds_client_other.
  - rewrite holds_client_at by done. by rewrite Hw'.
Qed.

Lemma mutex_client_same m ws cs j c c' :
  inv_mutex m ws cs → cs !! j = Some c → c_holds (c_pc c) = false → c_holds (c_pc c') = false →
  inv_mutex m ws (<[j := c']> cs).
Proof.
  intros Hm Hi Hw Hw'. eapply mutex_same; [done|]. intros who.
  eapply holds_client_same; [done|]. by rewrite Hw, Hw'.
Qed.

Lemma mutex_worker_same m ws cs i w w' :
  inv_mutex m ws cs → ws !! i = Some w → w_holds w' = w_holds w →
  inv_mutex m (<[i := w']> ws) cs.
Proof. intros Hm Hi Hw. eapply mutex_same; [done|]. intros who. by eapply holds_worker_same. Qed.

Abbreviation mutex_ok s := (inv_mutex (queue_mutex (pool s)) (workers (pool s)) (clients s)).

Lemma mutex_preserved exec s b s' : mutex_ok s → move exec s b s' → mutex_ok s'.
Proof.
  intros Hm []; simpl;
    repeat match goal with
    | H : c_pc _ = _ |- _ => apply (f_equal c_holds) in H as ?; simpl in *; revert H
    end; intros;
    try (by eapply mutex_release_worker; [exact Hm|done..]);
    try (by eapply mutex_release_client; [exact Hm|done..]);
    try (by eapply mutex_worker_same; [exact Hm|done..]);
    try (by eapply mutex_client_same; [exact Hm|done..]).
  - rewrite H1 in Hm. eapply mutex_acquire; [exact Hm| |].
    + intros who' ?. by apply holds_worker_other.
    + by rewrite holds_worker_at.
  - rewrite H3 in Hm. eapply mutex_acquire; [exact Hm| |].
    + intros who' ?. by apply holds_client_other.
    + rewrite holds_client_at by done. naive_solver.
  - eapply mutex_client_same; [|done..]. by eapply mutex_worker_same.
  - eapply mutex_client_same; [|done..]. eapply mutex_same; [exact Hm|]. intros who. apply holds_wake.
  - eapply mutex_client_same; [exact Hm|done|done|]. by destruct r.
Qed.
End mutex.

(** ** Where the tasks are *)
Record inv_tasks (exec : nat → result) (s : system) : Prop := {
  (* the queue is what was pushed and not yet taken, in order *)
  it_fifo : pushed (log s) = taken (log s) ++ tasks (pool s);
  (* a task taken is running in one worker or has been run *)
  it_run : taken (log s) ≡ₚ ran (log s) ++ running (workers (pool s));
  (* the future of a task that was run has its result *)
  it_fut : ∀ t, t ∈ ran (log s) → futures (pool s) !! t = Some (exec t)
}.

Section tasks.
Context (exec : nat → result).

(** A step that neither logs nor touches queue, futures and running tasks. *)
Lemma tasks_quiet s s' :
  inv_tasks exec s → log s' = log s → tasks (pool s') = tasks (pool s) →
  futures (pool s') = futures (pool s) →
  running (workers (pool s')) ≡ₚ running (workers (pool s)) → inv_tasks exec s'.
Proof. intros [Hq Hr Hf] El Et Ef Ew. split; rewrite ?El, ?Et, ?Ef; [done|by rewrite Ew|done]. Qed.

Lemma tasks_preserved s b s' : inv_tasks exec s → move exec s b s' → inv_tasks exec s'.
Proof.
  intros Hs Hm. destruct Hm; try (eapply tasks_quiet; [exact Hs|rewrite ?app_nil_r; done..|]; simpl;
    try done; by eapply running_insert_same; [done|naive_solver|done]).
  - destruct Hs as [Hq Hr Hf]. split; simpl; rewrite ?pushed_app, ?taken_app, ?ran_app, ?app_nil_r.
    + by rewrite Hq, H0, <-app_assoc.
    + pose proof (running_insert _ _ _ (WRun t) H) as Hrun. simpl in Hrun.
      rewrite Hrun, Hr. solve_Permutation.
    + done.
  - destruct Hs as [Hq Hr Hf]. split; simpl; rewrite ?pushed_app, ?taken_app, ?ran_app, ?app_nil_r.
    + done.
    + pose proof (running_insert _ _ _ WLock H) as Hrun. simpl in Hrun.
      rewrite Hr, <-Hrun. solve_Permutation.
    + intros t' Ht'. destruct (decide (t = t')) as [<-|]; [by rewrite lookup_insert_eq|].
      rewrite lookup_insert_ne by done. apply Hf. set_solver.
  - destruct Hs as [Hq Hr Hf]. split; simpl; rewrite ?pushed_app, ?taken_app, ?ran_app, ?app_nil_r; done.
  - destruct Hs as [Hq Hr Hf]. split; simpl; rewrite ?pushed_app, ?taken_app, ?ran_app, ?app_nil_r; [|done..].
    by rewrite Hq, <-app_assoc.
  - eapply tasks_quiet; [exact Hs|done..|]. simpl. by rewrite running_wake.
Qed.
End tasks.

(** ** No wake-up is lost *)
Definition active (w : wpc) : bool := match w with WWait | WExit => false | _ => true end.

Definition some_worker (P : wpc → Prop) (ws : list wpc) : Prop := ∃ i w, ws !! i = Some w ∧ P w.
Definition some_client (P : cpc → Prop) (cs : list client) : Prop :=
  ∃ j c, cs !! j = Some c ∧ P (c_pc c).

(** How far the destructor has come. *)
Definition down (pc : cpc) (p : Threadpool) : Prop :=
  match pc with
  | CNotifyAll => stop p = true
  | CJoin i => stop p = true ∧ ∀ k, k < i → workers p !! k = Some WExit
  | _ => True
  end.

Record inv_live (s : system) : Prop := {
  (* what [wait] has tested holds until the mutex is released *)
  il_take : ∀ i, workers (pool s) !! i = Some WTake → wait_pred (pool s) = true;
  (* a worker leaves when the pool is stopped and the queue is empty *)
  il_exit : ∀ i, workers (pool s) !! i = Some WExit → stop (pool s) = true ∧ tasks (pool s) = [];
  (* for queued tasks some worker is up, or about to be woken *)
  il_wake : workers (pool s) ≠ [] → tasks (pool s) ≠ [] →
    some_worker active (workers (pool s)) ∨ some_client (eq CNotify) (clients s);
  (* no worker sleeps in a stopped pool, or all are about to be woken *)
  il_stop : stop (pool s) = true →
    (∀ i, workers (pool s) !! i ≠ Some WWait) ∨ some_client (eq CNotifyAll) (clients s);
  il_down : ∀ j c, clients s !! j = Some c → down (c_pc c) (pool s);
  il_destroyed : destroyed (pool s) = true →
    stop (pool s) = true ∧ ∀ i w, workers (pool s) !! i = Some w → w = WExit
}.

Section live.
Implicit Types (ws : list wpc) (cs : list client).

Lemma some_worker_insert (P : wpc → Prop) ws i w w' :
  ws !! i = Some w → (P w → P w') → some_worker P ws → some_worker P (<[i := w']> ws).
Proof.
  intros Hi Hw (k & v & Hk & Hv). destruct (decide (k = i)) as [->|Hne].
  - exists i, w'. rewrite list_lookup_insert_eq by (by eapply lookup_lt_Some).
    split; [done|]. apply Hw. congruence.
  - exists k, v. by rewrite list_lookup_insert_ne.
Qed.

Lemma some_worker_new (P : wpc → Prop) ws i w w' :
  ws !! i = Some w → P w' → some_worker P (<[i := w']> ws).
Proof.
  intros Hi Hw. exists i, w'. by rewrite list_lookup_insert_eq by (by eapply lookup_lt_Some).
Qed.

Lemma some_client_insert (P : cpc → Prop) cs j c c' :
  cs !! j = Some c → (P (c_pc c) → P (c_pc c')) → some_client P cs → some_client P (<[j := c']> cs).
Proof.
  intros Hi Hw (k & v & Hk & Hv). destruct (decide (k = j)) as [->|Hne].
  - exists j, c'. rewrite list_lookup_insert_eq by (by eapply lookup_lt_Some).
    split; [done|]. apply Hw. congruence.
  - exists k, v. by rewrite list_lookup_insert_ne.
Qed.

Lemma some_client_new (P : cpc → Prop) cs j c c' :
  cs !! j = Some c → P (c_pc c') → some_client P (<[j := c']> cs).
Proof.
  intros Hi Hw. exists j, c'. by rewrite list_lookup_insert_eq by (by eapply lookup_lt_Some).
Qed.

(** A lookup in an updated list is the new element or an old one. *)
Lemma insert_cases {A} (l : list A) i x k y :
  <[i := x]> l !! k = Some y → (k = i ∧ y = x) ∨ (k ≠ i ∧ l !! k = Some y).
Proof. intros [(-> & -> & _)|[? ?]]%list_lookup_insert_Some; [by left|by right]. Qed.

Lemma insert_nonempty {A} (l : list A) i x : <[i := x]> l ≠ [] → l ≠ [].
Proof. by destruct l, i. Qed.

Lemma down_insert pc p i w w' :
  workers p !! i = Some w → w ≠ WExit → down pc p → down pc (set_worker i w' p).
Proof.
  destruct pc; try done. simpl. intros Hi Hw [Hst Hk]. split; [done|]. intros k Hlt.
  rewrite list_lookup_insert_ne; [auto|]. intros ->. apply Hk in Hlt. congruence.
Qed.
End live.

Section live_steps.
Context (exec : nat → result).
Abbreviation mutex_ok s := (inv_mutex (queue_mutex (pool s)) (workers (pool s)) (clients s)).

(** Split a lookup in what a step has updated. *)
Ltac worker_cases H :=
  simpl in H;
  first [ apply insert_cases in H as [[-> H]|[? H]]
        | rewrite list_lookup_fmap in H; apply fmap_Some in H as (? & H & ?)
        | idtac ].

Lemma wait_pred_spec p : wait_pred p = true ↔ stop p = true ∨ tasks p ≠ [].
Proof. unfold wait_pred. destruct (stop p), (tasks p); simpl; naive_solver. Qed.

Lemma live_take s b s' :
  mutex_ok s → inv_live s → move exec s b s' →
  ∀ i, workers (pool s') !! i = Some WTake → wait_pred (pool s') = true.
Proof.
  intros Hm [Hl _ _ _ _ _] Hs k Hk. setoid_rewrite wait_pred_spec in Hl.
  destruct Hs; worker_cases Hk; try done; rewrite wait_pred_spec; simpl; try (by eauto).
  - exfalso. assert (Worker i = Worker k); [|congruence].
    assert (queue_mutex (pool s) = Some (Worker i)) as Hi by (apply Hm; by exists WTake).
    assert (queue_mutex (pool s) = Some (Worker k)) by (apply Hm; by exists WTake). congruence.
  - right. by intros []%app_eq_nil.
  - destruct x; simplify_eq/=. eauto.
Qed.

Lemma live_exit s b s' :
  inv_live s → move exec s b s' →
  ∀ i, workers (pool s') !! i = Some WExit → stop (pool s') = true ∧ tasks (pool s') = [].
Proof.
  intros [_ Hl _ _ _ _] Hs k Hk.
  destruct Hs; worker_cases Hk; try done; simpl; try (by eauto).
  - apply Hl in Hk as [? ?]. congruence.
  - apply Hl in Hk as [? ?]. congruence.
  - split; [done|]. by apply Hl in Hk as [? ?].
  - destruct x; simplify_eq/=. eauto.
Qed.

Lemma live_wake s b s' :
  inv_live s → move exec s b s' →
  workers (pool s') ≠ [] → tasks (pool s') ≠ [] →
  some_worker active (workers (pool s')) ∨ some_client (eq CNotify) (clients s').
Proof.
  intros [_ Hex Hl _ _ _] Hs Hne Ht.
  destruct Hs; simpl in Hne, Ht |- *; try apply insert_nonempty in Hne;
    try (left; by eapply some_worker_new);
    try (by right; eapply some_client_new);
    try (specialize (Hl Hne Ht) as [Hw|Hc]; [by left|right];
         eapply some_client_insert; [done| |exact Hc]; simpl; naive_solver congruence).
  - assert (wait_pred (pool s) = true) by (apply wait_pred_spec; auto). congruence.
  - left. destruct (workers (pool s)) as [|w ws] eqn:Hws; [done|].
    exists 0, w. split; [done|]. destruct w; try done; [set_solver|].
    by destruct (Hex 0 eq_refl).
  - destruct Hl as [(i & w & Hi & Hw)|Hc]; [by intros Hn; rewrite Hn in Hne|done|left|right].
    + exists i, (wake w). rewrite list_lookup_fmap, Hi. split; [done|]. by destruct w.
    + eapply some_client_insert; [done| |exact Hc]. simpl. naive_solver congruence.
Qed.

Lemma live_stop s b s' :
  inv_live s → move exec s b s' → stop (pool s') = true →
  (∀ i, workers (pool s') !! i ≠ Some WWait) ∨ some_client (eq CNotifyAll) (clients s').
Proof.
  intros [_ _ _ Hl _ _] Hs Hst.
  destruct Hs; simpl in Hst |- *;
    try (by right; eapply some_client_new);
    try (specialize (Hl Hst) as [Hw|Hc]; [left|right];
         [by intros k [[_ ?]|[? ?%Hw]]%insert_cases
         |first [done|eapply some_client_insert; [done| |exact Hc]; simpl; naive_solver congruence]]);
    try (specialize (Hl Hst) as [Hw|Hc]; [by left|right];
         eapply some_client_insert; [done| |exact Hc]; simpl; naive_solver congruence).
  - assert (wait_pred (pool s) = true) by (apply wait_pred_spec; auto). congruence.
  - left. intros k. rewrite list_lookup_fmap. destruct (workers (pool s) !! k) as [[]|]; done.
Qed.

Lemma down_mono pc p p' :
  down pc p → (stop p = true → stop p' = true) →
  (∀ k, workers p !! k = Some WExit → workers p' !! k = Some WExit) → down pc p'.
Proof. destruct pc; simpl; naive_solver. Qed.

(** A step keeps the flag and the workers that have left. *)
Lemma move_keeps_stop s b s' : move exec s b s' → stop (pool s) = true → stop (pool s') = true.
Proof. by destruct 1. Qed.

Lemma move_keeps_exit s b s' k :
  move exec s b s' → workers (pool s) !! k = Some WExit → workers (pool s') !! k = Some WExit.
Proof.
  intros Hs Hk.
  destruct Hs; simpl; try done;
    try (rewrite list_lookup_insert_ne; [done|intros ->; naive_solver congruence]).
  by rewrite list_lookup_fmap, Hk.
Qed.

Lemma live_down s b s' :
  inv_live s → move exec s b s' →
  ∀ j c, clients s' !! j = Some c → down (c_pc c) (pool s').
Proof.
  intros [_ _ _ _ Hl _] Hs k c' Hk.
  assert (clients s !! k = Some c' → down (c_pc c') (pool s')) as Hold.
  { intros Hc. apply Hl in Hc. eapply down_mono; [done|by eapply move_keeps_stop|].
    intros i. by eapply move_keeps_exit. }
  destruct Hs; simpl in Hk; try (by apply Hold);
    apply insert_cases in Hk as [[-> ->]|[_ Hk]]; try (by apply Hold); simpl; try done.
  - naive_solver.
  - apply Hl in H. rewrite H0 in H. split; [done|lia].
  - apply Hl in H. rewrite H0 in H. destruct H as [? Hlt]. split; [done|]. intros k' Hk'.
    destruct (decide (k' = i)) as [->|]; [done|]. apply Hlt. lia.
  - by destruct r.
Qed.

Lemma live_destroyed s b s' :
  inv_live s → move exec s b s' → destroyed (pool s') = true →
  stop (pool s') = true ∧ ∀ i w, workers (pool s') !! i = Some w → w = WExit.
Proof.
  intros [_ _ _ _ Hd Hl] Hs Hdes.
  assert (destroyed (pool s) = true → stop (pool s') = true ∧
            ∀ i w, workers (pool s') !! i = Some w → w = WExit) as Hold.
  { intros Hs0. destruct (Hl Hs0) as [Hst Hall].
    split; [by eapply move_keeps_stop|]. intros i w Hw.
    assert (is_Some (workers (pool s) !! i)) as [w0 Hw0].
    { apply lookup_lt_is_Some. apply lookup_lt_Some in Hw.
      destruct Hs; simpl in Hw; by rewrite ?length_insert, ?length_fmap in Hw. }
    assert (w0 = WExit) as -> by (by eapply Hall).
    apply (move_keeps_exit _ _ _ _ Hs) in Hw0. congruence. }
  destruct Hs; try (by apply Hold). simpl.
  apply Hd in H. rewrite H0 in H. destruct H as [? Hlt]. split; [done|]. intros k w Hk.
  assert (k < i) as Hki; [|apply Hlt in Hki; congruence].
  apply lookup_lt_Some in Hk. apply lookup_ge_None in H1. lia.
Qed.

Lemma live_preserved s b s' : mutex_ok s → inv_live s → move exec s b s' → inv_live s'.
Proof.
  intros Hm Hl Hs. split.
  - by eapply live_take.
  - by eapply live_exit.
  - by eapply live_wake.
  - by eapply live_stop.
  - by eapply live_down.
  - by eapply live_destroyed.
Qed.
End live_steps.

(** ** What the clients are waiting for *)

(** Every [Get] in a script is on a future the client has: of a call of its
    own, earlier in the script or already accepted. *)
Fixpoint script_ok (have : list nat) (sc : list op) : Prop :=
  match sc with
  | [] => True
  | Add t :: sc' => script_ok (t :: have) sc'
  | Get t :: sc' => t ∈ have ∧ script_ok have sc'
  | Destroy :: sc' => script_ok have sc'
  end.

Definition client_ok (have : list nat) (c : client) : Prop :=
  match c_pc c with
  | CPush t => script_ok (t :: have) (c_script c)
  | CThrown | CUndef => True
  | _ => script_ok have (c_script c)
  end.

Definition inv_clients (s : system) : Prop :=
  ∀ j c, clients s !! j = Some c → client_ok (pushed (log s)) c.

Section client_steps.
Context (exec : nat → result).

Lemma script_ok_mono have have' sc :
  (∀ t, t ∈ have → t ∈ have') → script_ok have sc → script_ok have' sc.
Proof.
  revert have have'. induction sc as [|[t|t|] sc IH]; simpl; intros have have' Hsub; [done|..].
  - apply IH. set_solver.
  - intros [? ?]. split; [auto|by eapply IH].
  - by apply IH.
Qed.

Lemma client_ok_mono have have' c :
  (∀ t, t ∈ have → t ∈ have') → client_ok have c → client_ok have' c.
Proof.
  unfold client_ok. intros Hsub. destruct (c_pc c); try done; apply script_ok_mono; set_solver.
Qed.

Lemma clients_preserved s b s' : inv_clients s → move exec s b s' → inv_clients s'.
Proof.
  intros Hc Hs k c' Hk.
  assert (∀ t, t ∈ pushed (log s) → t ∈ pushed (log s')) as Hsub.
  { intros t Ht. destruct Hs; simpl; rewrite ?pushed_app; set_solver. }
  assert (clients s !! k = Some c' → client_ok (pushed (log s')) c') as Hold.
  { intros Hc'. eapply client_ok_mono; [exact Hsub|by eapply Hc]. }
  destruct Hs; simpl in Hk; try (by apply Hold);
    apply insert_cases in Hk as [[-> ->]|[_ Hk]]; try (by apply Hold);
    match goal with H : clients s !! _ = Some _ |- _ => apply Hc in H as Hok; unfold client_ok in Hok end;
    unfold client_ok; simpl in *; try done;
    repeat match goal with H : c_pc _ = _ |- _ => rewrite H in Hok; clear H end;
    try (by eapply script_ok_mono; [exact Hsub|]).
  - destruct H2 as [(t & -> & ->)|[-> ->]]; by rewrite H1 in Hok.
  - eapply script_ok_mono; [|exact Hok]. intros t'. rewrite pushed_app. set_solver.
  - rewrite H1 in Hok. destruct r; [by destruct Hok|done].
Qed.
End client_steps.

(** ** The invariants hold in every reachable state *)
Record inv (exec : nat → result) (s : system) : Prop := {
  inv_owner : inv_mutex (queue_mutex (pool s)) (workers (pool s)) (clients s);
  inv_task : inv_tasks exec s;
  inv_awake : inv_live s
}.

Section reach.
Context (exec : nat → result) (thread_count : Z) (scripts : list (list op)).
Abbreviation s0 := (start thread_count scripts).

Lemma start_client j c :
  clients s0 !! j = Some c → ∃ sc, scripts !! j = Some sc ∧ c = Client CReady sc [].
Proof. simpl. rewrite list_lookup_fmap. intros (sc & -> & ?)%fmap_Some. eauto. Qed.

Lemma start_worker i w : workers (pool s0) !! i = Some w → w = WLock.
Proof. simpl. intros Hw. apply lookup_replicate in Hw. naive_solver. Qed.

Lemma start_inv : inv exec s0.
Proof.
  split.
  - intros [i|j]; split; try done.
    + by intros (w & ->%start_worker & ?).
    + intros (c & (sc & _ & ->)%start_client & ?). done.
  - split; [done| |set_solver]. simpl. by induction (Z.to_nat thread_count).
  - split; try done.
    + by intros i ?%start_worker.
    + by intros i ?%start_worker.
    + intros j c (sc & _ & ->)%start_client. done.
Qed.

Lemma inv_step s b s' : inv exec s → move exec s b s' → inv exec s'.
Proof.
  intros [Hm Ht Hl] Hs. split.
  - by eapply mutex_preserved.
  - by eapply tasks_preserved.
  - by eapply live_preserved.
Qed.

(** Rule induction over the runs of the pool. *)
Lemma reachable_ind (P : system → Prop) s :
  P s0 → (∀ s b s', inv exec s → P s → move exec s b s' → P s') →
  reachable exec s0 s → inv exec s ∧ P s.
Proof.
  intros H0 Hstep. revert s. apply (rtc_ind_r (λ s, inv exec s ∧ P s) s0);
    [split; [apply start_inv|done]|]. intros s1 s2 _ Hs [Hi Hp].
  apply step_moves in Hs as [b Hs]. split; [by eapply inv_step|by eapply Hstep].
Qed.

Lemma reachable_inv s : reachable exec s0 s → inv exec s.
Proof. intros Hr. apply (reachable_ind (λ _, True) s) in Hr; [apply Hr|done..]. Qed.

Lemma reachable_clients s :
  Forall (script_ok []) scripts → reachable exec s0 s → inv_clients s.
Proof.
  intros Hsc Hr. apply (reachable_ind inv_clients s); [|intros; by eapply clients_preserved|done].
  intros j c (sc & Hj & ->)%start_client. rewrite Forall_lookup in Hsc. by apply Hsc in Hj.
Qed.

Lemma reachable_workers s :
  reachable exec s0 s → length (workers (pool s)) = Z.to_nat thread_count.
Proof.
  intros Hr. apply (reachable_ind (λ s, length (workers (pool s)) = Z.to_nat thread_count) s);
    [simpl; by rewrite length_replicate| |done].
  intros s1 b s2 _ Hl Hm. destruct Hm; simpl; by rewrite ?length_insert, ?length_fmap.
Qed.
End reach.
