(* ===== verification/ThreadPoolSpec.v ===== *)
(** * Threadpool.cpp: what the pool guarantees

    Safety over every reachable state, spurious wake-ups included; progress
    and termination of every schedule; the test program. *)
From stdpp Require Import base gmap list strings relations.
From S2P Require Import Prelude ThreadPool ThreadPoolInv.

(** ** How much a system still has to do *)
Definition worker_work (w : wpc) : nat :=
  match w with WWait | WExit => 0 | WTake => 1 | WPred => 2 | WLock | WWoken => 3 | WRun _ => 4 end.

Section work.
Context (n : nat). (* the number of workers *)

Definition op_work (o : op) : nat :=
  match o with Add _ => 12 | Get _ => 1 | Destroy => 4 * n + 10 end.

Definition pc_work (pc : cpc) : nat :=
  match pc with
  | CReady | CThrown | CUndef => 0
  | CPush _ => 11 | CNotify => 4
  | CStop => 4 * n + 9 | CNotifyAll => 4 * n + 8 | CJoin i => S (n - i)
  end.

Definition client_work (c : client) : nat :=
  pc_work (c_pc c) + sum_list_with op_work (c_script c).
End work.

Definition work (s : system) : nat :=
  sum_list_with worker_work (workers (pool s)) + 5 * length (tasks (pool s)) +
  sum_list_with (client_work (length (workers (pool s)))) (clients s).

Section work_facts.
Context (exec : nat → result).

Lemma sum_insert {A} (f : A → nat) (l : list A) i x y :
  l !! i = Some y →
  sum_list_with f (<[i := x]> l) + f y = sum_list_with f l + f x.
Proof.
  revert i. induction l as [|z l IH]; intros [|i]; simpl; try done.
  - intros [= ->]. lia.
  - intros Hi. specialize (IH i Hi). lia.
Qed.

Lemma sum_wake ws :
  sum_list_with worker_work (wake <$> ws) ≤ sum_list_with worker_work ws + 3 * length ws.
Proof. induction ws as [|[] ws IH]; csimpl; lia. Qed.

(** Every step of a thread brings the system closer to rest. *)
Lemma move_work s s' : move exec s false s' → work s' < work s.
Proof.
  intros Hm. remember false as b eqn:Hb. unfold work.
  destruct Hm; try done; simpl; rewrite ?length_insert, ?length_fmap;
    try match goal with H : workers (pool s) !! ?i = Some ?w |- context [<[?i := ?w']> (workers _)] =>
      pose proof (sum_insert worker_work _ _ w' _ H) as Hw; simpl in Hw end;
    try match goal with H : clients s !! ?j = Some ?c |- context [<[?j := ?c']> (clients _)] =>
      pose proof (sum_insert (client_work (length (workers (pool s)))) _ _ c' _ H) as Hc;
      unfold client_work in Hc at 2 4; simpl in Hc end;
    repeat match goal with
    | H : c_pc _ = _ |- _ => rewrite H in Hc; clear H
    | H : c_script _ = _ |- _ => rewrite H in Hc; clear H
    | H : tasks _ = _ :: _ |- _ => rewrite H; clear H
    end; simpl in *; try lia.
  - destruct H0 as [-> | ->]; simpl in Hw; lia.
  - destruct H2 as [(t & -> & ->)|[-> ->]]; simpl in Hc; lia.
  - destruct H2 as [[t ->]| ->]; simpl in Hc; lia.
  - rewrite length_app. simpl. lia.
  - pose proof (sum_wake (workers (pool s))). lia.
  - apply lookup_lt_Some in H1. lia.
  - destruct r; simpl in Hc; lia.
Qed.
End work_facts.

(** ** Where a system comes to rest *)
Record quiescent (s : system) : Prop := {
  q_tasks : tasks (pool s) = [];
  (* every accepted task has been run *)
  q_ran : ran (log s) ≡ₚ pushed (log s);
  (* the workers have left a stopped pool, and sleep otherwise *)
  q_workers : ∀ i w, workers (pool s) !! i = Some w → w = if stop (pool s) then WExit else WWait;
  (* no client is inside a call or waits for a future *)
  q_clients : ∀ j c, clients s !! j = Some c →
    (c_pc c = CReady ∧ c_script c = []) ∨ c_pc c = CThrown ∨ c_pc c = CUndef
}.

Section rest.
Context (exec : nat → result).
Implicit Types s : system.

Lemma blocked_worker s i : blocked exec s → worker_step exec i s = None.
Proof.
  intros Hb. destruct (worker_step exec i s) as [s'|] eqn:Hs; [|done].
  destruct (Hb s'). by exists (AWorker i).
Qed.

Lemma blocked_client s j ch : blocked exec s → client_step j ch s = None.
Proof.
  intros Hb. destruct (client_step j ch s) as [s'|] eqn:Hs; [|done].
  destruct (Hb s'). by exists (AClient j ch).
Qed.

(** The owner of the mutex can always move. *)
Lemma blocked_mutex s : inv exec s → blocked exec s → queue_mutex (pool s) = None.
Proof.
  intros [Hm _ Hl] Hb. destruct (queue_mutex (pool s)) as [who|] eqn:Hq; [|done]. exfalso.
  assert (holds who (workers (pool s)) (clients s)) as Hw by (by apply Hm).
  destruct who as [i|j].
  - destruct Hw as (w & Hi & Hw). pose proof (blocked_worker s i Hb) as Hs.
    unfold worker_step in Hs. rewrite Hi in Hs. destruct w; try done.
    + by destruct (wait_pred (pool s)).
    + apply (il_take _ Hl) in Hi. unfold wait_pred in Hi.
      by destruct (stop (pool s)), (tasks (pool s)).
  - destruct Hw as (c & Hj & Hw). pose proof (blocked_client s j None Hb) as Hs.
    unfold client_step, add_task_step, destructor_step in Hs. rewrite Hj in Hs. simpl in Hs.
    destruct (c_pc c); try done. by destruct (stop (pool s)).
Qed.

Lemma blocked_workers s i w :
  inv exec s → blocked exec s → workers (pool s) !! i = Some w → w = WWait ∨ w = WExit.
Proof.
  intros Hi Hb Hw. pose proof (blocked_mutex _ Hi Hb) as Hq.
  pose proof (blocked_worker s i Hb) as Hs. unfold worker_step in Hs. rewrite Hw in Hs.
  unfold lock in Hs. rewrite Hq in Hs. destruct w; try done; [|by left| |by right].
  - exfalso. by destruct (wait_pred (pool s)).
  - exfalso. apply (il_take _ (inv_awake _ _ Hi)) in Hw. unfold wait_pred in Hw.
    by destruct (stop (pool s)), (tasks (pool s)).
Qed.

(** No client is about to wake a worker. *)
Lemma blocked_notify s j c :
  blocked exec s → clients s !! j = Some c → c_pc c ≠ CNotify ∧ c_pc c ≠ CNotifyAll.
Proof.
  intros Hb Hj. split; intros Hpc.
  - assert (∃ ch, is_Some (notify_one ch (pool s))) as (ch & p & Hn).
    { destruct (decide (WWait ∈ workers (pool s))) as [Hin|Hno].
      - apply list_elem_of_lookup in Hin as [i Hi]. exists (Some i). simpl.
        by rewrite bool_decide_eq_true_2.
      - exists None. simpl. by rewrite bool_decide_eq_false_2. }
    pose proof (blocked_client s j ch Hb) as Hs.
    unfold client_step, add_task_step in Hs. rewrite Hj in Hs. simpl in Hs. by rewrite Hpc, Hn in Hs.
  - pose proof (blocked_client s j None Hb) as Hs.
    unfold client_step, destructor_step in Hs. rewrite Hj in Hs. simpl in Hs. by rewrite Hpc in Hs.
Qed.
Lemma blocked_idle s : inv exec s → blocked exec s → workers (pool s) ≠ [] → tasks (pool s) = [].
Proof.
  intros Hi Hb Hne. destruct (tasks (pool s)) as [|t q] eqn:Ht; [done|]. exfalso.
  destruct (il_wake _ (inv_awake _ _ Hi) Hne) as [(i & w & Hw & Ha)|(j & c & Hj & Hc)];
    [by rewrite Ht| |].
  - by destruct (blocked_workers _ _ _ Hi Hb Hw) as [-> | ->].
  - by destruct (blocked_notify _ _ _ Hb Hj).
Qed.

Lemma blocked_sleep s i w :
  inv exec s → blocked exec s → workers (pool s) !! i = Some w →
  w = if stop (pool s) then WExit else WWait.
Proof.
  intros Hi Hb Hw. destruct (blocked_workers _ _ _ Hi Hb Hw) as [-> | ->].
  - destruct (stop (pool s)) eqn:Hst; [|done].
    destruct (il_stop _ (inv_awake _ _ Hi) Hst) as [Hno|(j & c & Hj & Hc)]; [by apply Hno in Hw|].
    by destruct (blocked_notify _ _ _ Hb Hj).
  - apply (il_exit _ (inv_awake _ _ Hi)) in Hw as [-> _]. done.
Qed.

Lemma running_idle ws : (∀ i w, ws !! i = Some w → w = WWait ∨ w = WExit) → running ws = [].
Proof.
  induction ws as [|w ws IH]; intros Hw; [done|]. unfold running. rewrite bind_cons.
  destruct (Hw 0 w eq_refl) as [-> | ->]; simpl; apply IH; intros i; apply (Hw (S i)).
Qed.

Lemma blocked_ran s :
  inv exec s → blocked exec s → workers (pool s) ≠ [] → ran (log s) ≡ₚ pushed (log s).
Proof.
  intros Hi Hb Hne. destruct (inv_task _ _ Hi) as [Hq Hr _].
  rewrite Hq, Hr, (blocked_idle s), running_idle, !app_nil_r; try done.
  intros i w. by apply blocked_workers.
Qed.

(** A client that is not finished can move. *)
Lemma blocked_finished s j c :
  inv exec s → inv_clients s → blocked exec s → workers (pool s) ≠ [] → clients s !! j = Some c →
  (c_pc c = CReady ∧ c_script c = []) ∨ c_pc c = CThrown ∨ c_pc c = CUndef.
Proof.
  intros Hi Hc Hb Hne Hj. pose proof (blocked_mutex _ Hi Hb) as Hq.
  destruct (blocked_notify _ _ _ Hb Hj) as [Hn1 Hn2].
  pose proof (blocked_client s j None Hb) as Hs. unfold client_step in Hs. rewrite Hj in Hs.
  simpl in Hs. apply Hc in Hj as Hok. unfold client_ok in Hok.
  unfold add_task_step, destructor_step, enter, lock in Hs. rewrite Hq in Hs.
  destruct (c_pc c) as [|t| | | |i| |] eqn:Hpc; auto; simpl in Hs; try done.
  - left. split; [done|]. destruct (c_script c) as [|[t|t|] rest]; [done|exfalso..].
    + by destruct (destroyed (pool s)).
    + destruct Hok as [Ht _]. rewrite <-(blocked_ran s) in Ht by done.
      rewrite (it_fut _ _ (inv_task _ _ Hi) t Ht) in Hs. by destruct (exec t).
    + by destruct (destroyed (pool s)).
  - by destruct (stop (pool s)).
  - exfalso. apply (il_down _ (inv_awake _ _ Hi)) in Hj. rewrite Hpc in Hj. destruct Hj as [Hst _].
    destruct (workers (pool s) !! i) as [w|] eqn:Hw; [|done].
    rewrite (blocked_sleep _ _ _ Hi Hb Hw), Hst in Hs. done.
Qed.

Lemma blocked_quiescent s :
  inv exec s → inv_clients s → blocked exec s → workers (pool s) ≠ [] → quiescent s.
Proof.
  intros Hi Hc Hb Hne. split.
  - by apply blocked_idle.
  - by apply blocked_ran.
  - intros i w. by apply blocked_sleep.
  - intros j c. by apply blocked_finished.
Qed.

Lemma nsteps_work k s s' : nsteps (internal exec) k s s' → k + work s' ≤ work s.
Proof.
  induction 1 as [s|k s s1 s2 Hs _ IH]; [lia|]. apply internal_moves, move_work in Hs. lia.
Qed.

End rest.

(** ** The guarantees *)
Section theorems.
Context (exec : nat → result) (thread_count : Z) (scripts : list (list op)).
Abbreviation s0 := (start thread_count scripts).

(** In every reachable state at most one thread is between taking and
    releasing the mutex. *)
Theorem pool_mutual_exclusion s who who' :
  reachable exec s0 s → holds who (workers (pool s)) (clients s) →
  holds who' (workers (pool s)) (clients s) → who = who'.
Proof.
  intros Hr%reachable_inv H1 H2. apply (inv_owner _ _ Hr) in H1, H2. congruence.
Qed.

(** C11: The pool is a first-in first-out queue that neither loses nor repeats
    a task: the tasks pushed are those taken followed by those queued, in
    order; each task taken is being run by one worker or has been run; and the
    future of a task that was run holds its result. *)
Theorem pool_fifo s :
  reachable exec s0 s →
  pushed (log s) = taken (log s) ++ tasks (pool s) ∧
  taken (log s) ≡ₚ ran (log s) ++ running (workers (pool s)) ∧
  ∀ t, t ∈ ran (log s) → futures (pool s) !! t = Some (exec t).
Proof. intros Hr%reachable_inv. by destruct (inv_task _ _ Hr). Qed.

Lemma stopped_pushes s1 s2 :
  rtc (step exec) s1 s2 → stop (pool s1) = true →
  stop (pool s2) = true ∧ pushed (log s2) = pushed (log s1).
Proof.
  induction 1 as [s|s s1 s2 [b Hs]%step_moves _ IH]; intros Hst; [done|].
  destruct IH as [Hst2 Hp]; [by eapply move_keeps_stop|]. split; [done|]. rewrite Hp.
  destruct Hs; simpl; rewrite ?pushed_app, ?app_nil_r; congruence.
Qed.

(** C12: Shutting down a pool that was built with at least one worker drains the
    queue: once a destructor has returned, every task that was accepted has
    been run and every worker has left; and once the flag is set no further
    task is accepted.  (A pool built with a thread count of zero or less never
    runs its tasks, see [pool_zero_workers].) *)
Theorem pool_shutdown s :
  (0 < thread_count)%Z → reachable exec s0 s →
  (destroyed (pool s) = true →
     tasks (pool s) = [] ∧ ran (log s) ≡ₚ pushed (log s) ∧
     ∀ i w, workers (pool s) !! i = Some w → w = WExit) ∧
  (stop (pool s) = true → ∀ s', rtc (step exec) s s' → pushed (log s') = pushed (log s)).
Proof.
  intros Hn Hr. apply reachable_workers in Hr as Hlen. apply reachable_inv in Hr.
  split; [|intros Hst s' Hs'; by apply stopped_pushes].
  intros Hd. destruct (il_destroyed _ (inv_awake _ _ Hr) Hd) as [Hst Hall].
  assert (tasks (pool s) = []) as Ht.
  { destruct (lookup_lt_is_Some_2 (workers (pool s)) 0) as [w Hw]; [lia|].
    apply Hall in Hw as Hex. subst w. by apply (il_exit _ (inv_awake _ _ Hr)) in Hw as [_ Hw]. }
  split_and!; [done| |done]. destruct (inv_task _ _ Hr) as [Hq Hrun _].
  rewrite Hq, Hrun, Ht, running_idle, !app_nil_r; try done. intros i w Hw. right. by eapply Hall.
Qed.

(** C10: No wake-up is lost and nothing deadlocks.  From every reachable state
    of a pool with workers, the threads can take at most [work s] further
    steps without a spurious wake-up, and where no thread can move any more
    every accepted task has been run, every client has finished, and the
    workers sleep or, in a stopped pool, have left. *)
Theorem pool_progress s s' k :
  (0 < thread_count)%Z → Forall (script_ok []) scripts → reachable exec s0 s →
  nsteps (internal exec) k s s' →
  k ≤ work s ∧ (blocked exec s' → quiescent s').
Proof.
  intros Hn Hsc Hr Hs. split; [apply nsteps_work in Hs; lia|]. intros Hb.
  assert (reachable exec s0 s') as Hr'.
  { unfold reachable in *. etrans; [exact Hr|]. apply rtc_nsteps_2 in Hs.
    eapply rtc_subrel; [|exact Hs]. by constructor. }
  apply reachable_clients in Hr' as Hc; [|done]. apply reachable_workers in Hr' as Hlen.
  apply reachable_inv in Hr'. apply (blocked_quiescent exec); try done.
  intros Hnil. rewrite Hnil in Hlen. simpl in Hlen. lia.
Qed.

(** A pool without workers accepts tasks and never runs them. *)
Lemma pool_without_workers s :
  (thread_count ≤ 0)%Z → reachable exec s0 s → workers (pool s) = [] ∧ ran (log s) = [].
Proof.
  intros Hn Hr.
  assert (inv exec s ∧ workers (pool s) = [] ∧ ran (log s) = []) as [_ H]; [|done].
  apply (reachable_ind exec thread_count scripts
           (λ s, workers (pool s) = [] ∧ ran (log s) = [])); [| |done].
  - split; [|done]. simpl. by replace (Z.to_nat thread_count) with 0 by lia.
  - intros s1 b s2 _ [Hw Hl] Hs.
    destruct Hs; simpl; rewrite ?ran_app, ?Hl, ?Hw in *; done.
Qed.
End theorems.

(** [Threadpool pool(0)]: a task is accepted, the destructor returns, and the
    task has not been run. *)
Example pool_zero_workers :
  (λ s, (pushed (log s), ran (log s), destroyed (pool s))) <$>
    run main_exec [AClient 0 None; AClient 0 None; AClient 0 None; AClient 0 None; AClient 0 None;
                   AClient 0 None; AClient 0 None] (start 0 [[Add 7; Destroy]])
  = Some ([7], [], true).
Proof. reflexivity. Qed.

(** ** A program with one owner of the pool *)
Definition adds (sc : list op) : list nat := omap (λ o, match o with Add t => Some t | _ => None end) sc.
Definition gets (sc : list op) : list nat := omap (λ o, match o with Get t => Some t | _ => None end) sc.

(** The pool is destroyed at most once, at the end. *)
Fixpoint destroy_last (sc : list op) : Prop :=
  match sc with
  | [] => True
  | Destroy :: sc' => sc' = []
  | _ :: sc' => destroy_last sc'
  end.

Definition pushing (pc : cpc) : list nat := match pc with CPush t => [t] | _ => [] end.
Definition destroying (pc : cpc) : bool :=
  match pc with CStop | CNotifyAll | CJoin _ => true | _ => false end.

Section owner.
Context (f : nat → Z) (thread_count : Z) (sc : list op).
Definition exec_value (t : nat) : result := inl (f t).
Abbreviation s0 := (start thread_count [sc]).

(** Where the owner is in its script. *)
Record owner_at (s : system) (c : client) : Prop := {
  ow_clients : clients s = [c];
  ow_adds : pushed (log s) ++ pushing (c_pc c) ++ adds (c_script c) = adds sc;
  ow_gets : c_output c ++ (f <$> gets (c_script c)) = f <$> gets sc;
  ow_pc : c_pc c ≠ CThrown ∧ c_pc c ≠ CUndef;
  ow_last : destroy_last (c_script c);
  ow_end : stop (pool s) = true ∨ destroying (c_pc c) = true → c_script c = [];
  ow_stop : stop (pool s) = true → c_pc c = CReady ∨ destroying (c_pc c) = true;
  ow_destroy : Destroy ∈ sc →
    Destroy ∈ c_script c ∨ destroying (c_pc c) = true ∨ destroyed (pool s) = true;
  ow_futures : ∀ t r, futures (pool s) !! t = Some r → r = exec_value t
}.

Definition owner_inv (s : system) : Prop := ∃ c, owner_at s c.

Lemma owner_start : destroy_last sc → owner_inv s0.
Proof.
  intros Hd. exists (Client CReady sc []).
  split; simpl; try done; [naive_solver|by left].
Qed.

(** Steps of workers: nothing changes for the owner. *)
Lemma owner_worker_step s s' c :
  owner_at s c → clients s' = clients s → pushed (log s') = pushed (log s) →
  stop (pool s') = stop (pool s) → destroyed (pool s') = destroyed (pool s) →
  (∀ t r, futures (pool s') !! t = Some r → r = exec_value t) → owner_inv s'.
Proof. intros [] E1 E2 E3 E4 Hf. exists c. split; rewrite ?E1, ?E2, ?E3, ?E4; done. Qed.

Lemma owner_step s b s' :
  inv exec_value s → owner_inv s → move exec_value s b s' → owner_inv s'.
Proof.
  intros Hi [c Hc] Hs. assert (clients s = [c]) as Hcl by apply (ow_clients _ _ Hc).
  assert (∀ t r, futures (pool s) !! t = Some r → r = exec_value t) as Hfut
    by apply (ow_futures _ _ Hc).
  assert (destroyed (pool s) = true → stop (pool s) = true) as Hdes
    by (intros Hd; apply (il_destroyed _ (inv_awake _ _ Hi) Hd)).
  destruct Hs;
    try (eapply owner_worker_step; [exact Hc|simpl; rewrite ?pushed_app, ?app_nil_r; done..|];
         simpl; first [done|intros t' r [[<- <-]|[_ ?]]%lookup_insert_Some; auto; done]);
    (rewrite Hcl in H; destruct j as [|j]; [injection H as <-|done]); rewrite Hcl; simpl;
    destruct Hc as [_ Ha Hg [Hp1 Hp2] Hl He Hst Hds _];
    repeat match goal with
    | H : c_pc _ = _ |- _ => rewrite H in *; clear H
    | H : c_script _ = _ |- _ => rewrite H in *; clear H
    | H : (∃ t, _ = Add t ∧ _) ∨ _ |- _ => destruct H as [(? & -> & ->)|[-> ->]]
    | H : futures (pool s) !! _ = Some _ |- _ => apply Hfut in H as ->
    end; simpl in *;
    match goal with |- owner_inv (Sys _ [?c'] _) => exists c' end;
    split; simpl; rewrite ?pushed_app, ?app_nil_r, <-?app_assoc; simpl; try done;
    try (intuition (congruence || discriminate)).
  all: try set_solver.
Qed.

(** At rest the script of the owner has been carried out. *)
Lemma owner_finished s :
  (0 < thread_count)%Z → script_ok [] sc → destroy_last sc →
  reachable exec_value s0 s → blocked exec_value s →
  clients s = [Client CReady [] (f <$> gets sc)] ∧ ran (log s) ≡ₚ adds sc ∧
  (Destroy ∈ sc → destroyed (pool s) = true).
Proof.
  intros Hn Hok Hlast Hr Hb.
  assert (inv exec_value s ∧ owner_inv s) as [Hi [c Hc]].
  { apply (reachable_ind exec_value thread_count [sc] owner_inv); [by apply owner_start| |done].
    intros. by eapply owner_step. }
  assert (workers (pool s) ≠ []) as Hne.
  { intros Hnil. apply reachable_workers in Hr. rewrite Hnil in Hr. simpl in Hr. lia. }
  apply reachable_clients in Hr; [|by repeat constructor].
  destruct (blocked_quiescent exec_value s Hi Hr Hb Hne) as [_ Hran _ Hq].
  destruct Hc as [Hcl Ha Hg [Hp1 Hp2] _ _ _ Hds _].
  destruct (Hq 0 c) as [[Hpc Hsc]|[?|?]]; [by rewrite Hcl| |done..].
  rewrite Hpc, Hsc in *. simpl in *. rewrite app_nil_r in Ha, Hg. split_and!.
  - rewrite Hcl. destruct c; simpl in *. congruence.
  - by rewrite Hran, Ha.
  - intros Hin. destruct (Hds Hin) as [?|[?|?]]; [set_solver|done|done].
Qed.
End owner.

(** The test program: in every schedule, however the four workers are
    interleaved and woken, once no thread can move the eight tasks have been
    run once each, the squares have been printed in the order of the calls,
    and the destructor has returned. *)
Theorem threadpool_main_output s :
  reachable main_exec main_start s → blocked main_exec s →
  clients s = [Client CReady [] [0; 1; 4; 9; 16; 25; 36; 49]%Z] ∧
  ran (log s) ≡ₚ [0; 1; 2; 3; 4; 5; 6; 7] ∧ destroyed (pool s) = true.
Proof.
  intros Hr Hb.
  destruct (owner_finished (λ i, (Z.of_nat i * Z.of_nat i)%Z) 4 main_script s) as (H1 & H2 & H3);
    [lia|simpl; set_solver|done|exact Hr|exact Hb|].
  split_and!; [exact H1|exact H2|apply H3]. unfold main_script. set_solver.
Qed.

(** ** Witnesses *)
Lemma run_reachable exec l s s' : run exec l s = Some s' → rtc (step exec) s s'.
Proof.
  revert s. induction l as [|a l IH]; simpl; intros s; [by intros [= <-]|].
  intros (s1 & Ha & Hl)%bind_Some. eapply rtc_l; [|by apply IH]. constructor. by exists a.
Qed.

Lemma run_nsteps exec l s s' : run exec l s = Some s' → nsteps (internal exec) (length l) s s'.
Proof.
  revert s. induction l as [|a l IH]; simpl; intros s; [intros [= <-]; constructor|].
  intros (s1 & Ha & Hl)%bind_Some. econstructor; [by exists a|by apply IH].
Qed.

Lemma rest_blocked exec s :
  Forall (λ w, w = WWait ∨ w = WExit) (workers (pool s)) →
  Forall (λ c, c_pc c = CReady ∧ c_script c = []) (clients s) → blocked exec s.
Proof.
  intros Hw Hc s' [[i|j ch] s1 Ha]; simpl in Ha.
  - unfold worker_step in Ha. destruct (workers (pool s) !! i) as [w|] eqn:Hi; [|done].
    rewrite Forall_lookup in Hw. by destruct (Hw _ _ Hi) as [-> | ->].
  - unfold client_step in Ha. destruct (clients s !! j) as [c|] eqn:Hj; [|done].
    rewrite Forall_lookup in Hc. destruct (Hc _ _ Hj) as [Hp Hs]. simpl in Ha.
    by rewrite Hp, Hs in Ha.
Qed.

Definition after (l : list action) (s : system) : system := default s (run main_exec l s).

Abbreviation cl := (AClient 0 None).
Abbreviation small_start := (start 1 [[Add 3; Destroy]]).
(** One task added and run, then the destructor, with one worker. *)
Definition small_schedule : list action :=
  replicate 3 cl ++ replicate 4 (AWorker 0) ++ replicate 3 cl ++ replicate 3 (AWorker 0) ++
  replicate 2 cl.
(** [main]: all tasks run by worker 0. *)
Definition main_schedule : list action :=
  replicate 24 cl ++ replicate 32 (AWorker 0) ++ replicate 11 cl ++
  (mjoin ((λ i, replicate 3 (AWorker i)) <$> seq 0 4)) ++ replicate 5 cl.

Lemma pool_mutual_exclusion_witness :
  let s := after [AWorker 0] main_start in
  reachable main_exec main_start s ∧ holds (Worker 0) (workers (pool s)) (clients s) ∧
  Worker 0 = Worker 0.
Proof.
  intros s.
  assert (reachable main_exec main_start s) as Hr by (by apply (run_reachable _ [AWorker 0])).
  assert (holds (Worker 0) (workers (pool s)) (clients s)) as Hh by (by exists WPred).
  split; [exact Hr|]. split; [exact Hh|].
  exact (pool_mutual_exclusion main_exec 4 [main_script] s _ _ Hr Hh Hh).
Defined.

Lemma pool_fifo_witness :
  let s := after (replicate 6 cl ++ replicate 4 (AWorker 0)) main_start in
  reachable main_exec main_start s ∧
  pushed (log s) = taken (log s) ++ tasks (pool s) ∧
  (taken (log s), tasks (pool s), ran (log s)) = ([0], [1], [0]).
Proof.
  intros s. assert (reachable main_exec main_start s) as Hr.
  { apply (run_reachable _ (replicate 6 cl ++ replicate 4 (AWorker 0))). vm_compute. reflexivity. }
  split; [exact Hr|]. split; [|vm_compute; reflexivity].
  destruct (pool_fifo main_exec 4 [main_script] s Hr) as [H _]. exact H.
Defined.

Lemma pool_shutdown_witness :
  let s := after small_schedule small_start in
  (0 < 1)%Z ∧ reachable main_exec small_start s ∧ destroyed (pool s) = true ∧
  ran (log s) ≡ₚ pushed (log s) ∧ pushed (log s) = [3].
Proof.
  intros s. assert (reachable main_exec small_start s) as Hr.
  { apply (run_reachable _ small_schedule). vm_compute. reflexivity. }
  assert (destroyed (pool s) = true) as Hd by (vm_compute; reflexivity).
  split; [lia|]. split; [exact Hr|]. split; [exact Hd|]. split; [|vm_compute; reflexivity].
  destruct (pool_shutdown main_exec 1 [[Add 3; Destroy]] s ltac:(lia) Hr) as [H _].
  destruct (H Hd) as (_ & Hran & _). exact Hran.
Defined.

Lemma pool_progress_witness :
  let s := after small_schedule small_start in
  (0 < 1)%Z ∧ Forall (script_ok []) [[Add 3; Destroy]] ∧
  nsteps (internal main_exec) 15 small_start s ∧
  15 ≤ work small_start ∧ (blocked main_exec s → quiescent s).
Proof.
  intros s.
  assert (Forall (script_ok []) [[Add 3; Destroy]]) as Hsc by (by repeat constructor).
  assert (nsteps (internal main_exec) (length small_schedule) small_start s) as Hs.
  { apply run_nsteps. vm_compute. reflexivity. }
  split; [lia|]. split; [exact Hsc|]. split; [exact Hs|].
  exact (pool_progress main_exec 1 _ small_start s 15 ltac:(lia) Hsc (rtc_refl _ _) Hs).
Defined.

Lemma threadpool_main_witness :
  let s := after main_schedule main_start in
  reachable main_exec main_start s ∧ blocked main_exec s ∧
  clients s = [Client CReady [] [0; 1; 4; 9; 16; 25; 36; 49]%Z].
Proof.
  intros s. assert (reachable main_exec main_start s) as Hr.
  { apply (run_reachable _ main_schedule). vm_compute. reflexivity. }
  assert (blocked main_exec s) as Hb.
  { apply rest_blocked; [|vm_compute; by repeat constructor].
    assert (workers (pool s) = [WExit; WExit; WExit; WExit]) as -> by (vm_compute; reflexivity).
    repeat constructor; by right. }
  split_and!; [exact Hr|exact Hb|]. apply (threadpool_main_output s Hr Hb).
Defined.
