(* ===== verification/LockfreeQueue.v ===== *)
(** * atomic/LockfreeQueue.cpp: the Michael-Scott queue

    A transition system: each thread has a program counter between two
    accesses to shared memory, and a step performs one access (a load, a
    compare-exchange, the allocation of a node, the move out of [data]).
    Memory is sequentially consistent.  A node is never freed while a
    [shared_ptr] to it is in use, so locations are not reused; nodes that
    nothing refers to any more stay in the store of the model.
    [compare_exchange_weak] may fail for no reason.  [moved v] is what a move
    leaves in a variable that held [v]: [v] itself for [int]. *)
From stdpp Require Import base gmap list.
From S2P Require Import Prelude.

Record qnode (T : Type) := QNode { data : T; next : option positive }.
Arguments QNode {T} data next.
Arguments data {T} _.
Arguments next {T} _.

(** What a thread can call, and what it gets. *)
Inductive call (T : Type) := Enqueue (v : T) | Dequeue | Empty.
Arguments Enqueue {T} v.
Arguments Dequeue {T}.
Arguments Empty {T}.
Inductive answer (T : Type) := Enqueued | Dequeued (r : option T) | IsEmpty (b : bool).
Arguments Enqueued {T}.
Arguments Dequeued {T} r.
Arguments IsEmpty {T} b.

(** Program counters, with the local variables that are still used:
    [n] is [new_node], [t] [tail_ptr], [h] [head_ptr], [x] [next_ptr]. *)
Inductive qpc (T : Type) :=
| Idle
| E0 (v : T)                          (* make_shared *)
| E1 (n : positive)                   (* tail.load *)
| E2 (n t : positive)                 (* tail_ptr->next.load *)
| E3 (n t : positive) (x : option positive)  (* tail_ptr == tail.load *)
| E4 (n t : positive)                 (* link: CAS on tail_ptr->next *)
| E5 (n t x : positive)               (* help: CAS on tail *)
| E6 (n t : positive)                 (* swing: CAS on tail *)
| D1                                  (* head.load *)
| D2 (h : positive)                   (* tail.load *)
| D3 (h t : positive)                 (* head_ptr->next.load *)
| D4 (h t : positive) (x : option positive)  (* head_ptr == head.load *)
| D5 (t x : positive)                 (* help: CAS on tail *)
| D6 (h x : positive)                 (* std::move(next_ptr->data) *)
| D7 (h x : positive) (v : T)         (* CAS on head *)
| M1                                  (* empty: head.load *)
| M2 (h : positive)                   (* tail.load *)
| M3 (h : positive)                   (* head_ptr->next.load *)
| Ret (r : answer T).
Arguments Idle {T}.
Arguments E0 {T} v.
Arguments E1 {T} n.
Arguments E2 {T} n t.
Arguments E3 {T} n t x.
Arguments E4 {T} n t.
Arguments E5 {T} n t x.
Arguments E6 {T} n t.
Arguments D1 {T}.
Arguments D2 {T} h.
Arguments D3 {T} h t.
Arguments D4 {T} h t x.
Arguments D5 {T} t x.
Arguments D6 {T} h x.
Arguments D7 {T} h x v.
Arguments M1 {T}.
Arguments M2 {T} h.
Arguments M3 {T} h.
Arguments Ret {T} r.

(** The data members, the nodes, and the values linked and unlinked so far. *)
Record LockfreeQueue (T : Type) := Queue {
  nodes : gmap positive (qnode T);
  head : positive;
  tail : positive;
  linked : list T;
  unlinked : list T
}.
Arguments Queue {T} nodes head tail linked unlinked.
Arguments nodes {T} _.
Arguments head {T} _.
Arguments tail {T} _.
Arguments linked {T} _.
Arguments unlinked {T} _.

Section queue_defs.
Context {T : Type} (T0 : T) (moved : T → T).
Abbreviation queue := (LockfreeQueue T).
Abbreviation pc := (qpc T).

Definition LockfreeQueue_ctor : queue :=
  Queue {[1%positive := QNode T0 None]} 1 1 [] [].

Definition set_tail (t : positive) (q : queue) : queue :=
  Queue (nodes q) (head q) t (linked q) (unlinked q).
Definition set_node (l : positive) (n : qnode T) (q : queue) : queue :=
  Queue (<[l := n]> (nodes q)) (head q) (tail q) (linked q) (unlinked q).

(** [tail.compare_exchange_weak(expected, desired)] *)
Definition cas_tail (fails : bool) (expected desired : positive) (q : queue) : queue :=
  if bool_decide (tail q = expected) && negb fails then set_tail desired q else q.

Definition enqueue_step (fails : bool) (p : pc) (q : queue) : option (pc * queue) :=
  match p with
  | E0 v =>
      let n := fresh (dom (nodes q)) in
      Some (E1 n, set_node n (QNode v None) q)
  | E1 n => Some (E2 n (tail q), q)
  | E2 n t => nd ← nodes q !! t; Some (E3 n t (next nd), q)
  | E3 n t x =>
      if bool_decide (t = tail q) then
        match x with None => Some (E4 n t, q) | Some x => Some (E5 n t x, q) end
      else Some (E1 n, q)
  | E4 n t =>
      nd ← nodes q !! t;
      if bool_decide (next nd = None) && negb fails then
        nn ← nodes q !! n;
        let q := set_node t (QNode (data nd) (Some n)) q in
        Some (E6 n t, Queue (nodes q) (head q) (tail q) (linked q ++ [data nn]) (unlinked q))
      else Some (E1 n, q)
  | E5 n t x => Some (E1 n, cas_tail fails t x q)
  | E6 n t => Some (Ret Enqueued, cas_tail fails t n q)
  | _ => None
  end.

Definition dequeue_step (fails : bool) (p : pc) (q : queue) : option (pc * queue) :=
  match p with
  | D1 => Some (D2 (head q), q)
  | D2 h => Some (D3 h (tail q), q)
  | D3 h t => nd ← nodes q !! h; Some (D4 h t (next nd), q)
  | D4 h t x =>
      if bool_decide (h = head q) then
        if bool_decide (h = t) then
          match x with
          | None => Some (Ret (Dequeued None), q)
          | Some x => Some (D5 t x, q)
          end
        else
          match x with
          | Some x => Some (D6 h x, q)
          | None => Some (D1, q)
          end
      else Some (D1, q)
  | D5 t x => Some (D1, cas_tail fails t x q)
  | D6 h x =>
      nd ← nodes q !! x;
      Some (D7 h x (data nd), set_node x (QNode (moved (data nd)) (next nd)) q)
  | D7 h x v =>
      if bool_decide (head q = h) && negb fails then
        Some (Ret (Dequeued (Some v)),
              Queue (nodes q) x (tail q) (linked q) (unlinked q ++ [v]))
      else Some (D1, q)
  | _ => None
  end.

Definition empty_step (p : pc) (q : queue) : option (pc * queue) :=
  match p with
  | M1 => Some (M2 (head q), q)
  | M2 h => Some (if bool_decide (h = tail q) then M3 h else Ret (IsEmpty false), q)
  | M3 h => nd ← nodes q !! h; Some (Ret (IsEmpty (bool_decide (next nd = None))), q)
  | _ => None
  end.

Definition start_call (c : call T) : pc :=
  match c with Enqueue v => E0 v | Dequeue => D1 | Empty => M1 end.

Definition op_step (fails : bool) (p : pc) (q : queue) : option (pc * queue) :=
  match p with
  | Idle | Ret _ => None
  | E0 _ | E1 _ | E2 _ _ | E3 _ _ _ | E4 _ _ | E5 _ _ _ | E6 _ _ => enqueue_step fails p q
  | D1 | D2 _ | D3 _ _ | D4 _ _ _ | D5 _ _ | D6 _ _ | D7 _ _ _ => dequeue_step fails p q
  | M1 | M2 _ | M3 _ => empty_step p q
  end.

(** *** The system: a queue and its threads *)
Record qsystem := QSys { queue_of : queue; threads : list pc }.

(** What an observer sees: calls and returns. *)
Inductive visible := Call (i : nat) (c : call T) | Return (i : nat) (r : answer T).

Inductive qstep (s : qsystem) : option visible → qsystem → Prop :=
| q_call i c :
    threads s !! i = Some Idle →
    qstep s (Some (Call i c)) (QSys (queue_of s) (<[i := start_call c]> (threads s)))
| q_return i r :
    threads s !! i = Some (Ret r) →
    qstep s (Some (Return i r)) (QSys (queue_of s) (<[i := Idle]> (threads s)))
| q_op i fails p p' q' :
    threads s !! i = Some p → op_step fails p (queue_of s) = Some (p', q') →
    qstep s None (QSys q' (<[i := p']> (threads s))).

(** Runs, with what is visible of them. *)
Inductive qrun (s0 : qsystem) : list visible → qsystem → Prop :=
| run_nil : qrun s0 [] s0
| run_step tr s l s' :
    qrun s0 tr s → qstep s l s' → qrun s0 (tr ++ option_list l) s'.

Definition qstart (n : nat) : qsystem := QSys LockfreeQueue_ctor (replicate n Idle).

(** One call run by one thread alone, without failures. *)
Fixpoint solo (fuel : nat) (p : pc) (q : queue) : option (answer T * queue) :=
  match p with
  | Ret r => Some (r, q)
  | _ =>
      match fuel with
      | 0 => None
      | S fuel => '(p, q) ← op_step false p q; solo fuel p q
      end
  end.
Definition run_call (c : call T) (q : queue) : option (answer T * queue) := solo 7 (start_call c) q.

(** The destructor dequeues until the queue is empty. *)
Fixpoint destroy (fuel : nat) (q : queue) : option queue :=
  match fuel with
  | 0 => None
  | S fuel =>
      '(r, q) ← run_call Dequeue q;
      match r with
      | Dequeued (Some _) => destroy fuel q
      | _ => Some q
      end
  end.
End queue_defs.
Arguments qsystem : clear implicits.
Arguments visible : clear implicits.

(** The sequential part of the test program: three values in, four look-ups,
    then [empty]; the answers and the queue. *)
Definition test_sequential : option (list (answer Z) * LockfreeQueue Z) :=
  let call := run_call id in
  '(_, q) ← call (Enqueue 1%Z) (LockfreeQueue_ctor 0%Z);
  '(_, q) ← call (Enqueue 2%Z) q;
  '(_, q) ← call (Enqueue 3%Z) q;
  '(val1, q) ← call Dequeue q;
  '(val2, q) ← call Dequeue q;
  '(val3, q) ← call Dequeue q;
  '(val4, q) ← call Dequeue q;
  '(e, q) ← call Empty q;
  Some ([val1; val2; val3; val4; e], q).
