(* ===== verification/LockfreeQueueInv.v ===== *)
(** * LockfreeQueue.cpp: the shape of the queue and the simulation

    The specification is a queue whose operations take effect at once
    ([astep]).  [sim] relates a state of the code to one of the specification:
    the nodes ever linked form a list [hist] with [head] and [tail] in it, and
    each thread's locals are positions in that list. *)
From stdpp Require Import base gmap list.
From S2P Require Import Prelude LockfreeQueue.

Section spec.
Context {T : Type}.

(** ** The specification *)

(** What a thread is doing: an operation that has not taken effect, with what
    the operation has seen of the queue since it was called, or one that has
    an answer. *)
Inductive astatus :=
| AIdle
| AEnq (v : T)
| ADeq (was_empty : bool)
| AEmpty (was_empty was_nonempty : bool)
| ARet (r : answer T).

Record aqueue := AQ { a_queue : list T; a_threads : list astatus }.

Definition is_nil (l : list T) : bool := match l with [] => true | _ => false end.

(** Every pending operation sees whether the queue is empty. *)
Definition observe (l : list T) (st : astatus) : astatus :=
  match st with
  | ADeq e => ADeq (e || is_nil l)
  | AEmpty e n => AEmpty (e || is_nil l) (n || negb (is_nil l))
  | _ => st
  end.

Definition astart_call (c : call T) : astatus :=
  match c with Enqueue v => AEnq v | Dequeue => ADeq false | Empty => AEmpty false false end.

Definition aset (l : list T) (i : nat) (st : astatus) (a : aqueue) : aqueue :=
  AQ l (observe l <$> <[i := st]> (a_threads a)).

(** An enqueue appends its value, a dequeue takes the first value, at one
    instant between call and return.  A dequeue may answer that the queue is
    empty if it was at some instant since the call, and [empty] may give
    either answer that was true at some instant since the call. *)
Inductive astep (a : aqueue) : option (visible T) → aqueue → Prop :=
| a_call i c :
    a_threads a !! i = Some AIdle →
    astep a (Some (Call i c)) (aset (a_queue a) i (astart_call c) a)
| a_return i r :
    a_threads a !! i = Some (ARet r) →
    astep a (Some (Return i r)) (aset (a_queue a) i AIdle a)
| a_enqueue i v :
    a_threads a !! i = Some (AEnq v) →
    astep a None (aset (a_queue a ++ [v]) i (ARet Enqueued) a)
| a_dequeue i e v l :
    a_threads a !! i = Some (ADeq e) → a_queue a = v :: l →
    astep a None (aset l i (ARet (Dequeued (Some v))) a)
| a_dequeue_none i :
    a_threads a !! i = Some (ADeq true) →
    astep a None (aset (a_queue a) i (ARet (Dequeued None)) a)
| a_empty i e n (b : bool) :
    a_threads a !! i = Some (AEmpty e n) → (if b then e else n) = true →
    astep a None (aset (a_queue a) i (ARet (IsEmpty b)) a).

Inductive arun (a0 : aqueue) : list (visible T) → aqueue → Prop :=
| arun_nil : arun a0 [] a0
| arun_step tr a l a' : arun a0 tr a → astep a l a' → arun a0 (tr ++ option_list l) a'.

Definition astart (n : nat) : aqueue := AQ [] (replicate n AIdle).

(** ** The shape of the queue *)

(** [hist]: the nodes linked so far, the first dummy node included; [ih] and
    [it]: the positions of [head] and [tail] in it. *)
Record qshape (q : LockfreeQueue T) (hist : list positive) (ih it : nat) : Prop := {
  qs_next : ∀ k l, hist !! k = Some l → ∃ d, nodes q !! l = Some (QNode d (hist !! S k));
  qs_head : hist !! ih = Some (head q);
  qs_tail : hist !! it = Some (tail q);
  qs_order : ih ≤ it;
  qs_lag : length hist ≤ it + 2;
  qs_nodup : NoDup hist;
  qs_linked : ∀ k l, hist !! S k = Some l → ∃ x v, nodes q !! l = Some (QNode v x) ∧ linked q !! k = Some v;
  qs_length : length hist = S (length (linked q));
  qs_unlinked : unlinked q = take ih (linked q)
}.

Definition contents (ih : nat) (q : LockfreeQueue T) : list T := drop ih (linked q).

(** A new node that only its thread knows. *)
Definition private (q : LockfreeQueue T) (hist : list positive) (n : positive) (v : T) : Prop :=
  nodes q !! n = Some (QNode v None) ∧ n ∉ hist.

Definition private_of (p : qpc T) : option positive :=
  match p with E1 n | E2 n _ | E3 n _ _ | E4 n _ | E5 n _ _ => Some n | _ => None end.

(** The locals of a thread, and its status in the specification. *)
Definition thread_ok (q : LockfreeQueue T) (hist : list positive) (ih it : nat)
    (p : qpc T) (st : astatus) : Prop :=
  match p, st with
  | Idle, AIdle => True
  | Ret r, ARet r' => r = r'
  | E0 v, AEnq v' => v = v'
  | E1 n, AEnq v => private q hist n v
  | E2 n t, AEnq v | E4 n t, AEnq v => private q hist n v ∧ ∃ k, k ≤ it ∧ hist !! k = Some t
  | E3 n t x, AEnq v => private q hist n v ∧ ∃ k, k ≤ it ∧ hist !! k = Some t ∧
      ∀ y, x = Some y → hist !! S k = Some y
  | E5 n t x, AEnq v => private q hist n v ∧ ∃ k, hist !! k = Some t ∧ hist !! S k = Some x
  | E6 n t, ARet r => r = Enqueued ∧ ∃ k, hist !! k = Some t ∧ hist !! S k = Some n
  | D1, ADeq _ => True
  | D2 h, ADeq _ => ∃ k, k ≤ ih ∧ hist !! k = Some h
  | D3 h t, ADeq _ => ∃ k m, k ≤ ih ∧ k ≤ m ∧ m ≤ it ∧ hist !! k = Some h ∧ hist !! m = Some t
  | D4 h t x, ADeq e => ∃ k m, k ≤ ih ∧ k ≤ m ∧ m ≤ it ∧ hist !! k = Some h ∧ hist !! m = Some t ∧
      (∀ y, x = Some y → hist !! S k = Some y) ∧ (x = None → h = t → e = true)
  | D5 t x, ADeq _ => ∃ m, hist !! m = Some t ∧ hist !! S m = Some x
  | D6 h x, ADeq _ => ∃ k, S k ≤ it ∧ hist !! k = Some h ∧ hist !! S k = Some x
  | D7 h x v, ADeq _ => ∃ k, S k ≤ it ∧ hist !! k = Some h ∧ hist !! S k = Some x ∧
      linked q !! k = Some v
  | M1, AEmpty _ _ => True
  | M2 h, AEmpty e n | M3 h, AEmpty e n => ∃ k, k ≤ ih ∧ hist !! k = Some h ∧
      (is_Some (hist !! S k) → n = true)
  | _, _ => False
  end.

Record sim (s : qsystem T) (a : aqueue) (hist : list positive) (ih it : nat) : Prop := {
  sim_shape : qshape (queue_of s) hist ih it;
  sim_queue : a_queue a = contents ih (queue_of s);
  sim_threads : ∀ i p, threads s !! i = Some p →
    ∃ st, a_threads a !! i = Some st ∧ thread_ok (queue_of s) hist ih it p st;
  sim_length : length (a_threads a) = length (threads s);
  sim_observed : ∀ i st, a_threads a !! i = Some st → observe (a_queue a) st = st;
  sim_private : ∀ i j p p' n, threads s !! i = Some p → threads s !! j = Some p' →
    private_of p = Some n → private_of p' = Some n → i = j
}.
End spec.
Arguments astatus : clear implicits.
Arguments aqueue : clear implicits.

Section facts.
Context {T : Type}.
Implicit Types (q : LockfreeQueue T) (hist : list positive) (s : qsystem T) (a : aqueue T).

Lemma hist_inj q hist ih it k m l :
  qshape q hist ih it → hist !! k = Some l → hist !! m = Some l → k = m.
Proof. intros [] ??. by eapply NoDup_lookup. Qed.

Lemma shape_next q hist ih it k l nd :
  qshape q hist ih it → hist !! k = Some l → nodes q !! l = Some nd → next nd = hist !! S k.
Proof. intros Hq Hk Hl. destruct (qs_next _ _ _ _ Hq k l Hk) as [d Hd]. by simplify_eq. Qed.

(** The values in the queue, read off its nodes from [head] on. *)
Fixpoint chain (fuel : nat) (l : option positive) (ns : gmap positive (qnode T)) : list T :=
  match fuel, l with
  | S fuel, Some l => match ns !! l with Some nd => data nd :: chain fuel (next nd) ns | None => [] end
  | _, _ => []
  end.
Definition queued q : list T :=
  match nodes q !! head q with Some nd => chain (size (nodes q)) (next nd) (nodes q) | None => [] end.

Lemma chain_ok q hist ih it fuel k :
  qshape q hist ih it → length hist ≤ S k + fuel → chain fuel (hist !! S k) (nodes q) = drop k (linked q).
Proof.
  intros Hq. pose proof (qs_length _ _ _ _ Hq) as Hlen. revert k. induction fuel as [|fuel IH]; intros k Hk; simpl.
  - rewrite drop_ge by lia. by destruct (hist !! S k).
  - destruct (hist !! S k) as [l|] eqn:Hl.
    + destruct (qs_linked _ _ _ _ Hq k l Hl) as (x & v & Hnd & Hv). rewrite Hnd. simpl.
      pose proof (shape_next _ _ _ _ _ _ _ Hq Hl Hnd) as Hx. simpl in Hx. subst x. rewrite IH by lia. symmetry. by apply drop_S.
    + apply lookup_ge_None in Hl. by rewrite drop_ge by lia.
Qed.

Lemma hist_size q hist ih it : qshape q hist ih it → length hist ≤ size (nodes q).
Proof.
  intros Hq. rewrite <-size_dom, <-(size_list_to_set (C := gset positive) hist) by apply (qs_nodup _ _ _ _ Hq).
  apply subseteq_size. intros l [k Hk]%elem_of_list_to_set%list_elem_of_lookup. apply elem_of_dom.
  destruct (qs_next _ _ _ _ Hq k l Hk) as [d Hd]. by eexists.
Qed.

Lemma queued_ok q hist ih it : qshape q hist ih it → queued q = contents ih q.
Proof.
  intros Hq. pose proof (qs_head _ _ _ _ Hq) as Hh. unfold queued. destruct (qs_next _ _ _ _ Hq _ _ Hh) as [d ->].
  pose proof (hist_size _ _ _ _ Hq). apply (chain_ok _ _ ih it); [done|lia].
Qed.

(** The queue is empty when [head] is the last node. *)
Lemma contents_nil q hist ih it :
  qshape q hist ih it → hist !! S ih = None → contents ih q = [].
Proof.
  intros Hq Hn. apply lookup_ge_None in Hn. rewrite (qs_length _ _ _ _ Hq) in Hn.
  unfold contents. apply drop_ge. lia.
Qed.

Lemma contents_cons q hist ih it x :
  qshape q hist ih it → hist !! S ih = Some x →
  ∃ v, linked q !! ih = Some v ∧ contents ih q = v :: contents (S ih) q.
Proof.
  intros Hq Hx. destruct (qs_linked _ _ _ _ Hq ih x Hx) as (_ & v & _ & Hv).
  exists v. split; [done|]. unfold contents. by erewrite drop_S.
Qed.

Lemma observe_idem (l : list T) st : observe l (observe l st) = observe l st.
Proof. destruct st; simpl; rewrite ?orb_assoc, <-?orb_assoc, ?orb_diag; done. Qed.

Lemma ok_observe q hist ih it p st l :
  thread_ok q hist ih it p st → thread_ok q hist ih it p (observe l st).
Proof.
  destruct p, st; simpl; try done.
  - intros (k & m & ? & ? & ? & ? & ? & ? & He). exists k, m. split_and!; try done.
    intros ? ?. by rewrite He.
  - intros (k & ? & ? & Hn). exists k. split_and!; [done..|]. intros ?. by rewrite Hn.
  - intros (k & ? & ? & Hn). exists k. split_and!; [done..|]. intros ?. by rewrite Hn.
Qed.

(** What a thread knows stays true while the queue grows. *)
Lemma ok_later q hist ih it q' hist' ih' it' p st :
  thread_ok q hist ih it p st →
  hist `prefix_of` hist' → ih ≤ ih' → it ≤ it' → linked q `prefix_of` linked q' →
  (hist' ≠ hist → contents ih' q' ≠ []) →
  (∀ n v, private_of p = Some n → private q hist n v → private q' hist' n v) →
  thread_ok q' hist' ih' it' p (observe (contents ih' q') st).
Proof.
  intros Hok Hh Hih Hit Hl Hne Hp.
  assert (∀ k l, hist !! k = Some l → hist' !! k = Some l) as Hk
    by (intros k l ?; by eapply prefix_lookup_Some).
  assert (∀ k v, linked q !! k = Some v → linked q' !! k = Some v) as Hv
    by (intros k v ?; by eapply prefix_lookup_Some).
  assert (∀ k (e n : bool), (is_Some (hist !! S k) → n = true) →
    is_Some (hist' !! S k) → n || negb (is_nil (contents ih' q')) = true) as Hm.
  { intros k e n Hn Hk'. destruct (decide (hist' = hist)) as [->|Hneq].
    - by rewrite Hn.
    - apply Hne in Hneq. destruct (contents ih' q'); [done|]. apply orb_true_r. }
  destruct p, st; simpl in *; try done; eauto.
  - destruct Hok as (? & k & ? & ?). split; [by apply Hp|]. exists k. split; [lia|auto].
  - destruct Hok as (? & k & ? & ? & ?). split; [by apply Hp|]. exists k. split; [lia|auto].
  - destruct Hok as (? & k & ? & ?). split; [by apply Hp|]. exists k. split; [lia|auto].
  - destruct Hok as (? & k & ? & ?). split; [by apply Hp|]. exists k. split; auto.
  - destruct Hok as (-> & k & ? & ?). split; [done|]. exists k. split; auto.
  - destruct Hok as (k & ? & ?). exists k. split; [lia|auto].
  - destruct Hok as (k & m & ? & ? & ? & ? & ?). exists k, m. split_and!; auto; lia.
  - destruct Hok as (k & m & ? & ? & ? & ? & ? & ? & He). exists k, m. split_and!; auto; try lia.
    intros ? ?. by rewrite He.
  - destruct Hok as (k & ? & ?). exists k. split; auto.
  - destruct Hok as (k & ? & ? & ?). exists k. split_and!; auto; lia.
  - destruct Hok as (k & ? & ? & ? & ?). exists k. split_and!; auto; lia.
  - destruct Hok as (k & ? & ? & ?). exists k. split_and!; [lia|auto|eauto].
  - destruct Hok as (k & ? & ? & ?). exists k. split_and!; [lia|auto|eauto].
Qed.

(** One thread moves; the queue may have grown. *)
Lemma sim_update s a hist ih it i p p' q' hist' ih' it' a' st' :
  sim s a hist ih it → threads s !! i = Some p →
  qshape q' hist' ih' it' →
  hist `prefix_of` hist' → ih ≤ ih' → it ≤ it' → linked (queue_of s) `prefix_of` linked q' →
  (hist' ≠ hist → contents ih' q' ≠ []) →
  (∀ j pj n v, j ≠ i → threads s !! j = Some pj → private_of pj = Some n →
     private (queue_of s) hist n v → private q' hist' n v) →
  (∀ n, private_of p' = Some n → private_of p = Some n ∨
     ∀ j pj, threads s !! j = Some pj → private_of pj ≠ Some n) →
  a_queue a' = contents ih' q' →
  a_threads a' = observe (a_queue a') <$> <[i := st']> (a_threads a) →
  thread_ok q' hist' ih' it' p' st' →
  sim (QSys q' (<[i := p']> (threads s))) a' hist' ih' it'.
Proof.
  intros Hs Hi Hq Hh Hih Hit Hl Hne Hpriv Hnew Haq Hat Hok.
  destruct (sim_threads _ _ _ _ _ Hs i p Hi) as (st & Hst & _).
  split; simpl; [done|done| | | |].
  - intros j pj [(-> & <- & _)|[Hji Hj]]%list_lookup_insert_Some.
    + exists (observe (a_queue a') st'). rewrite Hat, list_lookup_fmap, list_lookup_insert_eq
        by (by eapply lookup_lt_Some). split; [done|]. by apply ok_observe.
    + destruct (sim_threads _ _ _ _ _ Hs j pj Hj) as (stj & Hstj & Hokj).
      exists (observe (a_queue a') stj). rewrite Hat, list_lookup_fmap, list_lookup_insert_ne by done.
      rewrite Hstj. split; [done|]. rewrite Haq. eapply ok_later; eauto.
  - rewrite Hat, length_fmap, !length_insert. apply (sim_length _ _ _ _ _ Hs).
  - intros j stj. rewrite Hat, list_lookup_fmap. intros (st0 & _ & ->)%fmap_Some. apply observe_idem.
  - assert (∀ j pj n, j ≠ i → threads s !! j = Some pj → private_of p' = Some n →
              private_of pj = Some n → False) as Hdis.
    { intros j pj n Hji Hj Hp' Hpj. destruct (Hnew n Hp') as [Hp|Hno]; [|by eapply Hno].
      apply Hji. by eapply (sim_private _ _ _ _ _ Hs). }
    intros j k pj pk n [(-> & <- & _)|[? Hj]]%list_lookup_insert_Some
      [(-> & <- & _)|[? Hk]]%list_lookup_insert_Some ??; [done|..].
    + exfalso. by eapply (Hdis k pk n).
    + exfalso. by eapply (Hdis j pj n).
    + by eapply (sim_private _ _ _ _ _ Hs).
Qed.

(** A step of a thread that has no effect on the specification. *)
Lemma aset_same s a hist ih it i st :
  sim s a hist ih it → a_threads a !! i = Some st →
  a_threads a = observe (a_queue a) <$> <[i := st]> (a_threads a).
Proof.
  intros Hs Hi. rewrite list_insert_id by done. apply list_eq. intros j.
  rewrite list_lookup_fmap. destruct (a_threads a !! j) as [stj|] eqn:Hj; [|done]. simpl.
  f_equal. symmetry. by apply (sim_observed _ _ _ _ _ Hs j).
Qed.

(** A step that changes neither: loads and failed compare-exchanges. *)
Lemma sim_quiet s a hist ih it i p p' st :
  sim s a hist ih it → threads s !! i = Some p → a_threads a !! i = Some st →
  (∀ n, private_of p' = Some n → private_of p = Some n) →
  thread_ok (queue_of s) hist ih it p' st →
  sim (QSys (queue_of s) (<[i := p']> (threads s))) a hist ih it.
Proof.
  intros Hs Hi Hst Hp Hok. eapply sim_update; try done; eauto using sim_shape, sim_queue.
  by eapply aset_same.
Qed.

(** A step that only the specification sees: an answer is fixed. *)
Lemma sim_answer s a hist ih it i p p' st' :
  sim s a hist ih it → threads s !! i = Some p →
  (∀ n, private_of p' = Some n → private_of p = Some n) →
  thread_ok (queue_of s) hist ih it p' st' →
  sim (QSys (queue_of s) (<[i := p']> (threads s))) (aset (a_queue a) i st' a) hist ih it.
Proof.
  intros Hs Hi Hp Hok. eapply sim_update; try done; eauto using sim_shape. simpl.
  apply (sim_queue _ _ _ _ _ Hs).
Qed.
End facts.
