(* ===== verification/LockfreeQueueSpec.v ===== *)
(** * LockfreeQueue.cpp: the queue is linearizable

    Every step of the code is matched by at most one step of the specification,
    so that whatever calls and returns a run of the code shows, a run of the
    atomic queue shows too.  This is for types whose move is a copy. *)
From stdpp Require Import base gmap list.
From S2P Require Import Prelude LockfreeQueue LockfreeQueueInv.

Section simulation.
Context {T : Type} (moved : T → T).
Implicit Types (q : LockfreeQueue T) (hist : list positive) (s : qsystem T) (a : aqueue T).

(** The matching step. *)
Definition next_sim a i (p' : qpc T) q' s : Prop :=
  ∃ a' hist ih it, sim (QSys q' (<[i := p']> (threads s))) a' hist ih it ∧ (astep a None a' ∨ a' = a).

Lemma next_same s a hist ih it i p' q' :
  sim (QSys q' (<[i := p']> (threads s))) a hist ih it → next_sim a i p' q' s.
Proof. intros Hs. exists a, hist, ih, it. split; [done|by right]. Qed.

Lemma next_step s a a' hist ih it i p' q' :
  sim (QSys q' (<[i := p']> (threads s))) a' hist ih it → astep a None a' → next_sim a i p' q' s.
Proof. intros Hs Ha. exists a', hist, ih, it. split; [done|by left]. Qed.

(** *** Changes of the queue *)
Lemma shape_alloc q hist ih it n v :
  qshape q hist ih it → n ∉ dom (nodes q) → qshape (set_node n (QNode v None) q) hist ih it.
Proof.
  intros [Hn Hh Ht Ho Hl Hnd Hlk Hlen Hu] Hfr. apply not_elem_of_dom in Hfr. split; simpl; try done.
  - intros k l Hk. destruct (Hn k l Hk) as [d Hd]. exists d. rewrite lookup_insert_ne; congruence.
  - intros k l Hk. destruct (Hlk k l Hk) as (x & w & Hx & Hw). exists x, w.
    rewrite lookup_insert_ne; [done|congruence].
Qed.

Lemma shape_tail q hist ih it m t x fails :
  qshape q hist ih it → hist !! m = Some t → hist !! S m = Some x →
  ∃ it', it ≤ it' ∧ qshape (cas_tail fails t x q) hist ih it'.
Proof.
  intros Hq Hm Hx. unfold cas_tail. case_bool_decide as Ht; [|by exists it].
  destruct fails; [by exists it|]. simpl. exists (S m).
  assert (m = it) as -> by (by eapply hist_inj; [|exact Hm|rewrite <-Ht; apply (qs_tail _ _ _ _ Hq)]).
  destruct Hq. split; [lia|]. split; simpl; try done; lia.
Qed.

(** Linking a new node after the last one. *)
Lemma shape_link q hist ih it t n v nd :
  qshape q hist ih it → hist !! it = Some t → hist !! S it = None → nodes q !! t = Some nd →
  private q hist n v →
  qshape (Queue (<[t := QNode (data nd) (Some n)]> (nodes q)) (head q) (tail q) (linked q ++ [v])
                (unlinked q)) (hist ++ [n]) ih it.
Proof.
  intros [Hn Hh Ht Ho Hl Hnd Hlk Hlen Hu] Hit Hlast Hnode [Hpn Hpo].
  assert (length hist = S it) as Hlen'.
  { apply lookup_ge_None in Hlast. apply lookup_lt_Some in Hit. lia. }
  assert (n ≠ t) as Hnt by (intros ->; apply Hpo; by eapply list_elem_of_lookup_2).
  split; simpl.
  - intros k l Hk. apply lookup_app_Some in Hk as [Hk|[Hge Hk]].
    + destruct (decide (l = t)) as [->|Hlt].
      * assert (k = it) as -> by (by eapply NoDup_lookup). exists (data nd).
        rewrite lookup_insert_eq, lookup_app_r, Hlen', Nat.sub_diag by lia. done.
      * destruct (Hn k l Hk) as [d Hd]. exists d. rewrite lookup_insert_ne, Hd by done.
        rewrite lookup_app_l; [done|]. apply lookup_lt_Some in Hk as Hklt.
        assert (k ≠ it); [|lia]. intros ->. congruence.
    + apply list_lookup_singleton_Some in Hk as [Hk <-]. exists v.
      rewrite lookup_insert_ne, Hpn by done. rewrite lookup_ge_None_2; [done|].
      rewrite length_app. simpl. lia.
  - by apply lookup_app_l_Some.
  - by apply lookup_app_l_Some.
  - done.
  - rewrite length_app. simpl. lia.
  - apply NoDup_app. split; [done|]. split; [set_solver|apply NoDup_singleton].
  - intros k l Hk. apply lookup_app_Some in Hk as [Hk|[Hge Hk]].
    + destruct (Hlk k l Hk) as (x & w & Hx & Hw).
      destruct (decide (l = t)) as [->|Hlt].
      * exists (Some n), w. rewrite lookup_insert_eq. simplify_eq. split; [done|].
        by apply lookup_app_l_Some.
      * exists x, w. rewrite lookup_insert_ne by done. split; [done|]. by apply lookup_app_l_Some.
    + apply list_lookup_singleton_Some in Hk as [Hk <-]. exists None, v.
      rewrite lookup_insert_ne by done. split; [done|]. rewrite lookup_app_r by lia.
      replace (k - length (linked q)) with 0 by lia. done.
  - rewrite !length_app. simpl. lia.
  - rewrite Hu, take_app_le; [done|]. apply lookup_lt_Some in Hh. lia.
Qed.

Lemma shape_unlink q hist ih it x v :
  qshape q hist ih it → S ih ≤ it → hist !! S ih = Some x → linked q !! ih = Some v →
  qshape (Queue (nodes q) x (tail q) (linked q) (unlinked q ++ [v])) hist (S ih) it.
Proof.
  intros [Hn Hh Ht Ho Hl Hnd Hlk Hlen Hu] Hle Hx Hv. split; simpl; try done.
  by rewrite Hu, (take_S_r _ _ v).
Qed.

(** *** Threads that help or swing [tail] *)
Lemma sim_cas_tail s a hist ih it i p p' st m t x fails :
  sim s a hist ih it → threads s !! i = Some p → a_threads a !! i = Some st →
  hist !! m = Some t → hist !! S m = Some x →
  (∀ n, private_of p' = Some n → private_of p = Some n) →
  (∀ it', it ≤ it' → thread_ok (cas_tail fails t x (queue_of s)) hist ih it' p' st) →
  next_sim a i p' (cas_tail fails t x (queue_of s)) s.
Proof.
  intros Hs Hi Hst Hm Hx Hp Hok.
  destruct (shape_tail _ _ _ _ _ _ _ fails (sim_shape _ _ _ _ _ Hs) Hm Hx) as (it' & Hle & Hq).
  assert (linked (cas_tail fails t x (queue_of s)) = linked (queue_of s)) as Hlk
    by (unfold cas_tail; by destruct (_ && _)).
  assert (nodes (cas_tail fails t x (queue_of s)) = nodes (queue_of s)) as Hnd
    by (unfold cas_tail; by destruct (_ && _)).
  apply (next_same _ _ hist ih it'). eapply sim_update; try done; eauto using aset_same.
  - by rewrite Hlk.
  - intros j pj n v _ _ _ [? ?]. split; [by rewrite Hnd|done].
  - rewrite (sim_queue _ _ _ _ _ Hs). unfold contents. by rewrite Hlk.
Qed.

(** *** The operations *)
Lemma sim_alloc s a hist ih it i v :
  sim s a hist ih it → threads s !! i = Some (E0 v) →
  let n := fresh (dom (nodes (queue_of s))) in
  next_sim a i (E1 n) (set_node n (QNode v None) (queue_of s)) s.
Proof.
  intros Hs Hi n. pose proof (is_fresh (dom (nodes (queue_of s)))) as Hn. change (fresh _) with n in Hn.
  destruct (sim_threads _ _ _ _ _ Hs i _ Hi) as (st & Hst & Hok). destruct st; try done.
  simpl in Hok. subst v0. pose proof (sim_shape _ _ _ _ _ Hs) as Hq.
  apply (next_same _ _ hist ih it).
  assert (∀ l, is_Some (nodes (queue_of s) !! l) → l ≠ n) as Hne
    by (intros l Hl ->; apply Hn; by apply elem_of_dom).
  eapply sim_update; try done; eauto using aset_same, shape_alloc.
  - intros j pj n' v' _ _ _ [Hn' ?]. split; [|done]. simpl. rewrite lookup_insert_ne; [done|].
    intros Heq. by apply (Hne n').
  - intros n' [= <-]. right. intros j pj Hj Hpj.
    destruct (sim_threads _ _ _ _ _ Hs j _ Hj) as (stj & _ & Hokj).
    assert (∃ w, private (queue_of s) hist n w) as (w & Hw & _).
    { destruct pj, stj; simplify_eq/=; try done; naive_solver. }
    by apply (Hne n).
  - apply (sim_queue _ _ _ _ _ Hs).
  - simpl. split; [apply lookup_insert_eq|]. intros Hin. apply list_elem_of_lookup in Hin as [k Hk].
    destruct (qs_next _ _ _ _ Hq k n Hk) as [d Hd]. by apply (Hne n).
Qed.

Lemma sim_link s a hist ih it i n t nd nn :
  sim s a hist ih it → threads s !! i = Some (E4 n t) →
  nodes (queue_of s) !! t = Some nd → next nd = None → nodes (queue_of s) !! n = Some nn →
  let q := set_node t (QNode (data nd) (Some n)) (queue_of s) in
  next_sim a i (E6 n t) (Queue (nodes q) (head q) (tail q) (linked q ++ [data nn]) (unlinked q)) s.
Proof.
  intros Hs Hi Ht Hnone Hn q. pose proof (sim_shape _ _ _ _ _ Hs) as Hq.
  destruct (sim_threads _ _ _ _ _ Hs i _ Hi) as (st & Hst & Hok). destruct st; try done.
  destruct Hok as (Hpr & k & Hle & Hk). pose proof Hpr as [Hpn Hpo].
  assert (hist !! S k = None) as Hlast by (by rewrite <-(shape_next _ _ _ _ _ _ _ Hq Hk Ht)).
  assert (k = it) as ->.
  { pose proof (lookup_lt_Some _ _ _ (qs_tail _ _ _ _ Hq)). apply lookup_ge_None in Hlast. lia. }
  assert (nn = QNode v None) as -> by congruence. simpl.
  pose proof (shape_link _ _ _ _ t n v nd Hq Hk Hlast Ht Hpr) as Hq'.
  eapply next_step; [|by apply (a_enqueue a i v)].
  eapply sim_update; try done.
  - by exists [n].
  - by exists [v].
  - intros _. unfold contents. simpl. intros Hnil. apply (f_equal length) in Hnil.
    rewrite length_drop, length_app in Hnil. simpl in Hnil.
    pose proof (qs_order _ _ _ _ Hq). pose proof (qs_length _ _ _ _ Hq).
    pose proof (lookup_lt_Some _ _ _ Hk). lia.
  - intros j pj n' w Hji Hj Hpj [Hn' Ho']. split; simpl.
    + rewrite lookup_insert_ne; [done|]. intros ->. apply Ho'. by eapply list_elem_of_lookup_2.
    + intros Hin%elem_of_app. destruct Hin as [?|Hin]; [done|]. apply list_elem_of_singleton in Hin as ->.
      apply Hji. by eapply (sim_private _ _ _ _ _ Hs).
  - simpl. rewrite (sim_queue _ _ _ _ _ Hs). unfold contents. simpl. rewrite drop_app_le; [done|].
    pose proof (qs_order _ _ _ _ Hq). pose proof (qs_length _ _ _ _ Hq).
    pose proof (lookup_lt_Some _ _ _ Hk). lia.
  - simpl. split; [done|]. exists it. split; [by apply lookup_app_l_Some|].
    apply lookup_ge_None in Hlast. pose proof (lookup_lt_Some _ _ _ Hk).
    rewrite lookup_app_r by lia. by replace (S it - length hist) with 0 by lia.
Qed.

Lemma enqueue_sim s a hist ih it i p fails p' q' :
  sim s a hist ih it → threads s !! i = Some p →
  enqueue_step fails p (queue_of s) = Some (p', q') → next_sim a i p' q' s.
Proof.
  intros Hs Hi Hstep. pose proof (sim_shape _ _ _ _ _ Hs) as Hq.
  destruct (sim_threads _ _ _ _ _ Hs i _ Hi) as (st & Hst & Hok).
  destruct p; try done; simpl in Hstep.
  - injection Hstep as <- <-. by eapply sim_alloc.
  - injection Hstep as <- <-. destruct st; try done.
    eapply next_same, sim_quiet; try done. simpl. split; [done|]. exists it.
    split; [lia|apply (qs_tail _ _ _ _ Hq)].
  - apply bind_Some in Hstep as (nd & Hnd & [= <- <-]). destruct st; try done.
    destruct Hok as (Hpr & k & Hle & Hk).
    eapply next_same, sim_quiet; try done. simpl. split; [done|]. exists k. split; [done|].
    split; [done|]. intros y Hy. by rewrite <-(shape_next _ _ _ _ _ _ _ Hq Hk Hnd).
  - destruct st; try done. destruct Hok as (Hpr & k & Hle & Hk & Hy).
    case_bool_decide; [destruct x|]; injection Hstep as <- <-;
      (eapply next_same, sim_quiet; [done..|simpl; eauto 10]).
  - apply bind_Some in Hstep as (nd & Hnd & Hstep). destruct st; try done.
    destruct (bool_decide (next nd = None) && negb fails) eqn:Hc.
    + apply andb_true_iff in Hc as [Hc _]. apply bool_decide_eq_true in Hc.
      apply bind_Some in Hstep as (nn & Hnn & [= <- <-]). by eapply sim_link.
    + injection Hstep as <- <-. destruct Hok as (Hpr & _). by eapply next_same, sim_quiet.
  - injection Hstep as <- <-. destruct st; try done. destruct Hok as (Hpr & k & Hk & Hx).
    eapply sim_cas_tail; try done. intros it' _. destruct Hpr as [Hpn Hpo]. split; [|done].
    unfold cas_tail. by destruct (_ && _).
  - injection Hstep as <- <-. destruct st; try done. destruct Hok as (-> & k & Hk & Hx).
    eapply sim_cas_tail; try done.
Qed.

(** What is seen of the queue through [next] of an old head. *)
Lemma saw_empty s a hist ih it i e k :
  sim s a hist ih it → a_threads a !! i = Some (ADeq e) → k ≤ ih → is_Some (hist !! k) →
  hist !! S k = None → e = true.
Proof.
  intros Hs Hst Hle [l Hk] Hn. pose proof (sim_shape _ _ _ _ _ Hs) as Hq.
  assert (k = ih) as ->.
  { pose proof (lookup_lt_Some _ _ _ (qs_head _ _ _ _ Hq)). apply lookup_ge_None in Hn. lia. }
  pose proof (sim_observed _ _ _ _ _ Hs i _ Hst) as Ho.
  rewrite (sim_queue _ _ _ _ _ Hs), (contents_nil _ _ _ _ Hq Hn) in Ho. simpl in Ho.
  injection Ho as Ho. by rewrite <-Ho, orb_true_r.
Qed.

Lemma saw_empty_flags s a hist ih it i e n k :
  sim s a hist ih it → a_threads a !! i = Some (AEmpty e n) → k ≤ ih → is_Some (hist !! k) →
  hist !! S k = None → e = true.
Proof.
  intros Hs Hst Hle [l Hk] Hn. pose proof (sim_shape _ _ _ _ _ Hs) as Hq.
  assert (k = ih) as ->.
  { pose proof (lookup_lt_Some _ _ _ (qs_head _ _ _ _ Hq)). apply lookup_ge_None in Hn. lia. }
  pose proof (sim_observed _ _ _ _ _ Hs i _ Hst) as Ho.
  rewrite (sim_queue _ _ _ _ _ Hs), (contents_nil _ _ _ _ Hq Hn) in Ho. simpl in Ho.
  injection Ho as Ho _. by rewrite <-Ho, orb_true_r.
Qed.

Lemma saw_nonempty s a hist ih it i e n :
  sim s a hist ih it → a_threads a !! i = Some (AEmpty e n) → is_Some (hist !! S ih) → n = true.
Proof.
  intros Hs Hst [x Hx]. pose proof (sim_shape _ _ _ _ _ Hs) as Hq.
  destruct (contents_cons _ _ _ _ _ Hq Hx) as (v & _ & Hc).
  pose proof (sim_observed _ _ _ _ _ Hs i _ Hst) as Ho.
  rewrite (sim_queue _ _ _ _ _ Hs), Hc in Ho. simpl in Ho. injection Ho as _ Ho.
  by rewrite <-Ho, orb_true_r.
Qed.

Lemma sim_unlink s a hist ih it i h x v :
  sim s a hist ih it → threads s !! i = Some (D7 h x v) → head (queue_of s) = h →
  let q := queue_of s in
  next_sim a i (Ret (Dequeued (Some v))) (Queue (nodes q) x (tail q) (linked q) (unlinked q ++ [v])) s.
Proof.
  intros Hs Hi <- q. pose proof (sim_shape _ _ _ _ _ Hs) as Hq.
  destruct (sim_threads _ _ _ _ _ Hs i _ Hi) as (st & Hst & Hok). destruct st as [| |e| |]; try done.
  destruct Hok as (k & Hle & Hk & Hx & Hv).
  assert (k = ih) as -> by (by eapply hist_inj; [|exact Hk|apply (qs_head _ _ _ _ Hq)]).
  destruct (contents_cons _ _ _ _ _ Hq Hx) as (v' & Hv' & Hc).
  assert (v' = v) as -> by congruence.
  eapply (next_step _ _ _ hist (S ih) it);
    [|apply (a_dequeue a i e v (contents (S ih) q)); [done|by rewrite (sim_queue _ _ _ _ _ Hs)]].
  eapply sim_update; try done; [by apply shape_unlink|lia].
Qed.

Lemma dequeue_sim s a hist ih it i p fails p' q' :
  (∀ v, moved v = v) →
  sim s a hist ih it → threads s !! i = Some p →
  dequeue_step moved fails p (queue_of s) = Some (p', q') → next_sim a i p' q' s.
Proof.
  intros Hmoved Hs Hi Hstep. pose proof (sim_shape _ _ _ _ _ Hs) as Hq.
  destruct (sim_threads _ _ _ _ _ Hs i _ Hi) as (st & Hst & Hok).
  destruct p; try done; simpl in Hstep; (destruct st as [| |e| |]; try done).
  - injection Hstep as <- <-. eapply next_same, sim_quiet; try done. simpl. exists ih.
    split; [done|apply (qs_head _ _ _ _ Hq)].
  - injection Hstep as <- <-. destruct Hok as (k & Hle & Hk). pose proof (qs_order _ _ _ _ Hq).
    eapply next_same, sim_quiet; try done. simpl. exists k, it.
    split_and!; [lia|lia|done|done|apply (qs_tail _ _ _ _ Hq)].
  - apply bind_Some in Hstep as (nd & Hnd & [= <- <-]).
    destruct Hok as (k & m & ? & ? & ? & Hk & Hm).
    eapply next_same, sim_quiet; try done. simpl. exists k, m.
    rewrite (shape_next _ _ _ _ _ _ _ Hq Hk Hnd). split_and!; try done.
    intros Hnone _. by eapply saw_empty.
  - destruct Hok as (k & m & Hkh & Hkm & Hmt & Hk & Hm & Hy & He).
    case_bool_decide; [case_bool_decide as Hht; destruct x as [x|]|]; injection Hstep as <- <-;
      try (by eapply next_same, sim_quiet).
    + eapply next_same, sim_quiet; try done. simpl. subst t.
      assert (k = m) as -> by (by eapply hist_inj). eauto.
    + rewrite He in Hst by done. eapply next_step; [|by apply (a_dequeue_none a i)].
      by eapply sim_answer.
    + eapply next_same, sim_quiet; try done. simpl. exists k. split_and!; [|done|by apply Hy].
      assert (k ≠ m) by congruence. lia.
  - injection Hstep as <- <-. destruct Hok as (m & Hm & Hx). by eapply sim_cas_tail.
  - apply bind_Some in Hstep as (nd & Hnd & [= <- <-]). destruct Hok as (k & Hle & Hk & Hx).
    assert (set_node x (QNode (moved (data nd)) (next nd)) (queue_of s) = queue_of s) as ->.
    { unfold set_node. rewrite Hmoved. destruct nd. rewrite insert_id by done. by destruct (queue_of s). }
    eapply next_same, sim_quiet; try done. simpl. exists k. split_and!; try done.
    destruct (qs_linked _ _ _ _ Hq k x Hx) as (y & w & Hw & Hv). by simplify_eq.
  - destruct (bool_decide (head (queue_of s) = h) && negb fails) eqn:Hc; injection Hstep as <- <-.
    + apply andb_true_iff in Hc as [Hc%bool_decide_eq_true _]. by eapply sim_unlink.
    + by eapply next_same, sim_quiet.
Qed.

Lemma empty_sim s a hist ih it i p p' q' :
  sim s a hist ih it → threads s !! i = Some p →
  empty_step p (queue_of s) = Some (p', q') → next_sim a i p' q' s.
Proof.
  intros Hs Hi Hstep. pose proof (sim_shape _ _ _ _ _ Hs) as Hq.
  destruct (sim_threads _ _ _ _ _ Hs i _ Hi) as (st & Hst & Hok).
  destruct p; try done; simpl in Hstep; (destruct st as [| | |e n|]; try done).
  - injection Hstep as <- <-. eapply next_same, sim_quiet; try done. simpl. exists ih.
    split_and!; [done|apply (qs_head _ _ _ _ Hq)|]. by eapply saw_nonempty.
  - injection Hstep as <- <-. destruct Hok as (k & Hle & Hk & Hn). case_bool_decide as Ht.
    + eapply next_same, sim_quiet; try done. simpl. eauto.
    + eapply next_step; [|apply (a_empty a i e n false); [done|]]; [by eapply sim_answer|]. apply Hn.
      apply lookup_lt_is_Some. pose proof (lookup_lt_Some _ _ _ (qs_tail _ _ _ _ Hq)).
      assert (k ≠ it); [|pose proof (qs_order _ _ _ _ Hq); lia].
      intros ->. pose proof (qs_tail _ _ _ _ Hq). congruence.
  - apply bind_Some in Hstep as (nd & Hnd & [= <- <-]). destruct Hok as (k & Hle & Hk & Hn).
    rewrite (shape_next _ _ _ _ _ _ _ Hq Hk Hnd).
    eapply next_step; [|apply (a_empty a i e n); [done|]]; [by eapply sim_answer|].
    case_bool_decide as Hnone; [by eapply saw_empty_flags|]. apply Hn. by destruct (hist !! S k).
Qed.

Lemma sim_step s a hist ih it l s' :
  (∀ v, moved v = v) →
  sim s a hist ih it → qstep moved s l s' →
  ∃ a' hist' ih' it', sim s' a' hist' ih' it' ∧ (astep a l a' ∨ (l = None ∧ a' = a)).
Proof.
  intros Hmoved Hs [i c Hi|i r Hi|i fails p p' q' Hi Hstep].
  - destruct (sim_threads _ _ _ _ _ Hs i _ Hi) as (st & Hst & Hok). destruct st; try done.
    eexists _, hist, ih, it. split; [|left; by apply a_call].
    apply (sim_answer s a hist ih it i Idle); try done; by destruct c.
  - destruct (sim_threads _ _ _ _ _ Hs i _ Hi) as (st & Hst & Hok). destruct st; try done.
    simpl in Hok. subst. eexists _, hist, ih, it. split; [|left; by apply a_return].
    by apply (sim_answer s a hist ih it i (Ret r0)).
  - assert (next_sim a i p' q' s) as (a' & hist' & ih' & it' & Hs' & Ha).
    { destruct p; try done; simpl in Hstep;
        first [by eapply (enqueue_sim _ _ _ _ _ _ _ fails)|by eapply (dequeue_sim _ _ _ _ _ _ _ fails)
              |by eapply empty_sim]. }
    exists a', hist', ih', it'. naive_solver.
Qed.

Lemma sim_start (T0 : T) n : sim (qstart T0 n) (astart n) [1%positive] 0 0.
Proof.
  split; simpl.
  - split; simpl; try done; [|lia|by apply NoDup_singleton].
    intros k l Hk. apply list_lookup_singleton_Some in Hk as [-> <-]. exists T0.
    by rewrite lookup_singleton_eq.
  - done.
  - intros i p [-> Hi]%lookup_replicate. exists AIdle. split; [|done]. by apply lookup_replicate.
  - by rewrite !length_replicate.
  - by intros i st [-> _]%lookup_replicate.
  - by intros i j p p' m [-> _]%lookup_replicate.
Qed.

Lemma sim_run (T0 : T) n tr s :
  (∀ v, moved v = v) → qrun moved (qstart T0 n) tr s →
  ∃ a hist ih it, arun (astart n) tr a ∧ sim s a hist ih it.
Proof.
  intros Hmoved. induction 1 as [|tr s l s' _ (a & hist & ih & it & Ha & Hs) Hstep].
  - eexists _, _, _, _. split; [constructor|apply sim_start].
  - destruct (sim_step _ _ _ _ _ _ _ Hmoved Hs Hstep) as (a' & hist' & ih' & it' & Hs' & Ha').
    exists a', hist', ih', it'. split; [|done].
    destruct Ha' as [Ha'|[-> ->]]; [by econstructor|]. simpl. by rewrite app_nil_r.
Qed.
End simulation.

(** ** Progress of a thread that runs alone *)
Section progress.
Context {T : Type} (moved : T → T).
Implicit Types (q : LockfreeQueue T) (hist : list positive) (p : qpc T).

Definition finishes (fuel : nat) p q : Prop := is_Some (solo moved fuel p q).

Lemma finishes_ret fuel r q : finishes fuel (Ret r) q.
Proof. by destruct fuel; eexists. Qed.

Lemma finishes_step fuel p q p' q' :
  op_step moved false p q = Some (p', q') → finishes fuel p' q' → finishes (S fuel) p q.
Proof. intros Hs [r Hr]. exists r. destruct p; try done; cbn [solo]; by rewrite Hs. Qed.

Lemma finishes_mono fuel fuel' p q : finishes fuel p q → fuel ≤ fuel' → finishes fuel' p q.
Proof.
  revert fuel' p q. induction fuel as [|fuel IH]; intros fuel' p q Hf Hle.
  { destruct p; try (by destruct Hf); apply finishes_ret. }
  destruct fuel' as [|fuel']; [lia|].
  destruct (op_step moved false p q) as [[p' q']|] eqn:Hs.
  - eapply finishes_step; [done|]. apply IH; [|lia].
    destruct p; try done; cbn [finishes solo] in Hf; unfold finishes in Hf; cbn [solo] in Hf;
      by rewrite Hs in Hf.
  - destruct p; try apply finishes_ret; unfold finishes in Hf; cbn [solo] in Hf;
      rewrite Hs in Hf; by destruct Hf.
Qed.

(** Enqueueing from the start of the loop, when [tail] is the last node. *)
Lemma enqueue_last q hist ih it n v :
  qshape q hist ih it → private q hist n v → hist !! S it = None → finishes 5 (E1 n) q.
Proof.
  intros Hq [Hn Ho] Hlast. destruct (qs_next _ _ _ _ Hq it _ (qs_tail _ _ _ _ Hq)) as [d Hd].
  rewrite Hlast in Hd.
  eapply finishes_step; [reflexivity|]. eapply finishes_step; [simpl; by rewrite Hd|].
  eapply finishes_step; [simpl; by rewrite bool_decide_eq_true_2|].
  eapply finishes_step; [simpl; rewrite Hd; simpl; by rewrite Hn|].
  eapply finishes_step; [reflexivity|]. apply finishes_ret.
Qed.

Lemma enqueue_loop q hist ih it n v :
  qshape q hist ih it → private q hist n v → finishes 9 (E1 n) q.
Proof.
  intros Hq Hp. destruct (hist !! S it) as [x|] eqn:Hx.
  - destruct (qs_next _ _ _ _ Hq it _ (qs_tail _ _ _ _ Hq)) as [d Hd]. rewrite Hx in Hd.
    eapply finishes_step; [reflexivity|]. eapply finishes_step; [simpl; by rewrite Hd|].
    eapply finishes_step; [simpl; by rewrite bool_decide_eq_true_2|].
    eapply finishes_step; [reflexivity|]. unfold cas_tail. rewrite bool_decide_eq_true_2 by done. simpl.
    eapply (enqueue_last _ hist ih (S it)); [|exact Hp|].
    + destruct Hq. split; simpl; try done; lia.
    + apply lookup_ge_None. pose proof (qs_lag _ _ _ _ Hq). lia.
  - eapply finishes_mono; [by eapply enqueue_last|lia].
Qed.

(** Dequeueing from the start of the loop. *)
Lemma dequeue_behind q hist ih it :
  qshape q hist ih it → ih < it → finishes 6 D1 q.
Proof.
  intros Hq Hlt. destruct (qs_next _ _ _ _ Hq ih _ (qs_head _ _ _ _ Hq)) as [d Hd].
  assert (head q ≠ tail q) as Hne.
  { intros Heq. assert (ih = it); [|lia]. eapply hist_inj; [done|apply (qs_head _ _ _ _ Hq)|].
    rewrite Heq. apply (qs_tail _ _ _ _ Hq). }
  destruct (hist !! S ih) as [x|] eqn:Hx.
  2:{ apply lookup_ge_None in Hx. pose proof (lookup_lt_Some _ _ _ (qs_tail _ _ _ _ Hq)). lia. }
  destruct (qs_next _ _ _ _ Hq (S ih) x Hx) as [w Hw].
  do 2 (eapply finishes_step; [reflexivity|]). eapply finishes_step; [simpl; by rewrite Hd|].
  eapply finishes_step; [simpl; by rewrite bool_decide_eq_true_2, bool_decide_eq_false_2|].
  eapply finishes_step; [simpl; by rewrite Hw|].
  eapply finishes_step; [simpl; by rewrite bool_decide_eq_true_2|]. apply finishes_ret.
Qed.

Lemma dequeue_loop q hist ih it : qshape q hist ih it → finishes 11 D1 q.
Proof.
  intros Hq. destruct (decide (ih < it)) as [Hlt|Hge].
  { eapply finishes_mono; [by eapply dequeue_behind|lia]. }
  assert (it = ih) as -> by (pose proof (qs_order _ _ _ _ Hq); lia).
  assert (head q = tail q) as Hht.
  { pose proof (qs_head _ _ _ _ Hq). pose proof (qs_tail _ _ _ _ Hq). congruence. }
  destruct (qs_next _ _ _ _ Hq ih _ (qs_head _ _ _ _ Hq)) as [d Hd].
  do 2 (eapply finishes_step; [reflexivity|]). eapply finishes_step; [simpl; by rewrite Hd|].
  destruct (hist !! S ih) as [x|] eqn:Hx; simpl.
  - eapply finishes_step; [simpl; by rewrite !bool_decide_eq_true_2|].
    eapply finishes_step; [reflexivity|]. unfold cas_tail. rewrite bool_decide_eq_true_2 by done. simpl.
    eapply (dequeue_behind _ hist ih (S ih)); [|lia]. destruct Hq. split; simpl; try done; lia.
  - eapply finishes_step; [simpl; by rewrite !bool_decide_eq_true_2|]. apply finishes_ret.
Qed.

(** Whatever a thread knows of the past, it gets back to the start of its loop. *)
Lemma finishes_E5 q hist ih it n v m t x :
  qshape q hist ih it → private q hist n v → hist !! m = Some t → hist !! S m = Some x →
  finishes 10 (E5 n t x) q.
Proof.
  intros Hq Hp Hm Hx. destruct (shape_tail _ _ _ _ _ _ _ false Hq Hm Hx) as (it' & _ & Hq').
  eapply finishes_step; [reflexivity|]. eapply (enqueue_loop _ hist ih it' n v Hq').
  destruct Hp. split; [|done]. unfold cas_tail. by destruct (_ && _).
Qed.

Lemma finishes_E4 q hist ih it n v k t :
  qshape q hist ih it → private q hist n v → hist !! k = Some t → finishes 10 (E4 n t) q.
Proof.
  intros Hq Hp Hk. destruct (qs_next _ _ _ _ Hq k t Hk) as [d Hd].
  pose proof (enqueue_loop q hist ih it n v Hq Hp) as H1. destruct Hp as [Hn _].
  destruct (hist !! S k) eqn:Hx.
  - eapply finishes_step; [simpl; by rewrite Hd|done].
  - eapply finishes_step; [simpl; rewrite Hd; simpl; by rewrite Hn|].
    eapply finishes_step; [reflexivity|]. apply finishes_ret.
Qed.

Lemma finishes_E3 q hist ih it n v k t x :
  qshape q hist ih it → private q hist n v → hist !! k = Some t →
  (∀ y, x = Some y → hist !! S k = Some y) → finishes 11 (E3 n t x) q.
Proof.
  intros Hq Hp Hk Hy. destruct (decide (t = tail q)) as [Ht|Ht].
  - destruct x as [x|]; (eapply finishes_step; [simpl; by rewrite bool_decide_eq_true_2|]);
      [eapply finishes_E5|eapply finishes_E4]; eauto.
  - eapply finishes_step; [simpl; by rewrite bool_decide_eq_false_2|].
    eapply finishes_mono; [by eapply enqueue_loop|lia].
Qed.

Lemma enqueue_progress q hist ih it p st :
  qshape q hist ih it → thread_ok q hist ih it p st → is_Some (private_of p) → finishes 12 p q.
Proof.
  intros Hq Hok [n Hn]. destruct p, st; try done; simpl in Hok.
  - eapply finishes_mono; [by eapply enqueue_loop|lia].
  - destruct Hok as (Hp & k & _ & Hk). destruct (qs_next _ _ _ _ Hq k t Hk) as [d Hd].
    eapply finishes_step; [simpl; by rewrite Hd|]. eapply finishes_E3; eauto.
  - destruct Hok as (Hp & k & _ & Hk & Hy).
    eapply finishes_mono; [by eapply finishes_E3|lia].
  - destruct Hok as (Hp & k & _ & Hk). eapply finishes_mono; [by eapply finishes_E4|lia].
  - destruct Hok as (Hp & k & Hk & Hx). eapply finishes_mono; [by eapply finishes_E5|lia].
Qed.

Lemma dequeue_progress q hist ih it p e :
  (∀ v, moved v = v) →
  qshape q hist ih it → thread_ok q hist ih it p (ADeq e) → finishes 16 p q.
Proof.
  intros Hmoved Hq Hok. pose proof (dequeue_loop q hist ih it Hq) as HD1.
  assert (∀ h x v, finishes 12 (D7 h x v) q) as HD7.
  { intros h x v. destruct (decide (head q = h)).
    - eapply finishes_step; [simpl; by rewrite bool_decide_eq_true_2|]. apply finishes_ret.
    - eapply finishes_step; [simpl; by rewrite bool_decide_eq_false_2|done]. }
  assert (∀ k h x, hist !! S k = Some x → finishes 13 (D6 h x) q) as HD6.
  { intros k h x Hx. destruct (qs_next _ _ _ _ Hq (S k) x Hx) as [d Hd].
    eapply finishes_step; [simpl; by rewrite Hd|]. simpl. rewrite Hmoved.
    unfold set_node. rewrite insert_id by done. destruct q. apply HD7. }
  assert (∀ m t x, hist !! m = Some t → hist !! S m = Some x → finishes 12 (D5 t x) q) as HD5.
  { intros m t x Hm Hx. destruct (shape_tail _ _ _ _ _ _ _ false Hq Hm Hx) as (it' & _ & Hq').
    eapply finishes_step; [reflexivity|]. by eapply dequeue_loop. }
  assert (∀ k h m t x, hist !! k = Some h → hist !! m = Some t →
    (∀ y, x = Some y → hist !! S k = Some y) → finishes 14 (D4 h t x) q) as HD4.
  { intros k h m t x Hk Hm Hx.
    destruct (op_step moved false (D4 h t x) q) as [[p' q']|] eqn:Hs.
    2:{ simpl in Hs. repeat case_bool_decide; destruct x; done. }
    eapply finishes_step; [exact Hs|]. simpl in Hs.
    repeat case_bool_decide; destruct x as [x|]; simplify_eq; try apply finishes_ret;
      try (eapply finishes_mono; [exact HD1|lia]).
    - assert (k = m) as -> by (by eapply hist_inj). eapply finishes_mono; [by eapply HD5; eauto|lia].
    - by eapply HD6; eauto. }
  assert (∀ k h m t, hist !! k = Some h → hist !! m = Some t → finishes 15 (D3 h t) q) as HD3.
  { intros k h m t Hk Hm. destruct (qs_next _ _ _ _ Hq k h Hk) as [d Hd].
    eapply finishes_step; [simpl; by rewrite Hd|]. eapply HD4; eauto. }
  destruct p; try done; simpl in Hok.
  - eapply finishes_mono; [exact HD1|lia].
  - destruct Hok as (k & _ & Hk). eapply (finishes_step 15); [reflexivity|].
    eapply HD3; [done|apply (qs_tail _ _ _ _ Hq)].
  - destruct Hok as (k & m & _ & _ & _ & Hk & Hm). eapply finishes_mono; [by eapply HD3|lia].
  - destruct Hok as (k & m & _ & _ & _ & Hk & Hm & Hx & _).
    eapply finishes_mono; [by eapply HD4|lia].
  - destruct Hok as (m & Hm & Hx). eapply finishes_mono; [by eapply HD5|lia].
  - destruct Hok as (k & _ & _ & Hx). eapply finishes_mono; [by eapply HD6|lia].
  - eapply finishes_mono; [apply HD7|lia].
Qed.

Lemma empty_progress q hist ih it p e n :
  qshape q hist ih it → thread_ok q hist ih it p (AEmpty e n) → finishes 3 p q.
Proof.
  intros Hq Hok.
  assert (∀ k h, hist !! k = Some h → finishes 1 (M3 h) q) as H3.
  { intros k h Hk. destruct (qs_next _ _ _ _ Hq k h Hk) as [d Hd].
    eapply finishes_step; [simpl; by rewrite Hd|]. apply finishes_ret. }
  assert (∀ k h, hist !! k = Some h → finishes 2 (M2 h) q) as H2.
  { intros k h Hk. eapply finishes_step; [reflexivity|].
    case_bool_decide; [by eapply H3|apply finishes_ret]. }
  destruct p; try done; simpl in Hok.
  - eapply finishes_step; [reflexivity|]. eapply H2, (qs_head _ _ _ _ Hq).
  - destruct Hok as (k & _ & Hk & _). eapply finishes_mono; [by eapply H2|lia].
  - destruct Hok as (k & _ & Hk & _). eapply finishes_mono; [by eapply H3|lia].
Qed.
End progress.

(** ** Theorems *)
Section theorems.
Context {T : Type} (T0 : T) (moved : T → T).
Hypothesis moved_id : ∀ v, moved v = v.
Implicit Types (s : qsystem T).

(** C13: The queue is linearizable: the calls and returns of any run, however
    the threads are interleaved and whichever compare-exchanges fail, are
    those of a run of the queue whose operations take effect at one instant
    between call and return, and what it holds then is what was linked and not
    yet unlinked.  For a type whose move is a copy, like the [int] of the test. *)
Theorem queue_linearizable n tr s :
  qrun moved (qstart T0 n) tr s →
  ∃ a, arun (astart n) tr a ∧ linked (queue_of s) = unlinked (queue_of s) ++ a_queue a.
Proof.
  intros Hr. destruct (sim_run _ _ _ _ _ moved_id Hr) as (a & hist & ih & it & Ha & Hs).
  exists a. split; [done|]. rewrite (sim_queue _ _ _ _ _ Hs). unfold contents.
  rewrite (qs_unlinked _ _ _ _ (sim_shape _ _ _ _ _ Hs)). by rewrite take_drop.
Qed.

(** In every reachable state the nodes linked so far form one acyclic list
    that ends in null; [head] and [tail] are on it, [head] not behind [tail],
    which is the last node or the one before; the values behind [head] are
    those linked and not yet unlinked, in the order of linking. *)
Theorem queue_shape n tr s :
  qrun moved (qstart T0 n) tr s → ∃ hist ih it, qshape (queue_of s) hist ih it.
Proof.
  intros Hr. destruct (sim_run _ _ _ _ _ moved_id Hr) as (a & hist & ih & it & _ & Hs).
  exists hist, ih, it. apply (sim_shape _ _ _ _ _ Hs).
Qed.

(** A thread that runs alone finishes, whatever the others were doing. *)
Lemma sim_finishes s a hist ih it i p :
  sim s a hist ih it → threads s !! i = Some p → p ≠ Idle → finishes moved 16 p (queue_of s).
Proof.
  intros Hs Hi Hp. destruct (sim_threads _ _ _ _ _ Hs i p Hi) as (st & _ & Hok).
  pose proof (sim_shape _ _ _ _ _ Hs) as Hq.
  destruct p; try done; try apply finishes_ret;
    try (eapply finishes_mono; [by eapply enqueue_progress|lia]);
    destruct st; try done; try (by eapply dequeue_progress);
    try (eapply finishes_mono; [by eapply empty_progress|lia]).
  - set (l := fresh (dom (nodes (queue_of s)))).
    pose proof (is_fresh (dom (nodes (queue_of s)))) as Hl. change (fresh _) with l in Hl.
    eapply (finishes_step _ 15); [reflexivity|]. eapply finishes_mono;
      [eapply (enqueue_loop moved _ hist ih it l v); [by apply shape_alloc|]|lia].
    split; [apply lookup_insert_eq|]. intros [k Hk]%list_elem_of_lookup. apply Hl, elem_of_dom.
    destruct (qs_next _ _ _ _ Hq k l Hk) as [d Hd]. by eexists.
  - eapply (finishes_step _ 15); [reflexivity|apply finishes_ret].
Qed.

(** C15: No thread is ever stuck behind another: from every reachable state, a
    thread that runs alone, with compare-exchanges that do not fail
    spuriously, finishes its operation within 16 of its own steps, whatever
    the other threads were doing when they stopped.  For a type whose move is a
    copy, like the [int] of the test. *)
Theorem queue_obstruction_free n tr s i p :
  qrun moved (qstart T0 n) tr s → threads s !! i = Some p → p ≠ Idle →
  ∃ r q', solo moved 16 p (queue_of s) = Some (r, q').
Proof.
  intros Hr Hi Hp. destruct (sim_run _ _ _ _ _ moved_id Hr) as (a & hist & ih & it & _ & Hs).
  destruct (sim_finishes s a hist ih it i p Hs Hi Hp) as [[r q'] H]. by exists r, q'.
Qed.
End theorems.

(** ** Schedules, for witnesses *)
Inductive qaction (T : Type) := QCall (i : nat) (c : call T) | QReturn (i : nat) | QOp (i : nat) (fails : bool).
Arguments QCall {T} i c.
Arguments QReturn {T} i.
Arguments QOp {T} i fails.

Section schedules.
Context {T : Type} (moved : T → T).

Definition qact (x : qaction T) (s : qsystem T) : option (option (visible T) * qsystem T) :=
  match x with
  | QCall i c =>
      match threads s !! i with
      | Some Idle => Some (Some (Call i c), QSys (queue_of s) (<[i := start_call c]> (threads s)))
      | _ => None
      end
  | QReturn i =>
      match threads s !! i with
      | Some (Ret r) => Some (Some (Return i r), QSys (queue_of s) (<[i := Idle]> (threads s)))
      | _ => None
      end
  | QOp i fails =>
      p ← threads s !! i;
      '(p', q') ← op_step moved fails p (queue_of s);
      Some (None, QSys q' (<[i := p']> (threads s)))
  end.

Fixpoint qexec (l : list (qaction T)) (tr : list (visible T)) (s : qsystem T)
  : option (list (visible T) * qsystem T) :=
  match l with
  | [] => Some (tr, s)
  | x :: l' => '(v, s) ← qact x s; qexec l' (tr ++ option_list v) s
  end.

Lemma qact_step x s v s' : qact x s = Some (v, s') → qstep moved s v s'.
Proof.
  destruct x as [i c|i|i fails]; simpl.
  - destruct (threads s !! i) as [[]|] eqn:Hi; try done. intros [= <- <-]. by constructor.
  - destruct (threads s !! i) as [[]|] eqn:Hi; try done. intros [= <- <-]. by constructor.
  - intros (p & Hi & ([p' q'] & Hp & [= <- <-])%bind_Some)%bind_Some. by econstructor.
Qed.

Lemma qexec_run l s0 tr s tr' s' :
  qrun moved s0 tr s → qexec l tr s = Some (tr', s') → qrun moved s0 tr' s'.
Proof.
  revert tr s. induction l as [|x l IH]; simpl; intros tr s Hr; [by intros [= <- <-]|].
  intros ([v s1] & Hx & Hl)%bind_Some. eapply IH; [|exact Hl]. econstructor; [done|].
  by eapply qact_step.
Qed.
End schedules.

(** Two threads: both try to link, the second one helps the first. *)
Definition sample_schedule : list (qaction Z) :=
  [QCall 0 (Enqueue 5%Z); QCall 1 (Enqueue 6%Z)] ++
  replicate 5 (QOp 0 false) ++ replicate 10 (QOp 1 false) ++ [QOp 0 false; QReturn 1] ++
  [QCall 1 Dequeue] ++ replicate 6 (QOp 1 false) ++ [QReturn 1; QReturn 0; QCall 0 Dequeue; QOp 0 false].
Definition sample_run : list (visible Z) * qsystem Z :=
  default ([], qstart 0%Z 2) (qexec id sample_schedule [] (qstart 0%Z 2)).

Lemma sample_qrun : qrun id (qstart 0%Z 2) sample_run.1 sample_run.2.
Proof. eapply (qexec_run id sample_schedule); [constructor|]. vm_compute. reflexivity. Qed.

Lemma queue_linearizable_witness :
  (∀ v : Z, id v = v) ∧ qrun id (qstart 0%Z 2) sample_run.1 sample_run.2 ∧
  sample_run.1 = [Call 0 (Enqueue 5%Z); Call 1 (Enqueue 6%Z); Return 1 Enqueued; Call 1 Dequeue;
                  Return 1 (Dequeued (Some 5%Z)); Return 0 Enqueued; Call 0 Dequeue] ∧
  ∃ a, arun (astart 2) sample_run.1 a ∧
       linked (queue_of sample_run.2) = unlinked (queue_of sample_run.2) ++ a_queue a.
Proof.
  split; [done|]. split; [exact sample_qrun|]. split; [vm_compute; reflexivity|].
  exact (queue_linearizable 0%Z id (λ v, eq_refl) 2 _ _ sample_qrun).
Defined.

Lemma queue_shape_witness :
  (∀ v : Z, id v = v) ∧ qrun id (qstart 0%Z 2) sample_run.1 sample_run.2 ∧
  ∃ hist ih it, qshape (queue_of sample_run.2) hist ih it.
Proof.
  split; [done|]. split; [exact sample_qrun|].
  exact (queue_shape 0%Z id (λ v, eq_refl) 2 _ _ sample_qrun).
Defined.

Lemma queue_obstruction_free_witness :
  qrun id (qstart 0%Z 2) sample_run.1 sample_run.2 ∧
  ∃ h, threads sample_run.2 !! 0 = Some (D2 h) ∧
  ∃ r q', solo id 16 (D2 h) (queue_of sample_run.2) = Some (r, q').
Proof.
  split; [exact sample_qrun|].
  assert (threads sample_run.2 !! 0 = Some (D2 (head (queue_of sample_run.2)))) as Hi
    by (vm_compute; reflexivity).
  eexists. split; [exact Hi|].
  exact (queue_obstruction_free 0%Z id (λ v, eq_refl) 2 _ _ 0 _ sample_qrun Hi ltac:(done)).
Defined.

(** A type whose move empties its source, here by leaving 0: one spurious
    failure of the compare-exchange on [head] after the move, and the value is
    lost. *)
Example dequeue_loses_value :
  fst <$> qexec (λ _, 0%Z)
    ([QCall 0 (Enqueue 5%Z)] ++ replicate 6 (QOp 0 false) ++ [QReturn 0; QCall 0 Dequeue] ++
     replicate 5 (QOp 0 false) ++ [QOp 0 true] ++ replicate 6 (QOp 0 false) ++ [QReturn 0])
    [] (qstart 0%Z 1)
  = Some [Call 0 (Enqueue 5%Z); Return 0 Enqueued; Call 0 Dequeue; Return 0 (Dequeued (Some 0%Z))].
Proof. vm_compute. reflexivity. Qed.

(** The sequential part of the test prints what its comments promise. *)
Example test_sequential_passes :
  fst <$> test_sequential = Some [Dequeued (Some 1%Z); Dequeued (Some 2%Z); Dequeued (Some 3%Z);
                          Dequeued None; IsEmpty true].
Proof. vm_compute. reflexivity. Qed.
