(* ===== verification/LockfreeTest.v ===== *)
(** * LockfreeQueue.cpp: the concurrent part of the test

    Producers, consumers and the main thread as programs that call the queue:
    the same programs run on the queue of the code and on its specification,
    and the simulation between the two carries over. *)
From stdpp Require Import base gmap list.
From S2P Require Import Prelude LockfreeQueue LockfreeQueueInv LockfreeQueueSpec.

(** Between two calls (the condition of the loop), inside a call of the queue,
    and before [fetch_add]. *)
Inductive place := at_loop | in_call | at_add.

(** The lambdas of the threads.  A consumer's [local_consumed] is the length of
    [got], the values it was given; [i] and [j] are a producer's variables. *)
Inductive prog := Consumer (got : list Z) (at_ : place) | Producer (i j : nat) (at_ : place).

(** The main thread: at the joins, in the last call of [empty], and what it
    printed of it. *)
Inductive main_place := joining | asking | printed (empty : bool).

(** The counters are [int]s; [queue_concurrent_test] shows that they stay below
    the number of items. *)
Record test_state (S : Type) := Test {
  sys : S;
  progs : list prog;
  main_at : main_place;
  produced : nat;
  consumed : nat
}.
Arguments Test {S} sys progs main_at produced consumed.
Arguments sys {S} _.
Arguments progs {S} _.
Arguments main_at {S} _.
Arguments produced {S} _.
Arguments consumed {S} _.

Section test.
Context (num_producers num_consumers items_per_producer : nat).

Definition quota : nat := items_per_producer * num_producers / num_consumers.
Definition item (i j : nat) : Z := Z.of_nat (i * items_per_producer + j).

(** The call a program makes next. *)
Definition next_call (p : prog) : option (call Z) :=
  match p with
  | Consumer got at_loop => if bool_decide (length got < quota) then Some Dequeue else None
  | Producer i j at_loop => if bool_decide (j < items_per_producer) then Some (Enqueue (item i j)) else None
  | _ => None
  end.
Definition enter (p : prog) : prog :=
  match p with Consumer got _ => Consumer got in_call | Producer i j _ => Producer i j in_call end.
(** An empty answer sends a consumer back to its loop. *)
Definition leave (p : prog) (r : answer Z) : option prog :=
  match p, r with
  | Consumer got in_call, Dequeued (Some v) => Some (Consumer (got ++ [v]) at_add)
  | Consumer got in_call, Dequeued None => Some (Consumer got at_loop)
  | Producer i j in_call, Enqueued => Some (Producer i j at_add)
  | _, _ => None
  end.
(** [fetch_add]: what is added to [produced] and to [consumed]. *)
Definition add (p : prog) : option (prog * nat * nat) :=
  match p with
  | Consumer got at_add => Some (Consumer got at_loop, 0, 1)
  | Producer i j at_add => Some (Producer i (S j) at_loop, 1, 0)
  | _ => None
  end.
Definition finished (p : prog) : bool :=
  match p with
  | Consumer got at_loop => bool_decide (quota ≤ length got)
  | Producer i j at_loop => bool_decide (items_per_producer ≤ j)
  | _ => false
  end.

(** Thread [n] of the queue is the [n]th program, the last one is [main]; it
    goes on when all others are finished. *)
Inductive tstep {S} (lts : S → option (visible Z) → S → Prop) (t : test_state S) : test_state S → Prop :=
| t_call n p c s' :
    progs t !! n = Some p → next_call p = Some c → lts (sys t) (Some (Call n c)) s' →
    tstep lts t (Test s' (<[n := enter p]> (progs t)) (main_at t) (produced t) (consumed t))
| t_return n p r p' s' :
    progs t !! n = Some p → leave p r = Some p' → lts (sys t) (Some (Return n r)) s' →
    tstep lts t (Test s' (<[n := p']> (progs t)) (main_at t) (produced t) (consumed t))
| t_add n p p' dp dc :
    progs t !! n = Some p → add p = Some (p', dp, dc) →
    tstep lts t (Test (sys t) (<[n := p']> (progs t)) (main_at t) (produced t + dp) (consumed t + dc))
| t_op s' :
    lts (sys t) None s' →
    tstep lts t (Test s' (progs t) (main_at t) (produced t) (consumed t))
| t_join s' :
    main_at t = joining → Forall finished (progs t) → lts (sys t) (Some (Call (length (progs t)) Empty)) s' →
    tstep lts t (Test s' (progs t) asking (produced t) (consumed t))
| t_print b s' :
    main_at t = asking → lts (sys t) (Some (Return (length (progs t)) (IsEmpty b))) s' →
    tstep lts t (Test s' (progs t) (printed b) (produced t) (consumed t)).
Definition trun {S} (lts : S → option (visible Z) → S → Prop) : relation (test_state S) := rtc (tstep lts).

Definition programs : list prog :=
  replicate num_consumers (Consumer [] at_loop) ++ ((λ i, Producer i 0 at_loop) <$> seq 0 num_producers).
Definition threads_count : nat := num_consumers + num_producers.
Definition tstart {S} (s : S) : test_state S := Test s programs joining 0 0.

(** ** The invariant, on the specification of the queue *)
Implicit Types (p : prog) (st : astatus Z) (a : aqueue Z) (l : list Z).

(** The values a program has put in and taken out, its pending call included. *)
Definition put_in p st : list Z :=
  match p with
  | Consumer _ _ => []
  | Producer i j w =>
      (item i <$> seq 0 j) ++
      match w, st with at_add, _ | in_call, ARet _ => [item i j] | _, _ => [] end
  end.
Definition taken_out p st : list Z :=
  match p with
  | Consumer got _ => got ++ match st with ARet (Dequeued (Some v)) => [v] | _ => [] end
  | Producer _ _ _ => []
  end.

Definition prog_ok (n : nat) p st : Prop :=
  match p with
  | Consumer got w =>
      n < num_consumers ∧ length got ≤ quota ∧
      match w with
      | in_call => length got < quota ∧ ((∃ e, st = ADeq e) ∨ ∃ r, st = ARet (Dequeued r))
      | at_loop => st = AIdle
      | at_add => got ≠ [] ∧ st = AIdle
      end
  | Producer i j w =>
      n = num_consumers + i ∧ j ≤ items_per_producer ∧
      match w with
      | at_loop => st = AIdle
      | in_call => j < items_per_producer ∧ (st = AEnq (item i j) ∨ st = ARet Enqueued)
      | at_add => j < items_per_producer ∧ st = AIdle
      end
  end.
Definition main_ok (m : main_place) (ps : list prog) st l : Prop :=
  match m with
  | joining => st = AIdle
  | asking => Forall finished ps ∧
      ((∃ e n, st = AEmpty e n ∧ (e = true → l = []) ∧ (n = true → l ≠ [])) ∨ st = ARet (IsEmpty (is_nil l)))
  | printed b => Forall finished ps ∧ st = AIdle ∧ b = is_nil l
  end.

Definition count_produced p : nat := match p with Producer _ j _ => j | _ => 0 end.
Definition count_consumed p : nat :=
  match p with Consumer got w => length got - (if w is at_add then 1 else 0) | _ => 0 end.

Record inv (t : test_state (aqueue Z)) : Prop := {
  inv_progs : length (progs t) = threads_count;
  inv_threads : length (a_threads (sys t)) = S threads_count;
  inv_prog : ∀ n p st, progs t !! n = Some p → a_threads (sys t) !! n = Some st → prog_ok n p st;
  inv_main : ∀ st, a_threads (sys t) !! threads_count = Some st → main_ok (main_at t) (progs t) st (a_queue (sys t));
  inv_values :
    concat (zip_with put_in (progs t) (a_threads (sys t))) ≡ₚ
    concat (zip_with taken_out (progs t) (a_threads (sys t))) ++ a_queue (sys t);
  inv_produced : produced t = sum_list_with count_produced (progs t);
  inv_consumed : consumed t = sum_list_with count_consumed (progs t)
}.

Lemma put_in_observe l p st : put_in p (observe l st) = put_in p st.
Proof. by destruct p as [|? ? []], st. Qed.
Lemma taken_out_observe l p st : taken_out p (observe l st) = taken_out p st.
Proof. by destruct p, st. Qed.
Lemma prog_ok_observe n l p st : prog_ok n p st → prog_ok n p (observe l st).
Proof. destruct p as [? []|? ? []], st; simpl; naive_solver. Qed.
Lemma main_ok_observe m ps l st : main_ok m ps st l → main_ok m ps (observe l st) l.
Proof.
  destruct m; simpl; [by intros ->| |by intros (? & -> & ?)].
  intros [Hf [(e & n & -> & He & Hn)| ->]]; split; try done; [left|by right].
  exists (e || is_nil l), (n || negb (is_nil l)). split; [done|]. destruct l, e, n; naive_solver.
Qed.

(** Changing the [n]th program and status; all statuses may see the queue. *)
Definition see (b : bool) (l : list Z) : astatus Z → astatus Z := if b then observe l else id.
Lemma zip_with_step (f : prog → astatus Z → list Z) n p' st' b l (ps : list prog) (sts : list (astatus Z)) :
  (∀ p st, f p (observe l st) = f p st) →
  zip_with f (<[n := p']> ps) (see b l <$> <[n := st']> sts) = <[n := f p' st']> (zip_with f ps sts).
Proof.
  intros Hf. assert (∀ ps sts, zip_with f ps (see b l <$> sts) = zip_with f ps sts) as Ho.
  { induction ps0 as [|p ps0 IH]; intros [|st sts0]; simpl; [done..|]. destruct b; simpl; by rewrite ?Hf, IH. }
  rewrite Ho. revert ps sts. induction n as [|n IH]; intros [|p ps] [|st sts]; simpl; try done. by rewrite IH.
Qed.
Lemma concat_insert {A} (ls : list (list A)) n x y d :
  ls !! n = Some x → y ≡ₚ x ++ d → concat (<[n := y]> ls) ≡ₚ concat ls ++ d.
Proof.
  intros Hn Hy. revert n Hn. induction ls as [|z ls IH]; intros [|n] Hn; simpl in *; simplify_eq.
  - rewrite Hy. solve_Permutation.
  - rewrite IH by done. solve_Permutation.
Qed.
Lemma sum_list_insert (f : prog → nat) ps n p p' :
  ps !! n = Some p → sum_list_with f (<[n := p']> ps) + f p = sum_list_with f ps + f p'.
Proof. revert n. induction ps as [|q ps IH]; intros [|n] Hn; simpl in *; simplify_eq; [lia|]. specialize (IH n Hn). lia. Qed.

(** While a program is not finished, main waits. *)
Lemma inv_joining t n p : inv t → progs t !! n = Some p → finished p = false → main_at t = joining.
Proof.
  intros Hi Hp Hf. destruct (lookup_lt_is_Some_2 (a_threads (sys t)) threads_count) as [st Hst]; [rewrite (inv_threads _ Hi); lia|].
  pose proof (inv_main _ Hi st Hst) as Hm. destruct (main_at t); [done|..]; destruct Hm as [Hall _];
    pose proof (Forall_lookup_1 _ _ _ _ Hall Hp) as Hx; simpl in Hx; by rewrite Hf in Hx.
Qed.

Lemma inv_lookup t n p : inv t → progs t !! n = Some p → n < threads_count ∧ ∃ st, a_threads (sys t) !! n = Some st ∧ prog_ok n p st.
Proof.
  intros Hi Hp. pose proof (lookup_lt_Some _ _ _ Hp) as Hn. rewrite (inv_progs _ Hi) in Hn. split; [done|].
  destruct (lookup_lt_is_Some_2 (a_threads (sys t)) n) as [st Hst]; [rewrite (inv_threads _ Hi); lia|].
  exists st. split; [done|]. by eapply inv_prog.
Qed.

(** A step of program [n]. *)
Lemma inv_update b t n p p' st st' l' pr co d_in d_out :
  inv t → progs t !! n = Some p → a_threads (sys t) !! n = Some st → finished p = false → prog_ok n p' st' →
  put_in p' st' ≡ₚ put_in p st ++ d_in → taken_out p' st' ≡ₚ taken_out p st ++ d_out → d_in ++ a_queue (sys t) ≡ₚ d_out ++ l' →
  pr + count_produced p = produced t + count_produced p' → co + count_consumed p = consumed t + count_consumed p' →
  inv (Test (AQ l' (see b l' <$> <[n := st']> (a_threads (sys t)))) (<[n := p']> (progs t)) (main_at t) pr co).
Proof.
  intros Hi Hp Hst Hf Hok Hin Hout Hq Hpr Hco. pose proof (inv_joining t n p Hi Hp Hf) as Hj.
  destruct (inv_lookup t n p Hi Hp) as [Hn _]. split; simpl.
  - rewrite length_insert. apply (inv_progs _ Hi).
  - rewrite length_fmap, length_insert. apply (inv_threads _ Hi).
  - intros k q sq Hk Hsk. apply list_lookup_fmap_Some in Hsk as (sq' & -> & Hsk).
    assert (prog_ok k q sq' → prog_ok k q (see b l' sq')) as Hsee by (destruct b; [apply prog_ok_observe|done]). apply Hsee. clear Hsee.
    destruct (decide (k = n)) as [->|Hkn].
    + rewrite list_lookup_insert_eq in Hk by by apply lookup_lt_Some in Hp.
      rewrite list_lookup_insert_eq in Hsk by by apply lookup_lt_Some in Hst. by simplify_eq.
    + rewrite list_lookup_insert_ne in Hk by done. rewrite list_lookup_insert_ne in Hsk by done. by eapply inv_prog.
  - intros sm Hsm. apply list_lookup_fmap_Some in Hsm as (sm' & -> & Hsm). rewrite list_lookup_insert_ne in Hsm by lia.
    pose proof (inv_main _ Hi _ Hsm) as Hm. rewrite Hj in Hm |- *. simpl in Hm. subst. by destruct b.
  - rewrite (zip_with_step put_in) by (intros; apply put_in_observe). rewrite (zip_with_step taken_out) by (intros; apply taken_out_observe).
    rewrite (concat_insert _ n (put_in p st) _ d_in) by (done || by rewrite lookup_zip_with, Hp, Hst).
    rewrite (concat_insert _ n (taken_out p st) _ d_out) by (done || by rewrite lookup_zip_with, Hp, Hst).
    rewrite (inv_values _ Hi), <-!app_assoc. f_equiv. by rewrite Permutation_app_comm, Hq.
  - pose proof (sum_list_insert count_produced _ _ _ p' Hp) as Hs. rewrite (inv_produced _ Hi) in Hpr. lia.
  - pose proof (sum_list_insert count_consumed _ _ _ p' Hp) as Hs. rewrite (inv_consumed _ Hi) in Hco. lia.
Qed.

Lemma next_call_enter n p st c :
  next_call p = Some c → prog_ok n p st →
  finished p = false ∧ prog_ok n (enter p) (astart_call c) ∧ put_in (enter p) (astart_call c) = put_in p st ∧
  taken_out (enter p) (astart_call c) = taken_out p st ∧ count_produced (enter p) = count_produced p ∧ count_consumed (enter p) = count_consumed p.
Proof.
  destruct p as [got []|i j []]; simpl; try done; case_bool_decide; intros [= <-] (? & ? & ->); simpl; split_and!; try done;
    try (by apply bool_decide_eq_false_2; lia); try lia; [left; by eexists|by left].
Qed.
Lemma leave_ok n p r p' :
  leave p r = Some p' → prog_ok n p (ARet r) →
  finished p = false ∧ prog_ok n p' AIdle ∧ put_in p' AIdle = put_in p (ARet r) ∧
  taken_out p' AIdle = taken_out p (ARet r) ∧ count_produced p' = count_produced p ∧ count_consumed p' = count_consumed p.
Proof.
  destruct p as [got []|i j []], r as [|[v|]|]; simpl; try done; intros [= <-] (? & ? & ? & ?); simpl;
    split_and!; try done; rewrite ?app_nil_r, ?length_app; simpl; try done; lia || by destruct got.
Qed.
Lemma add_ok n p p' dp dc st :
  add p = Some (p', dp, dc) → prog_ok n p st →
  finished p = false ∧ st = AIdle ∧ prog_ok n p' st ∧ put_in p' st = put_in p st ∧ taken_out p' st = taken_out p st ∧
  count_produced p' = count_produced p + dp ∧ count_consumed p' = count_consumed p + dc.
Proof.
  destruct p as [got []|i j []]; simpl; try done; intros [= <- <- <-].
  - intros (? & ? & ? & ->). destruct got; simpl; split_and!; try done; lia.
  - intros (? & ? & ? & ->). cbn [finished prog_ok put_in taken_out count_produced count_consumed].
    split_and!; try done; try lia. by rewrite seq_S, fmap_app, app_nil_r.
Qed.

Lemma inv_main_update t st' m' :
  inv t → main_ok m' (progs t) st' (a_queue (sys t)) →
  inv (Test (aset (a_queue (sys t)) threads_count st' (sys t)) (progs t) m' (produced t) (consumed t)).
Proof.
  intros Hi Hm. assert (∀ f : prog → astatus Z → list Z, (∀ p st, f p (observe (a_queue (sys t)) st) = f p st) →
    zip_with f (progs t) (a_threads (aset (a_queue (sys t)) threads_count st' (sys t))) = zip_with f (progs t) (a_threads (sys t))) as Hz.
  { intros f Hf. pose proof (zip_with_step f threads_count (Consumer [] at_loop) st' true (a_queue (sys t)) (progs t) (a_threads (sys t)) Hf) as Hz.
    rewrite (list_insert_ge (progs t)) in Hz by (rewrite (inv_progs _ Hi); lia).
    rewrite (list_insert_ge (zip_with _ _ _)) in Hz by (rewrite length_zip_with, (inv_progs _ Hi); lia). exact Hz. }
  split; simpl.
  - apply (inv_progs _ Hi).
  - rewrite length_fmap, length_insert. apply (inv_threads _ Hi).
  - intros k q sq Hk Hsk. apply list_lookup_fmap_Some in Hsk as (sq' & -> & Hsk). apply prog_ok_observe.
    destruct (inv_lookup t k q Hi Hk) as [Hlt _]. rewrite list_lookup_insert_ne in Hsk by lia. by eapply inv_prog.
  - intros sm Hsm. apply list_lookup_fmap_Some in Hsm as (sm' & -> & Hsm). apply main_ok_observe.
    rewrite list_lookup_insert_eq in Hsm by (rewrite (inv_threads _ Hi); lia). by simplify_eq.
  - setoid_rewrite (Hz put_in); [|intros; apply put_in_observe]. setoid_rewrite (Hz taken_out); [|intros; apply taken_out_observe].
    apply (inv_values _ Hi).
  - apply (inv_produced _ Hi).
  - apply (inv_consumed _ Hi).
Qed.

(** The thread of a status belongs to a program or to main. *)
Lemma inv_status t n st :
  inv t → a_threads (sys t) !! n = Some st →
  (∃ p, progs t !! n = Some p ∧ prog_ok n p st) ∨ (n = threads_count ∧ main_ok (main_at t) (progs t) st (a_queue (sys t))).
Proof.
  intros Hi Hst. pose proof (lookup_lt_Some _ _ _ Hst) as Hn. rewrite (inv_threads _ Hi) in Hn.
  destruct (decide (n = threads_count)) as [->|Hne]; [right; split; [done|by apply inv_main]|left].
  destruct (lookup_lt_is_Some_2 (progs t) n) as [p Hp]; [rewrite (inv_progs _ Hi); lia|]. exists p. split; [done|]. by eapply inv_prog.
Qed.

Lemma main_status m ps st l : main_ok m ps st l → match st with AEnq _ | ADeq _ => False | _ => True end.
Proof. destruct m; simpl; [by intros ->| |by intros (_ & -> & _)]. by intros [_ [(? & ? & -> & _)| ->]]. Qed.

Lemma inv_op t a' : inv t → astep (sys t) None a' → inv (Test a' (progs t) (main_at t) (produced t) (consumed t)).
Proof.
  intros Hi Ha. assert (∀ n p, progs t !! n = Some p → <[n := p]> (progs t) = progs t) as Hid by (intros; by apply list_insert_id).
  inversion Ha as [| |i v Hst|i e v l Hst Hq|i Hst|i e n b Hst Hb]; subst;
    destruct (inv_status t i _ Hi Hst) as [(p & Hp & Hok)|[-> Hm]];
    try (by apply main_status in Hm);
    try (rewrite <-(Hid i p Hp)).
  - destruct p as [? []|k j []]; simpl in Hok; try naive_solver. destruct Hok as (? & ? & ? & [[= ->]|?]); [|done].
    eapply (inv_update true t i (Producer k j in_call) _ _ (ARet Enqueued) _ _ _ [item k j] []); try done; simpl; try solve_Permutation.
    split_and!; try done. by right.
  - destruct p as [got []|k j []]; simpl in Hok; try naive_solver. destruct Hok as (? & ? & ? & _).
    eapply (inv_update true t i (Consumer got in_call) _ _ (ARet (Dequeued (Some v))) _ _ _ [] [v]); try done; simpl.
    + split_and!; try done. right. by eexists.
    + by rewrite !app_nil_r.
    + by rewrite Hq.
  - destruct p as [got []|k j []]; simpl in Hok; try naive_solver. destruct Hok as (? & ? & ? & _).
    eapply (inv_update true t i (Consumer got in_call) _ _ (ARet (Dequeued None)) _ _ _ [] []); try done; simpl.
    + split_and!; try done. right. by eexists.
    + by rewrite !app_nil_r.
  - destruct p as [? []|? ? []]; simpl in Hok; naive_solver.
  - apply inv_main_update; [done|]. destruct (main_at t); simpl in Hm; [done| |by destruct Hm as (_ & ? & _)].
    destruct Hm as [Hf [(e' & n' & [= -> ->] & He & Hn)|?]]; [|done]. split; [done|]. right. do 2 f_equal.
    destruct b; [by rewrite He|]. specialize (Hn Hb). by destruct (a_queue (sys t)).
Qed.

Lemma test_step t t' : inv t → tstep astep t t' → inv t'.
Proof.
  intros Hi [n p c s' Hp Hc Hs|n p r p' s' Hp Hl Hs|n p p' dp dc Hp Ha|s' Hs|s' Hm Hf Hs|b s' Hm Hs].
  - inversion Hs as [? ? Hst| | | | |]; subst. pose proof (inv_prog _ Hi _ _ _ Hp Hst) as Hok.
    destruct (next_call_enter n p _ c Hc Hok) as (? & ? & Hin & Hout & ? & ?).
    eapply (inv_update true t n p _ _ _ _ _ _ [] []); try done; rewrite ?app_nil_r, ?Hin, ?Hout; try done; lia.
  - inversion Hs as [|? ? Hst| | | |]; subst. pose proof (inv_prog _ Hi _ _ _ Hp Hst) as Hok.
    destruct (leave_ok n p _ p' Hl Hok) as (? & ? & Hin & Hout & ? & ?).
    eapply (inv_update true t n p _ _ _ _ _ _ [] []); try done; rewrite ?app_nil_r, ?Hin, ?Hout; try done; lia.
  - destruct (inv_lookup t n p Hi Hp) as (Hn & st & Hst & Hok).
    destruct (add_ok n p p' dp dc st Ha Hok) as (Hf & _ & Hok' & Hin & Hout & Hcp & Hcc).
    pose proof (inv_update false t n p p' st st (a_queue (sys t)) (produced t + dp) (consumed t + dc) [] [] Hi Hp Hst Hf Hok') as Hu.
    rewrite Hin, Hout, !app_nil_r, list_fmap_id, (list_insert_id _ _ _ Hst) in Hu. destruct (sys t). apply Hu; try done; lia.
  - by apply inv_op.
  - inversion Hs as [? ? Hst| | | | |]; subst. rewrite (inv_progs _ Hi). apply inv_main_update; [done|]. split; [done|]. left.
    by exists false, false.
  - inversion Hs as [|? ? Hst| | | |]; subst. rewrite (inv_progs _ Hi) in *. apply inv_main_update; [done|].
    pose proof (inv_main _ Hi _ Hst) as Hok. rewrite Hm in Hok. destruct Hok as [Hf [(? & ? & ? & _)|[= ->]]]; [done|]. by split_and!.
Qed.

(** ** The start, and the end *)
Definition values_of p : list Z := match p with Consumer got _ => got | _ => [] end.

Lemma inv_start : inv (tstart (astart (S threads_count))).
Proof.
  assert (∀ n p, programs !! n = Some p → prog_ok n p AIdle ∧ put_in p AIdle = [] ∧ taken_out p AIdle = [] ∧ count_produced p = 0 ∧ count_consumed p = 0) as Hp.
  { intros n p [Hn|[Hle Hn]]%lookup_app_Some.
    - apply lookup_replicate in Hn as [-> Hn]. simpl. split_and!; (done || lia).
    - rewrite length_replicate in Hle, Hn. apply list_lookup_fmap_Some in Hn as (i & -> & [Hi ?]%lookup_seq). simpl. split_and!; (done || lia). }
  assert (∀ f : prog → nat, (∀ n p, programs !! n = Some p → f p = 0) → sum_list_with f programs = 0) as Hsum.
  { intros f Hf. revert Hf. generalize programs. intros ps. induction ps as [|p ps IH]; intros Hf; simpl; [done|].
    rewrite (Hf 0 p eq_refl). apply IH. intros n. apply (Hf (S n)). }
  assert (∀ f : prog → astatus Z → list Z, (∀ n p, programs !! n = Some p → f p AIdle = []) →
    ∀ k, concat (zip_with f programs (replicate k AIdle)) = []) as Hcat.
  { intros f Hf. revert Hf. generalize programs. intros ps. induction ps as [|p ps IH]; intros Hf [|k]; simpl; [done..|].
    rewrite (Hf 0 p eq_refl). apply IH. intros n. apply (Hf (S n)). }
  split; simpl.
  - unfold programs, threads_count. by rewrite length_app, length_replicate, length_fmap, length_seq.
  - by rewrite length_replicate.
  - intros n p st Hn Hst. change (AIdle :: replicate threads_count AIdle) with (replicate (S threads_count) (AIdle (T:=Z))) in Hst.
    apply lookup_replicate in Hst as [-> _]. by apply Hp.
  - intros st Hst. change (AIdle :: replicate threads_count AIdle) with (replicate (S threads_count) (AIdle (T:=Z))) in Hst.
    by apply lookup_replicate in Hst as [-> _].
  - change (AIdle :: replicate threads_count AIdle) with (replicate (S threads_count) (AIdle (T:=Z))).
    rewrite (Hcat put_in), (Hcat taken_out); [done|intros n p Hn; by apply (Hp n p Hn)..].
  - symmetry. apply Hsum. intros n p Hn. by apply (Hp n p Hn).
  - symmetry. apply Hsum. intros n p Hn. by apply (Hp n p Hn).
Qed.

Lemma all_items : concat ((λ i, item i <$> seq 0 items_per_producer) <$> seq 0 num_producers) =
  Z.of_nat <$> seq 0 (num_producers * items_per_producer).
Proof.
  induction num_producers as [|n IH]; [done|]. rewrite seq_S, fmap_app, concat_app, IH.
  replace (S n * items_per_producer) with (n * items_per_producer + items_per_producer) by lia.
  rewrite seq_app, fmap_app. f_equal. simpl. rewrite app_nil_r.
  rewrite <-(Nat.add_0_r (n * items_per_producer)), <-fmap_add_seq, <-list_fmap_compose. apply list_fmap_ext.
  intros k x _. done.
Qed.

(** When all programs are finished. *)
Lemma inv_finished t n p st :
  inv t → Forall finished (progs t) → progs t !! n = Some p → a_threads (sys t) !! n = Some st →
  st = AIdle ∧ if bool_decide (n < num_consumers) then ∃ got, p = Consumer got at_loop ∧ length got = quota
    else p = Producer (n - num_consumers) items_per_producer at_loop.
Proof.
  intros Hi Hf Hp Hst. pose proof (inv_prog _ Hi _ _ _ Hp Hst) as Hok. pose proof (Forall_lookup_1 _ _ _ _ Hf Hp) as Hfp.
  destruct p as [got []|i j []]; simpl in Hfp; try done; apply bool_decide_unpack in Hfp; destruct Hok as (? & ? & ->); split; try done.
  - rewrite bool_decide_eq_true_2 by done. exists got. split; [done|]. lia.
  - rewrite bool_decide_eq_false_2 by lia. f_equal; lia.
Qed.

Lemma sum_list_fmap_with (f : prog → nat) ps : sum_list_with f ps = sum_list_with id (f <$> ps).
Proof. induction ps as [|p ps IH]; simpl; [done|]. by rewrite IH. Qed.
Lemma sum_replicate n x : sum_list_with id (replicate n x) = n * x.
Proof. induction n as [|n IH]; simpl; [done|]. rewrite IH. simpl. lia. Qed.
Lemma sum_const {A} (l : list A) x : sum_list_with id ((λ _, x) <$> l) = length l * x.
Proof. induction l as [|y l IH]; [done|]. exact (f_equal (Nat.add x) IH). Qed.
Lemma length_concat_values ps : length (concat (values_of <$> ps)) = sum_list_with (length ∘ values_of) ps.
Proof. induction ps as [|p ps IH]; [done|]. rewrite fmap_cons. simpl. by rewrite length_app, IH. Qed.

(** Any function of the programs and their statuses, all consumers first. *)
Lemma finished_lookup t n p :
  inv t → Forall finished (progs t) → progs t !! n = Some p →
  a_threads (sys t) !! n = Some AIdle ∧
  if bool_decide (n < num_consumers) then ∃ got, p = Consumer got at_loop ∧ length got = quota
  else p = Producer (n - num_consumers) items_per_producer at_loop.
Proof.
  intros Hi Hf Hp. destruct (inv_lookup t n p Hi Hp) as (_ & st & Hst & _).
  destruct (inv_finished t n p st Hi Hf Hp Hst) as [-> Hcase]. by split.
Qed.
Lemma finished_map {B} (f : prog → B) c d t :
  inv t → Forall finished (progs t) →
  (∀ got, length got = quota → f (Consumer got at_loop) = c) → (∀ i, f (Producer i items_per_producer at_loop) = d i) →
  f <$> progs t = replicate num_consumers c ++ (d <$> seq 0 num_producers).
Proof.
  intros Hi Hf Hc Hd.
  apply list_eq_same_length with threads_count; [by rewrite length_app, length_replicate, length_fmap, length_seq|by rewrite length_fmap, (inv_progs _ Hi)|].
  intros n x y Hn Hx Hy. apply list_lookup_fmap_Some in Hx as (p & -> & Hp).
  destruct (finished_lookup t n p Hi Hf Hp) as [_ Hcase]. case_bool_decide as Hlt.
  - destruct Hcase as (got & -> & Hg). rewrite lookup_app_l in Hy by (by rewrite length_replicate).
    apply lookup_replicate in Hy as [-> _]. by apply Hc.
  - subst. rewrite lookup_app_r, length_replicate in Hy by (rewrite length_replicate; lia).
    apply list_lookup_fmap_Some in Hy as (i & -> & [-> ?]%lookup_seq). simpl. apply Hd.
Qed.
Lemma finished_zip (f : prog → astatus Z → list Z) t :
  inv t → Forall finished (progs t) → zip_with f (progs t) (a_threads (sys t)) = (λ p, f p AIdle) <$> progs t.
Proof.
  intros Hi Hf. apply list_eq. intros n. rewrite lookup_zip_with, list_lookup_fmap.
  destruct (progs t !! n) as [p|] eqn:Hp; simpl; [|done]. by destruct (finished_lookup t n p Hi Hf Hp) as [-> _].
Qed.

Lemma inv_end t :
  inv t → Forall finished (progs t) →
  produced t = num_producers * items_per_producer ∧ consumed t = num_consumers * quota ∧
  Z.of_nat <$> seq 0 (num_producers * items_per_producer) ≡ₚ concat (values_of <$> progs t) ++ a_queue (sys t) ∧
  length (concat (values_of <$> progs t)) = num_consumers * quota.
Proof.
  intros Hi Hf. split_and!.
  - rewrite (inv_produced _ Hi), sum_list_fmap_with, (finished_map count_produced 0 (λ _, items_per_producer)) by done.
    rewrite sum_list_with_app, sum_replicate, sum_const, length_seq. lia.
  - rewrite (inv_consumed _ Hi), sum_list_fmap_with, (finished_map count_consumed quota (λ _, 0)); try done.
    + rewrite sum_list_with_app, sum_replicate, sum_const. lia.
    + intros got <-. simpl. lia.
  - pose proof (inv_values _ Hi) as Hv. rewrite !finished_zip in Hv by done.
    rewrite (finished_map (λ p, put_in p AIdle) [] (λ i, item i <$> seq 0 items_per_producer)) in Hv by (done || intros; simpl; by rewrite ?app_nil_r).
    rewrite concat_app, all_items in Hv. replace (concat (replicate num_consumers [])) with (@nil Z) in Hv;
      [|clear; induction num_consumers; done]. rewrite Hv.
    replace ((λ p, taken_out p AIdle) <$> progs t) with (values_of <$> progs t); [done|]. apply list_fmap_ext.
    intros n p _. destruct p; simpl; by rewrite ?app_nil_r.
  - rewrite length_concat_values, sum_list_fmap_with, (finished_map (length ∘ values_of) quota (λ _, 0)) by done.
    rewrite sum_list_with_app, sum_replicate, sum_const. lia.
Qed.

(** ** On the queue of the code *)
Abbreviation cstate := (test_state (qsystem Z)).
Implicit Types (t : cstate).

(** The queue of the code simulates the specification; so do programs on them. *)
Definition simulates (s : qsystem Z) a : Prop := ∃ hist ih it, sim s a hist ih it.
Definition on_spec a t : test_state (aqueue Z) := Test a (progs t) (main_at t) (produced t) (consumed t).

Lemma sim_visible s a v s' : simulates s a → qstep id s (Some v) s' → ∃ a', simulates s' a' ∧ astep a (Some v) a'.
Proof.
  intros (hist & ih & it & Hs) Hstep. destruct (sim_step id _ _ _ _ _ _ _ (λ _, eq_refl) Hs Hstep) as (a' & h' & ih' & it' & Hs' & [Ha|[? _]]); [|done].
  exists a'. split; [by exists h', ih', it'|done].
Qed.
Lemma sim_internal s a s' : simulates s a → qstep id s None s' → ∃ a', simulates s' a' ∧ (astep a None a' ∨ a' = a).
Proof.
  intros (hist & ih & it & Hs) Hstep. destruct (sim_step id _ _ _ _ _ _ _ (λ _, eq_refl) Hs Hstep) as (a' & h' & ih' & it' & Hs' & Ha).
  exists a'. split; [by exists h', ih', it'|]. destruct Ha as [?|[_ ?]]; auto.
Qed.

Lemma tstep_inv t a t' :
  simulates (sys t) a → inv (on_spec a t) → tstep (qstep id) t t' → ∃ a', simulates (sys t') a' ∧ inv (on_spec a' t').
Proof.
  intros Hs Hi Hstep. inversion Hstep as [n p c s' Hp Hc Hq|n p r p' s' Hp Hl Hq|n p p' dp dc Hp Ha|s' Hq|s' Hm Hf Hq|b s' Hm Hq]; subst.
  - destruct (sim_visible _ _ _ _ Hs Hq) as (a' & Hs' & Ha'). exists a'. split; [done|]. by apply (test_step _ _ Hi (t_call _ (on_spec a t) _ _ _ _ Hp Hc Ha')).
  - destruct (sim_visible _ _ _ _ Hs Hq) as (a' & Hs' & Ha'). exists a'. split; [done|]. by apply (test_step _ _ Hi (t_return _ (on_spec a t) _ _ _ _ _ Hp Hl Ha')).
  - exists a. split; [done|]. by apply (test_step _ _ Hi (t_add _ (on_spec a t) _ _ _ _ _ Hp Ha)).
  - destruct (sim_internal _ _ _ Hs Hq) as (a' & Hs' & [Ha'| ->]); [|by exists a].
    exists a'. split; [done|]. by apply (test_step _ _ Hi (t_op _ (on_spec a t) _ Ha')).
  - destruct (sim_visible _ _ _ _ Hs Hq) as (a' & Hs' & Ha'). exists a'. split; [done|]. by apply (test_step _ _ Hi (t_join _ (on_spec a t) _ Hm Hf Ha')).
  - destruct (sim_visible _ _ _ _ Hs Hq) as (a' & Hs' & Ha'). exists a'. split; [done|]. by apply (test_step _ _ Hi (t_print _ (on_spec a t) _ _ Hm Ha')).
Qed.

(** The queue after the sequential part of the test. *)
Definition sequential_queue : LockfreeQueue Z := default (LockfreeQueue_ctor 0%Z) (snd <$> test_sequential).
Definition test_start : cstate := tstart (QSys sequential_queue (replicate (S threads_count) Idle)).

Lemma sequential_shape : qshape sequential_queue [1; 2; 3; 4]%positive 3 3.
Proof.
  split; try (vm_compute; reflexivity); try (vm_compute; lia).
  - intros [|[|[|[|k]]]] l Hl; simpl in Hl; simplify_eq; try (eexists; vm_compute; reflexivity).
  - apply (bool_decide_unpack _). vm_compute. done.
  - intros [|[|[|k]]] l Hl; simpl in Hl; simplify_eq; eexists _, _; split; vm_compute; reflexivity.
Qed.

Lemma start_simulates : simulates (sys test_start) (astart (S threads_count)).
Proof.
  exists [1; 2; 3; 4]%positive, 3, 3. split; cbn [queue_of threads sys test_start tstart a_queue a_threads astart].
  - apply sequential_shape.
  - vm_compute. reflexivity.
  - intros i p [-> Hi]%lookup_replicate. exists AIdle. split; [|done]. by apply lookup_replicate.
  - by rewrite !length_replicate.
  - by intros i st [-> _]%lookup_replicate.
  - by intros i j p p' m [-> _]%lookup_replicate.
Qed.

Lemma trun_inv t : trun (qstep id) test_start t → ∃ a, simulates (sys t) a ∧ inv (on_spec a t).
Proof.
  unfold trun. intros Hrun. assert (∃ a, simulates (sys test_start) a ∧ inv (on_spec a test_start)) as H0.
  { exists (astart (S threads_count)). split; [apply start_simulates|apply inv_start]. }
  revert H0. induction Hrun as [|t1 t2 t3 Hstep _ IH]; [done|]. intros (a & Hs & Hi). apply IH. by eapply tstep_inv.
Qed.

Lemma test_end t b : trun (qstep id) test_start t → main_at t = printed b →
  produced t = num_producers * items_per_producer ∧ consumed t = num_consumers * quota ∧
  ∃ a, simulates (sys t) a ∧
    Z.of_nat <$> seq 0 (num_producers * items_per_producer) ≡ₚ concat (values_of <$> progs t) ++ a_queue a ∧
    length (concat (values_of <$> progs t)) = num_consumers * quota ∧ b = is_nil (a_queue a).
Proof.
  intros Hrun Hb. destruct (trun_inv t Hrun) as (a & Hs & Hi).
  destruct (lookup_lt_is_Some_2 (a_threads a) threads_count) as [st Hst]; [pose proof (inv_threads _ Hi) as Hl; simpl in Hl; lia|].
  pose proof (inv_main _ Hi st Hst) as Hm. simpl in Hm. rewrite Hb in Hm. destruct Hm as (Hf & _ & ->).
  destruct (inv_end _ Hi Hf) as (? & ? & ? & ?). split_and!; [done|done|]. by exists a.
Qed.
End test.
