(* ===== verification/LockfreeTestSpec.v ===== *)
(** * LockfreeQueue.cpp: the concurrent test ends, and what it prints

    From every reachable state the test can be brought to its end: pending
    calls finish alone, producers insert their items, and a consumer that wants
    more then finds one. *)
From stdpp Require Import base gmap list.
From S2P Require Import Prelude LockfreeQueue LockfreeQueueInv LockfreeQueueSpec LockfreeTest.

#[global] Instance place_eq_dec : EqDecision place.
Proof. solve_decision. Defined.

Section test.
Context (P C K : nat).
Abbreviation cstate := (test_state (qsystem Z)).
Abbreviation trun := (trun P C K (qstep id)).
Abbreviation inv := (inv P C K).
Abbreviation quota := (quota P C K).
Abbreviation finished := (finished P C K).
Implicit Types (t : cstate) (a : aqueue Z) (n : nat) (ps : list prog).

(** States of the test that the invariant describes. *)
Definition fine t : Prop := ∃ a, simulates (sys t) a ∧ inv (on_spec a t).

Lemma fine_run t t' : fine t → trun t t' → fine t'.
Proof. intros Hf Hrun. induction Hrun as [|t1 t2 t3 Hstep _ IH]; [done|]. destruct Hf as (a & Hs & Hi). apply IH. by eapply tstep_inv. Qed.

(** ** Pending calls finish *)
Definition with_queue (s : qsystem Z) t : cstate := Test s (progs t) (main_at t) (produced t) (consumed t).
Definition put (n : nat) (p : prog) (s : qsystem Z) t : cstate := Test s (<[n := p]> (progs t)) (main_at t) (produced t) (consumed t).

(** [Q] is a fact of the specification that other steps cannot undo. *)
Lemma solo_run (Q : aqueue Z → Prop) fuel t a n pc r q' :
  (∀ a a', Q a → astep a None a' → Q a') → simulates (sys t) a → Q a →
  threads (sys t) !! n = Some pc → solo id fuel pc (queue_of (sys t)) = Some (r, q') →
  ∃ s a', trun t (with_queue s t) ∧ simulates s a' ∧ Q a' ∧ threads s !! n = Some (Ret r) ∧ a_threads a' !! n = Some (ARet r).
Proof.
  intros HQ. revert t a pc. induction fuel as [|fuel IH]; intros t a pc Hs Ha Hpc Hsolo.
  all: assert ((∃ r, pc = Ret r) ∨ ∀ r, pc ≠ Ret r) as [[r' ->]|Hne] by (destruct pc; eauto).
  all: try (simpl in Hsolo; simplify_eq; exists (sys t), a; destruct Hs as (h & i & j & Hs); destruct (sim_threads _ _ _ _ _ Hs n _ Hpc) as (st & Hst & Hok);
    destruct st; try done; simpl in Hok; subst; split_and!; [destruct t; apply rtc_refl|by exists h, i, j|done..]).
  - destruct pc; try done. by destruct (Hne r0).
  - assert (∃ pc' q1, op_step id false pc (queue_of (sys t)) = Some (pc', q1) ∧ solo id fuel pc' q1 = Some (r, q')) as (pc' & q1 & Hop & Hso).
    { destruct pc; try (apply bind_Some in Hsolo as ([pc' q1] & ? & ?); by eauto). by destruct (Hne r0). }
    pose proof (q_op id _ n false pc pc' q1 Hpc Hop) as Hq. destruct (sim_internal _ _ _ Hs Hq) as (a1 & Hs1 & Ha1).
    destruct (IH (with_queue (QSys q1 (<[n:=pc']> (threads (sys t)))) t) a1 pc') as (s & a' & Hrun & ? & ? & ? & ?); try done.
    + destruct Ha1 as [Ha1| ->]; [by eapply HQ|done].
    + simpl. apply list_lookup_insert_eq. by apply lookup_lt_Some in Hpc.
    + exists s, a'. split_and!; try done. eapply rtc_l; [by apply (t_op _ _ _ _ t _ Hq)|exact Hrun].
Qed.

Lemma status_pc s a n st : simulates s a → a_threads a !! n = Some st → ∃ pc, threads s !! n = Some pc ∧ (st ≠ AIdle → pc ≠ Idle) ∧ (st = AIdle → pc = Idle).
Proof.
  intros (h & i & j & Hs) Hst. destruct (lookup_lt_is_Some_2 (threads s) n) as [pc Hpc].
  { rewrite <-(sim_length _ _ _ _ _ Hs). by apply lookup_lt_Some in Hst. }
  destruct (sim_threads _ _ _ _ _ Hs n _ Hpc) as (st' & Hst' & Hok). simplify_eq. exists pc. split; [done|].
  destruct pc, st; naive_solver.
Qed.

(** A call that is under way returns. *)
Lemma finish_call (Q : aqueue Z → Prop) t a n st :
  (∀ a a', Q a → astep a None a' → Q a') → simulates (sys t) a → Q a → a_threads a !! n = Some st → st ≠ AIdle →
  ∃ s a' r, trun t (with_queue s t) ∧ simulates s a' ∧ Q a' ∧ threads s !! n = Some (Ret r) ∧ a_threads a' !! n = Some (ARet r).
Proof.
  intros HQ Hs Ha Hst Hne. destruct (status_pc _ _ _ _ Hs Hst) as (pc & Hpc & Hpc' & _).
  pose proof Hs as (h & i & j & Hsim). destruct (sim_finishes id (λ _, eq_refl) _ _ _ _ _ _ _ Hsim Hpc (Hpc' Hne)) as [[r q'] Hsolo].
  destruct (solo_run Q _ _ _ _ _ _ _ HQ Hs Ha Hpc Hsolo) as (s & a' & ? & ? & ? & ? & ?). by exists s, a', r.
Qed.

(** ** Quiet states: no program is inside a call *)
Definition place_of (p : prog) : place := match p with Consumer _ w | Producer _ _ w => w end.
Definition busy (p : prog) : nat := match place_of p with at_loop => 0 | at_add => 1 | in_call => 2 end.
Definition quiet t : Prop := main_at t = joining ∧ Forall (λ p, place_of p = at_loop) (progs t).

Lemma leave_total n p r : prog_ok P C K n p (ARet r) → ∃ p', leave p r = Some p' ∧ busy p' < busy p.
Proof.
  destruct p as [got []|i j []]; simpl; try naive_solver.
  intros (_ & _ & _ & [[e ?]|[[v|] [= ->]]]); [done|eexists; split; [done|unfold busy; simpl; lia]..].
Qed.
Lemma in_call_status n p st : prog_ok P C K n p st → place_of p = in_call → st ≠ AIdle.
Proof. destruct p as [got []|i j []]; simpl; naive_solver. Qed.
Lemma at_loop_status n p st : prog_ok P C K n p st → place_of p = at_loop → st = AIdle.
Proof. destruct p as [got []|i j []]; simpl; naive_solver. Qed.

(** One program gets less busy. *)
Lemma less_busy t n p : fine t → progs t !! n = Some p → place_of p ≠ at_loop →
  ∃ s p' pr co, trun t (Test s (<[n := p']> (progs t)) (main_at t) pr co) ∧ busy p' < busy p.
Proof.
  intros (a & Hs & Hi) Hp Hne. destruct (inv_lookup _ _ _ _ n p Hi Hp) as (_ & st & Hst & Hok).
  destruct (place_of p) eqn:Hw; [done| |].
  - destruct (finish_call (λ _, True) t a n st) as (s & a' & r & Hrun & Hs' & _ & Hr & Hr'); [done..|by eapply in_call_status|].
    assert (fine (with_queue s t)) as (a2 & Hs2 & Hi2) by (eapply fine_run; [by exists a|exact Hrun]).
    destruct (inv_lookup _ _ _ _ n p Hi2 Hp) as (_ & st2 & Hst2 & Hok2).
    assert (st2 = ARet r) as -> .
    { destruct Hs2 as (h & i & j & Hs2). destruct (sim_threads _ _ _ _ _ Hs2 n _ Hr) as (st3 & Hst3 & Hth). simpl in Hst2. simplify_eq.
      destruct st2; try done. simpl in Hth. by subst. }
    destruct (leave_total n p r Hok2) as (p' & Hl & Hb). eexists _, p', _, _. split; [|exact Hb].
    eapply rtc_r; [exact Hrun|]. by apply (t_return _ _ _ _ (with_queue s t) n p r p' _ Hp Hl), (q_return id _ n r).
  - destruct p as [got []|i j []]; try done; eexists (sys t), _, _, _; (split; [apply rtc_once; by eapply t_add|unfold busy; simpl; lia]).
Qed.

Lemma quiesce t : fine t → main_at t = joining → ∃ t', trun t t' ∧ quiet t'.
Proof.
  remember (sum_list_with busy (progs t)) as k eqn:Hk. revert t Hk. induction (lt_wf k) as [k _ IH]. intros t -> Hf Hm.
  destruct (decide (Forall (λ p, place_of p = at_loop) (progs t))) as [Hall|Hnot]; [by exists t|].
  apply not_Forall_Exists in Hnot; [|apply _]. apply Exists_exists in Hnot as (p & [n Hp]%list_elem_of_lookup & Hw).
  destruct (less_busy t n p Hf Hp Hw) as (s & p' & pr & co & Hrun & Hb).
  pose proof (sum_list_insert busy _ _ _ p' Hp) as Hsum.
  destruct (IH (sum_list_with busy (<[n:=p']> (progs t))) ltac:(lia) (Test s (<[n:=p']> (progs t)) (main_at t) pr co)) as (t' & Hrun' & Hq); try done.
  - by eapply fine_run.
  - exists t'. split; [by etrans|done].
Qed.

(** ** A quiet program does one round of its loop *)
Lemma ret_status s a n r : simulates s a → threads s !! n = Some (Ret r) → a_threads a !! n = Some (ARet r).
Proof.
  intros (h & i & j & Hs) Hr. destruct (sim_threads _ _ _ _ _ Hs n _ Hr) as (st & Hst & Hok). destruct st; try done. simpl in Hok. by subst.
Qed.

Lemma call_round (Q : aqueue Z → Prop) t a n p c :
  (∀ a a', Q a → astep a None a' → Q a') → simulates (sys t) a → inv (on_spec a t) → quiet t →
  progs t !! n = Some p → next_call P C K p = Some c → Q (aset (a_queue a) n (astart_call c) a) →
  ∃ s a' r, trun t (put n (enter p) s t) ∧ threads s !! n = Some (Ret r) ∧ Q a' ∧ a_threads a' !! n = Some (ARet r) ∧
    prog_ok P C K n (enter p) (ARet r).
Proof.
  intros HQ Hs Hi [Hm Hall] Hp Hc Ha. destruct (inv_lookup _ _ _ _ n p Hi Hp) as (_ & st & Hst & Hok). simpl in Hst.
  pose proof (at_loop_status n p st Hok (Forall_lookup_1 _ _ _ _ Hall Hp)) as ->.
  destruct (status_pc _ _ _ _ Hs Hst) as (pc & Hpc & _ & Hidle). rewrite (Hidle eq_refl) in Hpc.
  pose proof (q_call id (sys t) n c Hpc) as Hcall. destruct (sim_visible _ _ _ _ Hs Hcall) as (a1 & Hs1 & Ha1).
  pose proof (t_call P C K (qstep id) t n p c _ Hp Hc Hcall) as Hstep.
  assert (fine (put n (enter p) (QSys (queue_of (sys t)) (<[n:=start_call c]> (threads (sys t)))) t)) as Hf1
    by (eapply fine_run; [by exists a|by apply rtc_once]).
  inversion Ha1; subst. set (t1 := put _ _ _ _) in *.
  assert (astart_call c ≠ AIdle) as Hne by by destruct c.
  assert (a_threads (aset (a_queue a) n (astart_call c) a) !! n = Some (observe (a_queue a) (astart_call c))) as Hst1.
  { simpl. rewrite list_lookup_fmap, list_lookup_insert_eq by (by apply lookup_lt_Some in Hst). done. }
  destruct (finish_call Q t1 _ n _ HQ Hs1 Ha Hst1) as (s & a' & r & Hrun & Hs' & HQ' & Hr & Hr'); [by destruct c|].
  exists s, a', r. split_and!; try done; [by eapply rtc_l|].
  assert (fine (with_queue s t1)) as (a2 & Hs2 & Hi2) by by eapply fine_run.
  eapply (inv_prog _ _ _ _ Hi2 n); [simpl; apply list_lookup_insert_eq; by apply lookup_lt_Some in Hp|]. by apply (ret_status s).
Qed.

(** The call returned [r]; the program leaves it and counts. *)
Lemma finish_round t n p p1 p2 s r dp dc :
  quiet t → progs t !! n = Some p → trun t (put n (enter p) s t) → threads s !! n = Some (Ret r) →
  leave (enter p) r = Some p1 → add p1 = Some (p2, dp, dc) → place_of p2 = at_loop →
  ∃ t', trun t t' ∧ quiet t' ∧ progs t' = <[n := p2]> (progs t).
Proof.
  intros [Hm Hall] Hp Hrun Hr Hl Ha Hw. pose proof (lookup_lt_Some _ _ _ Hp) as Hlt.
  eexists. split; [eapply rtc_r; [eapply rtc_r; [exact Hrun|]|]|].
  - apply (t_return P C K (qstep id) (put n (enter p) s t) n (enter p) r p1); [by apply list_lookup_insert_eq|done|by apply (q_return id)].
  - eapply t_add; [|exact Ha]. simpl. apply list_lookup_insert_eq. by rewrite length_insert.
  - simpl. rewrite !list_insert_insert_eq. split; [|done]. split; [done|]. by apply Forall_insert.
Qed.

Lemma produce t n i j :
  fine t → quiet t → progs t !! n = Some (Producer i j at_loop) → j < K →
  ∃ t', trun t t' ∧ quiet t' ∧ progs t' = <[n := Producer i (S j) at_loop]> (progs t).
Proof.
  intros (a & Hs & Hi) Hq Hp Hj.
  destruct (call_round (λ _, True) t a n (Producer i j at_loop) (Enqueue (item K i j))) as (s & a' & r & Hrun & Hr & _ & _ & Hok); try done.
  { simpl. by rewrite bool_decide_eq_true_2. }
  destruct Hok as (_ & _ & _ & [?|[= ->]]); [done|]. by eapply finish_round.
Qed.

(** With something in the queue and nobody else about, a dequeue gets it. *)
Definition sole_dequeue (n : nat) a : Prop :=
  (∀ k st, a_threads a !! k = Some st → k ≠ n → st = AIdle) ∧
  ((a_threads a !! n = Some (ADeq false) ∧ a_queue a ≠ []) ∨ ∃ v, a_threads a !! n = Some (ARet (Dequeued (Some v)))).

Lemma sole_dequeue_step n a a' : sole_dequeue n a → astep a None a' → sole_dequeue n a'.
Proof.
  intros [Hidle Hn] Ha. inversion Ha as [| |k v Hst|k e v l Hst Hq|k Hst|k e m b Hst Hb]; subst;
    (destruct (decide (k = n)) as [->|Hk]; [|by specialize (Hidle _ _ Hst Hk)]);
    destruct Hn as [[Hn Hne]|[w Hn]]; rewrite Hn in Hst; simplify_eq.
  split; simpl.
  - intros k st Hk Hkn. apply list_lookup_fmap_Some in Hk as (st' & -> & Hk). rewrite list_lookup_insert_ne in Hk by done.
    by rewrite (Hidle _ _ Hk Hkn).
  - right. exists v. rewrite list_lookup_fmap, list_lookup_insert_eq by (by apply lookup_lt_Some in Hn). done.
Qed.

Lemma consume t a n got :
  simulates (sys t) a → inv (on_spec a t) → quiet t → progs t !! n = Some (Consumer got at_loop) → length got < quota → a_queue a ≠ [] →
  ∃ t' v, trun t t' ∧ quiet t' ∧ progs t' = <[n := Consumer (got ++ [v]) at_loop]> (progs t).
Proof.
  intros Hs Hi Hq Hp Hg Hne.
  assert (∀ k st, a_threads a !! k = Some st → st = AIdle) as Hidle.
  { intros k st Hst. destruct (inv_status _ _ _ _ k st Hi Hst) as [(p & Hpk & Hok)|[-> Hm]].
    - eapply at_loop_status; [exact Hok|]. destruct Hq as [_ Hall]. by apply (Forall_lookup_1 _ _ _ _ Hall Hpk).
    - simpl in Hm. destruct Hq as [Hmain _]. by rewrite Hmain in Hm. }
  destruct (inv_lookup _ _ _ _ n _ Hi Hp) as (_ & st & Hst & _). simpl in Hst.
  destruct (call_round (sole_dequeue n) t a n (Consumer got at_loop) Dequeue) as (s & a' & r & Hrun & Hr & [_ HQ] & Hr' & Hok); try done.
  - intros. by eapply sole_dequeue_step.
  - simpl. by rewrite bool_decide_eq_true_2.
  - split; simpl.
    + intros k st' Hk Hkn. apply list_lookup_fmap_Some in Hk as (st'' & -> & Hk). rewrite list_lookup_insert_ne in Hk by done.
      by rewrite (Hidle _ _ Hk).
    + left. rewrite list_lookup_fmap, list_lookup_insert_eq by (by apply lookup_lt_Some in Hst). simpl. by destruct (a_queue a).
  - rewrite Hr' in HQ. destruct HQ as [[? _]|[v Hv]]; [done|]. simplify_eq.
    destruct (finish_round t n (Consumer got at_loop) (Consumer (got ++ [v]) at_add) (Consumer (got ++ [v]) at_loop) s (Dequeued (Some v)) 0 1)
      as (t' & ? & ? & ?); try done. by exists t', v.
Qed.

(** ** There is always work for a program that is not finished *)
Lemma kind_sum (f : prog → nat) (t : test_state (aqueue Z)) c d :
  inv t → (∀ n p, progs t !! n = Some p → f p = if bool_decide (n < C) then c else d) →
  sum_list_with f (progs t) = C * c + P * d.
Proof.
  intros Hi Hf. assert (f <$> progs t = replicate C c ++ replicate P d) as He.
  { apply list_eq_same_length with (C + P); [by rewrite length_app, !length_replicate|rewrite length_fmap; apply (inv_progs _ _ _ _ Hi)|].
    intros n x y Hn Hx Hy. apply list_lookup_fmap_Some in Hx as (p & -> & Hp). rewrite (Hf n p Hp). case_bool_decide.
    - rewrite lookup_app_l in Hy by (by rewrite length_replicate). by apply lookup_replicate in Hy as [-> _].
    - rewrite lookup_app_r in Hy by (rewrite length_replicate; lia). by apply lookup_replicate in Hy as [-> _]. }
  rewrite sum_list_fmap_with, He, sum_list_with_app, !sum_replicate. done.
Qed.
Lemma sum_lt (f h : prog → nat) ps n p :
  (∀ k q, ps !! k = Some q → f q ≤ h q) → ps !! n = Some p → f p < h p → sum_list_with f ps < sum_list_with h ps.
Proof.
  intros Hle. revert n Hle. induction ps as [|q ps IH]; intros [|n] Hle Hp Hlt; simpl in *; simplify_eq.
  - assert (sum_list_with f ps ≤ sum_list_with h ps); [|lia]. clear IH. assert (∀ k q, ps !! k = Some q → f q ≤ h q) as Hle' by (intros k; apply (Hle (S k))).
    clear Hle. induction ps as [|q ps IH]; simpl; [lia|]. pose proof (Hle' 0 q eq_refl). specialize (IH (λ k, Hle' (S k))). lia.
  - pose proof (Hle 0 q eq_refl). specialize (IH n (λ k, Hle (S k)) Hp Hlt). lia.
Qed.
Lemma length_concat_with (f : prog → list Z) ps : length (concat (f <$> ps)) = sum_list_with (length ∘ f) ps.
Proof. induction ps as [|p ps IH]; [done|]. rewrite fmap_cons. simpl. by rewrite length_app, IH. Qed.
Lemma quiet_zip (f : prog → astatus Z → list Z) t a :
  inv (on_spec a t) → quiet t → zip_with f (progs t) (a_threads a) = (λ p, f p AIdle) <$> progs t.
Proof.
  intros Hi [_ Hall]. apply list_eq. intros n. rewrite lookup_zip_with, list_lookup_fmap.
  destruct (progs t !! n) as [p|] eqn:Hp; simpl; [|done]. destruct (inv_lookup _ _ _ _ n p Hi Hp) as (_ & st & Hst & Hok). simpl in Hst.
  rewrite Hst. simpl. f_equal. f_equal. eapply at_loop_status; [exact Hok|]. by apply (Forall_lookup_1 _ _ _ _ Hall Hp).
Qed.

Lemma more_to_take t a n got :
  C ≠ 0 → inv (on_spec a t) → quiet t → (∀ k i j w, progs t !! k = Some (Producer i j w) → j = K) →
  progs t !! n = Some (Consumer got at_loop) → length got < quota → a_queue a ≠ [].
Proof.
  intros HC Hi Hq HK Hp Hg Hnil. pose proof (inv_values _ _ _ _ Hi) as Hv. simpl in Hv. rewrite !(quiet_zip _ t a) in Hv by done.
  rewrite Hnil, app_nil_r in Hv. apply Permutation_length in Hv. rewrite !length_concat_with in Hv.
  assert (∀ k p, progs t !! k = Some p → place_of p = at_loop ∧ prog_ok P C K k p AIdle) as Hok.
  { intros k p Hk. destruct (inv_lookup _ _ _ _ k p Hi Hk) as (_ & st & _ & Hok). destruct Hq as [_ Hall].
    pose proof (Forall_lookup_1 _ _ _ _ Hall Hk) as Hw. simpl in Hw. split; [done|]. by rewrite (at_loop_status _ _ _ Hok Hw) in Hok. }
  rewrite (kind_sum _ _ 0 K Hi) in Hv.
  - assert (sum_list_with (length ∘ (λ p, taken_out p AIdle)) (progs t) <
      sum_list_with (λ p, match p with Consumer _ _ => quota | _ => 0 end) (progs t)) as Hlt.
    { eapply (sum_lt _ _ _ n); [|exact Hp|simpl; rewrite app_nil_r; exact Hg]. intros k p Hk. destruct (Hok k p Hk) as [_ Hokp].
      destruct p; simpl; [|lia]. rewrite app_nil_r. by destruct Hokp as (_ & ? & _). }
    change (progs t) with (progs (on_spec a t)) in Hlt. erewrite (kind_sum (λ p, match p with Consumer _ _ => quota | _ => 0 end) _ quota 0 Hi) in Hlt.
    + pose proof (Nat.Div0.mul_div_le (K * P) C) as Hdiv. change (K * P / C) with quota in Hdiv. simpl in Hv, Hlt. lia.
    + intros k p Hk. destruct (Hok k p Hk) as [_ Hokp]. destruct p; destruct Hokp as [? _];
        [by rewrite bool_decide_eq_true_2|by rewrite bool_decide_eq_false_2 by lia].
  - intros k p Hk. destruct (Hok k p Hk) as [Hw Hokp]. destruct p as [|i j w]; simpl in Hw; subst; destruct Hokp as [? _]; simpl;
      [by rewrite bool_decide_eq_true_2|rewrite bool_decide_eq_false_2 by lia].
    rewrite app_nil_r, length_fmap, length_seq. by eapply HK.
Qed.

Definition todo (p : prog) : nat := match p with Consumer got _ => quota - length got | Producer _ j _ => K - j end.
Definition idle_producer (p : prog) : Prop := match p with Producer _ j _ => j < K | _ => False end.
#[local] Instance idle_producer_dec p : Decision (idle_producer p).
Proof. destruct p; apply _. Defined.

Lemma work t : C ≠ 0 → fine t → quiet t → ∃ t', trun t t' ∧ quiet t' ∧ Forall finished (progs t').
Proof.
  intros HC. remember (sum_list_with todo (progs t)) as k eqn:Hk. revert t Hk. induction (lt_wf k) as [k _ IH]. intros t -> Hf Hq.
  assert (∀ t' n p p', trun t t' → quiet t' → progs t !! n = Some p → progs t' = <[n := p']> (progs t) → todo p' < todo p →
    ∃ t'', trun t t'' ∧ quiet t'' ∧ Forall finished (progs t'')) as Hnext.
  { intros t' n p p' Hrun Hq' Hp Hps Htodo. pose proof (sum_list_insert todo _ _ _ p' Hp) as Hsum. rewrite <-Hps in Hsum.
    destruct (IH (sum_list_with todo (progs t')) ltac:(lia) t' eq_refl) as (t'' & ? & ? & ?); [by eapply fine_run|done|].
    exists t''. split; [by etrans|done]. }
  destruct (decide (Exists idle_producer (progs t))) as [Hex|Hno].
  { apply Exists_exists in Hex as (p & [n Hp]%list_elem_of_lookup & Hidle). destruct p as [|i j w]; [done|].
    pose proof (Forall_lookup_1 _ _ _ _ (proj2 Hq) Hp) as Hw. simpl in Hw. subst.
    destruct (produce t n i j Hf Hq Hp Hidle) as (t' & Hrun & Hq' & Hps). eapply Hnext; [done..|]. simpl in *. lia. }
  destruct (decide (Forall finished (progs t))) as [Hall|Hnot]; [by exists t|].
  apply not_Forall_Exists in Hnot; [|apply _]. apply Exists_exists in Hnot as (p & [n Hp]%list_elem_of_lookup & Hfin).
  destruct Hf as (a & Hs & Hi). apply not_Exists_Forall in Hno; [|apply _].
  assert (∀ k i j w, progs t !! k = Some (Producer i j w) → j = K) as HK.
  { intros k i j w Hk. pose proof (Forall_lookup_1 _ _ _ _ Hno Hk) as Hn. simpl in Hn.
    destruct (inv_lookup _ _ _ _ k _ Hi Hk) as (_ & st & _ & (_ & ? & _)). lia. }
  pose proof (Forall_lookup_1 _ _ _ _ (proj2 Hq) Hp) as Hw. destruct p as [got w|i j w]; simpl in Hw; subst; simpl in Hfin.
  - assert (length got < quota) as Hg by (destruct (decide (length got < quota)); [done|]; exfalso; apply Hfin, bool_decide_pack; lia).
    destruct (consume t a n got Hs Hi Hq Hp Hg) as (t' & v & Hrun & Hq' & Hps); [by eapply more_to_take|].
    eapply Hnext; [done..|]. simpl. rewrite length_app. simpl. lia.
  - exfalso. apply Hfin, bool_decide_pack. by rewrite (HK _ _ _ _ Hp).
Qed.

(** ** The end of main *)
Lemma asking_ends t : fine t → main_at t = asking → ∃ t' b, trun t t' ∧ main_at t' = printed b.
Proof.
  intros (a & Hs & Hi) Hm. pose proof (inv_progs _ _ _ _ Hi) as Hlen. simpl in Hlen.
  destruct (lookup_lt_is_Some_2 (a_threads a) (length (progs t))) as [st Hst].
  { pose proof (inv_threads _ _ _ _ Hi) as Hl. simpl in Hl. rewrite Hlen. lia. }
  assert (st ≠ AIdle) as Hne.
  { rewrite Hlen in Hst. pose proof (inv_main _ _ _ _ Hi st Hst) as Hok. simpl in Hok. rewrite Hm in Hok. naive_solver. }
  destruct (finish_call (λ _, True) t a _ st ltac:(done) Hs I Hst Hne) as (s & a' & r & Hrun & _ & _ & Hr & _).
  assert (fine (with_queue s t)) as (a2 & Hs2 & Hi2) by (eapply fine_run; [by exists a|done]).
  pose proof (ret_status _ _ _ _ Hs2 Hr) as Hst2. rewrite Hlen in Hst2. pose proof (inv_main _ _ _ _ Hi2 _ Hst2) as Hok. simpl in Hok. rewrite Hm in Hok.
  destruct Hok as [_ [(? & ? & ? & _)|[= ->]]]; [done|].
  eexists _, _. split; [eapply rtc_r; [exact Hrun|]|]; [by eapply (t_print P C K (qstep id) (with_queue s t)), (q_return id)|done].
Qed.

Lemma test_can_end t : C ≠ 0 → trun (test_start P C) t → ∃ t' b, trun t t' ∧ main_at t' = printed b.
Proof.
  intros HC Hrun. assert (fine t) as Hf by (by apply trun_inv).
  destruct (main_at t) as [| |b] eqn:Hm; [|by apply asking_ends|by exists t, b].
  destruct (quiesce t Hf Hm) as (t1 & Hrun1 & Hq1). destruct (work t1 HC) as (t2 & Hrun2 & Hq2 & Hfin); [by eapply fine_run|done|].
  assert (fine t2) as (a & Hs & Hi) by (eapply fine_run; [exact Hf|by etrans]).
  pose proof (inv_progs _ _ _ _ Hi) as Hlen. simpl in Hlen.
  destruct (lookup_lt_is_Some_2 (a_threads a) (length (progs t2))) as [st Hst].
  { pose proof (inv_threads _ _ _ _ Hi) as Hl. simpl in Hl. rewrite Hlen. lia. }
  destruct (status_pc _ _ _ _ Hs Hst) as (pc & Hpc & _ & Hidle).
  assert (st = AIdle) as Heq.
  { rewrite Hlen in Hst. pose proof (inv_main _ _ _ _ Hi st Hst) as Hok. simpl in Hok. by rewrite (proj1 Hq2) in Hok. }
  rewrite (Hidle Heq) in Hpc. pose proof (q_call id (sys t2) _ Empty Hpc) as Hcall.
  pose proof (t_join P C K (qstep id) t2 _ (proj1 Hq2) Hfin Hcall) as Hjoin.
  destruct (asking_ends _ (fine_run _ _ (ex_intro _ a (conj Hs Hi)) (rtc_once _ _ Hjoin)) eq_refl) as (t' & b & Hrun' & Hb).
  exists t', b. split; [|done]. etrans; [exact Hrun1|]. etrans; [exact Hrun2|]. by eapply rtc_l.
Qed.
End test.

(** The counters are at most the items. *)
Lemma sum_le (f h : prog → nat) ps : (∀ k q, ps !! k = Some q → f q ≤ h q) → sum_list_with f ps ≤ sum_list_with h ps.
Proof.
  induction ps as [|q ps IH]; intros Hle; simpl; [lia|]. pose proof (Hle 0 q eq_refl). specialize (IH (λ k, Hle (S k))). lia.
Qed.
Lemma counters_bounded P C K t :
  trun P C K (qstep id) (test_start P C) t → produced t ≤ P * K ∧ consumed t ≤ P * K.
Proof.
  intros (a & _ & Hi)%trun_inv.
  assert (∀ k p, progs t !! k = Some p → ∃ st, prog_ok P C K k p st) as Hok.
  { intros k p Hk. destruct (inv_lookup P C K _ k p Hi Hk) as (_ & st & _ & ?). by exists st. }
  pose proof (inv_produced _ _ _ _ Hi) as Hp. pose proof (inv_consumed _ _ _ _ Hi) as Hc. simpl in Hp, Hc. rewrite Hp, Hc.
  pose proof (kind_sum P C K (λ p, match p with Consumer _ _ => 0 | _ => K end) _ 0 K Hi) as HP.
  pose proof (kind_sum P C K (λ p, match p with Consumer _ _ => quota P C K | _ => 0 end) _ (quota P C K) 0 Hi) as HC.
  assert (C * quota P C K ≤ P * K) as Hq by (unfold quota; rewrite (Nat.mul_comm P); apply Nat.Div0.mul_div_le).
  simpl in HP, HC. split.
  - etrans; [apply (sum_le _ (λ p, match p with Consumer _ _ => 0 | _ => K end))|].
    + intros k p (st & H)%Hok. destruct p; simpl; [lia|]. by destruct H as (_ & ? & _).
    + rewrite HP; [lia|]. intros k p (st & H)%Hok. destruct p; destruct H as [? _];
        [by rewrite bool_decide_eq_true_2|by rewrite bool_decide_eq_false_2 by lia].
  - etrans; [apply (sum_le _ (λ p, match p with Consumer _ _ => quota P C K | _ => 0 end))|].
    + intros k p (st & H)%Hok. destruct p; simpl; [destruct H as (_ & ? & _); lia|lia].
    + rewrite HC; [lia|]. intros k p (st & H)%Hok. destruct p; destruct H as [? _];
        [by rewrite bool_decide_eq_true_2|by rewrite bool_decide_eq_false_2 by lia].
Qed.

(** C14: The concurrent part of the test, with any number of producers and of
    items, at least one consumer, and fewer than 2^31 items in all: however the
    threads are interleaved and whichever compare-exchanges fail, the counters
    stay in the range of [int] and the test can always still come to its end;
    at the end it prints that every item was produced, that the consumers have
    their quotas, and that the queue is empty exactly if the quotas add up to
    the items.  No item was lost, invented or given out twice: what the
    consumers were given, together with the values still linked from the head
    of the queue, is every item once. *)
Theorem queue_concurrent_test P C K t :
  C ≠ 0 → (Z.of_nat (P * K) < 2 ^ 31)%Z → trun P C K (qstep id) (test_start P C) t →
  (Z.of_nat (produced t) < 2 ^ 31 ∧ Z.of_nat (consumed t) < 2 ^ 31)%Z ∧
  (∃ t' b, trun P C K (qstep id) t t' ∧ main_at t' = printed b) ∧
  ∀ b, main_at t = printed b →
    produced t = P * K ∧ consumed t = C * quota P C K ∧ b = bool_decide (C * quota P C K = P * K) ∧
    Z.of_nat <$> seq 0 (P * K) ≡ₚ concat (values_of <$> progs t) ++ queued (queue_of (sys t)).
Proof.
  intros HC HK Hrun. destruct (counters_bounded P C K t Hrun). split; [lia|]. split; [by apply test_can_end|]. intros b Hb.
  destruct (test_end P C K t b Hrun Hb) as (? & ? & a & (hist & ih & it & Hs) & Hperm & Hlen & ->).
  rewrite (queued_ok _ _ _ _ (sim_shape _ _ _ _ _ Hs)), <-(sim_queue _ _ _ _ _ Hs). split_and!; [done|done| |done].
  apply Permutation_length in Hperm. rewrite length_fmap, length_seq, length_app, Hlen in Hperm.
  destruct (a_queue a); simpl in *; [rewrite bool_decide_eq_true_2 by lia|rewrite bool_decide_eq_false_2 by lia]; done.
Qed.

(** The numbers of the program. *)
Lemma queue_concurrent_test_witness :
  ∃ t, trun 5 5 200 (qstep id) (test_start 5 5) t ∧ main_at t = printed true ∧ produced t = 1000 ∧ consumed t = 1000.
Proof.
  assert (Z.of_nat (5 * 200) < 2 ^ 31)%Z as HK by (vm_compute; reflexivity).
  destruct (proj1 (proj2 (queue_concurrent_test 5 5 200 _ ltac:(done) HK (rtc_refl _ _)))) as (t & b & Hrun & Hb).
  destruct (proj2 (proj2 (queue_concurrent_test 5 5 200 _ ltac:(done) HK Hrun)) b Hb) as (Hp & Hc & He & _).
  exists t. split; [exact Hrun|]. rewrite Hb, Hp, Hc, He. split_and!; [f_equal| |]; vm_compute; reflexivity.
Defined.
