(* ===== verification/BPlusTree.v ===== *)
(** * KV_Store/BplusTree.cpp: the B+ tree

    The class [BPlusTree<K, V>] at [int] keys.  A node is a location of the
    store; a leaf has its keys, values and the next leaf, an inner node its
    keys and children.  The vectors are lists; reading, inserting or erasing
    outside a vector is undefined behaviour.  The same text is
    B+Tree/BplusTree.cpp. *)
From stdpp Require Import base gmap list strings.
From S2P Require Import Prelude Random.

Abbreviation loc := positive.

Inductive bnode (V : Type) :=
| LeafNode (keys : list Z) (values : list V) (next : option loc)
| InternalNode (keys : list Z) (children : list loc).
Arguments LeafNode {V} keys values next.
Arguments InternalNode {V} keys children.

Record BPlusTree (V : Type) := BP {
  degree : Z;
  root : option loc;
  first_leaf : option loc;
  nodes : gmap loc (bnode V)
}.
Arguments BP {V} degree root first_leaf nodes.
Arguments degree {V} _.
Arguments root {V} _.
Arguments first_leaf {V} _.
Arguments nodes {V} _.

(** *** Vectors *)
Section vectors.
Context {A : Type}.
Implicit Types l : list A.

(** [v.insert(v.begin() + i, x)] *)
Definition vec_insert (i : nat) (x : A) l : option (list A) :=
  if bool_decide (i ≤ length l) then Some (take i l ++ x :: drop i l) else None.
(** [v.erase(v.begin() + i)] *)
Definition vec_erase (i : nat) l : option (list A) :=
  if bool_decide (i < length l) then Some (take i l ++ drop (S i) l) else None.
End vectors.

(** [std::lower_bound(begin, end, key) - begin] on a sorted vector. *)
Fixpoint lower_bound (key : Z) (l : list Z) : nat :=
  match l with
  | [] => 0
  | x :: l' => if bool_decide (x < key)%Z then S (lower_bound key l') else 0
  end.
(** [it != end && *it == key] at that position. *)
Definition key_at (key : Z) (l : list Z) : bool :=
  bool_decide (l !! lower_bound key l = Some key).
(** [std::binary_search] *)
Definition binary_search (key : Z) (l : list Z) : bool :=
  match l !! lower_bound key l with
  | Some x => negb (bool_decide (key < x)%Z)
  | None => false
  end.

(** [LeafNode::contains] *)
Definition leaf_contains (keys : list Z) (key : Z) : bool := binary_search key keys.

(** [InternalNode::find_child_index] *)
Fixpoint find_child_index (key : Z) (keys : list Z) : nat :=
  match keys with
  | [] => 0
  | k :: keys' => if bool_decide (key > k)%Z then S (find_child_index key keys') else 0
  end.

Section BPlusTree_defs.
Context {V : Type}.
Abbreviation st := (BPlusTree V).

Definition of_option {A} (o : option A) : M st A := λ s,
  match o with Some a => Ok a s | None => Undef end.

Definition node_at (l : loc) : M st (bnode V) := λ s,
  match nodes s !! l with Some n => Ok n s | None => Undef end.
Definition set_node (l : loc) (n : bnode V) : M st unit :=
  modify (λ s, BP (degree s) (root s) (first_leaf s) (<[l := n]> (nodes s))).
Definition new_node (n : bnode V) : M st loc := λ s,
  let l := fresh (dom (nodes s)) in
  Ok l (BP (degree s) (root s) (first_leaf s) (<[l := n]> (nodes s))).
Definition set_root (r : option loc) : M st unit :=
  modify (λ s, BP (degree s) r (first_leaf s) (nodes s)).
Definition set_first_leaf (f : option loc) : M st unit :=
  modify (λ s, BP (degree s) (root s) f (nodes s)).

Definition keys_of (n : bnode V) : list Z :=
  match n with LeafNode ks _ _ => ks | InternalNode ks _ => ks end.
Definition is_leaf (n : bnode V) : bool :=
  match n with LeafNode _ _ _ => true | InternalNode _ _ => false end.

Definition is_full (n : bnode V) : M st bool :=
  gets (λ s, bool_decide (Z.of_nat (length (keys_of n)) >= 2 * degree s - 1)%Z).
Definition is_underflow (n : bnode V) : M st bool :=
  gets (λ s, bool_decide (Z.of_nat (length (keys_of n)) < degree s - 1)%Z).

(** *** Leaves *)
Definition insert_key (l : loc) (key : Z) (value : V) : M st unit :=
  let* n := node_at l in
  match n with
  | LeafNode keys values next =>
      let idx := lower_bound key keys in
      let* keys := of_option (vec_insert idx key keys) in
      let* values := of_option (vec_insert idx value values) in
      set_node l (LeafNode keys values next)
  | InternalNode _ _ => ret tt
  end.

Definition remove_key (l : loc) (key : Z) : M st unit :=
  let* n := node_at l in
  match n with
  | LeafNode keys values next =>
      if key_at key keys then
        let idx := lower_bound key keys in
        let* keys := of_option (vec_erase idx keys) in
        let* values := of_option (vec_erase idx values) in
        set_node l (LeafNode keys values next)
      else ret tt
  | InternalNode _ _ => ret tt
  end.

(** The value found, [None] for null. *)
Definition leaf_find (l : loc) (key : Z) : M st (option V) :=
  let* n := node_at l in
  match n with
  | LeafNode keys values _ =>
      if key_at key keys then
        let* v := of_option (values !! lower_bound key keys) in ret (Some v)
      else ret None
  | InternalNode _ _ => ret None
  end.

(** The [for] of [LeafNode::range_query]: the values, and whether it stops. *)
Fixpoint leaf_range (start end_ : Z) (keys : list Z) (values : list V) (result : list V)
  : option (list V * bool) :=
  match keys, values with
  | [], _ => Some (result, false)
  | k :: keys', v :: values' =>
      if bool_decide (k >= start)%Z && bool_decide (k <= end_)%Z then
        leaf_range start end_ keys' values' (result ++ [v])
      else if bool_decide (k > end_)%Z then Some (result, true)
      else leaf_range start end_ keys' values' result
  | _ :: _, [] => None
  end.

Definition leaf_range_query_iter (start end_ : Z) (st0 : option loc * list V)
  : M st ((option loc * list V) + list V) :=
  let '(leaf, result) := st0 in
  match leaf with
  | None => ret (inr result)
  | Some l =>
      let* n := node_at l in
      match n with
      | LeafNode keys values next =>
          let* r := of_option (leaf_range start end_ keys values result) in
          let '(result, stop) := r in
          if stop : bool then ret (inr result) else ret (inl (next, result))
      | InternalNode _ _ => undef
      end
  end.
Definition leaf_range_query (fuel : nat) (l : loc) (start end_ : Z) : M st (list V) :=
  loop fuel (leaf_range_query_iter start end_) (Some l, []).

(** [LeafNode::split]: the new right leaf. *)
Definition leaf_split (l : loc) : M st loc :=
  let* n := node_at l in
  match n with
  | LeafNode keys values next =>
      let mid := length keys / 2 in
      let* new_leaf := new_node (LeafNode (drop mid keys) (drop mid values) next) in
      set_node l (LeafNode (take mid keys) (take mid values) (Some new_leaf)) ;;
      ret new_leaf
  | InternalNode _ _ => undef
  end.

(** *** Inner nodes *)

(** [InternalNode::split]: the new right node; the middle key is dropped. *)
Definition internal_split (l : loc) : M st loc :=
  let* n := node_at l in
  match n with
  | InternalNode keys children =>
      let mid := length keys / 2 in
      let* mid_key := of_option (keys !! mid) in
      if bool_decide (S mid ≤ length children) then
        let* new_right := new_node (InternalNode (drop (S mid) keys) (drop (S mid) children)) in
        set_node l (InternalNode (take mid keys) (take (S mid) children)) ;;
        ret new_right
      else undef
  | LeafNode _ _ _ => undef
  end.

Definition insert_child (l : loc) (idx : nat) (key : Z) (child : loc) : M st unit :=
  let* n := node_at l in
  match n with
  | InternalNode keys children =>
      if bool_decide (idx < length keys) then
        let* keys := of_option (vec_insert idx key keys) in
        let* children := of_option (vec_insert (S idx) child children) in
        set_node l (InternalNode keys children)
      else set_node l (InternalNode (keys ++ [key]) (children ++ [child]))
  | LeafNode _ _ _ => undef
  end.

(** *** Insertion *)

(** Split the full child at [idx] of the inner node [l]. *)
Definition split_child (l : loc) (idx : nat) (child : loc) : M st unit :=
  let* c := node_at child in
  if is_leaf c then
    let* new_leaf := leaf_split child in
    let* nl := node_at new_leaf in
    let* promote_key := of_option (keys_of nl !! 0) in
    insert_child l idx promote_key new_leaf
  else
    let* new_internal := internal_split child in
    let* c := node_at child in
    (* one past the end of the shortened vector *)
    let* promote_key := of_option (keys_of c !! length (keys_of c)) in
    insert_child l idx promote_key new_internal.

Fixpoint insert_nonfull (fuel : nat) (l : loc) (key : Z) (value : V) : M st unit :=
  match fuel with
  | 0 => no_fuel
  | S fuel =>
      let* n := node_at l in
      match n with
      | LeafNode _ _ _ => insert_key l key value
      | InternalNode keys children =>
          let idx := find_child_index key keys in
          let* child := of_option (children !! idx) in
          let* c := node_at child in
          let* full := is_full c in
          let* idx :=
            (if full : bool then
               split_child l idx child ;;
               let* n := node_at l in
               let* k := of_option (keys_of n !! idx) in
               ret (if bool_decide (key > k)%Z then S idx else idx)
             else ret idx) in
          let* n := node_at l in
          match n with
          | InternalNode _ children =>
              let* child := of_option (children !! idx) in
              insert_nonfull fuel child key value
          | LeafNode _ _ _ => undef
          end
      end
  end.

Definition BPlusTree_ctor (deg : Z) : st := BP (Z.max 2 deg) None None ∅.

(** Split a full root. *)
Definition split_root (r : loc) : M st unit :=
  let* n := node_at r in
  if is_leaf n then
    let* new_leaf := leaf_split r in
    let* nl := node_at new_leaf in
    let* promote_key := of_option (keys_of nl !! 0) in
    let* new_root := new_node (InternalNode [promote_key] [r; new_leaf]) in
    set_root (Some new_root)
  else
    let* new_internal := internal_split r in
    let* n := node_at r in
    match n with
    | InternalNode keys children =>
        let* promote_key := of_option (keys !! (length keys / 2)) in
        let* keys := of_option (vec_erase (length keys / 2) keys) in
        set_node r (InternalNode keys children) ;;
        let* new_root := new_node (InternalNode [promote_key] [r; new_internal]) in
        set_root (Some new_root)
    | LeafNode _ _ _ => undef
    end.

Definition bp_insert (fuel : nat) (key : Z) (value : V) : M st unit :=
  let* r := gets root in
  match r with
  | None =>
      let* leaf := new_node (LeafNode [] [] None) in
      insert_key leaf key value ;;
      set_root (Some leaf) ;;
      set_first_leaf (Some leaf)
  | Some r =>
      let* n := node_at r in
      let* full := is_full n in
      when full then split_root r ;;
      let* r := gets root in
      match r with Some r => insert_nonfull fuel r key value | None => undef end
  end.

(** *** Removal *)

(** Drop the child at [idx] if it is an empty leaf. *)
Definition drop_empty_leaf (l : loc) (idx : nat) (keys : list Z) (children : list loc)
  : M st unit :=
  let* child := of_option (children !! idx) in
  let* c := node_at child in
  match c with
  | LeafNode [] _ _ =>
      let* children := of_option (vec_erase idx children) in
      let* keys :=
        (match idx with
         | S idx' => of_option (vec_erase idx' keys)
         | 0 => ret (match keys with [] => [] | _ :: keys' => keys' end)
         end) in
      set_node l (InternalNode keys children)
  | _ => ret tt
  end.

Fixpoint remove_recursive (fuel : nat) (l : loc) (key : Z) : M st bool :=
  match fuel with
  | 0 => no_fuel
  | S fuel =>
      let* n := node_at l in
      match n with
      | LeafNode keys _ _ =>
          let had_key := leaf_contains keys key in
          remove_key l key ;;
          let* n := node_at l in
          let* under := is_underflow n in
          ret (had_key && under)
      | InternalNode keys children =>
          let idx := find_child_index key keys in
          let* child := of_option (children !! idx) in
          let* child_underflow := remove_recursive fuel child key in
          let* n := node_at l in
          match n with
          | InternalNode keys children =>
              when child_underflow then drop_empty_leaf l idx keys children ;;
              let* n := node_at l in is_underflow n
          | LeafNode _ _ _ => undef
          end
      end
  end.

Definition bp_remove (fuel : nat) (key : Z) : M st unit :=
  let* r := gets root in
  match r with
  | None => ret tt
  | Some r =>
      let* _ := remove_recursive fuel r key in
      let* n := node_at r in
      match n with
      | LeafNode keys _ _ =>
          if bool_decide (keys = []) then set_root None ;; set_first_leaf None else ret tt
      | InternalNode [] [c] => set_root (Some c)
      | InternalNode _ _ => ret tt
      end
  end.

(** *** Queries *)
Definition find_leaf_iter (key : Z) (l : loc) : M st (loc + option loc) :=
  let* n := node_at l in
  match n with
  | LeafNode _ _ _ => ret (inr (Some l))
  | InternalNode keys children =>
      match children !! find_child_index key keys with
      | None => ret (inr None)
      | Some c => ret (inl c)
      end
  end.
Definition find_leaf (fuel : nat) (key : Z) : M st (option loc) :=
  let* r := gets root in
  match r with
  | None => ret None
  | Some r => loop fuel (find_leaf_iter key) r
  end.

Definition bp_find (fuel : nat) (key : Z) : M st (option V) :=
  let* leaf := find_leaf fuel key in
  match leaf with Some l => leaf_find l key | None => ret None end.

Definition bp_contains (fuel : nat) (key : Z) : M st bool :=
  let* v := bp_find fuel key in
  ret (match v with Some _ => true | None => false end).

Definition bp_range_query (fuel : nat) (start end_ : Z) : M st (list V) :=
  let* r := gets root in
  match r with
  | None => ret []
  | Some _ =>
      let* leaf := find_leaf fuel start in
      match leaf with Some l => leaf_range_query fuel l start end_ | None => ret [] end
  end.

(** The minimum and maximum passed by reference; [None] before they are set. *)
Definition range := (option Z * option Z * bool)%type.

(** The checks on a leaf. *)
Fixpoint strictly_sorted (l : list Z) : bool :=
  match l with
  | x :: ((y :: _) as l') => negb (bool_decide (y <= x)%Z) && strictly_sorted l'
  | _ => true
  end.
Definition validate_leaf (keys : list Z) (r : range) : M st (bool * range) :=
  let '(min_key, max_key, first) := r in
  match head keys, last keys with
  | Some front, Some back =>
      if negb (strictly_sorted keys) then ret (false, r)
      else if first : bool then ret (true, (Some front, Some back, false))
      else
        let* max := of_option max_key in
        if bool_decide (front <= max)%Z then ret (false, r)
        else ret (true, (min_key, Some back, false))
  | _, _ => ret (false, r)
  end.

(** The two comparisons after the [i]-th child was validated. *)
Definition check_split (i : nat) (keys : list Z) (r : range) : M st bool :=
  let '(child_min, child_max, _) := r in
  let* ok :=
    (match keys !! i with
     | Some k => let* m := of_option child_max in ret (negb (bool_decide (m > k)%Z))
     | None => ret true
     end) in
  if ok : bool then
    match i with
    | 0 => ret true
    | S i' =>
        let* k := of_option (keys !! i') in
        let* m := of_option child_min in
        ret (negb (bool_decide (m <= k)%Z))
    end
  else ret false.

Definition validate_size (l : loc) (n : bnode V) : M st bool :=
  let* r := gets root in
  if bool_decide (Some l = r) then ret true
  else let* under := is_underflow n in ret (negb under).

Section validate.
(** The loop over the children, given the recursive call. *)
Context (validate_child : loc → range → M st (bool * range)).
Fixpoint validate_children (i : nat) (keys : list Z) (children : list loc) (r : range) : M st bool :=
  match children with
  | [] => ret true
  | c :: children' =>
      let* v := validate_child c r in
      let '(ok, r) := v in
      if ok : bool then
        let* ok := check_split i keys r in
        if ok : bool then validate_children (S i) keys children' r else ret false
      else ret false
  end.
End validate.

Fixpoint validate_node (fuel : nat) (l : loc) (r : range) : M st (bool * range) :=
  match fuel with
  | 0 => no_fuel
  | S fuel =>
      let* n := node_at l in
      let* ok := validate_size l n in
      if ok : bool then
        match n with
        | LeafNode keys _ _ => validate_leaf keys r
        | InternalNode keys children =>
            if bool_decide (children = []) then ret (false, r)
            else if bool_decide (length keys ≠ length children - 1) then ret (false, r)
            else
              let* ok := validate_children (validate_node fuel) 0 keys children (None, None, true) in
              ret (ok, r)
        end
      else ret (false, r)
  end.

Definition bp_validate (fuel : nat) : M st bool :=
  let* r := gets root in
  match r with
  | None => ret true
  | Some r => let* v := validate_node fuel r (None, None, true) in ret v.1
  end.

(** [print]: the nodes it prints, with their levels, in order. *)
Definition print_iter (qo : list (loc * nat) * list (nat * list Z))
  : M st ((list (loc * nat) * list (nat * list Z)) + list (nat * list Z)) :=
  let '(q, out) := qo in
  match q with
  | [] => ret (inr out)
  | (l, level) :: q =>
      let* n := node_at l in
      let out := out ++ [(level, keys_of n)] in
      match n with
      | LeafNode _ _ _ => ret (inl (q, out))
      | InternalNode _ children => ret (inl (q ++ ((λ c, (c, S level)) <$> children), out))
      end
  end.
Definition bp_print (fuel : nat) : M st (list (nat * list Z)) :=
  let* r := gets root in
  match r with
  | None => ret []
  | Some r => loop fuel print_iter ([(r, 0)], [])
  end.

(** [print_leaves]: the keys of the leaves, along the [next] pointers. *)
Definition leaves_iter (lo : option loc * list (list Z))
  : M st ((option loc * list (list Z)) + list (list Z)) :=
  let '(leaf, out) := lo in
  match leaf with
  | None => ret (inr out)
  | Some l =>
      let* n := node_at l in
      match n with
      | LeafNode keys _ next => ret (inl (next, out ++ [keys]))
      | InternalNode _ _ => undef
      end
  end.
Definition print_leaves (fuel : nat) : M st (list (list Z)) :=
  let* f := gets first_leaf in loop fuel leaves_iter (f, []).

Definition height_iter (lh : option loc * Z) : M st ((option loc * Z) + Z) :=
  let '(node, h) := lh in
  match node with
  | None => ret (inr h)
  | Some l =>
      let* n := node_at l in
      match n with
      | LeafNode _ _ _ => ret (inr h)
      | InternalNode _ [] => ret (inr h)
      | InternalNode _ (c :: _) => ret (inl (Some c, (h + 1)%Z))
      end
  end.
Definition bp_height (fuel : nat) : M st Z :=
  let* r := gets root in
  let* h := loop fuel height_iter (r, 0%Z) in
  ret (h + 1)%Z.

Definition size_iter (lc : option loc * nat) : M st ((option loc * nat) + nat) :=
  let '(leaf, count) := lc in
  match leaf with
  | None => ret (inr count)
  | Some l =>
      let* n := node_at l in
      match n with
      | LeafNode keys _ next => ret (inl (next, count + length keys))
      | InternalNode _ _ => undef
      end
  end.
Definition bp_size (fuel : nat) : M st nat :=
  let* f := gets first_leaf in loop fuel size_iter (f, 0).

(** *** The test program *)
Fixpoint insert_all (fuel : nat) (kvs : list (Z * V)) : M st unit :=
  match kvs with
  | [] => ret tt
  | (k, v) :: kvs' => bp_insert fuel k v ;; insert_all fuel kvs'
  end.
Fixpoint find_all (fuel : nat) (ks : list Z) : M st (list (option V)) :=
  match ks with
  | [] => ret []
  | k :: ks' =>
      let* v := bp_find fuel k in
      let* vs := find_all fuel ks' in
      ret (v :: vs)
  end.
End BPlusTree_defs.

Definition test_data : list (Z * string) :=
  [(10, "Alice"); (20, "Bob"); (5, "Charlie"); (15, "David"); (25, "Eve"); (3, "Frank");
   (7, "Grace"); (12, "Henry"); (17, "Ivy"); (22, "Jack")]%Z%string.

(** What tests 1 to 4 print. *)
Record report := Report {
  r_print : list (nat * list Z);
  r_height : Z;
  r_size : nat;
  r_valid : bool;
  r_found : list (option string);
  r_missing : option string;
  r_range : list string;
  r_before : list (list Z);
  r_after : list (list Z);
  r_deleted : bool
}.

(** Tests 1 to 4, on a tree of degree 3. *)
Definition test_small (fuel : nat) : M (BPlusTree string) report :=
  insert_all fuel test_data ;;
  let* p := bp_print fuel in
  let* h := bp_height fuel in
  let* n := bp_size fuel in
  let* ok := bp_validate fuel in
  let* found := find_all fuel test_data.*1 in
  let* missing := bp_find fuel 100 in
  let* results := bp_range_query fuel 10 20 in
  let* before := print_leaves fuel in
  bp_remove fuel 15 ;;
  let* after := print_leaves fuel in
  let* still := bp_contains fuel 15 in
  ret (Report p h n ok found missing results before after (negb still)).

(** Test 5: the heights printed on the way, the final height and size, whether
    all values are found, the size of the range [25, 35] and [validate]. *)
Record bulk_report := BulkReport {
  b_heights : list Z;
  b_height : Z;
  b_size : nat;
  b_all_found : bool;
  b_range : nat;
  b_valid : bool
}.

(** The insertion loop: [n] keys from [i] on, and the heights after each 20. *)
Fixpoint bulk_insert (fuel : nat) (n : nat) (i : Z) : M (BPlusTree Z) (list Z) :=
  match n with
  | 0 => ret []
  | S n =>
      bp_insert fuel i (i * 10)%Z ;;
      let* h :=
        (if bool_decide ((i + 1) mod 20 = 0)%Z then let* h := bp_height fuel in ret [h]
         else ret []) in
      let* hs := bulk_insert fuel n (i + 1)%Z in
      ret (h ++ hs)
  end.

(** The lookup loop: it stops at the first wrong value. *)
Fixpoint bulk_verify (fuel : nat) (n : nat) (i : Z) : M (BPlusTree Z) bool :=
  match n with
  | 0 => ret true
  | S n =>
      let* val := bp_find fuel i in
      match val with
      | Some x => if bool_decide (x ≠ i * 10)%Z then ret false else bulk_verify fuel n (i + 1)%Z
      | None => ret false
      end
  end.

(** Test 5 with [n] keys (100 in the program), on a tree of degree 4. *)
Definition test_bulk (fuel : nat) (n : nat) : M (BPlusTree Z) bulk_report :=
  let* hs := bulk_insert fuel n 0 in
  let* h := bp_height fuel in
  let* size := bp_size fuel in
  let* all_found := bulk_verify fuel n 0 in
  let* range_results := bp_range_query fuel 25 35 in
  let* ok := bp_validate fuel in
  ret (BulkReport hs h size all_found (length range_results) ok).

(** Test 6: the keys inserted until [validate] fails and the key it fails at,
    size and height, the keys looked up and whether they were found correctly,
    the keys deleted and the key after which [validate] fails, and the size. *)
Record random_report := RandomReport {
  n_inserted : list Z;
  n_insert_failed : option Z;
  n_size : nat;
  n_height : Z;
  n_lookups : list (Z * bool);
  n_deleted : list Z;
  n_delete_failed : option Z;
  n_final : nat
}.

(** The insertion loop, [n] iterations to go: the generator, [keys], and the
    key after which it breaks. *)
Fixpoint random_insert (fuel n : nat) (rng : mt19937) (keys : list Z) : M (BPlusTree Z) (mt19937 * list Z * option Z) :=
  match n with
  | 0 => ret (rng, keys, None)
  | S n =>
      let '(r, rng) := mt_next rng in
      let key := (r mod 1000)%Z in
      bp_insert fuel key (key * 2)%Z ;;
      let keys := keys ++ [key] in
      let* ok := bp_validate fuel in
      if negb ok then ret (rng, keys, Some key) else random_insert fuel n rng keys
  end.

(** [rng() % keys.size()]: the remainder by zero is undefined. *)
Definition random_index (rng : mt19937) (keys : list Z) : M (BPlusTree Z) (nat * mt19937) :=
  if bool_decide (length keys = 0) then undef
  else let '(r, rng) := mt_next rng in ret (Z.to_nat (r mod Z.of_nat (length keys)), rng).

(** The lookup loop. *)
Fixpoint random_lookup (fuel n : nat) (rng : mt19937) (keys : list Z) : M (BPlusTree Z) (mt19937 * list (Z * bool)) :=
  match n with
  | 0 => ret (rng, [])
  | S n =>
      let* '(i, rng) := random_index rng keys in
      let* key := of_option (keys !! i) in
      let* val := bp_find fuel key in
      let ok := match val with Some v => bool_decide (v = key * 2)%Z | None => false end in
      let* '(rng, rest) := random_lookup fuel n rng keys in
      ret (rng, (key, ok) :: rest)
  end.

(** The deletion loop: the keys deleted and the key after which it breaks. *)
Fixpoint random_delete (fuel n : nat) (rng : mt19937) (keys : list Z) : M (BPlusTree Z) (list Z * option Z) :=
  match n with
  | 0 => ret ([], None)
  | S n =>
      if bool_decide (keys = []) then ret ([], None)
      else
        let* '(i, rng) := random_index rng keys in
        let* key := of_option (keys !! i) in
        bp_remove fuel key ;;
        let* keys := of_option (vec_erase i keys) in
        let* ok := bp_validate fuel in
        if negb ok then ret ([key], Some key)
        else
          let* '(rest, failed) := random_delete fuel n rng keys in
          ret (key :: rest, failed)
  end.

(** Test 6, on a tree of degree 5 with the generator of seed 42. *)
Definition test_random (fuel : nat) (rng : mt19937) : M (BPlusTree Z) random_report :=
  let* '(rng, keys, failed) := random_insert fuel 50 rng [] in
  let* n := bp_size fuel in
  let* h := bp_height fuel in
  let* '(rng, found) := random_lookup fuel 20 rng keys in
  let* '(deleted, failed') := random_delete fuel 10 rng keys in
  let* m := bp_size fuel in
  ret (RandomReport keys failed n h found deleted failed' m).

(** A test on a tree of its own. *)
Definition on_new_tree {V A} (deg : Z) (test : M (BPlusTree V) A) : M unit A := λ u,
  match test (BPlusTree_ctor deg) with
  | Ok a _ => Ok a u
  | Throw e _ => Throw e u
  | Undef => Undef
  | NoFuel => NoFuel
  end.
Definition test_bplustree (fuel : nat) : M unit (report * bulk_report * random_report) :=
  let* r := on_new_tree 3 (test_small fuel) in
  let* b := on_new_tree 4 (test_bulk fuel 100) in
  let* n := on_new_tree 5 (test_random fuel (mt_seed 42)) in
  ret (r, b, n).
(** The status of the program: an exception makes it 1. *)
Definition bp_main (fuel : nat) : M unit Z := λ u,
  match test_bplustree fuel u with
  | Ok _ u => Ok 0%Z u
  | Throw _ u => Ok 1%Z u
  | Undef => Undef
  | NoFuel => NoFuel
  end.
