(* ===== verification/BPlusTreeRep.v ===== *)
(** * BplusTree.cpp: ordered leaves and what the store holds

    The code keeps a correct tree while it has at most two levels, so the
    representation [bp_rep] is that of a root over leaves: the leaves of the
    tree with their entries [tl], the separators [seps] of the root, and the
    chain [ch] of the [next] pointers, which still passes through leaves that
    were dropped when they became empty. *)
From Stdlib Require Import Sorted.
From stdpp Require Import base gmap list sorting.
From S2P Require Import Prelude BPlusTree.

Section lists.
Context {V : Type}.
Abbreviation block := (list (Z * V)).
Implicit Types (b c : block) (bs : list block) (seps : list Z) (k : Z) (v : V).

Definition sorted b : Prop := StronglySorted Z.le b.*1.

(** Insert before the first key that is not smaller. *)
Definition put k v b : block := filter (λ x, (x.1 < k)%Z) b ++ (k, v) :: filter (λ x, ¬ (x.1 < k)%Z) b.
(** Remove the first entry with a key. *)
Fixpoint del k b : block :=
  match b with
  | [] => []
  | x :: b' => if bool_decide (x.1 = k) then b' else x :: del k b'
  end.

Definition below k b : Prop := Forall (λ x, (x.1 < k)%Z) b.
Definition above k b : Prop := Forall (λ x, (k ≤ x.1)%Z) b.

Lemma sorted_cons x b : sorted (x :: b) ↔ sorted b ∧ above x.1 b.
Proof.
  unfold sorted, above. rewrite fmap_cons. split.
  - intros [? Hx]%StronglySorted_inv. by rewrite Forall_fmap in Hx.
  - intros [? Hx]. constructor; [done|]. by rewrite Forall_fmap.
Qed.

Lemma sorted_app b c :
  sorted (b ++ c) ↔ sorted b ∧ sorted c ∧ ∀ x y, x ∈ b → y ∈ c → (x.1 ≤ y.1)%Z.
Proof.
  induction b as [|x b IH]; simpl.
  - split; [intros ?; split_and!; [constructor|done|set_solver]|naive_solver].
  - rewrite !sorted_cons, IH. unfold above. rewrite Forall_app, !Forall_forall. set_solver.
Qed.

Lemma filter_below k b : below k b → filter (λ x, (x.1 < k)%Z) b = b.
Proof. induction 1; [done|]. rewrite filter_cons_True by done. congruence. Qed.
Lemma filter_below_not k b : below k b → filter (λ x, ¬ (x.1 < k)%Z) b = [].
Proof. induction 1; [done|]. by rewrite filter_cons_False by naive_solver. Qed.
Lemma filter_above k b : above k b → filter (λ x, (x.1 < k)%Z) b = [].
Proof. induction 1; [done|]. by rewrite filter_cons_False by (simpl in *; lia). Qed.
Lemma filter_above_not k b : above k b → filter (λ x, ¬ (x.1 < k)%Z) b = b.
Proof. induction 1; [done|]. rewrite filter_cons_True by (simpl in *; lia). congruence. Qed.

Lemma put_mid k v b b1 b2 : below k b1 → above k b2 → put k v (b1 ++ b ++ b2) = b1 ++ put k v b ++ b2.
Proof.
  intros H1 H2. unfold put. rewrite !filter_app.
  rewrite (filter_below k b1), (filter_above k b2), (filter_below_not k b1), (filter_above_not k b2) by done.
  by rewrite app_nil_r, app_nil_l, <-!app_assoc.
Qed.

Lemma put_here k v b1 b2 : below k b1 → above k b2 → put k v (b1 ++ b2) = b1 ++ (k, v) :: b2.
Proof. intros H1 H2. by apply (put_mid k v [] b1 b2). Qed.

Lemma size_put k v b : length (put k v b) = S (length b).
Proof.
  unfold put. rewrite length_app. simpl. induction b as [|x b IH]; [done|].
  destruct (decide (x.1 < k)%Z).
  - rewrite filter_cons_True by done. rewrite filter_cons_False by (simpl; tauto). simpl in *. lia.
  - rewrite filter_cons_False by done. rewrite filter_cons_True by done. simpl in *. lia.
Qed.

(** Where [lower_bound] splits a sorted block. *)
Lemma lower_bound_split k b :
  sorted b → ∃ b1 b2, b = b1 ++ b2 ∧ lower_bound k b.*1 = length b1 ∧ below k b1 ∧ above k b2.
Proof.
  induction b as [|x b IH]; intros Hs; [exists [], []; by repeat constructor|]. csimpl.
  apply sorted_cons in Hs as [Hs Hx]. case_bool_decide as Hlt.
  - destruct (IH Hs) as (b1 & b2 & -> & -> & H1 & H2).
    exists (x :: b1), b2. split_and!; [done|done|by constructor|done].
  - exists [], (x :: b). split_and!; [done|done|constructor|]. constructor; [lia|].
    eapply Forall_impl; [exact Hx|]. simpl. lia.
Qed.

Lemma del_app_l k b1 b2 : below k b1 → del k (b1 ++ b2) = b1 ++ del k b2.
Proof.
  induction 1 as [|x b1 Hx Hb IH]; [done|]. simpl. rewrite bool_decide_eq_false_2 by lia. by rewrite IH.
Qed.

Lemma del_absent k b : k ∉ b.*1 → del k b = b.
Proof.
  induction b as [|x b IH]; [done|]. csimpl. intros [Hx Hb]%not_elem_of_cons.
  rewrite bool_decide_eq_false_2 by done. by rewrite IH.
Qed.

(** *** Blocks between separators *)
Definition le_opt (lo : option Z) (x : Z) : Prop := match lo with Some y => (y ≤ x)%Z | None => True end.
Definition ge_opt (hi : option Z) (x : Z) : Prop := match hi with Some y => (x ≤ y)%Z | None => True end.
Definition within lo hi b : Prop := Forall (λ x, le_opt lo x.1 ∧ ge_opt hi x.1) b.

(** One block more than separators; each block lies between its neighbours. *)
Fixpoint ordered lo bs seps : Prop :=
  match bs, seps with
  | [b], [] => within lo None b
  | b :: bs', k :: seps' => within lo (Some k) b ∧ le_opt lo k ∧ ordered (Some k) bs' seps'
  | _, _ => False
  end.

(** As many blocks as separators: the blocks to the left of a child. *)
Fixpoint seg lo bs seps hi : Prop :=
  match bs, seps with
  | [], [] => lo = hi
  | b :: bs', k :: seps' => within lo (Some k) b ∧ le_opt lo k ∧ seg (Some k) bs' seps' hi
  | _, _ => False
  end.

Definition lt_opt (lo : option Z) (x : Z) : Prop := match lo with Some y => (y < x)%Z | None => True end.

Lemma ordered_join lo bs1 seps1 m bs seps :
  seg lo bs1 seps1 m → ordered m bs seps → ordered lo (bs1 ++ bs) (seps1 ++ seps).
Proof.
  revert lo seps1. induction bs1 as [|b bs1 IH]; intros lo [|k seps1]; simpl; try done; [by intros ->|].
  intros (H1 & H2 & H3) Ho. specialize (IH _ _ H3 Ho).
  destruct (bs1 ++ bs) eqn:Hb; [|done]. apply app_eq_nil in Hb as [-> ->]. by destruct seps.
Qed.

(** Where [find_child_index] leads. *)
Lemma ordered_find lo bs seps k :
  ordered lo bs seps → lt_opt lo k →
  ∃ bs1 b bs2 seps1 seps2 m,
    bs = bs1 ++ b :: bs2 ∧ seps = seps1 ++ seps2 ∧ length bs1 = length seps1 ∧
    find_child_index k seps = length bs1 ∧ seg lo bs1 seps1 m ∧ lt_opt m k ∧
    ordered m (b :: bs2) seps2 ∧ ge_opt (head seps2) k.
Proof.
  revert lo seps. induction bs as [|b bs IH]; intros lo seps; [done|].
  destruct seps as [|k' seps]; intros Ho Hlo.
  - exists [], b, bs, [], [], lo. simpl. split_and!; try done.
  - simpl. case_bool_decide as Hgt.
    + destruct bs as [|b' bs]; [by destruct Ho as (_ & _ & [])|].
      destruct Ho as (H1 & H2 & H3).
      destruct (IH (Some k') seps H3) as (bs1 & b0 & bs2 & seps1 & seps2 & m & -> & -> & E & -> & Hs & Hm & Hb & Hk);
        [simpl; lia|].
      exists (b :: bs1), b0, bs2, (k' :: seps1), seps2, m. simpl. split_and!; try done. by rewrite E.
    + exists [], b, bs, [], (k' :: seps), lo. simpl. by split_and!.
Qed.

Lemma ordered_above lo bs seps k : ordered lo bs seps → (∃ x, lo = Some x ∧ (k ≤ x)%Z) → above k (concat bs).
Proof.
  revert lo seps. induction bs as [|b bs IH]; intros lo seps; [done|]. intros Ho (x & -> & Hx).
  assert (∀ hi, within (Some x) hi b → above k b) as Hb.
  { intros hi Hw. eapply Forall_impl; [exact Hw|]. simpl. lia. }
  destruct seps as [|k' seps], bs as [|b' bs]; try done.
  - simpl. rewrite app_nil_r. by eapply Hb.
  - by destruct Ho as (_ & _ & []).
  - destruct Ho as (Hw & Hle & Ho). simpl in Hle. apply Forall_app. split; [by eapply Hb|].
    eapply IH; [exact Ho|]. exists k'. split; [done|lia].
Qed.

(** The blocks after the one at [m]. *)
Lemma ordered_tail m b bs2 seps2 k :
  ordered m (b :: bs2) seps2 → ge_opt (head seps2) k → above k (concat bs2).
Proof.
  destruct seps2 as [|k' seps2], bs2 as [|b' bs2]; try done; simpl; [constructor..|].
  intros (_ & _ & Ho) Hk. eapply (ordered_above _ (b' :: bs2)); [exact Ho|]. eauto.
Qed.

Lemma ordered_block m b bs2 seps2 b' :
  ordered m (b :: bs2) seps2 → within m (head seps2) b' → ordered m (b' :: bs2) seps2.
Proof. destruct seps2, bs2; simpl; try done; naive_solver. Qed.

Lemma within_head m b bs2 seps2 : ordered m (b :: bs2) seps2 → within m (head seps2) b.
Proof. destruct seps2, bs2; simpl; try done; naive_solver. Qed.

Lemma within_put lo hi k v b : within lo hi b → le_opt lo k → ge_opt hi k → within lo hi (put k v b).
Proof.
  unfold within. rewrite !Forall_forall. intros Hw Hlo Hhi x. unfold put.
  intros [Hx|[->|Hx]%elem_of_cons]%elem_of_app; [|done|];
    apply list_elem_of_filter in Hx as [_ Hx]; auto.
Qed.

Lemma sorted_put k v b : sorted b → sorted (put k v b).
Proof.
  intros Hs. destruct (lower_bound_split k b Hs) as (b1 & b2 & -> & _ & H1 & H2).
  rewrite put_here by done. apply sorted_app in Hs as (Hs1 & Hs2 & Hle).
  change ((k, v) :: b2) with ([(k, v)] ++ b2). rewrite !sorted_app.
  unfold below in H1. unfold above in H2. rewrite Forall_forall in H1. rewrite Forall_forall in H2.
  split_and!; [done|by repeat constructor|done|..].
  - intros x y ->%list_elem_of_singleton Hy. by apply H2.
  - intros x y Hx [->%list_elem_of_singleton|Hy]%elem_of_app; [|by apply Hle].
    apply H1 in Hx. simpl. lia.
Qed.

(** Splitting a block at a key of its own. *)
Lemma ordered_split m b1 b2 bs2 seps2 p v b2' :
  ordered m ((b1 ++ b2) :: bs2) seps2 → sorted (b1 ++ b2) → b2 = (p, v) :: b2' →
  ordered m (b1 :: b2 :: bs2) (p :: seps2).
Proof.
  intros Ho Hs ->. pose proof (within_head _ _ _ _ Ho) as Hw. apply Forall_app in Hw as [Hw1 Hw2].
  apply sorted_app in Hs as (Hs1 & Hs2 & Hle). apply Forall_cons in Hw2 as Hw2'.
  split; [|split; [apply Hw2'|]].
  - apply Forall_forall. intros x Hx. unfold within in Hw1. rewrite Forall_forall in Hw1.
    split; [by apply Hw1|]. apply (Hle x (p, v)); [done|set_solver].
  - assert (within (Some p) (head seps2) ((p, v) :: b2')) as Hw.
    { apply Forall_forall. intros x Hx. rewrite Forall_forall in Hw2. split; [|by apply Hw2].
      apply sorted_cons in Hs2 as [_ Hs2]. unfold above in Hs2. rewrite Forall_forall in Hs2.
      apply elem_of_cons in Hx as [->|Hx]; simpl; [lia|]. by apply Hs2. }
    destruct seps2 as [|k seps2], bs2 as [|b bs2]; try done; simpl in *.
    + by destruct Ho as (_ & _ & []).
    + destruct Ho as (_ & Hk & Ho). split; [done|]. split; [|done]. apply Forall_cons in Hw as [Hp _]. apply Hp.
Qed.

Lemma ordered_length lo bs seps : ordered lo bs seps → length bs = S (length seps).
Proof.
  revert lo seps. induction bs as [|b bs IH]; intros lo seps; [done|].
  destruct seps as [|k seps], bs as [|b' bs]; try done.
  - by intros (_ & _ & []).
  - intros (_ & _ & Ho). apply IH in Ho. simpl in *. lia.
Qed.

Lemma ordered_cut lo bs1 b bs2 seps1 seps2 :
  ordered lo (bs1 ++ b :: bs2) (seps1 ++ seps2) → length bs1 = length seps1 →
  ∃ m, seg lo bs1 seps1 m ∧ ordered m (b :: bs2) seps2.
Proof.
  revert lo seps1. induction bs1 as [|b1 bs1 IH]; intros lo [|k seps1] Ho E; try done; [by exists lo|].
  rewrite <-!app_comm_cons in Ho. destruct (bs1 ++ b :: bs2) eqn:Hb; [by destruct bs1|].
  destruct Ho as (Hw & Hle & Ho). injection E as E.
  destruct (IH _ _ Ho E) as (m & Hs & Hm). exists m. done.
Qed.

Lemma seg_snoc lo bs seps m b p :
  seg lo bs seps m → within m (Some p) b → le_opt m p → seg lo (bs ++ [b]) (seps ++ [p]) (Some p).
Proof.
  revert lo seps. induction bs as [|b' bs IH]; intros lo [|k seps]; simpl; try done; [by intros ->|].
  naive_solver.
Qed.

Lemma seg_lt lo bs seps m k x : seg lo bs seps m → lt_opt m k → x ∈ seps → (x < k)%Z.
Proof.
  assert (∀ bs lo seps, seg lo bs seps m → ∀ y, lo = Some y → lt_opt m k → (y < k)%Z) as Hlt.
  { clear. induction bs as [|b bs IH]; intros lo [|k' seps]; simpl; try done.
    - by intros -> x ->.
    - intros (_ & Hle & Hs) x -> Hm. specialize (IH _ _ Hs k' eq_refl Hm). simpl in Hle. lia. }
  revert lo seps. induction bs as [|b bs IH]; intros lo [|k' seps]; simpl; try done; [set_solver|].
  intros (_ & _ & Hs) Hm [->|Hx]%elem_of_cons; [by eapply Hlt|eauto].
Qed.

Lemma seg_below lo bs seps m k : seg lo bs seps m → lt_opt m k → below k (concat bs).
Proof.
  intros Hs Hm. assert (∀ x, x ∈ seps → (x < k)%Z) as Hlt by (intros x; by eapply seg_lt). revert lo seps Hs Hlt.
  induction bs as [|b bs IH]; intros lo [|k' seps]; simpl; try done; [constructor|].
  intros (Hw & _ & Hs) Hlt. apply Forall_app. split; [|eapply IH; [exact Hs|set_solver]].
  assert (k' < k)%Z by (apply Hlt; set_solver). eapply Forall_impl; [exact Hw|]. simpl. lia.
Qed.

Lemma find_child_index_app k seps1 seps2 :
  (∀ x, x ∈ seps1 → (x < k)%Z) → ge_opt (head seps2) k →
  find_child_index k (seps1 ++ seps2) = length seps1.
Proof.
  intros H1 H2. induction seps1 as [|x seps1 IH]; simpl.
  - destruct seps2 as [|y seps2]; [done|]. simpl in *. by rewrite bool_decide_eq_false_2 by lia.
  - rewrite bool_decide_eq_true_2 by (apply Z.lt_gt, H1; set_solver). f_equal. apply IH. set_solver.
Qed.

(** All entries, in order. *)
Lemma ordered_sorted lo bs seps : ordered lo bs seps → Forall sorted bs → sorted (concat bs).
Proof.
  revert lo seps. induction bs as [|b bs IH]; intros lo seps Ho Hs; [constructor|].
  apply Forall_cons in Hs as [Hb Hs]. simpl. apply sorted_app.
  destruct seps as [|k seps], bs as [|b' bs]; try done.
  - simpl. split_and!; [done|constructor|set_solver].
  - by destruct Ho as (_ & _ & []).
  - destruct Ho as (Hw & _ & Ho). split_and!; [done|by eapply IH|].
    intros x y Hx Hy. unfold within in Hw. rewrite Forall_forall in Hw. apply Hw in Hx as [_ Hx].
    assert (above k (concat (b' :: bs))) as Ha
      by (eapply ordered_above; [exact Ho|]; by exists k).
    unfold above in Ha. rewrite Forall_forall in Ha. apply Ha in Hy. simpl in Hx. lia.
Qed.
End lists.
