(* ===== verification/BPlusTreeInsert.v ===== *)
(** * BplusTree.cpp: the store of a tree of at most two levels, and insertion

    [bp_rep s ch tl seps] relates a state to the chain [ch] of its leaves, the
    leaves [tl] that the tree still reaches, and the separators of the root. *)
From stdpp Require Import base gmap list.
From S2P Require Import Prelude BPlusTree BPlusTreeRep.

Section store.
Context {V : Type}.
Abbreviation st := (BPlusTree V).
Abbreviation block := (list (Z * V)).
Abbreviation entry := (prod loc block).
Implicit Types (s : st) (h : gmap loc (bnode V)) (ch tl : list entry) (b : block) (k : Z) (v : V) (l : loc).

Definition leaf_of b (nx : option loc) : bnode V := LeafNode b.*1 b.*2 nx.

(** The leaves from [p] along [next], up to [q]. *)
Fixpoint chain h (p : option loc) ch (q : option loc) : Prop :=
  match ch with
  | [] => p = q
  | x :: ch' => p = Some x.1 ∧ ∃ nx, h !! x.1 = Some (leaf_of x.2 nx) ∧ chain h nx ch' q
  end.

Lemma chain_app h p c1 c2 q : chain h p (c1 ++ c2) q ↔ ∃ m, chain h p c1 m ∧ chain h m c2 q.
Proof.
  revert p. induction c1 as [|x c1 IH]; intros p; simpl; [naive_solver|]. setoid_rewrite IH. naive_solver.
Qed.

Lemma chain_insert h p ch q l n : l ∉ ch.*1 → chain h p ch q → chain (<[l:=n]> h) p ch q.
Proof.
  revert p. induction ch as [|x ch IH]; intros p; [done|]. csimpl.
  intros [Hl Hx]%not_elem_of_cons (-> & nx & Hn & Hc). split; [done|]. exists nx.
  rewrite lookup_insert_ne by done. auto.
Qed.

Lemma chain_lookup h p ch q x : chain h p ch q → x ∈ ch → ∃ nx, h !! x.1 = Some (leaf_of x.2 nx).
Proof.
  revert p. induction ch as [|y ch IH]; intros p; [set_solver|].
  intros (_ & nx & Hn & Hc) [->|Hx]%elem_of_cons; eauto.
Qed.

Lemma chain_mid h p c1 l b c2 q :
  chain h p (c1 ++ (l, b) :: c2) q →
  ∃ nx, h !! l = Some (leaf_of b nx) ∧ chain h p c1 (Some l) ∧ chain h nx c2 q.
Proof. intros (m & H1 & -> & nx & Hn & H2)%chain_app. eauto. Qed.

(** A new block, and another leaf after it, at a leaf of the chain. *)
Lemma chain_upd h p c1 l b b' c2 q nx :
  chain h p (c1 ++ (l, b) :: c2) q → NoDup (c1 ++ (l, b) :: c2).*1 → h !! l = Some (leaf_of b nx) →
  chain (<[l:=leaf_of b' nx]> h) p (c1 ++ (l, b') :: c2) q.
Proof.
  intros Hc Hnd Hl. apply chain_mid in Hc as (nx' & Hl' & H1 & H2).
  rewrite Hl in Hl'. injection Hl' as ->. rewrite fmap_app, fmap_cons in Hnd. nodup_facts.
  apply chain_app. exists (Some l). split; [apply chain_insert; [set_solver|done]|].
  split; [done|]. exists nx'. rewrite lookup_insert_eq. split; [done|]. by apply chain_insert.
Qed.

Lemma chain_split h p c1 l b b1 b2 c2 q nx l' :
  chain h p (c1 ++ (l, b) :: c2) q → NoDup (c1 ++ (l, b) :: c2).*1 → h !! l = Some (leaf_of b nx) →
  h !! l' = None →
  chain (<[l:=leaf_of b1 (Some l')]> (<[l':=leaf_of b2 nx]> h)) p (c1 ++ (l, b1) :: (l', b2) :: c2) q.
Proof.
  intros Hc Hnd Hl Hl'. assert (l' ∉ (c1 ++ (l, b) :: c2).*1) as Hfr.
  { intros ([] & -> & Hx)%list_elem_of_fmap. apply (chain_lookup _ _ _ _ _ Hc) in Hx as (? & ?). simpl in *. congruence. }
  rewrite fmap_app, fmap_cons in Hnd, Hfr. simpl in Hnd, Hfr.
  apply chain_mid in Hc as (nx' & Hl2 & H1 & H2). rewrite Hl in Hl2. injection Hl2 as ->.
  nodup_facts. apply chain_app. exists (Some l). split; [by repeat (apply chain_insert; [set_solver|])|].
  split; [done|]. exists (Some l'). rewrite lookup_insert_eq. split; [done|].
  split; [done|]. exists nx'. simpl. rewrite lookup_insert_ne, lookup_insert_eq by congruence.
  split; [done|]. by repeat (apply chain_insert; [done|]).
Qed.

(** The live leaves of a chain; the others are empty. *)
Inductive skips : list entry → list entry → Prop :=
| skips_nil : skips [] []
| skips_live x tl ch : skips tl ch → skips (x :: tl) (x :: ch)
| skips_dead l tl ch : skips tl ch → skips tl ((l, []) :: ch).

Lemma skips_app t1 t2 c1 c2 : skips t1 c1 → skips t2 c2 → skips (t1 ++ t2) (c1 ++ c2).
Proof. induction 1; [done|..]; intros H2; simpl; constructor; auto. Qed.

Lemma skips_mid t1 x t2 ch :
  skips (t1 ++ x :: t2) ch → ∃ c1 c2, ch = c1 ++ x :: c2 ∧ skips t1 c1 ∧ skips t2 c2.
Proof.
  remember (t1 ++ x :: t2) as t eqn:Ht. intros Hs. revert t1 Ht.
  induction Hs as [|y t ch Hs IH|l t ch Hs IH]; intros t1 Ht; [by destruct t1|..].
  - destruct t1 as [|z t1]; injection Ht as -> ->.
    + exists [], ch. split_and!; [done|constructor|done].
    + destruct (IH t1 eq_refl) as (c1 & c2 & -> & H1 & H2). exists (z :: c1), c2. by repeat constructor.
  - destruct (IH t1 Ht) as (c1 & c2 & -> & H1 & H2). exists ((l, []) :: c1), c2.
    split_and!; [done|by constructor|done].
Qed.

Lemma skips_concat tl ch : skips tl ch → concat tl.*2 = concat ch.*2.
Proof. induction 1; csimpl; congruence. Qed.

Lemma skips_refl tl : skips tl tl.
Proof. induction tl; by constructor. Qed.

(** A root that is a leaf, or that has the live leaves as children. *)
Definition root_rep h (rt : option loc) (ls : list loc) (seps : list Z) : Prop :=
  match ls with
  | [] => False
  | [l] => rt = Some l
  | _ => ∃ rl, rt = Some rl ∧ h !! rl = Some (InternalNode seps ls)
  end.

Record bp_rep s ch tl (seps : list Z) : Prop := {
  br_deg : (2 ≤ degree s)%Z;
  br_chain : chain (nodes s) (first_leaf s) ch None;
  br_nodup : NoDup ch.*1;
  br_live : skips tl ch;
  br_root : root_rep (nodes s) (root s) tl.*1 seps;
  br_ord : ordered None tl.*2 seps;
  br_sorted : Forall sorted tl.*2;
  br_full : Forall (λ b, b ≠ []) tl.*2
}.

(** A tree with entries [b] and separators [seps]. *)
Definition bp_models s b (seps : list Z) : Prop :=
  ((2 ≤ degree s)%Z ∧ root s = None ∧ first_leaf s = None ∧ b = [] ∧ seps = []) ∨
  ∃ ch tl, bp_rep s ch tl seps ∧ b = concat tl.*2.
End store.

(** ** Operations on one leaf *)
Section leaf_ops.
Context {V : Type}.
Abbreviation st := (BPlusTree V).
Abbreviation block := (list (Z * V)).
Abbreviation entry := (prod loc block).
Implicit Types (s : st) (h : gmap loc (bnode V)) (ch tl : list entry) (b : block) (k : Z) (v : V) (l : loc).

Definition with_nodes s h : st := BP (degree s) (root s) (first_leaf s) h.

Lemma wp_node_at s l n (Q : bnode V → st → Prop) : nodes s !! l = Some n → Q n s → wp (node_at l) s Q.
Proof. intros Hn HQ. unfold wp, node_at. by rewrite Hn. Qed.

Lemma wp_option_node {A} (o : option A) a s (Q : A → st → Prop) : o = Some a → Q a s → wp (of_option o) s Q.
Proof. by intros ->. Qed.

Lemma vec_insert_app {A} (l1 l2 : list A) x : vec_insert (length l1) x (l1 ++ l2) = Some (l1 ++ x :: l2).
Proof.
  unfold vec_insert. rewrite bool_decide_eq_true_2 by (rewrite length_app; lia).
  by rewrite take_app_length, drop_app_length.
Qed.

Lemma vec_erase_app {A} (l1 l2 : list A) x : vec_erase (length l1) (l1 ++ x :: l2) = Some (l1 ++ l2).
Proof.
  unfold vec_erase. rewrite bool_decide_eq_true_2 by (rewrite length_app; simpl; lia).
  rewrite take_app_length. do 2 f_equal. by rewrite drop_app_ge, Nat.sub_succ_l, Nat.sub_diag by lia.
Qed.

Lemma wp_insert_key s l b nx k v Q :
  nodes s !! l = Some (leaf_of b nx) → sorted b →
  Q tt (with_nodes s (<[l:=leaf_of (put k v b) nx]> (nodes s))) → wp (insert_key l k v) s Q.
Proof.
  intros Hl Hs HQ. unfold insert_key. apply wp_bind. eapply wp_node_at; [exact Hl|].
  destruct (lower_bound_split k b Hs) as (b1 & b2 & -> & Hlb & H1 & H2).
  cbn [leaf_of]. rewrite put_here in HQ by done. unfold leaf_of in HQ.
  rewrite Hlb, !fmap_app. rewrite !fmap_app in HQ.
  apply wp_bind. apply (wp_option_node _ (b1.*1 ++ k :: b2.*1)).
  { rewrite <-(length_fmap fst b1). apply vec_insert_app. }
  apply wp_bind. apply (wp_option_node _ (b1.*2 ++ v :: b2.*2)).
  { rewrite <-(length_fmap snd b1). apply vec_insert_app. }
  exact HQ.
Qed.

Lemma wp_leaf_split s l b nx (Q : loc → st → Prop) :
  nodes s !! l = Some (leaf_of b nx) →
  (∀ l', nodes s !! l' = None → l' ≠ l →
    Q l' (with_nodes s (<[l:=leaf_of (take (length b / 2) b) (Some l')]>
      (<[l':=leaf_of (drop (length b / 2) b) nx]> (nodes s))))) →
  wp (leaf_split l) s Q.
Proof.
  intros Hl HQ. unfold leaf_split. apply wp_bind. eapply wp_node_at; [exact Hl|]. cbn [leaf_of].
  assert (nodes s !! fresh (dom (nodes s)) = None) as Hfr by apply not_elem_of_dom, is_fresh.
  assert (fresh (dom (nodes s)) ≠ l) as Hne by congruence.
  specialize (HQ _ Hfr Hne). unfold leaf_of in HQ. rewrite !fmap_take, !fmap_drop in HQ.
  rewrite length_fmap. exact HQ.
Qed.

Lemma del_sorted k b :
  sorted b → if key_at k b.*1
    then ∃ b1 v b2, b = b1 ++ (k, v) :: b2 ∧ lower_bound k b.*1 = length b1 ∧ below k b1
    else k ∉ b.*1.
Proof.
  intros Hs. destruct (lower_bound_split k b Hs) as (b1 & b2 & -> & Hlb & H1 & H2).
  unfold key_at. rewrite Hlb. rewrite fmap_app, lookup_app_r, length_fmap, Nat.sub_diag by (rewrite length_fmap; lia).
  apply sorted_app in Hs as (_ & Hs & _). case_bool_decide as Hk.
  - destruct b2 as [|[k' v] b2]; [done|]. injection Hk as ->. eauto 10.
  - intros [Hx|Hx]%elem_of_app; apply list_elem_of_fmap in Hx as (x & -> & Hx).
    + unfold below in H1. rewrite Forall_forall in H1. apply H1 in Hx. lia.
    + destruct b2 as [|y b2]; [set_solver|]. apply Hk. simpl. apply sorted_cons in Hs as [_ Hy].
      unfold above in *. rewrite Forall_forall in Hy. apply Forall_cons in H2 as [H2 _].
      f_equal. apply elem_of_cons in Hx as [->|Hx]; [done|]. apply Hy in Hx. lia.
Qed.

Lemma wp_remove_key s l b nx k Q :
  nodes s !! l = Some (leaf_of b nx) → sorted b →
  Q tt (with_nodes s (<[l:=leaf_of (del k b) nx]> (nodes s))) →
  wp (remove_key l k) s Q.
Proof.
  intros Hl Hs HQ. unfold remove_key. apply wp_bind. eapply wp_node_at; [exact Hl|]. cbn [leaf_of].
  pose proof (del_sorted k b Hs) as Hk. destruct (key_at k b.*1).
  - destruct Hk as (b1 & v & b2 & -> & Hlb & H1). rewrite del_app_l in HQ by done.
    simpl in HQ. rewrite bool_decide_eq_true_2 in HQ by done. unfold leaf_of in HQ.
    rewrite Hlb, !fmap_app, !fmap_cons. rewrite !fmap_app in HQ.
    apply wp_bind. apply (wp_option_node _ (b1.*1 ++ b2.*1)).
    { rewrite <-(length_fmap fst b1). apply (vec_erase_app b1.*1). }
    apply wp_bind. apply (wp_option_node _ (b1.*2 ++ b2.*2)).
    { rewrite <-(length_fmap snd b1). apply (vec_erase_app b1.*2). }
    exact HQ.
  - apply wp_ret. rewrite del_absent, insert_id in HQ by done. by destruct s.
Qed.

(** The first value of a key. *)
Fixpoint assoc k b : option V :=
  match b with
  | [] => None
  | x :: b' => if bool_decide (x.1 = k) then Some x.2 else assoc k b'
  end.

Lemma assoc_app_l k b1 b2 : below k b1 → assoc k (b1 ++ b2) = assoc k b2.
Proof. induction 1 as [|x b1 Hx Hb IH]; [done|]. simpl. by rewrite bool_decide_eq_false_2 by lia. Qed.
Lemma assoc_None k b : assoc k b = None ↔ k ∉ b.*1.
Proof.
  induction b as [|x b IH]; csimpl; [set_solver|]. rewrite not_elem_of_cons.
  case_bool_decide; [naive_solver|]. naive_solver.
Qed.
Lemma assoc_app k b1 b2 : assoc k (b1 ++ b2) = match assoc k b1 with Some v => Some v | None => assoc k b2 end.
Proof. induction b1 as [|x b IH]; simpl; [done|]. by case_bool_decide. Qed.

Lemma wp_leaf_find s l b nx k (Q : option V → st → Prop) :
  nodes s !! l = Some (leaf_of b nx) → sorted b → Q (assoc k b) s → wp (leaf_find l k) s Q.
Proof.
  intros Hl Hs HQ. unfold leaf_find. apply wp_bind. eapply wp_node_at; [exact Hl|]. cbn [leaf_of].
  pose proof (del_sorted k b Hs) as Hk. destruct (key_at k b.*1).
  - destruct Hk as (b1 & v & b2 & -> & Hlb & H1). rewrite assoc_app_l in HQ by done.
    simpl in HQ. rewrite bool_decide_eq_true_2 in HQ by done.
    apply wp_bind. apply (wp_option_node _ v); [|exact HQ].
    rewrite Hlb, fmap_app, fmap_cons, <-(length_fmap snd b1). by apply list_lookup_middle.
  - apply wp_ret. by rewrite (proj2 (assoc_None k b)) in HQ.
Qed.
End leaf_ops.

(** ** Insertion into the tree *)
Section insertion.
Context {V : Type}.
Abbreviation st := (BPlusTree V).
Abbreviation block := (list (Z * V)).
Abbreviation entry := (prod loc block).
Implicit Types (s : st) (h : gmap loc (bnode V)) (ch tl : list entry) (b : block) (k : Z) (v : V) (l : loc).

Lemma lookup_second {A} (l1 l2 : list A) x y : (l1 ++ x :: y :: l2) !! S (length l1) = Some y.
Proof. by induction l1. Qed.

Lemma put_nonempty k v b : put k v b ≠ [].
Proof. unfold put. by destruct (filter _ b). Qed.

Lemma fmap_mid {A B} (f : A → B) (l1 l2 : list A) x : f <$> (l1 ++ x :: l2) = (f <$> l1) ++ f x :: (f <$> l2).
Proof. by rewrite fmap_app, fmap_cons. Qed.

Lemma root_rep_insert h rt ls seps l b nx n :
  h !! l = Some (leaf_of b nx) → root_rep h rt ls seps → root_rep (<[l:=n]> h) rt ls seps.
Proof.
  unfold leaf_of. intros Hl. destruct ls as [|x [|y ls]]; [done..|]. intros (rl & -> & Hr). exists rl.
  by rewrite lookup_insert_ne by congruence.
Qed.

(** The leaf of a represented tree at a position. *)
Lemma rep_leaf s ch t1 l b t2 seps :
  bp_rep s ch (t1 ++ (l, b) :: t2) seps → ∃ nx, nodes s !! l = Some (leaf_of b nx) ∧ sorted b.
Proof.
  intros [_ Hc _ Hl _ _ Hs _]. apply skips_mid in Hl as (c1 & c2 & -> & _ & _).
  apply chain_mid in Hc as (nx & Hn & _). exists nx. split; [done|].
  rewrite fmap_mid in Hs. apply Forall_app in Hs as [_ Hs]. by apply Forall_cons in Hs as [? _].
Qed.

(** Replacing the block of a live leaf. *)
Lemma rep_upd s ch t1 l b b' t2 seps nx :
  bp_rep s ch (t1 ++ (l, b) :: t2) seps → nodes s !! l = Some (leaf_of b nx) →
  sorted b' → b' ≠ [] → ordered None (t1 ++ (l, b') :: t2).*2 seps →
  ∃ ch', bp_rep (with_nodes s (<[l:=leaf_of b' nx]> (nodes s))) ch' (t1 ++ (l, b') :: t2) seps.
Proof.
  intros [Hd Hc Hnd Hl Hr _ Hs Hf] Hn Hb' Hne Ho.
  apply skips_mid in Hl as (c1 & c2 & -> & Hl1 & Hl2). exists (c1 ++ (l, b') :: c2). split; simpl.
  - done.
  - by eapply chain_upd.
  - by rewrite fmap_mid in Hnd |- *.
  - apply skips_app; [done|by constructor].
  - rewrite fmap_mid in Hr |- *. by eapply root_rep_insert.
  - done.
  - rewrite fmap_mid in Hs |- *. rewrite Forall_app, Forall_cons in Hs |- *. naive_solver.
  - rewrite fmap_mid in Hf |- *. rewrite Forall_app, Forall_cons in Hf |- *. naive_solver.
Qed.

(** Where a key belongs: the position of the leaf [find_child_index] leads to. *)
Record place (t1 : list entry) b (t2 : list entry) seps1 seps2 k : Prop := {
  pl_len : length t1 = length seps1;
  pl_split : ∃ m, seg None t1.*2 seps1 m ∧ lt_opt m k ∧ ordered m (b :: t2.*2) seps2;
  pl_hi : ge_opt (head seps2) k
}.

Lemma place_exists s ch tl seps k :
  bp_rep s ch tl seps →
  ∃ t1 l b t2 seps1 seps2, tl = t1 ++ (l, b) :: t2 ∧ seps = seps1 ++ seps2 ∧ place t1 b t2 seps1 seps2 k.
Proof.
  intros Hs. destruct (ordered_find None tl.*2 seps k (br_ord _ _ _ _ Hs) I)
    as (bs1 & b & bs2 & seps1 & seps2 & m & Htl & -> & E & Hi & Hsg & Hm & Ho & Hhi).
  apply fmap_app_inv in Htl as (t1 & t2 & -> & Ht2 & ->).
  symmetry in Ht2. apply fmap_cons_inv in Ht2 as ([l b'] & t2' & -> & -> & ->). rewrite length_fmap in *.
  exists t1, l, b', t2', seps1, seps2. split_and!; [done..|]. split; eauto.
Qed.

Lemma place_idx t1 b t2 seps1 seps2 k :
  place t1 b t2 seps1 seps2 k → find_child_index k (seps1 ++ seps2) = length t1.
Proof.
  intros [E (m & Hs & Hm & _) Hk]. rewrite E. apply find_child_index_app; [|done].
  intros x. by eapply seg_lt.
Qed.

Lemma place_below t1 b t2 seps1 seps2 k : place t1 b t2 seps1 seps2 k → below k (concat t1.*2).
Proof. intros [_ (m & Hs & Hm & _) _]. by eapply seg_below. Qed.
Lemma place_above t1 b t2 seps1 seps2 k : place t1 b t2 seps1 seps2 k → above k (concat t2.*2).
Proof. intros [_ (m & _ & _ & Ho) Hk]. by eapply ordered_tail. Qed.

Lemma place_put t1 l b t2 seps1 seps2 k v :
  place t1 b t2 seps1 seps2 k →
  ordered None (t1 ++ (l, put k v b) :: t2).*2 (seps1 ++ seps2) ∧
  concat (t1 ++ (l, put k v b) :: t2).*2 = put k v (concat (t1 ++ (l, b) :: t2).*2).
Proof.
  intros Hp. pose proof (place_below _ _ _ _ _ _ Hp) as Hb. pose proof (place_above _ _ _ _ _ _ Hp) as Ha.
  destruct Hp as [_ (m & Hs & Hm & Ho) Hk]. rewrite !fmap_mid. split.
  - eapply ordered_join; [exact Hs|]. eapply ordered_block; [exact Ho|].
    apply within_put; [by eapply within_head| |done].
    destruct m; simpl in *; [lia|done].
  - rewrite !concat_app. simpl. by rewrite put_mid.
Qed.

(** [insert_key] at the place of a key. *)
Lemma insert_key_place s ch t1 l b t2 seps1 seps2 k v :
  bp_rep s ch (t1 ++ (l, b) :: t2) (seps1 ++ seps2) → place t1 b t2 seps1 seps2 k →
  wp (insert_key l k v) s (λ _ s', degree s' = degree s ∧ root s' = root s ∧
    ∃ ch', bp_rep s' ch' (t1 ++ (l, put k v b) :: t2) (seps1 ++ seps2)).
Proof.
  intros Hs Hp. destruct (rep_leaf _ _ _ _ _ _ _ Hs) as (nx & Hn & Hb).
  eapply wp_insert_key; [exact Hn|done|]. split_and!; [done..|].
  eapply rep_upd; [exact Hs|done|by apply sorted_put|apply put_nonempty|].
  by apply (place_put t1 l b t2 seps1 seps2 k v).
Qed.
End insertion.

(** ** Splitting a leaf *)
Section splitting.
Context {V : Type}.
Abbreviation st := (BPlusTree V).
Abbreviation block := (list (Z * V)).
Abbreviation entry := (prod loc block).
Implicit Types (s : st) (h : gmap loc (bnode V)) (ch tl : list entry) (b : block) (k : Z) (v : V) (l : loc).

(** The tree once the new leaf is linked below the root [rl]. *)
Definition split_state s l l' rl b1 b2 nx seps (ls : list loc) : st :=
  BP (degree s) (Some rl) (first_leaf s)
    (<[rl:=InternalNode seps ls]> (<[l:=leaf_of b1 (Some l')]> (<[l':=leaf_of b2 nx]> (nodes s)))).

Lemma rep_split s ch t1 l t2 seps1 seps2 nx l' b1 p v b2 rl :
  bp_rep s ch (t1 ++ (l, b1 ++ (p, v) :: b2) :: t2) (seps1 ++ seps2) → length t1 = length seps1 →
  nodes s !! l = Some (leaf_of (b1 ++ (p, v) :: b2) nx) → b1 ≠ [] → nodes s !! l' = None →
  rl ≠ l' → (∀ b nx, nodes s !! rl ≠ Some (leaf_of b nx)) →
  ∃ ch', bp_rep (split_state s l l' rl b1 ((p, v) :: b2) nx (seps1 ++ p :: seps2) (t1.*1 ++ l :: l' :: t2.*1))
    ch' (t1 ++ (l, b1) :: (l', (p, v) :: b2) :: t2) (seps1 ++ p :: seps2).
Proof.
  intros [Hd Hc Hnd Hl Hr Ho Hs Hf] E Hn Hb1 Hl' Hne Hrl.
  apply skips_mid in Hl as (c1 & c2 & -> & Hl1 & Hl2).
  assert (l' ∉ (c1 ++ (l, b1 ++ (p, v) :: b2) :: c2).*1) as Hfr.
  { intros (x & -> & Hx)%list_elem_of_fmap. apply (chain_lookup _ _ _ _ _ Hc) in Hx as (? & ?). congruence. }
  pose proof (chain_split _ _ _ _ _ b1 ((p, v) :: b2) _ _ _ l' Hc Hnd Hn Hl') as Hc'.
  assert (rl ∉ (c1 ++ (l, b1) :: (l', (p, v) :: b2) :: c2).*1) as Hrl'.
  { assert (rl ∉ (c1 ++ (l, b1 ++ (p, v) :: b2) :: c2).*1) as Hx.
    { intros (x & -> & Hx)%list_elem_of_fmap. apply (chain_lookup _ _ _ _ _ Hc) in Hx as (? & ?). by eapply Hrl. }
    rewrite !fmap_app, !fmap_cons in *. simpl in *. set_solver. }
  exists (c1 ++ (l, b1) :: (l', (p, v) :: b2) :: c2). unfold split_state. split; simpl.
  - done.
  - by apply chain_insert.
  - rewrite fmap_app, !fmap_cons in Hnd, Hfr |- *. simpl in *. clear -Hnd Hfr. nodup_facts.
    rewrite NoDup_app, !NoDup_cons. set_solver.
  - apply skips_app; [done|by repeat constructor].
  - rewrite !fmap_app, !fmap_cons. simpl.
    assert (root_rep (<[rl:=InternalNode (seps1 ++ p :: seps2) (t1.*1 ++ l :: l' :: t2.*1)]>
      (<[l:=leaf_of b1 (Some l')]> (<[l':=leaf_of ((p, v) :: b2) nx]> (nodes s)))) (Some rl)
      (t1.*1 ++ l :: l' :: t2.*1) (seps1 ++ p :: seps2)); [|done].
    destruct t1 as [|? [|? t1]]; simpl; exists rl; by rewrite lookup_insert_eq.
  - rewrite fmap_mid in Ho, Hs. rewrite !fmap_app, !fmap_cons. simpl.
    apply ordered_cut in Ho as (m & Hsg & Ho); [|by rewrite length_fmap].
    eapply ordered_join; [exact Hsg|]. eapply ordered_split; [exact Ho| |done].
    apply Forall_app in Hs as [_ Hs]. by apply Forall_cons in Hs as [? _].
  - rewrite !fmap_app, !fmap_cons in Hs |- *. simpl in *.
    rewrite !Forall_app, !Forall_cons in Hs |- *. rewrite sorted_app in Hs. naive_solver.
  - rewrite !fmap_app, !fmap_cons in Hf |- *. simpl in *.
    rewrite !Forall_app, !Forall_cons in Hf |- *. destruct Hf as (? & ? & ?). split_and!; try done. by constructor.
Qed.

(** A full block, cut in the middle. *)
Lemma cut_block d b :
  (2 ≤ d)%Z → (Z.of_nat (length b) >= 2 * d - 1)%Z →
  ∃ b1 p v b2, take (length b / 2) b = b1 ∧ drop (length b / 2) b = (p, v) :: b2 ∧
    b = b1 ++ (p, v) :: b2 ∧ b1 ≠ [] ∧
    (d - 1 ≤ Z.of_nat (length b1))%Z ∧ (d - 1 ≤ Z.of_nat (length ((p, v) :: b2)))%Z.
Proof.
  intros Hd Hb. pose proof (Nat.div_mod (length b) 2 ltac:(lia)) as Hm.
  pose proof (Nat.mod_upper_bound (length b) 2 ltac:(lia)) as Hu.
  set (n := length b / 2) in *.
  assert (length (take n b) = n) as H1 by (rewrite length_take; lia).
  assert (length (drop n b) = length b - n) as H2 by apply length_drop.
  destruct (drop n b) as [|[p v] b2] eqn:Hdr; [simpl in H2; lia|].
  exists (take n b), p, v, b2. split_and!; [done|done|by rewrite <-Hdr, take_drop| |lia|simpl in *; lia].
  intros E. rewrite E in H1. simpl in H1. lia.
Qed.

Lemma wp_insert_child s rl ks1 ks2 (cs1 : list loc) c cs2 key child (Q : unit → st → Prop) :
  nodes s !! rl = Some (InternalNode (ks1 ++ ks2) (cs1 ++ c :: cs2)) →
  length cs1 = length ks1 → length cs2 = length ks2 →
  Q tt (with_nodes s (<[rl:=InternalNode (ks1 ++ key :: ks2) (cs1 ++ c :: child :: cs2)]> (nodes s))) →
  wp (insert_child rl (length cs1) key child) s Q.
Proof.
  intros Hn E1 E2 HQ. unfold insert_child. apply wp_bind. eapply wp_node_at; [exact Hn|].
  cbn beta iota. case_bool_decide as Hlt.
  - apply wp_bind, (wp_option_node _ (ks1 ++ key :: ks2)); [rewrite E1; apply vec_insert_app|].
    apply wp_bind, (wp_option_node _ (cs1 ++ c :: child :: cs2)); [|done].
    change (cs1 ++ c :: cs2) with (cs1 ++ [c] ++ cs2). rewrite app_assoc.
    replace (S (length cs1)) with (length (cs1 ++ [c])) by (rewrite length_app; simpl; lia).
    rewrite vec_insert_app. by rewrite <-app_assoc.
  - rewrite length_app in Hlt. destruct ks2, cs2; simpl in *; try lia.
    rewrite app_nil_r, <-app_assoc. done.
Qed.

Lemma wp_leaf_is_full s n (Q : bool → st → Prop) :
  Q (bool_decide (Z.of_nat (length (keys_of n)) >= 2 * degree s - 1)%Z) s → wp (is_full n) s Q.
Proof. done. Qed.

(** [split_child] on the full leaf at a position. *)
Lemma split_child_ok s ch t1 l b t2 seps1 seps2 rl :
  bp_rep s ch (t1 ++ (l, b) :: t2) (seps1 ++ seps2) → length t1 = length seps1 →
  nodes s !! rl = Some (InternalNode (seps1 ++ seps2) (t1.*1 ++ l :: t2.*1)) → root s = Some rl →
  (Z.of_nat (length b) >= 2 * degree s - 1)%Z →
  wp (split_child rl (length t1) l) s (λ _ s', degree s' = degree s ∧ root s' = Some rl ∧
    ∃ ch' l' b1 p v b2, b = b1 ++ (p, v) :: b2 ∧
      nodes s' !! rl = Some (InternalNode (seps1 ++ p :: seps2) (t1.*1 ++ l :: l' :: t2.*1)) ∧
      bp_rep s' ch' (t1 ++ (l, b1) :: (l', (p, v) :: b2) :: t2) (seps1 ++ p :: seps2) ∧
      (degree s - 1 ≤ Z.of_nat (length b1))%Z ∧ (degree s - 1 ≤ Z.of_nat (length ((p, v) :: b2)))%Z).
Proof.
  intros Hs E Hrl Hroot Hfull. destruct (rep_leaf _ _ _ _ _ _ _ Hs) as (nx & Hn & Hb).
  destruct (cut_block _ b (br_deg _ _ _ _ Hs) Hfull) as (b1 & p & v & b2 & Ht & Hdr & Hbb & Hne & Hd1 & Hd2).
  pose proof (br_ord _ _ _ _ Hs) as Ho. apply ordered_length in Ho.
  rewrite length_fmap, !length_app in Ho. simpl in Ho.
  unfold split_child. apply wp_bind. eapply wp_node_at; [exact Hn|]. cbn [leaf_of is_leaf].
  apply wp_bind. eapply wp_leaf_split; [exact Hn|]. rewrite Ht, Hdr. intros l' Hl' Hll'.
  assert (rl ≠ l' ∧ rl ≠ l) as [Hrl1 Hrl2] by (unfold leaf_of in *; split; congruence).
  apply wp_bind. eapply wp_node_at; [simpl; by rewrite lookup_insert_ne, lookup_insert_eq by done|].
  apply wp_bind. apply (wp_option_node _ p); [done|].
  rewrite <-(length_fmap fst t1). eapply wp_insert_child; simpl.
  - by rewrite !lookup_insert_ne by done.
  - by rewrite length_fmap.
  - rewrite length_fmap. lia.
  - rewrite lookup_insert_eq, Hroot. split_and!; [done..|]. rewrite Hbb in Hs, Hn.
    destruct (rep_split s ch t1 l t2 seps1 seps2 nx l' b1 p v b2 rl Hs E Hn Hne Hl') as (ch' & Hs');
      [done|unfold leaf_of; congruence|].
    exists ch', l', b1, p, v, b2. split_and!; [done..| |done|done].
    unfold split_state, with_nodes in *. by rewrite Hroot.
Qed.
End splitting.

(** ** [insert] *)
Section insert.
Context {V : Type}.
Abbreviation st := (BPlusTree V).
Abbreviation block := (list (Z * V)).
Abbreviation entry := (prod loc block).
Implicit Types (s : st) (h : gmap loc (bnode V)) (ch tl : list entry) (b : block) (k : Z) (v : V) (l : loc).

(** Leaves of at least the minimal size, unless the root is the only one. *)
Definition sized (d : Z) tl : Prop :=
  length tl ≤ 1 ∨ Forall (λ b, (d - 1 ≤ Z.of_nat (length b))%Z) tl.*2.

(** The leaves [tl'] hold the entries of [tl] and one more. *)
Record inserted (d : Z) tl k v s' ch' tl' seps' : Prop := {
  in_deg : degree s' = d;
  in_rep : bp_rep s' ch' tl' seps';
  in_put : concat tl'.*2 = put k v (concat tl.*2);
  in_sized : sized d tl → sized d tl'
}.

Lemma place_split m t1 l b1 l' p v b2 t2 seps1 seps2 k :
  length t1 = length seps1 → seg None t1.*2 seps1 m → lt_opt m k →
  ordered m (b1 :: ((p, v) :: b2) :: t2.*2) (p :: seps2) → ge_opt (head seps2) k →
  if bool_decide (k > p)%Z then place (t1 ++ [(l, b1)]) ((p, v) :: b2) t2 (seps1 ++ [p]) seps2 k
  else place t1 b1 ((l', (p, v) :: b2) :: t2) seps1 (p :: seps2) k.
Proof.
  intros E Hs Hm Ho Hk. case_bool_decide as Hp.
  - destruct Ho as (Hw & Hle & Ho). split.
    + rewrite !length_app. simpl. lia.
    + exists (Some p). rewrite fmap_app. split_and!; [by eapply seg_snoc|simpl; lia|done].
    + done.
  - split; [done| |simpl; lia]. exists m. done.
Qed.

Lemma put_size d k v b : (d ≤ Z.of_nat (length b))%Z → (d ≤ Z.of_nat (length (put k v b)))%Z.
Proof. rewrite size_put. lia. Qed.

Lemma sized_put d t1 l b t2 k v : sized d (t1 ++ (l, b) :: t2) → sized d (t1 ++ (l, put k v b) :: t2).
Proof.
  unfold sized. rewrite !fmap_mid, !length_app, !Forall_app, !Forall_cons.
  intros [H|(H1 & H2 & H3)]; [by left|right]. split_and!; [done|by apply put_size|done].
Qed.

(** [insert_key] at the place of a key, as an insertion into the tree. *)
Lemma insert_at_place s ch t1 l b t2 seps1 seps2 k v d (tl : list entry) :
  bp_rep s ch (t1 ++ (l, b) :: t2) (seps1 ++ seps2) → place t1 b t2 seps1 seps2 k →
  degree s = d → concat (t1 ++ (l, b) :: t2).*2 = concat tl.*2 →
  (sized d tl → sized d (t1 ++ (l, b) :: t2)) →
  wp (insert_key l k v) s (λ _ s', ∃ ch' tl' seps', inserted d tl k v s' ch' tl' seps').
Proof.
  intros Hs Hp Hd Hc Hz. eapply wp_mono; [by eapply insert_key_place|].
  intros _ s' (Hd' & _ & ch' & Hs'). exists ch', (t1 ++ (l, put k v b) :: t2), (seps1 ++ seps2). split.
  - congruence.
  - done.
  - rewrite <-Hc. by eapply place_put.
  - intros H. by apply sized_put, Hz.
Qed.

(** [insert_nonfull] on a leaf. *)
Lemma insert_nonfull_leaf fuel s l b nx k v Q :
  nodes s !! l = Some (leaf_of b nx) → wp (insert_key l k v) s Q → wp (insert_nonfull (S fuel) l k v) s Q.
Proof. intros Hn HQ. cbn [insert_nonfull]. apply wp_bind. eapply wp_node_at; [exact Hn|]. done. Qed.

Lemma root_children s ch tl seps rl :
  bp_rep s ch tl seps → 2 ≤ length tl → root s = Some rl → nodes s !! rl = Some (InternalNode seps tl.*1).
Proof.
  intros Hs Hlen Hroot. pose proof (br_root _ _ _ _ Hs) as Hr.
  destruct tl as [|x [|y tl]]; simpl in Hlen; [lia..|]. destruct Hr as (rl' & Hr & Hn). congruence.
Qed.

(** The step from a root whose full child was split down to the leaf. *)
Lemma insert_after_split fuel s ch t1 l b1 l' p v' b2 t2 seps1 seps2 k v d :
  bp_rep s ch (t1 ++ (l, b1) :: (l', (p, v') :: b2) :: t2) (seps1 ++ p :: seps2) → degree s = d →
  sorted (b1 ++ (p, v') :: b2) → place t1 (b1 ++ (p, v') :: b2) t2 seps1 seps2 k →
  (d - 1 ≤ Z.of_nat (length b1))%Z → (d - 1 ≤ Z.of_nat (length ((p, v') :: b2)))%Z →
  wp (let* child := of_option ((t1.*1 ++ l :: l' :: t2.*1)
        !! (if bool_decide (k > p)%Z then S (length t1) else length t1)) in
      insert_nonfull (S fuel) child k v) s
    (λ _ s', ∃ ch' tl' seps',
       inserted d (t1 ++ (l, b1 ++ (p, v') :: b2) :: t2) k v s' ch' tl' seps').
Proof.
  intros Hs Hd Hb [E (m & Hsg & Hm & Ho) Hk] Hz1 Hz2.
  pose proof (ordered_split _ _ _ _ _ _ _ _ Ho Hb eq_refl) as Ho'.
  pose proof (place_split m t1 l b1 l' p v' b2 t2 seps1 seps2 k E Hsg Hm Ho' Hk) as Hp.
  set (t := t1 ++ (l, b1) :: (l', (p, v') :: b2) :: t2) in *.
  assert (concat t.*2 = concat (t1 ++ (l, b1 ++ (p, v') :: b2) :: t2).*2) as Hc.
  { unfold t. rewrite !fmap_app, !fmap_cons, !concat_app. simpl. by rewrite <-app_assoc. }
  assert (sized d (t1 ++ (l, b1 ++ (p, v') :: b2) :: t2) → sized d t) as Hz.
  { unfold t, sized. rewrite !fmap_app, !fmap_cons, !Forall_app, !Forall_cons, !length_app. simpl.
    intros [H|(H1 & _ & H2)]; right; [|by split_and!].
    destruct t1, t2; simpl in H; try lia. by split_and!. }
  destruct (bool_decide (k > p)%Z); apply wp_bind.
  - apply (wp_option_node _ l'); [by rewrite <-(length_fmap fst t1), lookup_second|].
    assert (t = (t1 ++ [(l, b1)]) ++ (l', (p, v') :: b2) :: t2) as Et by (unfold t; by rewrite <-app_assoc).
    replace (seps1 ++ p :: seps2) with ((seps1 ++ [p]) ++ seps2) in Hs by (by rewrite <-app_assoc).
    rewrite Et in *. destruct (rep_leaf _ _ _ _ _ _ _ Hs) as (nx & Hl & _).
    eapply insert_nonfull_leaf; [exact Hl|]. by eapply insert_at_place.
  - apply (wp_option_node _ l); [by rewrite <-(length_fmap fst t1), list_lookup_middle|].
    destruct (rep_leaf _ _ _ _ _ _ _ Hs) as (nx & Hl & _).
    eapply insert_nonfull_leaf; [exact Hl|]. by eapply insert_at_place.
Qed.

Lemma insert_nonfull_root fuel s ch tl seps rl k v :
  bp_rep s ch tl seps → 2 ≤ length tl → root s = Some rl →
  wp (insert_nonfull (S (S fuel)) rl k v) s
    (λ _ s', ∃ ch' tl' seps', inserted (degree s) tl k v s' ch' tl' seps').
Proof.
  intros Hs Hlen Hroot. pose proof (root_children _ _ _ _ _ Hs Hlen Hroot) as Hn.
  destruct (place_exists _ _ _ _ k Hs) as (t1 & l & b & t2 & seps1 & seps2 & -> & -> & Hp).
  destruct (rep_leaf _ _ _ _ _ _ _ Hs) as (nx & Hl & Hb). rewrite fmap_mid in Hn.
  remember (S fuel) as f eqn:Hf. cbn [insert_nonfull]. apply wp_bind. eapply wp_node_at; [exact Hn|].
  cbn beta iota zeta. rewrite (place_idx _ _ _ _ _ _ Hp).
  apply wp_bind, (wp_option_node _ l); [by rewrite <-(length_fmap fst t1), list_lookup_middle|].
  apply wp_bind. eapply wp_node_at; [exact Hl|]. apply wp_bind, wp_leaf_is_full. cbn [keys_of leaf_of].
  rewrite length_fmap. case_bool_decide as Hfull; apply wp_bind; [|apply wp_ret].
  - apply wp_bind. eapply wp_mono; [apply (split_child_ok s ch t1 l b t2 seps1 seps2 rl Hs); try done; apply Hp|].
    cbn beta. intros _ s1 (Hd & Hr1 & ch1 & l' & b1 & p & v' & b2 & -> & Hn1 & Hs1 & Hz1 & Hz2).
    apply wp_bind. eapply wp_node_at; [exact Hn1|]. cbn [keys_of].
    apply wp_bind, (wp_option_node _ p); [by rewrite (pl_len _ _ _ _ _ _ Hp), list_lookup_middle|].
    apply wp_ret. apply wp_bind. eapply wp_node_at; [exact Hn1|]. cbn beta iota.
    subst f. eapply insert_after_split; [exact Hs1|done|exact Hb|exact Hp|done..].
  - apply wp_bind. eapply wp_node_at; [exact Hn|]. cbn beta iota.
    apply wp_bind, (wp_option_node _ l); [by rewrite <-(length_fmap fst t1), list_lookup_middle|].
    subst f. eapply insert_nonfull_leaf; [exact Hl|]. by eapply insert_at_place; eauto.
Qed.

(** Enough entries for a root that is not full. *)
Lemma sized_total d tl :
  (2 ≤ d)%Z → sized d tl →
  length tl ≤ 1 ∨ (Z.of_nat (length tl) * (d - 1) ≤ Z.of_nat (length (concat tl.*2)))%Z.
Proof.
  intros Hd [H|H]; [by left|right]. revert H. induction tl as [|x tl IH]; csimpl; [lia|].
  rewrite Forall_cons, length_app. intros [Hx H]. specialize (IH H). lia.
Qed.

(** Splitting a root that is a full leaf. *)
Lemma split_root_ok s ch l b :
  bp_rep s ch [(l, b)] [] → (Z.of_nat (length b) >= 2 * degree s - 1)%Z →
  wp (split_root l) s (λ _ s', degree s' = degree s ∧
    ∃ rl ch' l' b1 p v b2, b = b1 ++ (p, v) :: b2 ∧ root s' = Some rl ∧
      bp_rep s' ch' [(l, b1); (l', (p, v) :: b2)] [p] ∧ sized (degree s) [(l, b1); (l', (p, v) :: b2)]).
Proof.
  intros Hs Hfull. destruct (rep_leaf s ch [] l b [] [] Hs) as (nx & Hn & Hb).
  destruct (cut_block _ b (br_deg _ _ _ _ Hs) Hfull) as (b1 & p & v & b2 & Ht & Hdr & Hbb & Hne & Hd1 & Hd2).
  unfold split_root. apply wp_bind. eapply wp_node_at; [exact Hn|]. cbn [leaf_of is_leaf].
  apply wp_bind. eapply wp_leaf_split; [exact Hn|]. rewrite Ht, Hdr. intros l' Hl' Hll'.
  apply wp_bind. eapply wp_node_at; [simpl; by rewrite lookup_insert_ne, lookup_insert_eq by done|].
  apply wp_bind, (wp_option_node _ p); [done|]. apply wp_bind.
  set (s1 := with_nodes s _). set (rl := fresh (dom (nodes s1))).
  assert (nodes s1 !! rl = None) as Hrl by apply not_elem_of_dom, is_fresh.
  assert (rl ≠ l ∧ rl ≠ l' ∧ nodes s !! rl = None) as (Hrl1 & Hrl2 & Hrl3).
  { simpl in Hrl. rewrite !lookup_insert_None in Hrl. naive_solver. }
  rewrite Hbb in Hs, Hn.
  destruct (rep_split s ch [] l [] [] [] nx l' b1 p v b2 rl Hs eq_refl Hn Hne Hl' Hrl2) as (ch' & Hs').
  { intros b' nx'. by rewrite Hrl3. }
  split; [done|]. exists rl, ch', l', b1, p, v, b2. split_and!; [done..|].
  right. by repeat constructor.
Qed.

Lemma bp_insert_rep fuel s ch tl seps k v :
  bp_rep s ch tl seps → (Z.of_nat (length seps) < 2 * degree s - 1)%Z →
  wp (bp_insert (S (S fuel)) k v) s
    (λ _ s', ∃ ch' tl' seps', inserted (degree s) tl k v s' ch' tl' seps').
Proof.
  intros Hs Hseps. remember (S (S fuel)) as f eqn:Hf. unfold bp_insert. apply wp_bind, wp_gets.
  pose proof (br_root _ _ _ _ Hs) as Hr. destruct tl as [|[l b] tl]; [done|].
  destruct (decide (2 ≤ length ((l, b) :: tl))) as [Hlen|Hlen].
  - destruct (root s) as [rl|] eqn:Hroot; [|by destruct tl as [|y tl]; [simpl in Hlen; lia|destruct Hr as (? & ? & _)]].
    pose proof (root_children _ _ _ _ _ Hs Hlen Hroot) as Hn.
    apply wp_bind. eapply wp_node_at; [exact Hn|]. apply wp_bind, wp_leaf_is_full. cbn [keys_of].
    rewrite bool_decide_eq_false_2 by lia. apply wp_bind, wp_ret, wp_bind, wp_gets. rewrite Hroot. subst f.
    by eapply insert_nonfull_root.
  - destruct tl; [|simpl in Hlen; lia]. simpl in Hr. rewrite Hr.
    pose proof (br_ord _ _ _ _ Hs) as Ho. destruct seps; [|by destruct Ho as (_ & _ & [])].
    destruct (rep_leaf s ch [] l b [] [] Hs) as (nx & Hn & Hb).
    apply wp_bind. eapply wp_node_at; [exact Hn|]. apply wp_bind, wp_leaf_is_full. cbn [keys_of leaf_of].
    rewrite length_fmap. case_bool_decide as Hfull; apply wp_bind; [|apply wp_ret].
    + eapply wp_mono; [by eapply split_root_ok|].
      intros _ s1 (Hd & rl & ch1 & l' & b1 & p & v' & b2 & -> & Hroot & Hs1 & Hz).
      apply wp_bind, wp_gets. rewrite Hroot. subst f.
      eapply wp_mono; [by eapply insert_nonfull_root; [exact Hs1|simpl; lia|]|].
      rewrite Hd. intros _ s' (ch' & tl' & seps' & [H1 H2 H3 H4]). exists ch', tl', seps'.
      split; [done|done| |auto]. rewrite H3. simpl. by rewrite !app_nil_r.
    + apply wp_bind, wp_gets. rewrite Hr. subst f. eapply insert_nonfull_leaf; [exact Hn|].
      eapply (insert_at_place s ch [] l b [] [] []); try done. by split; [|exists None|].
Qed.

Lemma bp_insert_empty fuel s k v :
  (2 ≤ degree s)%Z → root s = None →
  wp (bp_insert fuel k v) s (λ _ s', degree s' = degree s ∧
    ∃ l, bp_rep s' [(l, [(k, v)])] [(l, [(k, v)])] []).
Proof.
  intros Hd Hr. unfold bp_insert. apply wp_bind, wp_gets. rewrite Hr. apply wp_bind.
  set (l := fresh (dom (nodes s))).
  set (s1 := BP (degree s) (root s) (first_leaf s) (<[l:=leaf_of [] None]> (nodes s))).
  change (wp (insert_key l k v ;; set_root (Some l) ;; set_first_leaf (Some l)) s1
    (λ _ s', degree s' = degree s ∧ ∃ l, bp_rep s' [(l, [(k, v)])] [(l, [(k, v)])] [])).
  apply wp_bind. eapply wp_insert_key; [by apply lookup_insert_eq|constructor|].
  split; [done|]. exists l. split; simpl; try done.
  - split; [done|]. exists None. by rewrite lookup_insert_eq.
  - apply NoDup_singleton.
  - repeat constructor.
  - repeat constructor.
  - repeat constructor.
  - by repeat constructor.
Qed.
End insert.
