(* ===== verification/BPlusTreeRemove.v ===== *)
(** * BplusTree.cpp: [remove]

    Removing an entry, and dropping the leaf and the separator when the leaf
    becomes empty. *)
From stdpp Require Import base gmap list.
From S2P Require Import Prelude BPlusTree BPlusTreeRep BPlusTreeInsert.

Section dropping.
Context {V : Type}.
Abbreviation block := (list (Z * V)).
Implicit Types (b : block) (bs : list block) (seps : list Z) (k : Z).

Lemma within_hi lo hi hi' b :
  within lo hi b → (∀ x, ge_opt hi x → ge_opt hi' x) → within lo hi' b.
Proof. intros Hw Hh. eapply Forall_impl; [exact Hw|]. naive_solver. Qed.

Lemma ordered_lo lo p bs seps : ordered (Some p) bs seps → le_opt lo p → ordered lo bs seps.
Proof.
  intros Ho Hp. assert (∀ hi b, within (Some p) hi b → within lo hi b) as Hw.
  { intros hi b Hw. eapply Forall_impl; [exact Hw|]. intros x [Hx ?]. split; [|done].
    destruct lo; simpl in *; [lia|done]. }
  destruct seps as [|k seps], bs as [|b [|b' bs]]; try done; simpl in *; [by apply Hw| |].
  - by destruct Ho as (_ & _ & []).
  - destruct Ho as (H1 & H2 & H3). split_and!; [by apply Hw| |done]. destruct lo; simpl in *; [lia|done].
Qed.

(** The separators that are left when a child is dropped. *)
Definition drop_sep seps1 seps2 : list Z :=
  match seps1 with [] => tail seps2 | _ => removelast seps1 ++ seps2 end.

Lemma ordered_drop lo bs1 b bs2 seps1 seps2 :
  ordered lo (bs1 ++ b :: bs2) (seps1 ++ seps2) → length bs1 = length seps1 → bs1 ++ bs2 ≠ [] →
  ordered lo (bs1 ++ bs2) (drop_sep seps1 seps2).
Proof.
  intros Ho E Hne. destruct seps1 as [|p seps1] using rev_ind; [|clear IHseps1].
  - destruct bs1; [|done]. simpl in *. destruct seps2 as [|q seps2].
    + destruct bs2; [done|by destruct Ho].
    + destruct bs2 as [|b2 bs2]; [done|]. destruct Ho as (_ & Hq & Ho). by eapply ordered_lo.
  - destruct bs1 as [|c bs1 _] using rev_ind; [rewrite length_app in E; simpl in E; lia|].
    rewrite !length_app in E. simpl in E. assert (length bs1 = length seps1) as E' by lia.
    rewrite <-!app_assoc in Ho. simpl in Ho.
    apply ordered_cut in Ho as (m & Hs & Ho); [|done].
    replace (drop_sep (seps1 ++ [p]) seps2) with (seps1 ++ seps2).
    2: { unfold drop_sep. rewrite removelast_app by done. simpl. rewrite app_nil_r. by destruct seps1. }
    rewrite <-app_assoc. eapply ordered_join; [exact Hs|]. simpl.
    destruct Ho as (Hw & Hp & Ho). destruct seps2 as [|q seps2], bs2 as [|b2 bs2]; try done.
    + simpl. by eapply within_hi.
    + by destruct Ho as (_ & _ & []).
    + destruct Ho as (_ & Hq & Ho). simpl in Hq. split_and!; [|destruct m; simpl in *; [lia|done]|done].
      eapply within_hi; [exact Hw|]. simpl. lia.
Qed.

Lemma drop_sep_subset seps1 seps2 : drop_sep seps1 seps2 ⊆ seps1 ++ seps2.
Proof.
  destruct seps1 as [|p seps1] using rev_ind; [destruct seps2; set_solver|clear IHseps1].
  unfold drop_sep. rewrite removelast_app by done. simpl. rewrite app_nil_r.
  destruct (seps1 ++ [p]) eqn:E; [by destruct seps1|]. rewrite <-E. set_solver.
Qed.

Lemma length_drop_sep seps1 seps2 : seps1 ++ seps2 ≠ [] → S (length (drop_sep seps1 seps2)) = length (seps1 ++ seps2).
Proof.
  destruct seps1 as [|p seps1] using rev_ind; [by destruct seps2|clear IHseps1]. intros _.
  unfold drop_sep. rewrite removelast_app by done. simpl. rewrite app_nil_r.
  destruct (seps1 ++ [p]) eqn:E; [by destruct seps1|]. rewrite <-E, !length_app. simpl. lia.
Qed.

Lemma size_del k b : k ∈ b.*1 → S (length (del k b)) = length b.
Proof.
  induction b as [|x b IH]; csimpl; [set_solver|]. case_bool_decide as Hx; [done|].
  intros [->|Hk]%elem_of_cons; [done|]. simpl. by rewrite <-IH.
Qed.

Lemma del_subset k b x : x ∈ del k b → x ∈ b.
Proof.
  induction b as [|y b IH]; simpl; [done|]. case_bool_decide; [set_solver|].
  intros [->|Hx]%elem_of_cons; [set_solver|]. right. auto.
Qed.

Lemma sorted_del k b : sorted b → sorted (del k b).
Proof.
  induction b as [|x b IH]; [done|]. intros [Hs Hx]%sorted_cons. simpl. case_bool_decide; [done|].
  apply sorted_cons. split; [auto|]. unfold above in *. rewrite Forall_forall in Hx |- *.
  intros y Hy%del_subset. auto.
Qed.

Lemma within_del lo hi k b : within lo hi b → within lo hi (del k b).
Proof. unfold within. rewrite !Forall_forall. intros Hw x Hx%del_subset. auto. Qed.

Lemma del_app_in k b c : k ∈ b.*1 → del k (b ++ c) = del k b ++ c.
Proof.
  induction b as [|x b IH]; csimpl; [set_solver|]. case_bool_decide; [done|].
  intros [->|Hk]%elem_of_cons; [done|]. by rewrite IH.
Qed.

Lemma del_app_out k b c : k ∉ b.*1 → del k (b ++ c) = b ++ del k c.
Proof.
  induction b as [|x b IH]; csimpl; [done|]. intros [Hx Hk]%not_elem_of_cons.
  rewrite bool_decide_eq_false_2 by done. by rewrite IH.
Qed.

Lemma below_not_in k b : below k b → k ∉ b.*1.
Proof.
  intros Hb (x & -> & Hx)%list_elem_of_fmap. unfold below in Hb. rewrite Forall_forall in Hb.
  apply Hb in Hx. lia.
Qed.

(** [contains] and [remove_key] agree on whether a sorted leaf has a key. *)
Lemma binary_search_sorted k b : sorted b → binary_search k b.*1 = bool_decide (k ∈ b.*1).
Proof.
  intros Hs. pose proof (del_sorted k b Hs) as Hk. unfold binary_search, key_at in *.
  destruct (lower_bound_split k b Hs) as (b1 & b2 & -> & Hlb & H1 & H2). rewrite Hlb in *.
  rewrite fmap_app, lookup_app_r, length_fmap, Nat.sub_diag in * by (rewrite length_fmap; lia).
  destruct b2 as [|y b2]; csimpl in *.
  - by rewrite bool_decide_eq_false_2.
  - apply Forall_cons in H2 as [H2 _]. case_bool_decide as Hy.
    + injection Hy as Hy. rewrite bool_decide_eq_false_2, bool_decide_eq_true_2 by (set_solver || lia). done.
    + rewrite (bool_decide_eq_false_2 (k ∈ _)) by done. rewrite bool_decide_eq_true_2; [done|].
      assert (y.1 ≠ k) by congruence. lia.
Qed.
End dropping.

Section removal.
Context {V : Type}.
Abbreviation st := (BPlusTree V).
Abbreviation block := (list (Z * V)).
Abbreviation entry := (prod loc block).
Implicit Types (s : st) (h : gmap loc (bnode V)) (ch tl : list entry) (b : block) (k : Z) (v : V) (l : loc).

(** A separator that equals a key hides it from the leaves to its right. *)
Lemma place_rest t1 b t2 seps1 seps2 k :
  place (V:=V) t1 b t2 seps1 seps2 k → k ∈ (concat t2.*2).*1 → k ∈ seps2.
Proof.
  intros [_ (m & _ & _ & Ho) Hk] (x & -> & Hx)%list_elem_of_fmap.
  destruct seps2 as [|q seps2]; destruct t2 as [|y t2]; [set_solver|done|set_solver|].
  destruct Ho as (_ & _ & Ho). simpl in Hk.
  assert (above q (concat (y :: t2).*2)) as Ha by (eapply ordered_above; [exact Ho|]; by exists q).
  unfold above in Ha. rewrite Forall_forall in Ha. apply Ha in Hx. assert (x.1 = q) as -> by lia. set_solver.
Qed.

Lemma place_del t1 l b t2 seps1 seps2 k :
  place (V:=V) t1 b t2 seps1 seps2 k →
  let c := concat (t1 ++ (l, b) :: t2).*2 in
  let c' := concat (t1 ++ (l, del k b) :: t2).*2 in
  c' = del k c ∨ (k ∈ seps1 ++ seps2 ∧ c' = c).
Proof.
  intros Hp. cbn zeta. rewrite !fmap_mid, !concat_app. cbn [concat].
  rewrite del_app_l by (by eapply place_below). destruct (decide (k ∈ b.*1)) as [Hk|Hk].
  - left. by rewrite del_app_in.
  - rewrite del_app_out, (del_absent k b) by done.
    destruct (decide (k ∈ (concat t2.*2).*1)) as [Hr|Hr].
    + right. split; [|done]. apply elem_of_app. right. by eapply place_rest.
    + left. by rewrite del_absent.
Qed.

Definition removed_leaf (d : Z) k b : bool :=
  bool_decide (k ∈ b.*1) && bool_decide (Z.of_nat (length (del k b)) < d - 1)%Z.

(** [remove_recursive] on a leaf. *)
Lemma remove_leaf fuel s l b nx k (Q : bool → st → Prop) :
  nodes s !! l = Some (leaf_of b nx) → sorted b →
  Q (removed_leaf (degree s) k b) (with_nodes s (<[l:=leaf_of (del k b) nx]> (nodes s))) →
  wp (remove_recursive (S fuel) l k) s Q.
Proof.
  intros Hn Hs HQ. cbn [remove_recursive]. apply wp_bind. eapply wp_node_at; [exact Hn|].
  cbn [leaf_of]. apply wp_bind. eapply wp_remove_key; [exact Hn|done|].
  apply wp_bind. eapply wp_node_at; [by apply lookup_insert_eq|]. apply wp_bind, wp_gets, wp_ret.
  unfold removed_leaf in HQ. cbn [keys_of leaf_of degree with_nodes].
  unfold leaf_contains. by rewrite binary_search_sorted, length_fmap.
Qed.

Lemma removed_empty d k b : (2 ≤ d)%Z → b ≠ [] → del k b = [] → removed_leaf d k b = true.
Proof.
  intros Hd Hb Hk. unfold removed_leaf. rewrite Hk. simpl.
  rewrite !bool_decide_eq_true_2; [done|lia|].
  destruct (decide (k ∈ b.*1)) as [|Hx]; [done|]. by rewrite del_absent in Hk.
Qed.

Lemma drop_empty_keep s rl l b nx keys ls idx (Q : unit → st → Prop) :
  ls !! idx = Some l → nodes s !! l = Some (leaf_of b nx) → b ≠ [] → Q tt s →
  wp (drop_empty_leaf rl idx keys ls) s Q.
Proof.
  intros Hi Hn Hb HQ. unfold drop_empty_leaf. apply wp_bind, (wp_option_node _ l); [done|].
  apply wp_bind. eapply wp_node_at; [exact Hn|]. destruct b; [done|]. by apply wp_ret.
Qed.

Lemma drop_empty_drop s rl l nx keys1 keys2 ls1 ls2 (Q : unit → st → Prop) :
  nodes s !! l = Some (leaf_of [] nx) → length ls1 = length keys1 →
  Q tt (with_nodes s (<[rl:=InternalNode (drop_sep keys1 keys2) (ls1 ++ ls2)]> (nodes s))) →
  wp (drop_empty_leaf rl (length ls1) (keys1 ++ keys2) (ls1 ++ l :: ls2)) s Q.
Proof.
  intros Hn E HQ. unfold drop_empty_leaf. apply wp_bind, (wp_option_node _ l); [by apply list_lookup_middle|].
  apply wp_bind. eapply wp_node_at; [exact Hn|]. cbn [leaf_of fmap list_fmap].
  apply wp_bind, (wp_option_node _ (ls1 ++ ls2)); [apply vec_erase_app|].
  rewrite E. destruct keys1 as [|p keys1] using rev_ind; [|clear IHkeys1]; apply wp_bind.
  - cbn. unfold drop_sep in HQ. by destruct keys2.
  - rewrite length_app, Nat.add_1_r. rewrite <-app_assoc. cbn [app].
    apply (wp_option_node _ (keys1 ++ keys2)); [apply vec_erase_app|].
    unfold drop_sep in HQ. rewrite removelast_app in HQ by done. simpl in HQ. rewrite app_nil_r in HQ.
    by destruct keys1.
Qed.

(** What [remove_recursive] leaves below a root with children [ls]. *)
Definition removed_state s rl l b nx keys ls : st :=
  with_nodes s (<[rl:=InternalNode keys ls]> (<[l:=leaf_of b nx]> (nodes s))).

Lemma remove_root fuel s rl l b nx seps1 seps2 ls1 ls2 k (Q : bool → st → Prop) :
  let b' := del k b in
  nodes s !! rl = Some (InternalNode (seps1 ++ seps2) (ls1 ++ l :: ls2)) →
  nodes s !! l = Some (leaf_of b nx) → sorted b → b ≠ [] → (2 ≤ degree s)%Z →
  length ls1 = length seps1 → find_child_index k (seps1 ++ seps2) = length ls1 →
  (∀ r, Q r (if bool_decide (b' = [])
    then removed_state s rl l b' nx (drop_sep seps1 seps2) (ls1 ++ ls2)
    else with_nodes s (<[l:=leaf_of b' nx]> (nodes s)))) →
  wp (remove_recursive (S (S fuel)) rl k) s Q.
Proof.
  intros b' Hrl Hl Hb Hne Hd E Hi HQ. remember (S fuel) as f eqn:Hf. cbn [remove_recursive].
  assert (l ≠ rl) as Hlr by (unfold leaf_of in Hl; congruence).
  apply wp_bind. eapply wp_node_at; [exact Hrl|]. cbn beta iota zeta. rewrite Hi.
  apply wp_bind, (wp_option_node _ l); [by apply list_lookup_middle|]. subst f.
  apply wp_bind. eapply remove_leaf; [exact Hl|done|]. fold b'.
  set (s1 := with_nodes s _).
  assert (nodes s1 !! rl = Some (InternalNode (seps1 ++ seps2) (ls1 ++ l :: ls2))) as Hrl1
    by (simpl; by rewrite lookup_insert_ne).
  assert (nodes s1 !! l = Some (leaf_of b' nx)) as Hl1 by apply lookup_insert_eq.
  apply wp_bind. eapply wp_node_at; [exact Hrl1|]. cbn beta iota.
  assert (∀ n s', nodes s' !! rl = Some n → (∀ r, Q r s') → wp (let* n := node_at rl in is_underflow n) s' Q) as Hend.
  { intros n s' Hn HQ'. apply wp_bind. eapply wp_node_at; [exact Hn|]. apply HQ'. }
  apply wp_bind. case_bool_decide as Hb'.
  - unfold b' in Hb'. rewrite removed_empty by done. fold b' in Hb'. rewrite Hb' in Hl1.
    eapply drop_empty_drop; [exact Hl1|done|].
    eapply Hend; [by apply lookup_insert_eq|]. exact HQ.
  - destruct (removed_leaf _ _ _); [|apply wp_ret; by eapply Hend].
    eapply drop_empty_keep; [by apply list_lookup_middle|exact Hl1|done|]. by eapply Hend.
Qed.

Lemma concat_dead t1 l t2 : concat (t1 ++ (l, []) :: t2).*2 = concat (t1 ++ t2).*2 :> block.
Proof. by rewrite fmap_mid, fmap_app, !concat_app. Qed.

Lemma rep_drop s ch t1 l b t2 seps1 seps2 nx rl rt :
  bp_rep s ch (t1 ++ (l, b) :: t2) (seps1 ++ seps2) → length t1 = length seps1 → t1 ++ t2 ≠ [] →
  nodes s !! l = Some (leaf_of b nx) → (∀ b nx, nodes s !! rl ≠ Some (leaf_of b nx)) →
  rt = (match (t1 ++ t2).*1 with [c] => Some c | _ => Some rl end) →
  ∃ ch', bp_rep (BP (degree s) rt (first_leaf s) (nodes (removed_state s rl l [] nx (drop_sep seps1 seps2) (t1 ++ t2).*1)))
    ch' (t1 ++ t2) (drop_sep seps1 seps2).
Proof.
  intros [Hd Hc Hnd Hl Hr Ho Hs Hf] E Hne Hn Hrl ->.
  apply skips_mid in Hl as (c1 & c2 & -> & Hl1 & Hl2). exists (c1 ++ (l, []) :: c2).
  pose proof (chain_upd _ _ _ _ _ [] _ _ _ Hc Hnd Hn) as Hc'.
  assert (rl ∉ (c1 ++ (l, []) :: c2).*1) as Hrl'.
  { assert (rl ∉ (c1 ++ (l, b) :: c2).*1) as Hx; [|by rewrite fmap_mid in Hx |- *].
    intros (x & -> & Hx)%list_elem_of_fmap. apply (chain_lookup _ _ _ _ _ Hc) in Hx as (? & ?). by eapply Hrl. }
  split; cbn [degree root first_leaf nodes removed_state with_nodes].
  - done.
  - by apply chain_insert.
  - by rewrite fmap_mid in Hnd |- *.
  - apply skips_app; [done|by constructor].
  - destruct ((t1 ++ t2).*1) as [|c [|c' ls]] eqn:Els; [by apply fmap_nil_inv in Els|done|].
    exists rl. by rewrite lookup_insert_eq.
  - rewrite fmap_app. rewrite fmap_mid in Ho. eapply ordered_drop; [exact Ho|by rewrite length_fmap|].
    rewrite <-fmap_app. intros Hx%fmap_nil_inv. done.
  - rewrite fmap_mid, Forall_app, Forall_cons in Hs. rewrite fmap_app, Forall_app. naive_solver.
  - rewrite fmap_mid, Forall_app, Forall_cons in Hf. rewrite fmap_app, Forall_app.
    destruct Hf as (? & _ & ?). done.
Qed.

Definition removed_entries k b b' (seps seps' : list Z) : Prop :=
  seps' ⊆ seps ∧ (b' = del k b ∨ (k ∈ seps ∧ b' = b)).

Lemma bp_remove_single fuel s ch l b k :
  bp_rep s ch [(l, b)] [] → wp (bp_remove (S fuel) k) s
    (λ _ s', degree s' = degree s ∧ ∃ b' seps', bp_models s' b' seps' ∧ removed_entries k b b' [] seps').
Proof.
  intros Hs. destruct (rep_leaf s ch [] l b [] [] Hs) as (nx & Hn & Hb).
  pose proof (br_root _ _ _ _ Hs) as Hr. simpl in Hr. pose proof (br_deg _ _ _ _ Hs) as Hd.
  remember (S fuel) as f eqn:Hf.
  unfold bp_remove. apply wp_bind, wp_gets. rewrite Hr. subst f. apply wp_bind.
  eapply remove_leaf; [exact Hn|done|]. apply wp_bind.
  eapply wp_node_at; [by apply lookup_insert_eq|]. cbn [leaf_of].
  case_bool_decide as Hk.
  - split; [done|]. exists [], []. apply fmap_nil_inv in Hk. split; [by left|]. split; [done|].
    left. congruence.
  - apply wp_ret. split; [done|]. exists (del k b), []. split; [|by split; [|left]].
    destruct (rep_upd s ch [] l b (del k b) [] [] nx Hs Hn) as (ch' & Hs').
    + by apply sorted_del.
    + intros E. by rewrite E in Hk.
    + apply within_del. apply (br_ord _ _ _ _ Hs).
    + right. eexists _, _. split; [exact Hs'|]. simpl. by rewrite app_nil_r.
Qed.

Lemma bp_remove_root fuel s ch tl seps k :
  bp_rep s ch tl seps → 2 ≤ length tl → wp (bp_remove (S (S fuel)) k) s
    (λ _ s', degree s' = degree s ∧ ∃ b' seps', bp_models s' b' seps' ∧
       removed_entries k (concat tl.*2) b' seps seps').
Proof.
  intros Hs Hlen. pose proof (br_root _ _ _ _ Hs) as Hr. pose proof (br_ord _ _ _ _ Hs) as Ho.
  destruct (root s) as [rl|] eqn:Hroot; [|by destruct tl as [|? [|? ?]]; simpl in Hlen; [lia..|destruct Hr as (? & ? & _)]].
  pose proof (root_children _ _ _ _ _ Hs Hlen Hroot) as Hrl.
  destruct (place_exists _ _ _ _ k Hs) as (t1 & l & b & t2 & seps1 & seps2 & -> & -> & Hp).
  destruct (rep_leaf _ _ _ _ _ _ _ Hs) as (nx & Hn & Hb).
  pose proof (br_full _ _ _ _ Hs) as Hf. rewrite fmap_mid, Forall_app, Forall_cons in Hf.
  destruct Hf as (_ & Hne & _). rewrite fmap_mid in Hrl. apply ordered_length in Ho.
  rewrite fmap_mid, !length_app in Ho. rewrite length_app in Hlen. cbn [length] in *. rewrite !length_fmap in Ho.
  pose proof (place_idx _ _ _ _ _ _ Hp) as Hi. pose proof (pl_len _ _ _ _ _ _ Hp) as E.
  assert (∀ b nx, nodes s !! rl ≠ Some (leaf_of b nx)) as Hrl' by (unfold leaf_of; congruence).
  assert (l ≠ rl) as Hlr by (intros ->; by eapply Hrl').
  remember (S (S fuel)) as f eqn:Hfu.
  unfold bp_remove. apply wp_bind, wp_gets. rewrite Hroot. subst f. apply wp_bind.
  eapply remove_root; [exact Hrl|exact Hn|done|done|apply (br_deg _ _ _ _ Hs)|by rewrite length_fmap|by rewrite length_fmap|].
  intros _. pose proof (place_del t1 l b t2 seps1 seps2 k Hp) as Hdel. cbn zeta in Hdel.
  case_bool_decide as Hk; apply wp_bind.
  - (* the leaf is dropped *)
    eapply wp_node_at; [by apply lookup_insert_eq|]. rewrite Hk in *.
    assert (t1 ++ t2 ≠ []) as Hne' by (destruct t1, t2; simpl in *; [lia|done..]).
    destruct (rep_drop s ch t1 l b t2 seps1 seps2 nx rl _ Hs E Hne' Hn Hrl' eq_refl) as (ch' & Hs').
    assert (removed_entries k (concat (t1 ++ (l, b) :: t2).*2) (concat (t1 ++ t2).*2) (seps1 ++ seps2) (drop_sep seps1 seps2)) as Hre.
    { split; [apply drop_sep_subset|]. by rewrite !concat_dead in Hdel. }
    assert (length (drop_sep seps1 seps2) + 1 = length (t1 ++ t2).*1) as Hld.
    { rewrite length_fmap, length_app. destruct (seps1 ++ seps2) eqn:Es.
      - apply app_eq_nil in Es as [-> ->]. simpl in *. lia.
      - pose proof (length_drop_sep seps1 seps2) as Hx. rewrite Es in Hx. specialize (Hx ltac:(done)).
        rewrite <-Es, length_app in Hx. lia. }
    rewrite <-fmap_app. unfold removed_state, with_nodes in *. rewrite Hroot.
    remember (drop_sep seps1 seps2) as ds. remember ((t1 ++ t2).*1) as ls.
    destruct ds as [|x ds], ls as [|c [|c' ls]]; simpl in Hld; try lia.
    all: split; [done|]; eexists _, _; split; [|exact Hre]; right; by eexists _, _.
  - (* the leaf stays *)
    eapply wp_node_at; [simpl; by rewrite lookup_insert_ne|]. cbn beta iota.
    assert (∃ ch', bp_rep (with_nodes s (<[l:=leaf_of (del k b) nx]> (nodes s))) ch' (t1 ++ (l, del k b) :: t2) (seps1 ++ seps2)) as (ch' & Hs').
    { eapply rep_upd; [exact Hs|done|by apply sorted_del|done|].
      pose proof (br_ord _ _ _ _ Hs) as Ho'. rewrite fmap_mid in Ho' |- *.
      apply ordered_cut in Ho' as (m & Hsg & Ho'); [|by rewrite length_fmap].
      eapply ordered_join; [exact Hsg|]. eapply ordered_block; [exact Ho'|].
      apply within_del. by eapply within_head. }
    destruct (seps1 ++ seps2) as [|q seps] eqn:Es.
    { apply app_eq_nil in Es as [-> ->]. destruct t1, t2; simpl in *; lia. }
    split; [done|]. eexists _, _. split; [right; by eexists _, _|by split].
Qed.
End removal.
