(* ===== verification/BPlusTreeQuery.v ===== *)
(** * BplusTree.cpp: the read-only operations

    [find], [range_query], [size], [print_leaves], [height] and [validate] on
    a represented tree. *)
From stdpp Require Import base gmap list.
From S2P Require Import Prelude BPlusTree BPlusTreeRep BPlusTreeInsert BPlusTreeRemove.

Section queries.
Context {V : Type}.
Abbreviation st := (BPlusTree V).
Abbreviation block := (list (Z * V)).
Abbreviation entry := (prod loc block).
Implicit Types (s : st) (h : gmap loc (bnode V)) (ch tl : list entry) (b : block) (k : Z) (v : V) (l : loc).

(** *** Looking up *)
Lemma place_assoc t1 l b t2 seps1 seps2 k :
  place (V:=V) t1 b t2 seps1 seps2 k →
  assoc k b = assoc k (concat (t1 ++ (l, b) :: t2).*2) ∨ (k ∈ seps1 ++ seps2 ∧ assoc k b = None).
Proof.
  intros Hp. rewrite fmap_mid, concat_app. cbn [concat snd].
  rewrite assoc_app_l by (by eapply place_below). rewrite assoc_app.
  destruct (assoc k b) eqn:Hk; [by left|]. destruct (decide (k ∈ (concat t2.*2).*1)) as [Hr|Hr].
  - right. split; [|done]. apply elem_of_app. right. by eapply place_rest.
  - left. symmetry. by apply assoc_None.
Qed.

Lemma find_leaf_ok fuel s ch tl seps k :
  bp_rep s ch tl seps → 2 ≤ fuel →
  ∃ t1 l b t2 seps1 seps2, find_leaf fuel k s = Ok (Some l) s ∧
    tl = t1 ++ (l, b) :: t2 ∧ seps = seps1 ++ seps2 ∧ place t1 b t2 seps1 seps2 k.
Proof.
  intros Hs Hfu. destruct (place_exists _ _ _ _ k Hs) as (t1 & l & b & t2 & seps1 & seps2 & -> & -> & Hp).
  exists t1, l, b, t2, seps1, seps2. split_and!; [|done..].
  destruct (rep_leaf _ _ _ _ _ _ _ Hs) as (nx & Hn & _).
  destruct fuel as [|[|fuel]]; [lia..|]. apply wp_eq. unfold find_leaf. apply wp_bind, wp_gets.
  assert (wp (find_leaf_iter k l) s (λ r s', s' = s ∧ r = inr (Some l))) as Hleaf.
  { apply wp_bind. eapply wp_node_at; [exact Hn|]. by split. }
  pose proof (br_root _ _ _ _ Hs) as Hr. destruct (decide (2 ≤ length (t1 ++ (l, b) :: t2))) as [Hlen|Hlen].
  - destruct (root s) as [rl|] eqn:Hroot.
    2: { destruct (t1 ++ (l, b) :: t2) as [|? [|? ?]]; simpl in *; [lia..|destruct Hr as (? & ? & _)]. done. }
    pose proof (root_children _ _ _ _ _ Hs Hlen Hroot) as Hrl. rewrite fmap_mid in Hrl.
    apply wp_loop. apply wp_bind. eapply wp_node_at; [exact Hrl|]. cbn beta iota.
    rewrite (place_idx _ _ _ _ _ _ Hp), <-(length_fmap fst t1), list_lookup_middle by done.
    apply wp_ret, wp_loop. eapply wp_mono; [exact Hleaf|]. by intros r s' [-> ->].
  - rewrite length_app in Hlen. destruct t1; [|simpl in Hlen; lia]. destruct t2; [|simpl in Hlen; lia].
    simpl in Hr. rewrite Hr. apply wp_loop. eapply wp_mono; [exact Hleaf|]. by intros r s' [-> ->].
Qed.

Lemma bp_find_ok fuel s ch tl seps k :
  bp_rep s ch tl seps → 2 ≤ fuel →
  ∃ r, bp_find fuel k s = Ok r s ∧
    (r = assoc k (concat tl.*2) ∨ (k ∈ seps ∧ r = None)).
Proof.
  intros Hs Hfu. destruct (find_leaf_ok fuel s ch tl seps k Hs Hfu)
    as (t1 & l & b & t2 & seps1 & seps2 & Hfl & -> & -> & Hp).
  destruct (rep_leaf _ _ _ _ _ _ _ Hs) as (nx & Hn & Hb). exists (assoc k b).
  split; [|by apply place_assoc]. apply wp_eq. unfold bp_find. apply wp_bind.
  eapply wp_pure_run; [exact Hfl|]. eapply wp_leaf_find; [exact Hn|done|]. done.
Qed.

(** *** Range queries *)
Definition in_range (a c : Z) (x : Z * V) : Prop := (a ≤ x.1 ≤ c)%Z.
#[global] Instance in_range_dec a c x : Decision (in_range a c x).
Proof. unfold in_range. apply _. Defined.

Lemma filter_none (P : Z * V → Prop) `{∀ x, Decision (P x)} b : (∀ x, x ∈ b → ¬ P x) → filter P b = [].
Proof.
  induction b as [|x b IH]; intros Hx; [done|]. rewrite filter_cons_False by set_solver.
  apply IH. set_solver.
Qed.

Lemma filter_range_above a c k b : above k b → (c < k)%Z → filter (in_range a c) b = [].
Proof.
  unfold above. rewrite Forall_forall. intros Hb Hc. apply filter_none. intros x Hx%Hb. unfold in_range. lia.
Qed.

Lemma filter_range_below a c b : below a b → filter (in_range a c) b = [].
Proof.
  unfold below. rewrite Forall_forall. intros Hb. apply filter_none. intros x Hx%Hb. unfold in_range. lia.
Qed.

(** On a sorted leaf: the values in range, and whether a larger key stops the query. *)
Lemma leaf_range_ok a c b result :
  sorted b → ∃ stop, leaf_range a c b.*1 b.*2 result = Some (result ++ (filter (in_range a c) b).*2, stop) ∧
    (stop = true → ∃ x, x ∈ b ∧ (c < x.1)%Z).
Proof.
  revert result. induction b as [|x b IH]; intros result Hs; csimpl.
  - exists false. by rewrite app_nil_r.
  - apply sorted_cons in Hs as [Hs Hx].
    destruct (decide (c < x.1)%Z) as [Hc|Hc].
    + exists true. rewrite (bool_decide_eq_false_2 (x.1 <= c)%Z) by lia. rewrite andb_false_r.
      rewrite bool_decide_eq_true_2 by lia. rewrite filter_cons_False by (unfold in_range; lia).
      rewrite (filter_range_above a c x.1) by done. rewrite app_nil_r. split; [done|].
      intros _. exists x. split; [set_solver|done].
    + destruct (decide (a ≤ x.1)%Z) as [Ha|Ha].
      * destruct (IH (result ++ [x.2]) Hs) as (stop & Hl & Hst). exists stop.
        rewrite (bool_decide_eq_true_2 (x.1 >= a)%Z), (bool_decide_eq_true_2 (x.1 <= c)%Z) by lia. simpl.
        rewrite filter_cons_True by (unfold in_range; lia). rewrite Hl, <-app_assoc.
        split; [done|]. intros (y & ? & ?)%Hst. exists y. split; [set_solver|done].
      * destruct (IH result Hs) as (stop & Hl & Hst). exists stop.
        rewrite (bool_decide_eq_false_2 (x.1 >= a)%Z), (bool_decide_eq_false_2 (x.1 > c)%Z) by lia. simpl.
        rewrite filter_cons_False by (unfold in_range; lia). split; [done|].
        intros (y & ? & ?)%Hst. exists y. split; [set_solver|done].
Qed.

Lemma leaf_range_loop n s ch p a c result :
  chain (nodes s) p ch None → sorted (concat ch.*2) → length ch < n →
  loop n (leaf_range_query_iter a c) (p, result) s = Ok (result ++ (filter (in_range a c) (concat ch.*2)).*2) s.
Proof.
  intros Hc Hs Hn. apply wp_eq. revert n p result Hc Hn.
  induction ch as [|[l b] ch IH]; intros n p result Hc Hn; (destruct n as [|n]; [simpl in Hn; lia|]); apply wp_loop.
  - simpl in Hc. subst p. apply wp_ret. split; [done|]. by rewrite app_nil_r.
  - destruct Hc as (-> & nx & Hl & Hc). csimpl in *. apply sorted_app in Hs as (Hb & Hs & Hle).
    destruct (leaf_range_ok a c b result Hb) as (stop & Hr & Hst).
    apply wp_bind. eapply wp_node_at; [exact Hl|]. cbn [leaf_of].
    apply wp_bind. eapply wp_option_node; [exact Hr|]. cbn beta iota zeta.
    rewrite filter_app, fmap_app, app_assoc. destruct stop; apply wp_ret.
    + split; [done|]. destruct (Hst eq_refl) as (x & Hx & Hcx).
      rewrite (filter_range_above a c x.1 (concat ch.*2)); [by rewrite fmap_nil, app_nil_r| |done].
      apply Forall_forall. intros y Hy. by apply Hle.
    + apply IH; [done..|lia].
Qed.

Lemma bp_range_query_ok fuel s ch tl seps a c :
  bp_rep s ch tl seps → 2 ≤ fuel → length ch < fuel →
  bp_range_query fuel a c s = Ok (filter (in_range a c) (concat tl.*2)).*2 s.
Proof.
  intros Hs Hfu Hch. destruct (find_leaf_ok fuel s ch tl seps a Hs Hfu)
    as (t1 & l & b & t2 & seps1 & seps2 & Hfl & -> & -> & Hp).
  pose proof (ordered_sorted _ _ _ (br_ord _ _ _ _ Hs) (br_sorted _ _ _ _ Hs)) as Hsrt.
  pose proof (br_live _ _ _ _ Hs) as Hl. apply skips_mid in Hl as (c1 & c2 & -> & Hl1 & Hl2).
  pose proof (br_chain _ _ _ _ Hs) as Hc. apply chain_app in Hc as (m & _ & Hc).
  destruct Hc as (-> & Hc). simpl in Hc.
  apply wp_eq. unfold bp_range_query. apply wp_bind, wp_gets.
  destruct (root s) eqn:Hroot.
  2: { pose proof (br_root _ _ _ _ Hs) as Hr. rewrite Hroot in Hr.
       destruct (t1 ++ (l, b) :: t2) as [|? [|? ?]]; simpl in Hr; [done..|by destruct Hr as (? & ? & _)]. }
  apply wp_bind. eapply wp_pure_run; [exact Hfl|]. cbn beta iota.
  eapply wp_pure_run; [apply (leaf_range_loop fuel s ((l, b) :: c2))|].
  - by split.
  - csimpl. rewrite <-(skips_concat _ _ Hl2). rewrite fmap_mid, concat_app in Hsrt.
    by apply sorted_app in Hsrt as (_ & ? & _).
  - rewrite length_app in Hch. simpl in *. lia.
  - split; [done|]. csimpl. rewrite <-(skips_concat _ _ Hl2), fmap_mid, concat_app. cbn [concat snd]. rewrite !filter_app.
    rewrite (filter_range_below a c (concat t1.*2)) by (by eapply place_below). done.
Qed.

(** *** Along the leaves *)
Lemma size_loop n s ch p count :
  chain (nodes s) p ch None → length ch < n →
  loop n size_iter (p, count) s = Ok (count + length (concat ch.*2)) s.
Proof.
  intros Hc Hn. apply wp_eq. revert n p count Hc Hn.
  induction ch as [|[l b] ch IH]; intros n p count Hc Hn; (destruct n as [|n]; [simpl in Hn; lia|]); apply wp_loop.
  - simpl in Hc. subst p. apply wp_ret. split; [done|]. simpl. lia.
  - destruct Hc as (-> & nx & Hl & Hc). apply wp_bind. eapply wp_node_at; [exact Hl|]. cbn [leaf_of].
    apply wp_ret. csimpl. rewrite length_app, length_fmap, Nat.add_assoc. apply IH; [done|simpl in Hn; lia].
Qed.

Lemma leaves_loop n s ch p out :
  chain (nodes s) p ch None → length ch < n →
  loop n leaves_iter (p, out) s = Ok (out ++ ((λ x, x.2.*1) <$> ch)) s.
Proof.
  intros Hc Hn. apply wp_eq. revert n p out Hc Hn.
  induction ch as [|[l b] ch IH]; intros n p out Hc Hn; (destruct n as [|n]; [simpl in Hn; lia|]); apply wp_loop.
  - simpl in Hc. subst p. apply wp_ret. split; [done|]. by rewrite app_nil_r.
  - destruct Hc as (-> & nx & Hl & Hc). apply wp_bind. eapply wp_node_at; [exact Hl|]. cbn [leaf_of].
    apply wp_ret. csimpl. rewrite (cons_middle _ out (_ <$> ch)), app_assoc. apply IH; [done|simpl in Hn; lia].
Qed.

Lemma leaves_concat ch : concat ((λ x, x.2.*1) <$> ch) = (concat ch.*2).*1.
Proof. induction ch as [|x ch IH]; [done|]. csimpl. by rewrite fmap_app, IH. Qed.

Lemma bp_height_ok fuel s ch tl seps :
  bp_rep s ch tl seps → 2 ≤ fuel → bp_height fuel s = Ok (if bool_decide (seps = []) then 1 else 2)%Z s.
Proof.
  intros Hs Hfu. destruct fuel as [|[|fuel]]; [lia..|]. apply wp_eq. unfold bp_height.
  apply wp_bind, wp_gets, wp_bind. pose proof (br_root _ _ _ _ Hs) as Hr. pose proof (br_ord _ _ _ _ Hs) as Ho.
  apply ordered_length in Ho. rewrite length_fmap in Ho.
  destruct tl as [|[l b] [|[l2 b2] tl]]; [done|..]; simpl in Ho.
  - destruct (rep_leaf s ch [] l b [] seps Hs) as (nx & Hn & _). simpl in Hr. rewrite Hr. destruct seps; [|done].
    apply wp_loop, wp_bind. eapply wp_node_at; [exact Hn|]. by split.
  - destruct (rep_leaf s ch [] l b _ seps Hs) as (nx & Hn & _). destruct Hr as (rl & -> & Hrl).
    apply wp_loop, wp_bind. eapply wp_node_at; [exact Hrl|]. apply wp_ret.
    apply wp_loop, wp_bind. eapply wp_node_at; [exact Hn|]. destruct seps; [done|]. by split.
Qed.

(** *** [validate] *)

(** The checks on one leaf below the root: refused, or the range it leaves. *)
Lemma validate_leaf_node fuel s l b nx r :
  nodes s !! l = Some (leaf_of b nx) → r.2 = true ∨ is_Some r.1.2 →
  ∃ ok r', validate_node (S fuel) l r s = Ok (ok, r') s ∧
    (ok = true → r'.2 = false ∧ is_Some r'.1.2 ∧
       r'.1.1 = if r.2 then head b.*1 else r.1.1).
Proof.
  intros Hn Hr. destruct r as [[mn mx] first]. simpl in Hr. cbn [validate_node].
  unfold bind at 1, node_at. rewrite Hn. cbn [leaf_of].
  unfold bind at 1. unfold validate_size, bind at 1, gets at 1.
  assert (∃ ok r', validate_leaf b.*1 (mn, mx, first) s = Ok (ok, r') s ∧
    (ok = true → r'.2 = false ∧ is_Some r'.1.2 ∧ r'.1.1 = if first then head b.*1 else mn)) as (ok & r' & Hv & Hok).
  { unfold validate_leaf. destruct (head b.*1) as [front|]; [|by eexists false, _].
    destruct (last b.*1) as [back|]; [|by eexists false, _].
    destruct (strictly_sorted b.*1); [|by eexists false, _]. simpl.
    destruct first; [by eexists true, _|]. destruct Hr as [|[max Hmax]]; [done|]. simpl in Hmax. subst mx.
    unfold bind, of_option. case_bool_decide; by eexists _, _. }
  case_bool_decide; [unfold ret at 1; rewrite Hv; eauto|].
  unfold bind, is_underflow, gets, ret. case_bool_decide; cbn [negb]; [by eexists false, _|].
  rewrite Hv. eauto.
Qed.

Lemma validate_size_root s rl n (Q : bool → st → Prop) :
  root s = Some rl → Q true s → wp (validate_size rl n) s Q.
Proof.
  intros Hr HQ. apply wp_bind, wp_gets. rewrite bool_decide_eq_true_2 by done. by apply wp_ret.
Qed.

(** The minimum is the one of the first leaf, so the second child is refused. *)
Lemma check_split_second s k seps x max2 :
  (x ≤ k)%Z → check_split (V:=V) 1 (k :: seps) (Some x, Some max2, false) s = Ok false s.
Proof.
  intros Hx. apply wp_eq. unfold check_split. apply wp_bind.
  assert (∀ ok : bool, wp (if ok then let* k0 := of_option (Some k) in
      let* m := of_option (Some x) in ret (negb (bool_decide (m <= k0)%Z)) else ret false) s
      (λ ok s', s' = s ∧ ok = false)) as Hmin.
  { intros [|]; [|by apply wp_ret]. unfold wp, bind. simpl. by rewrite bool_decide_eq_true_2. }
  cbn [lookup list_lookup]. destruct (seps !! 0) as [k'|]; [|apply (Hmin true)].
  apply (Hmin (negb (bool_decide (max2 > k')%Z))).
Qed.

Lemma bp_validate_two fuel s ch tl seps :
  bp_rep s ch tl seps → 2 ≤ length tl → bp_validate (S (S fuel)) s = Ok false s.
Proof.
  intros Hs Hlen. pose proof (br_root _ _ _ _ Hs) as Hr. pose proof (br_ord _ _ _ _ Hs) as Ho.
  destruct tl as [|[l1 b1] [|[l2 b2] tl]]; [simpl in Hlen; lia..|].
  destruct (rep_leaf s ch [] l1 b1 _ seps Hs) as (nx1 & Hn1 & _).
  destruct (rep_leaf s ch [(l1, b1)] l2 b2 _ seps Hs) as (nx2 & Hn2 & _).
  destruct Hr as (rl & Hroot & Hrl). csimpl in Hrl.
  pose proof (ordered_length _ _ _ Ho) as Hl. destruct seps as [|k seps]; [done|]. csimpl in Hl.
  destruct (validate_leaf_node fuel s l1 b1 nx1 (None, None, true) Hn1)
    as (ok1 & [[mn1 mx1] f1] & Hv1 & Hok1); [by left|].
  remember (S fuel) as f eqn:Hf. apply wp_eq. unfold bp_validate. apply wp_bind, wp_gets. rewrite Hroot.
  apply wp_bind. cbn [validate_node]. apply wp_bind. eapply wp_node_at; [exact Hrl|].
  apply wp_bind, validate_size_root; [done|]. cbn beta iota.
  rewrite bool_decide_eq_false_2 by done.
  rewrite bool_decide_eq_false_2 by (rewrite length_fmap in Hl; cbn [length]; rewrite length_fmap; lia). cbn [validate_children].
  apply wp_bind, wp_bind. eapply wp_pure_run; [exact Hv1|]. cbn beta iota zeta.
  destruct ok1; [|by apply wp_ret]. destruct (Hok1 eq_refl) as (Hf1 & [max1 Hmx1] & Hmn1).
  simpl in Hf1, Hmx1, Hmn1. subst f1 mx1 mn1. apply wp_bind, wp_bind.
  apply wp_bind, (wp_option_node _ max1); [done|]. apply wp_ret.
  destruct (negb _); apply wp_ret; [|by apply wp_ret].
  destruct (validate_leaf_node fuel s l2 b2 nx2 (head b1.*1, Some max1, false) Hn2)
    as (ok2 & [[mn2 mx2] f2] & Hv2 & Hok2); [right; by eexists|].
  subst f. apply wp_bind. eapply wp_pure_run; [exact Hv2|]. cbn beta iota zeta.
  destruct ok2; [|by apply wp_ret].
  destruct (Hok2 eq_refl) as (Hf2 & [max2 Hmx2] & Hmn2). simpl in Hf2, Hmx2, Hmn2. subst f2 mx2 mn2.
  assert (∃ x, head b1.*1 = Some x ∧ (x ≤ k)%Z) as (x & -> & Hx).
  { pose proof (br_full _ _ _ _ Hs) as Hfull. apply Forall_cons in Hfull as [Hne _].
    destruct Ho as (Hw & _). destruct b1 as [|y b1]; [done|]. exists y.1. split; [done|].
    apply Forall_cons in Hw as [[_ Hw] _]. done. }
  apply wp_bind. eapply wp_pure_run; [by apply check_split_second|]. by apply wp_ret.
Qed.

Lemma bp_validate_one fuel s ch l b :
  bp_rep s ch [(l, b)] [] → bp_validate (S fuel) s = Ok (strictly_sorted b.*1) s.
Proof.
  intros Hs. destruct (rep_leaf s ch [] l b [] [] Hs) as (nx & Hn & _).
  pose proof (br_root _ _ _ _ Hs) as Hr. simpl in Hr.
  pose proof (br_full _ _ _ _ Hs) as Hfull. apply Forall_cons in Hfull as [Hne _]. simpl in Hne.
  apply wp_eq. unfold bp_validate. apply wp_bind, wp_gets. rewrite Hr. cbn [validate_node].
  apply wp_bind, wp_bind. eapply wp_node_at; [exact Hn|]. apply wp_bind, validate_size_root; [done|].
  cbn [leaf_of]. unfold validate_leaf. destruct b as [|y b]; [done|]. rewrite fmap_cons, last_cons. cbn [head].
  destruct (last b.*1); by destruct (strictly_sorted _).
Qed.
End queries.
