(* ===== verification/BPlusTreeSpec.v ===== *)
(** * BplusTree.cpp: what the tree promises, and where it does not keep it

    [bp_models s b seps]: the tree holds the sorted entries [b] in at most two
    levels, with separators [seps]. *)
From Stdlib Require Import Sorted.
From stdpp Require Import base gmap list strings sorting.
From S2P Require Import Prelude Random BPlusTree BPlusTreeRep BPlusTreeInsert BPlusTreeRemove BPlusTreeQuery.

Section spec.
Context {V : Type}.
Abbreviation st := (BPlusTree V).
Abbreviation block := (list (Z * V)).
Implicit Types (s : st) (b : block) (k : Z) (v : V) (seps : list Z).

(** The entries after insertions in the given order. *)
Definition puts (kvs : list (Z * V)) (b : block) : block := foldl (λ b x, put x.1 x.2 b) b kvs.

(** A tree that only insertions have changed. *)
Definition grown (d : Z) s b : Prop :=
  degree s = d ∧
  ((2 ≤ d)%Z ∧ root s = None ∧ first_leaf s = None ∧ b = [] ∨
   ∃ ch tl seps, bp_rep s ch tl seps ∧ sized d tl ∧ b = concat tl.*2).

Lemma grown_models d s b : grown d s b → ∃ seps, bp_models s b seps.
Proof.
  intros (Hd & [(H2 & Hr & Hf & ->)|(ch & tl & seps & Hs & _ & ->)]).
  - exists []. left. split_and!; [lia|done..].
  - exists seps. right. by exists ch, tl.
Qed.

Lemma grown_insert fuel d s b k v :
  grown d s b → (Z.of_nat (length b) < 2 * d * (d - 1))%Z → 2 ≤ fuel →
  wp (bp_insert fuel k v) s (λ _ s', grown d s' (put k v b)).
Proof.
  intros (Hd & Hg) Hb Hfu. destruct fuel as [|[|fuel]]; [lia..|].
  destruct Hg as [(H2 & Hr & Hf & ->)|(ch & tl & seps & Hs & Hz & ->)].
  - eapply wp_mono; [apply bp_insert_empty; [lia|done]|]. intros _ s' (Hd' & l & Hs').
    split; [congruence|]. right. exists [(l, [(k, v)])], [(l, [(k, v)])], []. split_and!; [done| |done].
    left. simpl. lia.
  - pose proof (br_deg _ _ _ _ Hs) as H2. rewrite Hd in H2.
    eapply wp_mono; [eapply bp_insert_rep; [exact Hs|]|].
    + pose proof (br_ord _ _ _ _ Hs) as Ho. apply ordered_length in Ho. rewrite length_fmap in Ho.
      destruct (sized_total d tl H2 Hz); nia.
    + intros _ s' (ch' & tl' & seps' & [Hd' Hs' Hp Hz']). rewrite Hd in *. split; [done|]. right.
      exists ch', tl', seps'. auto.
Qed.

Lemma grown_insert_all fuel d kvs s b :
  grown d s b → (Z.of_nat (length b + length kvs) ≤ 2 * d * (d - 1))%Z → 2 ≤ fuel →
  wp (insert_all fuel kvs) s (λ _ s', grown d s' (puts kvs b)).
Proof.
  intros Hg Hlen Hfu. revert s b Hg Hlen. induction kvs as [|[k v] kvs IH]; intros s b Hg Hlen.
  - by apply wp_ret.
  - simpl in Hlen. apply wp_bind. eapply wp_mono; [eapply grown_insert; [exact Hg|lia|done]|].
    intros [] s' Hg'. apply IH; [exact Hg'|]. rewrite size_put. lia.
Qed.

Lemma puts_perm kvs b : puts kvs b ≡ₚ kvs ++ b.
Proof.
  revert b. induction kvs as [|[k v] kvs IH]; intros b; [done|]. simpl. rewrite IH.
  unfold put. rewrite <-Permutation_middle, <-Permutation_middle. f_equiv. f_equiv.
  clear. induction b as [|x b IH]; [done|]. destruct (decide (x.1 < k)%Z).
  - rewrite filter_cons_True, (filter_cons_False _ x) by (simpl; tauto). simpl. by f_equiv.
  - rewrite filter_cons_False, (filter_cons_True _ x) by done. by rewrite <-Permutation_middle, IH.
Qed.

Lemma puts_sorted kvs b : sorted b → sorted (puts kvs b).
Proof. revert b. induction kvs as [|[k v] kvs IH]; intros b Hb; [done|]. by apply IH, sorted_put. Qed.

(** C16: Up to [2 * d * (d - 1)] insertions into a new tree of degree [d] always
    succeed, for any keys, and leave the entries inserted, sorted by key, in a
    well-formed tree. *)
Theorem BPlusTree_insert_spec fuel deg (kvs : list (Z * V)) :
  let d := Z.max 2 deg in
  (Z.of_nat (length kvs) ≤ 2 * d * (d - 1))%Z → 2 ≤ fuel →
  ∃ s b seps, insert_all fuel kvs (BPlusTree_ctor deg) = Ok tt s ∧
    degree s = d ∧ bp_models s b seps ∧ b ≡ₚ kvs ∧ StronglySorted Z.le b.*1.
Proof.
  intros d Hlen Hfu.
  assert (grown d (BPlusTree_ctor deg : st) []) as Hg by (split; [done|left; split_and!; [lia|done..]]).
  apply (grown_insert_all fuel d kvs) in Hg; [|simpl; lia|done].
  apply wp_Ok in Hg as ([] & s & Hs & Hg). destruct (grown_models _ _ _ Hg) as (seps & Hm).
  exists s, (puts kvs []), seps. split_and!; [done|by destruct Hg|done| |].
  - by rewrite puts_perm, app_nil_r.
  - apply puts_sorted. constructor.
Qed.

(** C18: A lookup in a represented tree, which has at most two levels, returns the first value of the key, or
    null for an absent key; the one exception is a key that equals a
    separator, which may be missed. *)
Theorem BPlusTree_find_spec fuel s b seps k :
  bp_models s b seps → 2 ≤ fuel →
  ∃ r, bp_find fuel k s = Ok r s ∧
    bp_contains fuel k s = Ok (bool_decide (is_Some r)) s ∧
    (r = assoc k b ∨ (k ∈ seps ∧ r = None)).
Proof.
  intros [(_ & Hr & _ & -> & ->)|(ch & tl & Hs & ->)] Hfu.
  - exists None. assert (bp_find fuel k s = Ok None s) as Hf.
    { unfold bp_find, find_leaf, bind, gets. by rewrite Hr. }
    unfold bp_contains, bind. rewrite Hf. split_and!; [done|done|by left].
  - destruct (bp_find_ok fuel s ch tl seps k Hs Hfu) as (r & Hf & Hr). exists r.
    unfold bp_contains, bind. rewrite Hf. split_and!; [done|by destruct r|done].
Qed.

(** C19: In a represented tree, which has at most two levels, a range query
    returns exactly the values of the entries whose keys are in the range, in
    key order, and leaves the tree unchanged; [size] is the number of entries,
    and the leaves printed are all keys in order.  (In a deeper tree, the result
    of splitting an inner node, a range query may miss stored keys, see
    [deep_range_query_misses].) *)
Theorem BPlusTree_range_query_spec s b seps :
  bp_models s b seps →
  ∃ n, ∀ fuel, n ≤ fuel →
    (∀ start end_, bp_range_query fuel start end_ s =
       Ok (filter (λ x, (start ≤ x.1)%Z ∧ (x.1 ≤ end_)%Z) b).*2 s) ∧
    bp_size fuel s = Ok (length b) s ∧
    ∃ leaves, print_leaves fuel s = Ok leaves s ∧ concat leaves = b.*1.
Proof.
  intros [(_ & Hr & Hf & -> & ->)|(ch & tl & Hs & ->)].
  - exists 1. intros [|fuel] Hfu; [lia|]. unfold bp_range_query, bp_size, print_leaves, bind, gets.
    rewrite Hr, Hf. split_and!; [done|done|]. by exists [].
  - exists (2 + length ch). intros fuel Hfu. pose proof (br_chain _ _ _ _ Hs) as Hc.
    pose proof (skips_concat _ _ (br_live _ _ _ _ Hs)) as He. split_and!.
    + intros a c. rewrite (bp_range_query_ok fuel s ch tl seps a c Hs) by lia. done.
    + unfold bp_size, bind, gets. rewrite (size_loop fuel s ch) by (done || lia). by rewrite He.
    + unfold print_leaves, bind, gets. rewrite (leaves_loop fuel s ch) by (done || lia).
      eexists. split; [done|]. simpl. by rewrite leaves_concat, He.
Qed.

(** C17: From a represented tree, which has at most two levels, a removal
    succeeds and removes the first entry with the key, unless the key equals a
    separator, when it may remove nothing; the tree stays represented, an empty
    leaf is dropped with a separator, and no separator is new.  (From a deeper
    tree a key that is stored may not be removed although it is no separator,
    see [deep_remove_removes_nothing].) *)
Theorem BPlusTree_remove_spec fuel s b seps k :
  bp_models s b seps → 2 ≤ fuel →
  ∃ s' b' seps', bp_remove fuel k s = Ok tt s' ∧ degree s' = degree s ∧
    bp_models s' b' seps' ∧ seps' ⊆ seps ∧ (b' = del k b ∨ (k ∈ seps ∧ b' = b)).
Proof.
  intros Hm Hfu. destruct fuel as [|[|fuel]]; [lia..|].
  destruct Hm as [(Hd & Hr & Hf & -> & ->)|(ch & tl & Hs & ->)].
  - exists s, [], []. split_and!; [|done|by left|done|by left].
    unfold bp_remove, bind, gets. by rewrite Hr.
  - assert (wp (bp_remove (S (S fuel)) k) s (λ _ s', degree s' = degree s ∧ ∃ b' seps',
      bp_models s' b' seps' ∧ removed_entries k (concat tl.*2) b' seps seps')) as Hwp.
    { pose proof (br_ord _ _ _ _ Hs) as Ho. apply ordered_length in Ho.
      destruct tl as [|[l b] [|y tl]]; [done| |by eapply bp_remove_root; [|simpl; lia]].
      destruct seps; [|done]. simpl. rewrite app_nil_r. by eapply bp_remove_single. }
    apply wp_Ok in Hwp as ([] & s' & Hx & Hd & b' & seps' & Hm' & Hsub & Hdel).
    exists s', b', seps'. done.
Qed.

(** [validate] refuses every tree of two levels, and accepts a tree of one
    leaf exactly when its keys are strictly increasing; [height] counts the
    levels. *)
Theorem BPlusTree_validate_spec fuel s b seps :
  bp_models s b seps → 2 ≤ fuel →
  bp_validate fuel s = Ok (bool_decide (seps = []) && strictly_sorted b.*1) s ∧
  bp_height fuel s = Ok (if bool_decide (seps = []) then 1 else 2)%Z s.
Proof.
  intros Hm Hfu. destruct fuel as [|[|fuel]]; [lia..|].
  destruct Hm as [(Hd & Hr & Hf & -> & ->)|(ch & tl & Hs & ->)].
  - unfold bp_validate, bp_height, bind, gets. by rewrite Hr.
  - split; [|eapply bp_height_ok; [exact Hs|lia]].
    pose proof (br_ord _ _ _ _ Hs) as Ho. apply ordered_length in Ho. rewrite length_fmap in Ho.
    destruct tl as [|[l b] [|y tl]]; [done|..].
    + destruct seps; [|done]. simpl. rewrite app_nil_r. by eapply bp_validate_one.
    + destruct seps; [done|]. rewrite bool_decide_eq_false_2 by done.
      eapply bp_validate_two; [exact Hs|simpl; lia].
Qed.

(** Splitting an inner child is undefined behaviour: the key to promote is
    read one past the end of the shortened vector. *)
Lemma split_inner_undefined s l idx child (keys : list Z) children :
  nodes s !! child = Some (InternalNode keys children) →
  split_child l idx child s = Undef.
Proof.
  intros Hc. unfold split_child, internal_split, bind, node_at at 1. rewrite Hc. cbn [is_leaf].
  unfold node_at at 1. rewrite Hc. unfold of_option at 1.
  destruct (keys !! (length keys / 2)) as [mid|] eqn:Hmid; [|done].
  case_bool_decide; [|done]. unfold new_node, set_node, modify, ret, node_at. cbn [nodes].
  rewrite lookup_insert_eq. cbn [keys_of]. unfold of_option.
  by rewrite lookup_ge_None_2.
Qed.
End spec.

(** What the tests of the program print: in the first four [validate] fails, key
    15 is not found although it is stored, and removing it changes nothing but
    is reported as a deletion; the 100 insertions of the fifth test run into
    undefined behaviour; the sixth, on a fresh tree, breaks off at the tenth
    insertion and at the first deletion, and finds every key but the separator
    542.  The program as a whole is undefined. *)
Theorem bplustree_test_output :
  run_result (test_small 12) (BPlusTree_ctor 3) =
    Some (Report [(0, [15%Z]); (1, [3; 5; 7; 10; 12]%Z); (1, [15; 17; 20; 22; 25]%Z)]
      2 10 false
      [Some "Alice"; Some "Bob"; Some "Charlie"; None; Some "Eve"; Some "Frank"; Some "Grace";
       Some "Henry"; Some "Ivy"; Some "Jack"]%string None
      ["Alice"; "Henry"; "David"; "Ivy"; "Bob"]%string
      [[3; 5; 7; 10; 12]; [15; 17; 20; 22; 25]]%Z [[3; 5; 7; 10; 12]; [15; 17; 20; 22; 25]]%Z true) ∧
  test_bulk 12 36 (BPlusTree_ctor 4) ≠ Undef ∧ test_bulk 12 100 (BPlusTree_ctor 4) = Undef ∧
  run_result (test_random 12 (mt_seed 42)) (BPlusTree_ctor 5) =
    Some (RandomReport [542; 67; 876; 414; 26; 335; 620; 924; 950; 113] (Some 113) 10 2
      [(950, true); (26, true); (542, false); (26, true); (67, true); (876, true); (335, true); (335, true);
       (924, true); (620, true); (113, true); (620, true); (414, true); (67, true); (113, true); (414, true);
       (67, true); (113, true); (924, true); (113, true)] [876] (Some 876) 9)%Z ∧
  bp_main 12 tt = Undef.
Proof. split_and!; try (vm_compute; reflexivity). vm_compute. discriminate. Qed.

(** ** The theorems at concrete inputs *)

(** Four keys in a tree of degree 2. *)
Definition sample_kvs : list (Z * Z) := [(1, 10); (2, 20); (3, 30); (4, 40)]%Z.
Definition sample_tree : BPlusTree Z := run_state (insert_all 2 sample_kvs) (BPlusTree_ctor 2).

Lemma sample_bplus_models : bp_models sample_tree sample_kvs [2%Z].
Proof.
  right. exists [(1%positive, [(1, 10)%Z]); (2%positive, [(2, 20); (3, 30); (4, 40)]%Z)],
    [(1%positive, [(1, 10)%Z]); (2%positive, [(2, 20); (3, 30); (4, 40)]%Z)].
  split; [|reflexivity]. split.
  - vm_compute. discriminate.
  - split; [reflexivity|]. exists (Some 2%positive). split; [reflexivity|].
    split; [reflexivity|]. exists None. split; reflexivity.
  - simpl. rewrite !NoDup_cons. split_and!; [set_solver..|constructor].
  - apply skips_refl.
  - exists 3%positive. split; reflexivity.
  - simpl. unfold within. simpl. repeat constructor; simpl; lia.
  - repeat constructor; simpl; lia.
  - by repeat constructor.
Qed.

Lemma BPlusTree_insert_witness :
  ∃ s b seps, insert_all 2 sample_kvs (BPlusTree_ctor 2) = Ok tt s ∧
    degree s = 2%Z ∧ bp_models s b seps ∧ b ≡ₚ sample_kvs ∧ StronglySorted Z.le b.*1.
Proof. refine (BPlusTree_insert_spec 2 2 sample_kvs _ _); [vm_compute; discriminate|lia]. Defined.

Lemma BPlusTree_find_witness :
  ∃ r, bp_find 2 3 sample_tree = Ok r sample_tree ∧
    bp_contains 2 3 sample_tree = Ok (bool_decide (is_Some r)) sample_tree ∧
    (r = Some 30%Z ∨ (3%Z ∈ [2%Z] ∧ r = None)).
Proof. exact (BPlusTree_find_spec 2 sample_tree _ _ 3 sample_bplus_models (le_n 2)). Defined.

Lemma BPlusTree_range_query_witness :
  ∃ n, ∀ fuel, n ≤ fuel →
    (∀ start end_, bp_range_query fuel start end_ sample_tree =
       Ok (filter (λ x, (start ≤ x.1)%Z ∧ (x.1 ≤ end_)%Z) sample_kvs).*2 sample_tree) ∧
    bp_size fuel sample_tree = Ok 4 sample_tree ∧
    ∃ leaves, print_leaves fuel sample_tree = Ok leaves sample_tree ∧ concat leaves = [1; 2; 3; 4]%Z.
Proof. exact (BPlusTree_range_query_spec sample_tree _ _ sample_bplus_models). Defined.

Lemma BPlusTree_remove_witness :
  ∃ s' b' seps', bp_remove 2 1 sample_tree = Ok tt s' ∧ degree s' = degree sample_tree ∧
    bp_models s' b' seps' ∧ seps' ⊆ [2%Z] ∧
    (b' = [(2, 20); (3, 30); (4, 40)]%Z ∨ (1%Z ∈ [2%Z] ∧ b' = sample_kvs)).
Proof. exact (BPlusTree_remove_spec 2 sample_tree _ _ 1 sample_bplus_models (le_n 2)). Defined.

Lemma BPlusTree_validate_witness :
  bp_validate 2 sample_tree = Ok false sample_tree ∧ bp_height 2 sample_tree = Ok 2%Z sample_tree.
Proof. exact (BPlusTree_validate_spec 2 sample_tree _ _ sample_bplus_models (le_n 2)). Defined.

(** [find] misses a stored key that was promoted to the root. *)
Example find_misses_separator :
  run_result (bp_find 2 2) sample_tree = Some None ∧ (2, 20)%Z ∈ sample_kvs.
Proof. split; [vm_compute; reflexivity|]. set_solver. Qed.

(** ** Beyond two levels *)

(** Twenty even keys in a tree of degree 3: the root has been split. *)
Definition deep_kvs : list (Z * Z) := (λ i, (2 * Z.of_nat i, Z.of_nat i)%Z) <$> seq 0 20.
Definition deep_tree : BPlusTree Z := run_state (insert_all 12 deep_kvs) (BPlusTree_ctor 3).

(** The left inner node has one separator too few: a key that is no separator
    is not found either. *)
Example root_split_loses :
  run_result (let* nodes := bp_print 20 in
    let* v := bp_find 12 10 in
    ret (nodes, v)) deep_tree =
  Some ([(0, [8%Z]); (1, [4%Z]); (1, [16; 20; 24; 28; 32]%Z); (2, [0; 2]%Z); (2, [4; 6]%Z); (2, [8; 10]%Z);
         (2, [12; 14]%Z); (2, [16; 18]%Z); (2, [20; 22]%Z); (2, [24; 26]%Z); (2, [28; 30]%Z); (2, [32; 34; 36; 38]%Z)], None).
Proof. vm_compute. reflexivity. Qed.

(** Its range query misses a stored key. *)
Example deep_range_query_misses :
  run_result (bp_range_query 20 10 12) deep_tree = Some [6]%Z ∧ (10, 5)%Z ∈ deep_kvs ∧ (12, 6)%Z ∈ deep_kvs.
Proof. split; [vm_compute; reflexivity|]. split; [apply (list_elem_of_lookup_2 _ 5)|apply (list_elem_of_lookup_2 _ 6)]; reflexivity. Qed.

(** A removal removes nothing. *)
Example deep_remove_removes_nothing :
  run_result (bp_remove 12 10 ;; let* n := bp_size 40 in let* leaves := print_leaves 40 in ret (n, bool_decide (10%Z ∈ concat leaves)))
    deep_tree = Some (20, true).
Proof. vm_compute. reflexivity. Qed.
