(* ===== verification/Bytes.v ===== *)
(** * Byte-addressed memory

    The memory of C code that works on raw bytes: an address outside the map is
    not allocated, and a byte that was never written is [None]. *)
From stdpp Require Import base gmap list strings.
From Stdlib Require Import Ascii.
From S2P Require Import Prelude.

Abbreviation memory := (gmap Z (option Z)).

Fixpoint write_bytes (a : Z) (bs : list Z) (m : memory) : option memory :=
  match bs with
  | [] => Some m
  | b :: bs' =>
      match m !! a with
      | Some _ => write_bytes (a + 1) bs' (<[a := Some b]> m)
      | None => None
      end
  end.
Fixpoint read_bytes (a : Z) (n : nat) (m : memory) : option (list Z) :=
  match n with
  | 0 => Some []
  | S n =>
      match m !! a with
      | Some (Some b) => match read_bytes (a + 1) n m with Some bs => Some (b :: bs) | None => None end
      | _ => None
      end
  end.

(** The characters of a string literal. *)
Definition chars (s : string) : list Z := (λ a, Z.of_nat (nat_of_ascii a)) <$> String.list_ascii_of_string s.

Section bytes.
Implicit Types (m : memory) (a b x : Z).

Lemma write_bytes_Some a (l : list Z) m :
  (∀ i : nat, i < length l → is_Some (m !! (a + Z.of_nat i)%Z)) → ∃ m', write_bytes a l m = Some m'.
Proof.
  revert a m. induction l as [|b l IH]; intros a m Hm; simpl; [eauto|].
  destruct (Hm 0) as [v Hv]; [simpl; lia|]. rewrite Z.add_0_r in Hv. rewrite Hv.
  apply IH. intros i Hi. destruct (decide (a = (a + 1 + Z.of_nat i)%Z)) as [He|He].
  - rewrite <-He, lookup_insert_eq. eauto.
  - rewrite lookup_insert_ne by done. replace (a + 1 + Z.of_nat i)%Z with (a + Z.of_nat (S i))%Z by lia.
    apply Hm. simpl. lia.
Qed.

Lemma write_bytes_out a (l : list Z) m i :
  i < length l → m !! (a + Z.of_nat i)%Z = None → write_bytes a l m = None.
Proof.
  revert a m i. induction l as [|b l IH]; intros a m i Hi Hm; simpl in *; [lia|].
  destruct (m !! a) eqn:Ha; [|done]. destruct i as [|i]; [rewrite Z.add_0_r in Hm; congruence|].
  apply (IH _ _ i); [lia|]. rewrite lookup_insert_ne by lia. rewrite <-Hm. f_equal. lia.
Qed.

Lemma write_bytes_other a (l : list Z) m m' x :
  write_bytes a l m = Some m' → (x < a ∨ a + Z.of_nat (length l) ≤ x)%Z → m' !! x = m !! x.
Proof.
  revert a m. induction l as [|b l IH]; intros a m; simpl; [by intros [= <-]|].
  destruct (m !! a); [|done]. intros Hw Hx. rewrite (IH _ _ Hw) by lia. by rewrite lookup_insert_ne by lia.
Qed.

Lemma write_bytes_same a (l : list Z) m m' i b :
  write_bytes a l m = Some m' → l !! i = Some b → m' !! (a + Z.of_nat i)%Z = Some (Some b).
Proof.
  revert a m i. induction l as [|c l IH]; intros a m i; simpl; [done|].
  destruct (m !! a); [|done]. intros Hw. destruct i as [|i]; simpl.
  - intros [= ->]. rewrite Z.add_0_r, (write_bytes_other _ _ _ _ _ Hw) by lia. by rewrite lookup_insert_eq.
  - intros Hl. replace (a + Z.of_nat (S i))%Z with (a + 1 + Z.of_nat i)%Z by lia. by eapply IH.
Qed.

Lemma write_bytes_dom a (l : list Z) m m' x :
  write_bytes a l m = Some m' → is_Some (m' !! x) ↔ is_Some (m !! x).
Proof.
  revert a m. induction l as [|b l IH]; intros a m; simpl; [by intros [= <-]|].
  destruct (m !! a) as [v|] eqn:Ha; [|done]. intros Hw. rewrite (IH _ _ Hw).
  destruct (decide (x = a)) as [->|Hx]; [by rewrite lookup_insert_eq, Ha|by rewrite lookup_insert_ne].
Qed.

Lemma read_bytes_Some a (l : list Z) m :
  (∀ i b, l !! i = Some b → m !! (a + Z.of_nat i)%Z = Some (Some b)) → read_bytes a (length l) m = Some l.
Proof.
  revert a. induction l as [|b l IH]; intros a Hm; simpl; [done|].
  pose proof (Hm 0 b eq_refl) as H0. rewrite Z.add_0_r in H0. rewrite H0, IH; [done|].
  intros i c Hi. replace (a + 1 + Z.of_nat i)%Z with (a + Z.of_nat (S i))%Z by lia. by apply Hm.
Qed.

Lemma read_bytes_ext a n m m' :
  (∀ i : nat, i < n → m' !! (a + Z.of_nat i)%Z = m !! (a + Z.of_nat i)%Z) →
  read_bytes a n m' = read_bytes a n m.
Proof.
  revert a. induction n as [|n IH]; intros a Hm; simpl; [done|].
  pose proof (Hm 0 ltac:(lia)) as H0. rewrite Z.add_0_r in H0. rewrite H0, IH; [done|].
  intros i Hi. replace (a + 1 + Z.of_nat i)%Z with (a + Z.of_nat (S i))%Z by lia. apply Hm. lia.
Qed.

End bytes.
