(* ===== verification/Slab.v ===== *)
(** * KV_Store/simple_slab.c: the slab allocator

    One page is cut into blocks; a free block holds, in its first bytes, the
    pointer to the next free block.  Memory is byte-addressed: a byte that was
    never written is [None], an access outside allocated memory is undefined
    behaviour, and pointers are stored as eight little-endian bytes.  What
    [malloc] returns is an argument of the run. *)
From stdpp Require Import base gmap list list_numbers.
From S2P Require Import Prelude Bytes.

Abbreviation loc := positive.

Definition KV_PAGE_SIZE : Z := 0x1000.

(** [slab_t]; pointers are addresses, 0 is [NULL]. *)
Record slab_t := Slab { block_size : Z; free_count : Z; first_free : Z; mem : Z }.
#[global] Instance slab_inhabited : Inhabited slab_t := populate (Slab 0 0 0 0).

(** The slab objects, the bytes of the heap and the sizes of its allocations. *)
Record heap := Heap {
  slabs : gmap loc slab_t;
  bytes : gmap Z (option Z);
  allocs : gmap Z Z
}.

(** *** Pointers as bytes *)
Definition encode_ptr (p : Z) : list Z := Z_to_little_endian 8 8 p.
Definition decode_ptr (bs : list Z) : Z := little_endian_to_Z 8 bs.

(** *** The C heap *)

(** The bytes of a fresh allocation of [n] bytes at [a]. *)
Fixpoint fresh_bytes (a : Z) (n : nat) (m : gmap Z (option Z)) : gmap Z (option Z) :=
  match n with 0 => m | S n => <[a := None]> (fresh_bytes (a + 1) n m) end.
Fixpoint drop_bytes (a : Z) (n : nat) (m : gmap Z (option Z)) : gmap Z (option Z) :=
  match n with 0 => m | S n => delete a (drop_bytes (a + 1) n m) end.

Definition with_bytes (m : gmap Z (option Z)) : M heap unit :=
  modify (λ h, Heap (slabs h) m (allocs h)).

(** [malloc(size)] when it returns [page]. *)
Definition malloc (page : option Z) (size : Z) : M heap Z := λ h,
  match page with
  | None => Ok 0%Z h
  | Some a => Ok a (Heap (slabs h) (fresh_bytes a (Z.to_nat size) (bytes h)) (<[a := size]> (allocs h)))
  end.
Definition c_free (a : Z) : M heap unit := λ h,
  if bool_decide (a = 0)%Z then Ok tt h
  else match allocs h !! a with
       | Some size => Ok tt (Heap (slabs h) (drop_bytes a (Z.to_nat size) (bytes h)) (delete a (allocs h)))
       | None => Undef
       end.

(** [*(char ** )a = p] and [*(char ** )a]. *)
Definition store_ptr (a p : Z) : M heap unit := λ h,
  match write_bytes a (encode_ptr p) (bytes h) with
  | Some m => with_bytes m h
  | None => Undef
  end.
Definition load_ptr (a : Z) : M heap Z := λ h,
  match read_bytes a 8 (bytes h) with
  | Some bs => Ok (decode_ptr bs) h
  | None => Undef
  end.

(** A slab object, through a pointer that may be [NULL]. *)
Definition get_slab (s : option loc) : M heap slab_t := λ h,
  match s with
  | Some l => match slabs h !! l with Some sl => Ok sl h | None => Undef end
  | None => Undef
  end.
Definition set_slab (s : option loc) (sl : slab_t) : M heap unit :=
  match s with
  | Some l => modify (λ h, Heap (<[l := sl]> (slabs h)) (bytes h) (allocs h))
  | None => undef
  end.

(** *** The operations *)

(** The [for] of [init_slab], for the remaining [n] blocks; the final [ptr]. *)
Fixpoint init_blocks (n : nat) (ptr block_size : Z) : M heap Z :=
  match n with
  | 0 => ret ptr
  | S n => store_ptr ptr (ptr + block_size) ;; init_blocks n (ptr + block_size) block_size
  end.

Definition init_slab (page : option Z) (s : option loc) (bs : Z) : M heap Z :=
  match s with
  | None => ret (-1)%Z
  | Some _ =>
      let* sl := get_slab s in
      set_slab s (Slab bs (free_count sl) (first_free sl) (mem sl)) ;;
      if bool_decide (bs = 0)%Z then undef
      else
        let count := Z.quot KV_PAGE_SIZE bs in
        set_slab s (Slab bs count (first_free sl) (mem sl)) ;;
        let* p := malloc page KV_PAGE_SIZE in
        set_slab s (Slab bs count p (mem sl)) ;;
        if bool_decide (p = 0)%Z then ret (-1)%Z
        else
          set_slab s (Slab bs count p p) ;;
          let* ptr := init_blocks (Z.to_nat count) p bs in
          store_ptr ptr 0 ;;
          ret 0%Z
  end.

Definition delete_slab (s : option loc) : M heap unit :=
  match s with
  | None => ret tt
  | Some _ => let* sl := get_slab s in c_free (mem sl)
  end.

Definition alloc_slab (s : option loc) : M heap Z :=
  match s with
  | None => ret 0%Z
  | Some _ =>
      let* sl := get_slab s in
      if bool_decide (free_count sl = 0)%Z then ret 0%Z
      else
        let ptr := first_free sl in
        let* next := load_ptr ptr in
        set_slab s (Slab (block_size sl) (free_count sl - 1) next (mem sl)) ;;
        ret ptr
  end.

Definition free_slab (s : option loc) (ptr : Z) : M heap unit :=
  let* sl := get_slab s in
  store_ptr ptr (first_free sl) ;;
  set_slab s (Slab (block_size sl) (free_count sl + 1) ptr (mem sl)).
