(* ===== verification/SlabSpec.v ===== *)
(** * simple_slab.c: the free list and what the allocator promises

    [slab_rep s h bs base free used]: the slab [s] has a page at [base] cut
    into blocks of [bs] bytes; [free] are the free blocks in list order and
    [used] the ones the client holds. *)
From stdpp Require Import base gmap list list_numbers.
From S2P Require Import Prelude Bytes Slab.

Section bytes.
Implicit Types (m : memory) (a b x p : Z).

Lemma length_encode p : length (encode_ptr p) = 8.
Proof. pose proof (length_Z_to_little_endian 8 8 p ltac:(lia)) as H. unfold encode_ptr. lia. Qed.

Lemma decode_encode p : (0 ≤ p < 2 ^ 64)%Z → decode_ptr (encode_ptr p) = p.
Proof.
  intros Hp. unfold decode_ptr, encode_ptr. rewrite little_endian_to_Z_to_little_endian by lia.
  by apply Z.mod_small.
Qed.

(** The eight bytes at [x] hold the pointer [p]. *)
Definition holds m x p : Prop := read_bytes x 8 m = Some (encode_ptr p) ∧ (0 ≤ p < 2 ^ 64)%Z.
Definition writable m x : Prop := ∀ i : nat, i < 8 → is_Some (m !! (x + Z.of_nat i)%Z).

Lemma holds_other m m' a (l : list Z) x p :
  write_bytes a l m = Some m' → (x + 8 ≤ a ∨ a + Z.of_nat (length l) ≤ x)%Z → holds m x p → holds m' x p.
Proof.
  intros Hw Hx [Hr Hp]. split; [|done]. rewrite <-Hr. apply read_bytes_ext.
  intros i Hi. apply (write_bytes_other _ _ _ _ _ Hw). lia.
Qed.

Lemma wp_store_ptr h a p (Q : unit → heap → Prop) :
  writable (bytes h) a → (0 ≤ p < 2 ^ 64)%Z →
  (∀ m', write_bytes a (encode_ptr p) (bytes h) = Some m' → holds m' a p →
     Q tt (Heap (slabs h) m' (allocs h))) →
  wp (store_ptr a p) h Q.
Proof.
  intros Hw Hp HQ. destruct (write_bytes_Some a (encode_ptr p) (bytes h)) as [m' Hm'];
    [by rewrite length_encode|].
  unfold wp, store_ptr. rewrite Hm'. apply HQ; [done|]. split; [|done].
  rewrite <-(length_encode p). apply read_bytes_Some. intros i b Hi. by eapply write_bytes_same.
Qed.

Lemma wp_load_ptr h a p (Q : Z → heap → Prop) : holds (bytes h) a p → Q p h → wp (load_ptr a) h Q.
Proof. intros [Hr Hp] HQ. unfold wp, load_ptr. by rewrite Hr, decode_encode. Qed.
End bytes.

(** ** The free list *)
Section slab.
Implicit Types (m : memory) (h : heap) (bs base x p : Z) (free used : list Z) (l : loc).

Fixpoint flist m p free : Prop :=
  match free with
  | [] => (0 ≤ p < 2 ^ 64)%Z
  | x :: free' => p = x ∧ ∃ q, holds m x q ∧ flist m q free'
  end.

(** The [n] blocks from [p] on. *)
Fixpoint blocks_from (n : nat) p bs : list Z :=
  match n with 0 => [] | S n => p :: blocks_from n (p + bs)%Z bs end.
Definition blocks bs base : list Z := blocks_from (Z.to_nat (KV_PAGE_SIZE / bs)) base bs.

Record slab_rep l h bs base free used : Prop := {
  sr_obj : ∃ p, slabs h !! l = Some (Slab bs (Z.of_nat (length free)) p base) ∧ flist (bytes h) p free;
  sr_perm : free ++ used ≡ₚ blocks bs base;
  sr_page : ∀ x, (base ≤ x < base + KV_PAGE_SIZE)%Z → is_Some (bytes h !! x);
  sr_bs : (8 ≤ bs)%Z;
  sr_base : (0 < base ∧ base + KV_PAGE_SIZE < 2 ^ 64)%Z
}.

Lemma blocks_from_elem n p bs x :
  x ∈ blocks_from n p bs ↔ ∃ i, (0 ≤ i < Z.of_nat n)%Z ∧ x = (p + i * bs)%Z.
Proof.
  revert p. induction n as [|n IH]; intros p; simpl.
  - split; [set_solver|]. intros (i & Hi & _). lia.
  - rewrite elem_of_cons, IH. split.
    + intros [->|(i & Hi & ->)]; [exists 0%Z; lia|exists (i + 1)%Z; lia].
    + intros (i & Hi & ->). destruct (decide (i = 0)%Z) as [->|Hi0]; [left; lia|].
      right. exists (i - 1)%Z. lia.
Qed.

Lemma blocks_from_nodup n p bs : (0 < bs)%Z → NoDup (blocks_from n p bs).
Proof.
  intros Hbs. revert p. induction n as [|n IH]; intros p; simpl; constructor; [|apply IH].
  rewrite blocks_from_elem. intros (i & Hi & Hx). nia.
Qed.

Lemma length_blocks_from n p bs : length (blocks_from n p bs) = n.
Proof. revert p. induction n as [|n IH]; intros p; simpl; [done|by rewrite IH]. Qed.

Lemma block_in_page bs base x :
  (0 < bs)%Z → x ∈ blocks bs base → (base ≤ x ∧ x + bs ≤ base + KV_PAGE_SIZE)%Z.
Proof.
  intros Hbs (i & Hi & ->)%blocks_from_elem. unfold KV_PAGE_SIZE in *.
  pose proof (Z.mul_div_le 0x1000 bs Hbs). rewrite Z2Nat.id in Hi by (apply Z.div_pos; lia). nia.
Qed.

Lemma block_apart bs base x y :
  (0 < bs)%Z → x ∈ blocks bs base → y ∈ blocks bs base → x ≠ y → (x + bs ≤ y ∨ y + bs ≤ x)%Z.
Proof.
  intros Hbs (i & Hi & ->)%blocks_from_elem (j & Hj & ->)%blocks_from_elem Hne.
  destruct (Z.lt_trichotomy i j) as [?|[->|?]]; [left; nia|done|right; nia].
Qed.

(** The free list depends on the first eight bytes of the free blocks only. *)
Lemma flist_write m m' a (data : list Z) p free :
  write_bytes a data m = Some m' →
  (∀ x, x ∈ free → (x + 8 ≤ a ∨ a + Z.of_nat (length data) ≤ x)%Z) → flist m p free → flist m' p free.
Proof.
  intros Hw. revert p. induction free as [|x free IH]; intros p Hx; simpl; [done|].
  intros (-> & q & Hh & Hf). split; [done|]. exists q. split; [|apply IH; [set_solver|done]].
  eapply holds_other; [exact Hw|apply Hx; set_solver|done].
Qed.

(** A write inside a block that is not free. *)
Lemma rep_write l h bs base free used m' a (data : list Z) x :
  slab_rep l h bs base free used → x ∈ used → (x ≤ a ∧ a + Z.of_nat (length data) ≤ x + bs)%Z →
  write_bytes a data (bytes h) = Some m' →
  slab_rep l (Heap (slabs h) m' (allocs h)) bs base free used.
Proof.
  intros [(p & Ho & Hf) Hp Hpg Hbs Hb] Hx Ha Hw. split; [|done| |done|done].
  - exists p. split; [done|]. eapply flist_write; [exact Hw| |exact Hf]. intros y Hy.
    assert (NoDup (free ++ used)) as Hnd by (rewrite Hp; apply blocks_from_nodup; lia).
    assert (x ≠ y) as Hne by (apply NoDup_app in Hnd as (_ & Hd & _); intros ->; by eapply Hd).
    assert (x ∈ blocks bs base) by (rewrite <-Hp; set_solver).
    assert (y ∈ blocks bs base) by (rewrite <-Hp; set_solver).
    destruct (block_apart bs base x y) as [?|?]; [lia|done..|right; lia|left; lia].
  - intros y Hy. rewrite (write_bytes_dom _ _ _ _ _ Hw). by apply Hpg.
Qed.

Lemma rep_writable l h bs base free used x :
  slab_rep l h bs base free used → x ∈ used ∨ x ∈ free →
  ∀ i : nat, (Z.of_nat i < bs)%Z → is_Some (bytes h !! (x + Z.of_nat i)%Z).
Proof.
  intros [_ Hp Hpg Hbs _] Hx i Hi. apply Hpg.
  assert (x ∈ blocks bs base) as Hb by (rewrite <-Hp; set_solver).
  apply block_in_page in Hb; lia.
Qed.

Lemma wp_alloc_slab l h bs base free used :
  slab_rep l h bs base free used →
  wp (alloc_slab (Some l)) h (λ p h', match free with
    | [] => p = 0%Z ∧ h' = h
    | x :: free' => p = x ∧ slab_rep l h' bs base free' (x :: used)
    end).
Proof.
  intros [(p & Ho & Hf) Hp Hpg Hbs Hb]. apply wp_bind. unfold wp at 1, get_slab. rewrite Ho.
  cbn [free_count first_free block_size mem]. destruct free as [|x free]; [by split|].
  destruct Hf as (-> & q & Hh & Hf). rewrite bool_decide_eq_false_2 by (simpl; lia).
  apply wp_bind. eapply wp_load_ptr; [exact Hh|]. split; [done|]. split; simpl.
  - exists q. rewrite lookup_insert_eq. split; [|done]. do 2 f_equal. lia.
  - rewrite <-Hp. simpl. symmetry. apply Permutation_middle.
  - done.
  - done.
  - done.
Qed.

Lemma wp_free_slab l h bs base free used used' x :
  slab_rep l h bs base free used → used ≡ₚ x :: used' →
  wp (free_slab (Some l) x) h (λ _ h', slab_rep l h' bs base (x :: free) used').
Proof.
  intros Hs Hx. pose proof Hs as [(p & Ho & Hf) Hp Hpg Hbs Hb].
  assert (x ∈ used) as Hin by (rewrite Hx; set_solver).
  apply wp_bind. unfold wp at 1, get_slab. rewrite Ho. cbn [free_count first_free block_size mem].
  assert (0 ≤ p < 2 ^ 64)%Z as Hp64.
  { destruct free as [|y free]; [done|]. destruct Hf as (-> & _).
    assert (y ∈ blocks bs base) as Hy by (rewrite <-Hp; set_solver).
    apply block_in_page in Hy; lia. }
  apply wp_bind, wp_store_ptr; [|done|].
  { intros i Hi. eapply rep_writable; [exact Hs|by left|lia]. }
  intros m' Hw Hh.
  assert (slab_rep l (Heap (slabs h) m' (allocs h)) bs base free used) as [(p' & Ho' & Hf') _ Hpg' _ _].
  { eapply rep_write; [exact Hs|exact Hin| |exact Hw]. rewrite length_encode. lia. }
  simpl in Ho'. rewrite Ho in Ho'. injection Ho' as <-. split; simpl.
  - exists x. rewrite lookup_insert_eq. split; [do 2 f_equal; lia|]. split; [done|]. by exists p.
  - rewrite <-Hp, Hx. apply Permutation_middle.
  - done.
  - done.
  - done.
Qed.
End slab.

(** ** Initialisation *)
Section init.
Implicit Types (m : memory) (h : heap) (bs base x p : Z) (free used : list Z) (l : loc).

Lemma fresh_bytes_lookup a n m x :
  fresh_bytes a n m !! x =
    if bool_decide (a ≤ x < a + Z.of_nat n)%Z then Some None else m !! x.
Proof.
  revert a. induction n as [|n IH]; intros a; simpl.
  - by rewrite bool_decide_eq_false_2 by lia.
  - destruct (decide (x = a)) as [->|Hx].
    + rewrite lookup_insert_eq. by rewrite bool_decide_eq_true_2 by lia.
    + rewrite lookup_insert_ne, IH by done. case_bool_decide as H1; case_bool_decide as H2; done || lia.
Qed.

(** The page that [malloc] returns is new, and no other allocation directly
    follows it, so that running over its end is seen. *)
Definition malloc_ok h base : Prop :=
  (0 < base)%Z ∧ (base + KV_PAGE_SIZE < 2 ^ 64)%Z ∧
  ∀ x, (base ≤ x < base + KV_PAGE_SIZE + 8)%Z → bytes h !! x = None.

(** The loop links the blocks, and writes nowhere else. *)
Lemma init_blocks_ok n p bs h :
  (8 ≤ bs)%Z → (0 ≤ p)%Z → (p + Z.of_nat n * bs < 2 ^ 64)%Z →
  (∀ x, (p ≤ x < p + Z.of_nat n * bs)%Z → is_Some (bytes h !! x)) →
  wp (init_blocks n p bs) h (λ q h', q = (p + Z.of_nat n * bs)%Z ∧ slabs h' = slabs h ∧
    flist (bytes h') p (blocks_from n p bs) ∧
    (∀ x, is_Some (bytes h' !! x) ↔ is_Some (bytes h !! x)) ∧
    (∀ x, (x < p ∨ p + Z.of_nat n * bs ≤ x)%Z → bytes h' !! x = bytes h !! x)).
Proof.
  intros Hbs. revert p h. induction n as [|n IH]; intros p h Hp Hlt Hpg.
  - apply wp_ret. rewrite Z.mul_0_l, Z.add_0_r in *. by split_and!.
  - cbn [init_blocks]. apply wp_bind, wp_store_ptr; [intros i Hi; apply Hpg; nia|nia|].
    intros m' Hw Hh. eapply wp_mono; [apply IH; simpl|].
    + lia.
    + nia.
    + intros x Hx. apply (write_bytes_dom _ _ _ _ _ Hw), Hpg. nia.
    + intros q h' (-> & Hsl & Hf & Hd & Ho).
      assert (holds (bytes h') p (p + bs)) as Hh'.
      { destruct Hh as [Hr Hq]. split; [|done]. rewrite <-Hr. apply read_bytes_ext.
        intros i Hi. apply Ho. simpl. left. lia. }
      split_and!; [lia|done| | |].
      * split; [done|]. by exists (p + bs)%Z.
      * intros x. rewrite Hd. by apply (write_bytes_dom _ _ _ _ _ Hw).
      * intros x Hx. rewrite Ho by lia.
        apply (write_bytes_other _ _ _ _ _ Hw). rewrite length_encode. nia.
Qed.

Lemma init_blocks_wpu n p bs h :
  wpu (init_blocks n p bs) h (λ q h', q = (p + Z.of_nat n * bs)%Z ∧
    ∀ x, is_Some (bytes h' !! x) ↔ is_Some (bytes h !! x)) True.
Proof.
  revert p h. induction n as [|n IH]; intros p h.
  - by rewrite Z.mul_0_l, Z.add_0_r.
  - cbn [init_blocks]. apply wpu_seq. unfold wpu at 1, store_ptr.
    destruct (write_bytes p (encode_ptr (p + bs)) (bytes h)) as [m'|] eqn:Hw; [|done].
    eapply wpu_mono; [apply IH| |done]. intros q h' [-> Hd]. split; [lia|].
    intros x. rewrite Hd. by apply (write_bytes_dom _ _ _ _ _ Hw).
Qed.

Definition init_heap h l bs base : heap :=
  Heap (<[l := Slab bs (KV_PAGE_SIZE / bs) base base]> (slabs h))
    (fresh_bytes base (Z.to_nat KV_PAGE_SIZE) (bytes h)) (<[base := KV_PAGE_SIZE]> (allocs h)).

Lemma init_slab_run h l sl bs base :
  slabs h !! l = Some sl → (0 < bs)%Z → (0 < base)%Z →
  init_slab (Some base) (Some l) bs h =
    (let* ptr := init_blocks (Z.to_nat (KV_PAGE_SIZE / bs)) base bs in
     store_ptr ptr 0 ;; ret 0%Z) (init_heap h l bs base).
Proof.
  assert (0 ≤ KV_PAGE_SIZE)%Z as HK by (unfold KV_PAGE_SIZE; lia).
  intros Hl Hbs Hbase. unfold init_slab, init_heap. generalize dependent KV_PAGE_SIZE. intros page HK.
  unfold bind at 1, get_slab. rewrite Hl.
  rewrite (bool_decide_eq_false_2 (bs = 0)%Z) by lia.
  unfold malloc, set_slab, modify, bind at 1 2 3 4. cbn [slabs bytes allocs].
  rewrite (bool_decide_eq_false_2 (base = 0)%Z) by lia. unfold bind at 1. cbn [slabs bytes allocs].
  rewrite !insert_insert_eq. by rewrite Z.quot_div_nonneg by lia.
Qed.

Lemma init_page h base :
  malloc_ok h base → ∀ x,
    is_Some (fresh_bytes base (Z.to_nat KV_PAGE_SIZE) (bytes h) !! x) ↔
      (base ≤ x < base + KV_PAGE_SIZE)%Z ∨ is_Some (bytes h !! x).
Proof.
  intros _ x. rewrite fresh_bytes_lookup, Z2Nat.id by (unfold KV_PAGE_SIZE; lia).
  case_bool_decide; [split; eauto|]. split; [by right|]. by intros [?|?].
Qed.
End init.

(** ** A client of the allocator *)
Inductive action := Alloc | Free (i : nat) | Fill (i : nat) (data : list Z).

Definition fill_block (p : Z) (data : list Z) : M heap unit := λ h,
  match write_bytes p data (bytes h) with Some m => with_bytes m h | None => Undef end.

(** The client allocates, frees blocks it holds and writes into them; it
    returns what it holds and the results of its allocations. *)
Fixpoint run_client (l : loc) (bs : Z) (acts : list action) (used : list Z) : M heap (list Z * list Z) :=
  match acts with
  | [] => ret (used, [])
  | Alloc :: acts =>
      let* p := alloc_slab (Some l) in
      let* r := run_client l bs acts (if bool_decide (p = 0)%Z then used else p :: used) in
      ret (r.1, p :: r.2)
  | Free i :: acts =>
      match used !! i with
      | Some p => free_slab (Some l) p ;; run_client l bs acts (delete i used)
      | None => run_client l bs acts used
      end
  | Fill i data :: acts =>
      match used !! i with
      | Some p => fill_block p (take (Z.to_nat bs) data) ;; run_client l bs acts used
      | None => run_client l bs acts used
      end
  end.

(** The abstract allocator: a stack of free blocks. *)
Fixpoint stack_client (acts : list action) (free used : list Z) : list Z * list Z * list Z :=
  match acts with
  | [] => (free, used, [])
  | Alloc :: acts =>
      match free with
      | [] => let r := stack_client acts [] used in (r.1, 0%Z :: r.2)
      | x :: free => let r := stack_client acts free (x :: used) in (r.1, x :: r.2)
      end
  | Free i :: acts =>
      match used !! i with
      | Some p => stack_client acts (p :: free) (delete i used)
      | None => stack_client acts free used
      end
  | Fill _ _ :: acts => stack_client acts free used
  end.

Section claims.
Implicit Types (h : heap) (bs base p : Z) (free used : list Z) (l : loc).

Lemma init_slab_ok h l sl bs base :
  slabs h !! l = Some sl → malloc_ok h base → (0 < bs)%Z → (8 ≤ KV_PAGE_SIZE mod bs)%Z →
  ∃ h', init_slab (Some base) (Some l) bs h = Ok 0%Z h' ∧ slab_rep l h' bs base (blocks bs base) [].
Proof.
  intros Hl Hm Hbs H8. pose proof Hm as (Hb0 & Hb1 & Hnone).
  assert (KV_PAGE_SIZE = bs * (KV_PAGE_SIZE / bs) + KV_PAGE_SIZE mod bs)%Z as Hdm by (apply Z.div_mod; lia).
  assert (0 ≤ KV_PAGE_SIZE / bs)%Z as Hn by (apply Z.div_pos; unfold KV_PAGE_SIZE; lia).
  pose proof (Z.mod_pos_bound KV_PAGE_SIZE bs Hbs) as Hmod.
  rewrite (init_slab_run h l sl) by done. set (h1 := init_heap h l bs base).
  assert (∀ x, is_Some (bytes h1 !! x) ↔ (base ≤ x < base + KV_PAGE_SIZE)%Z ∨ is_Some (bytes h !! x)) as Hpg
    by (by apply init_page).
  assert (wp (let* ptr := init_blocks (Z.to_nat (KV_PAGE_SIZE / bs)) base bs in store_ptr ptr 0 ;; ret 0%Z) h1
    (λ r h', r = 0%Z ∧ slab_rep l h' bs base (blocks bs base) [])) as Hwp;
    [|apply wp_Ok in Hwp as (r & h' & Hrun & -> & Hs); by exists h'].
  apply wp_bind. eapply wp_mono; [apply init_blocks_ok; [lia|lia| |]|].
  - rewrite Z2Nat.id by lia. lia.
  - intros x Hx. apply Hpg. left. rewrite Z2Nat.id in Hx by lia. lia.
  - rewrite Z2Nat.id by lia. intros q h2 (-> & Hsl & Hf & Hd & Ho). apply wp_bind, wp_store_ptr; [|lia|].
    { intros i Hi. apply Hd, Hpg. left. lia. }
    intros m' Hw _. split; [done|]. split; [|by rewrite app_nil_r| |lia|done].
    + exists base. simpl. rewrite Hsl. simpl. rewrite lookup_insert_eq. split.
      { unfold blocks. rewrite length_blocks_from, Z2Nat.id by lia. done. }
      eapply flist_write; [exact Hw| |exact Hf]. intros x (i & Hi & ->)%blocks_from_elem.
      rewrite Z2Nat.id in Hi by lia. left. nia.
    + intros x Hx. simpl. apply (write_bytes_dom _ _ _ _ _ Hw), Hd, Hpg. by left.
Qed.

Lemma init_slab_overruns h l sl bs base :
  slabs h !! l = Some sl → malloc_ok h base → (0 < bs)%Z → ¬ (8 ≤ KV_PAGE_SIZE mod bs)%Z →
  init_slab (Some base) (Some l) bs h = Undef.
Proof.
  intros Hl Hm Hbs H8. pose proof Hm as (Hb0 & Hb1 & Hnone).
  assert (KV_PAGE_SIZE = bs * (KV_PAGE_SIZE / bs) + KV_PAGE_SIZE mod bs)%Z as Hdm by (apply Z.div_mod; lia).
  assert (0 ≤ KV_PAGE_SIZE / bs)%Z as Hn by (apply Z.div_pos; unfold KV_PAGE_SIZE; lia).
  pose proof (Z.mod_pos_bound KV_PAGE_SIZE bs Hbs) as Hmod.
  rewrite (init_slab_run h l sl) by done.
  refine (wpu_Undef _ _ True _). apply wpu_seq.
  eapply wpu_mono; [apply init_blocks_wpu| |done]. rewrite Z2Nat.id by lia.
  intros q h2 [-> Hd]. apply wpu_seq. unfold wpu at 1, store_ptr.
  rewrite (write_bytes_out _ _ _ (Z.to_nat (KV_PAGE_SIZE mod bs))); [done| |].
  - rewrite length_encode. lia.
  - rewrite Z2Nat.id by lia. apply eq_None_not_Some. rewrite Hd. unfold init_heap. cbn [bytes].
    rewrite init_page by done. intros [?|Hx]; [lia|]. rewrite Hnone in Hx by lia. by destruct Hx.
Qed.

(** C37: Initialising a slab with a positive block size links all blocks of the
    page when at least eight bytes are left over behind the last one, and is
    undefined behaviour otherwise, in particular for every block size that
    divides the page: the final [NULL] is written behind the last block. *)
Theorem init_slab_exact h l sl bs base :
  slabs h !! l = Some sl → malloc_ok h base → (0 < bs)%Z →
  if bool_decide (8 <= KV_PAGE_SIZE mod bs)%Z
  then ∃ h', init_slab (Some base) (Some l) bs h = Ok 0%Z h' ∧
         slab_rep l h' bs base (blocks bs base) []
  else init_slab (Some base) (Some l) bs h = Undef.
Proof.
  intros Hl Hm Hbs. case_bool_decide; [by eapply init_slab_ok|by eapply init_slab_overruns].
Qed.

(** C36: Any client that only frees blocks it holds and writes inside them gets
    exactly the answers of a stack of free blocks, whatever it writes: the
    free and the held blocks together are always the blocks of the page, so no
    block is handed out twice, and [NULL] is returned exactly when all blocks
    are held. *)
Theorem slab_client_refines l bs base acts : ∀ h free used,
  slab_rep l h bs base free used →
  let '(free', used', results) := stack_client acts free used in
  ∃ h', run_client l bs acts used h = Ok (used', results) h' ∧
    slab_rep l h' bs base free' used' ∧ free' ++ used' ≡ₚ blocks bs base ∧
    NoDup used' ∧ Forall (λ p, (base ≤ p ∧ p + bs ≤ base + KV_PAGE_SIZE)%Z) used'.
Proof.
  intros h free used Hs.
  assert (∀ acts h free used, slab_rep l h bs base free used →
    wp (run_client l bs acts used) h (λ r h', slab_rep l h' bs base (stack_client acts free used).1.1 r.1 ∧
      r = ((stack_client acts free used).1.2, (stack_client acts free used).2))) as Hwp.
  { clear. intros acts. induction acts as [|act acts IH]; intros h free used Hs; [by apply wp_ret|].
    pose proof Hs as [_ Hp _ Hbs Hb]. destruct act as [|i|i data]; cbn [run_client stack_client].
    - apply wp_bind. eapply wp_mono; [by eapply wp_alloc_slab|]. intros p h1 H1. destruct free as [|x free].
      + destruct H1 as [-> ->]. apply wp_bind. eapply wp_mono; [by eapply IH|].
        intros r h2 [H2 ->]. by split.
      + destruct H1 as [-> H1]. assert (x ∈ blocks bs base) as Hx by (rewrite <-Hp; set_solver).
        apply block_in_page in Hx; [|lia]. rewrite bool_decide_eq_false_2 by lia.
        apply wp_bind. eapply wp_mono; [by eapply IH|]. intros r h2 [H2 ->]. by split.
    - destruct (used !! i) as [p|] eqn:Hi; [|by apply IH]. apply wp_bind.
      eapply wp_mono; [eapply wp_free_slab; [exact Hs|by apply delete_Permutation]|].
      intros [] h1 H1. by apply IH.
    - destruct (used !! i) as [p|] eqn:Hi; [|by apply IH]. apply wp_bind.
      apply list_elem_of_lookup_2 in Hi. set (d := take (Z.to_nat bs) data).
      assert (Z.of_nat (length d) ≤ bs)%Z as Hd by (unfold d; rewrite length_take; lia).
      destruct (write_bytes_Some p d (bytes h)) as [m' Hw].
      { intros j Hj. eapply rep_writable; [exact Hs|by left|lia]. }
      unfold wp at 1, fill_block. rewrite Hw. apply IH. eapply rep_write; [exact Hs|exact Hi| |exact Hw]. lia. }
  specialize (Hwp acts h free used Hs). destruct (stack_client acts free used) as [[free' used'] results].
  apply wp_Ok in Hwp as (r & h' & Hrun & Hs' & ->). exists h'. simpl in *.
  split_and!; [done|done|apply (sr_perm _ _ _ _ _ _ Hs')| |].
  - assert (NoDup (free' ++ used')) as Hnd
      by (rewrite (sr_perm _ _ _ _ _ _ Hs'); apply blocks_from_nodup; pose proof (sr_bs _ _ _ _ _ _ Hs'); lia).
    by apply NoDup_app in Hnd as (_ & _ & ?).
  - apply Forall_forall. intros p Hp. apply block_in_page; [pose proof (sr_bs _ _ _ _ _ _ Hs'); lia|].
    rewrite <-(sr_perm _ _ _ _ _ _ Hs'). set_solver.
Qed.
End claims.

(** ** The theorems at concrete inputs *)
Definition sample_heap : heap := Heap {[1%positive := Slab 0 0 0 0]} ∅ ∅.

Lemma sample_malloc : malloc_ok sample_heap 4096.
Proof. split_and!; [done|unfold KV_PAGE_SIZE; lia|]. intros x _. apply lookup_empty. Qed.

Lemma init_slab_witness :
  (∃ h', init_slab (Some 4096%Z) (Some 1%positive) 24 sample_heap = Ok 0%Z h' ∧
     slab_rep 1 h' 24 4096 (blocks 24 4096) []) ∧
  init_slab (Some 4096%Z) (Some 1%positive) 16 sample_heap = Undef.
Proof.
  split.
  - exact (init_slab_exact sample_heap 1 (Slab 0 0 0 0) 24 4096 eq_refl sample_malloc eq_refl).
  - exact (init_slab_exact sample_heap 1 (Slab 0 0 0 0) 16 4096 eq_refl sample_malloc eq_refl).
Defined.

Lemma slab_client_witness :
  ∃ h h' free', slab_rep 1 h 24 4096 (blocks 24 4096) [] ∧
    run_client 1 24 [Alloc; Alloc; Fill 0 [1; 2; 3]%Z; Free 1; Alloc] [] h =
      Ok ([4096; 4120], [4096; 4120; 4096])%Z h' ∧
    slab_rep 1 h' 24 4096 free' [4096; 4120]%Z.
Proof.
  destruct (init_slab_ok sample_heap 1 (Slab 0 0 0 0) 24 4096 eq_refl sample_malloc eq_refl) as (h & _ & Hs);
    [vm_compute; discriminate|].
  destruct (slab_client_refines 1 24 4096 [Alloc; Alloc; Fill 0 [1; 2; 3]%Z; Free 1; Alloc] h _ _ Hs)
    as (h' & Hrun & Hs' & _).
  exact (ex_intro _ h (ex_intro _ h' (ex_intro _ _ (conj Hs (conj Hrun Hs'))))).
Defined.

(** A client that frees a block twice is given the same block twice. *)
Example double_free_aliases :
  run_result (let* _ := init_slab (Some 4096%Z) (Some 1%positive) 1000 in
    let* p := alloc_slab (Some 1%positive) in
    free_slab (Some 1%positive) p ;; free_slab (Some 1%positive) p ;;
    let* q := alloc_slab (Some 1%positive) in
    let* r := alloc_slab (Some 1%positive) in
    ret (p, q, r)) sample_heap = Some (4096, 4096, 4096)%Z.
Proof. vm_compute. reflexivity. Qed.
