(* ===== verification/KvServer.v ===== *)
(** * KV_Store/spdk_server.c: the key-value server

    The tokenizer and command parser work in the receive buffer, a list of
    bytes with pointers as offsets; [strtok] keeps its static pointer in the
    state.  What the sockets of the library return is an argument of each
    handler, and what the handlers ask of it is logged. *)
From Stdlib Require Import Ascii.
From stdpp Require Import base gmap list strings.
From S2P Require Import Prelude Bytes.

Definition BUFFER_SIZE : nat := 1024.
Definition MAX_TOKENS : nat := 16.
Definition SPDK_POLLER_IDLE : Z := 0.
Definition SPDK_POLLER_BUSY : Z := 1.

Definition space : Z := 32.

(** [commands], in the order of [kvs_cmd_t]. *)
Definition commands : list (list Z) :=
  chars <$> ["BSET"; "BGET"; "BDEL"; "BMOD"; "RSET"; "RGET"; "RDEL"; "RMOD"]%string.
Definition KVS_CMD_COUNT : nat := 8.

(** Conversion to [int]. *)
Definition to_int (z : Z) : Z := ((z + 2 ^ 31) mod 2 ^ 32 - 2 ^ 31)%Z.
(** Addition of two [int]s: an overflow is undefined. *)
Definition is_int (z : Z) : bool := bool_decide (- 2 ^ 31 <= z < 2 ^ 31)%Z.
Definition add_int {S} (a b : Z) : M S Z := if is_int (a + b) then ret (a + b)%Z else undef.

Inductive event :=
| Removed (sock : Z)       (* spdk_sock_group_remove_sock *)
| Closed (sock : Z)        (* spdk_sock_close *)
| Written (sock : Z) (data : list Z)  (* spdk_sock_writev *)
| Added (sock : Z)         (* spdk_sock_group_add_sock *)
| Registered               (* the two SPDK_POLLER_REGISTER *)
| Stopped (rc : Z).        (* spdk_app_stop *)

(** The receive buffer, the pointer of [strtok], the fields of
    [server_context_t], [g_running] and the log. *)
Record server := Server {
  buf : list Z;
  saved : option nat;
  bytes_in : Z;
  bytes_out : Z;
  listener : option Z;
  running : bool;
  net : list event
}.

Definition with_buf (b : list Z) (p : option nat) (s : server) : server :=
  Server b p (bytes_in s) (bytes_out s) (listener s) (running s) (net s).
Definition log (e : event) : M server unit :=
  modify (λ s, Server (buf s) (saved s) (bytes_in s) (bytes_out s) (listener s) (running s) (net s ++ [e])).
Definition of_option {A} (o : option A) : M server A := λ s,
  match o with Some a => Ok a s | None => Undef end.

(** *** C strings in the buffer; reading past its end is undefined *)
Fixpoint strspn (l : list Z) : option nat :=
  match l with
  | [] => None
  | c :: l' => if bool_decide (c = space) then S <$> strspn l' else Some 0
  end.
Fixpoint strcspn (l : list Z) : option nat :=
  match l with
  | [] => None
  | c :: l' => if bool_decide (c = space) || bool_decide (c = 0)%Z then Some 0 else S <$> strcspn l'
  end.
Fixpoint cstring (l : list Z) : option (list Z) :=
  match l with
  | [] => None
  | c :: l' => if bool_decide (c = 0)%Z then Some [] else cons c <$> cstring l'
  end.
(** [strcmp(l, lit) == 0] *)
Fixpoint strcmp_eq (l lit : list Z) : option bool :=
  match l, lit with
  | [], _ => None
  | c :: _, [] => Some (bool_decide (c = 0)%Z)
  | c :: l', x :: lit' => if bool_decide (c = x) then strcmp_eq l' lit' else Some false
  end.

(** [strtok(str, " ")] *)
Definition strtok (str : option nat) : M server (option nat) :=
  let* p0 := gets saved in
  let* p := of_option (match str with Some p => Some p | None => p0 end) in
  let* b := gets buf in
  let* k := of_option (strspn (drop p b)) in
  let p := p + k in
  let* c := of_option (b !! p) in
  if bool_decide (c = 0)%Z then modify (with_buf b (Some p)) ;; ret None
  else
    let* n := of_option (strcspn (drop p b)) in
    let q := p + n in
    let* c := of_option (b !! q) in
    (if bool_decide (c = 0)%Z then modify (with_buf b (Some q))
     else modify (with_buf (<[q := 0%Z]> b) (Some (S q)))) ;;
    ret (Some p).

(** *** Parsing *)
Definition kvs_split_iter (st : option nat * list (option nat) * nat)
  : M server ((option nat * list (option nat) * nat) + (list (option nat) * nat)) :=
  let '(token, tokens, count) := st in
  match token with
  | None => ret (inr (tokens, count))
  | Some t =>
      if bool_decide (count < length tokens) then
        let tokens := <[count := Some t]> tokens in
        let* token := strtok None in
        ret (inl (token, tokens, S count))
      else undef
  end.
Definition kvs_split_tokens (fuel : nat) (tokens : list (option nat)) (msg : nat)
  : M server (list (option nat) * nat) :=
  let* token := strtok (Some msg) in
  loop fuel kvs_split_iter (token, tokens, 0).

(** The [for] that looks the first token up; the final [cmd]. *)
Fixpoint find_command (tok : list Z) (cmds : list (list Z)) (cmd : nat) : M server nat :=
  match cmds with
  | [] => ret cmd
  | c :: cmds' =>
      let* eq := of_option (strcmp_eq tok c) in
      if eq : bool then ret cmd else find_command tok cmds' (S cmd)
  end.

(** Every case of the [switch] is a [break]. *)
Definition kvs_proto_parser (msg : option nat) (tokens : option (list (option nat))) (count : nat)
  : M server Z :=
  match msg, tokens with
  | Some _, Some tokens =>
      if bool_decide (count <= 0) then ret (-1)%Z
      else
        let* t := of_option (tokens !! 0) in
        let* t := of_option t in
        let* b := gets buf in
        let* cmd := find_command (drop t b) commands 0 in
        ret 0%Z
  | _, _ => ret (-1)%Z
  end.

(** The tokens printed, and the result of the parser. *)
Fixpoint print_tokens (tokens : list (option nat)) (count : nat) {struct count} : M server (list (list Z)) :=
  match count, tokens with
  | 0, _ => ret []
  | S count, t :: tokens =>
      let* t := of_option t in
      let* b := gets buf in
      let* w := of_option (cstring (drop t b)) in
      let* ws := print_tokens tokens count in
      ret (w :: ws)
  | S _, [] => undef
  end.

Definition kvs_proto_process (fuel : nat) (msg : nat) : M server (list (list Z) * Z) :=
  let* r := kvs_split_tokens fuel (replicate MAX_TOKENS None) msg in
  let '(tokens, count) := r in
  let* printed := print_tokens tokens count in
  let* rc := kvs_proto_parser (Some msg) (Some tokens) count in
  ret (printed, rc).

(** *** The network handlers *)
Definition spdk_server_shutdown_callback : M server unit :=
  modify (λ s, Server (buf s) (saved s) (bytes_in s) (bytes_out s) (listener s) false (net s)).

(** [ctx->bytes_out += n], for an [int n]. *)
Definition count_out (m : Z) : M server unit :=
  let* o := gets bytes_out in
  let* o := add_int o m in
  modify (λ s, Server (buf s) (saved s) (bytes_in s) o (listener s) (running s) (net s)).

(** [spdk_server_callback] on a socket: [n] and [data] are what
    [spdk_sock_recv] returns, [written] what [spdk_sock_writev] returns.
    [bytes_in] is added to as a [long] and converted back. *)
Definition spdk_server_callback (fuel : nat) (sock : Z) (n : Z) (data : list Z) (written : Z)
  : M server unit :=
  modify (λ s, with_buf (data ++ replicate (BUFFER_SIZE - length data) 0%Z) (saved s) s) ;;
  if bool_decide (n < 0)%Z then ret tt
  else if bool_decide (n = 0)%Z then
    log (Removed sock) ;; log (Closed sock)
  else
    let* b := gets buf in
    let* _ := of_option (cstring b) in
    let* _ := kvs_proto_process fuel 0 in
    modify (λ s, Server (buf s) (saved s) (to_int (bytes_in s + n)) (bytes_out s) (listener s) (running s) (net s)) ;;
    let* b := gets buf in
    log (Written sock (take (Z.to_nat n) b)) ;;
    let m := to_int written in
    when bool_decide (m > 0)%Z then count_out m.

(** A connection waiting to be accepted: the socket, and what
    [spdk_sock_getaddr] and [spdk_sock_group_add_sock] return for it. *)
Record conn := Conn { c_sock : Z; c_getaddr : Z; c_add : Z }.

(** The accept loop over the waiting connections; the connections left. *)
Fixpoint spdk_server_accept_loop (waiting : list conn) (count : Z) : M server (Z * list conn) :=
  let* l := gets listener in
  match l with
  | None => undef
  | Some lsock =>
      match waiting with
      | [] => ret (if bool_decide (count > 0)%Z then SPDK_POLLER_BUSY else SPDK_POLLER_IDLE, [])
      | c :: waiting =>
          if bool_decide (c_getaddr c < 0)%Z then
            log (Closed lsock) ;;
            modify (λ s, Server (buf s) (saved s) (bytes_in s) (bytes_out s) None (running s) (net s)) ;;
            ret (SPDK_POLLER_IDLE, waiting)
          else if bool_decide (c_add c < 0)%Z then
            log (Closed (c_sock c)) ;; ret (SPDK_POLLER_IDLE, waiting)
          else
            log (Added (c_sock c)) ;; spdk_server_accept_loop waiting (count + 1)
      end
  end.
Definition spdk_server_accept (waiting : list conn) : M server (Z * list conn) :=
  spdk_server_accept_loop waiting 0.

(** [rc] is what [spdk_sock_group_poll] returns. *)
Definition spdk_server_group_poll (rc : Z) : M server Z :=
  ret (if bool_decide (rc > 0)%Z then SPDK_POLLER_BUSY else SPDK_POLLER_IDLE).

(** [sock] is what [spdk_sock_listen] returns. *)
Definition spdk_server_listen (sock : option Z) : M server Z :=
  modify (λ s, Server (buf s) (saved s) (bytes_in s) (bytes_out s) sock (running s) (net s)) ;;
  match sock with
  | None => ret (-1)%Z
  | Some _ =>
      modify (λ s, Server (buf s) (saved s) (bytes_in s) (bytes_out s) (listener s) true (net s)) ;;
      log Registered ;;
      ret 0%Z
  end.

Definition sdpk_server_start (sock : option Z) : M server unit :=
  let* rc := spdk_server_listen sock in
  when negb (bool_decide (rc = 0)%Z) then log (Stopped (-1)).

(** [start_server]: [booted] says that [spdk_app_start] got as far as calling
    its start function, [listen] is [spdk_sock_listen]. *)
Definition start_server (booted : bool) (listen : list Z → Z → list Z → option Z) : M server unit :=
  modify (λ s, Server (buf s) (saved s) 0 0 None (running s) (net s)) ;;
  when booted then sdpk_server_start (listen (chars "0.0.0.0") 8888%Z (chars "posix")).
