(* ===== verification/KvServerSpec.v ===== *)
(** * spdk_server.c: tokens, the echo, and the handlers

    [words] splits a message at its spaces and [cut] is the message with the
    space behind each word turned into a NUL; the tokenizer computes the first
    and leaves the second in the buffer that the server echoes. *)
From stdpp Require Import base gmap list strings.
From S2P Require Import Prelude Bytes KvServer.

Section text.
Implicit Types (l w : list Z) (c : Z).

Fixpoint words_aux (cur : list Z) l : list (list Z) :=
  match l with
  | [] => match cur with [] => [] | _ => [cur] end
  | c :: l' =>
      if bool_decide (c = space) then
        match cur with [] => words_aux [] l' | _ => cur :: words_aux [] l' end
      else words_aux (cur ++ [c]) l'
  end.
Definition words l : list (list Z) := words_aux [] l.

Fixpoint cut (inside : bool) l : list Z :=
  match l with
  | [] => []
  | c :: l' =>
      if bool_decide (c = space) then (if inside then 0%Z else c) :: cut false l'
      else c :: cut true l'
  end.

Definition blank l : Prop := Forall (λ c, c = space) l.
Definition word w : Prop := w ≠ [] ∧ Forall (λ c, c ≠ space ∧ c ≠ 0%Z) w.

Lemma words_blank k l : blank k → words (k ++ l) = words l.
Proof. induction 1 as [|c k -> Hk IH]; [done|]. exact IH. Qed.

Lemma words_aux_word cur w l :
  Forall (λ c, c ≠ space ∧ c ≠ 0%Z) w → words_aux cur (w ++ l) = words_aux (cur ++ w) l.
Proof.
  intros Hw. revert cur. induction Hw as [|c w [Hc _] Hw IH]; intros cur; simpl; [by rewrite app_nil_r|].
  rewrite bool_decide_eq_false_2 by done. by rewrite IH, <-app_assoc.
Qed.

Lemma words_word w : word w → words w = [w].
Proof.
  intros [Hne Hw]. unfold words. rewrite <-(app_nil_r w) at 1. rewrite words_aux_word by done. by destruct w.
Qed.
Lemma words_word_space w l : word w → words (w ++ space :: l) = w :: words l.
Proof. intros [Hne Hw]. unfold words. rewrite words_aux_word by done. by destruct w. Qed.

Lemma cut_blank k l : blank k → cut false (k ++ l) = k ++ cut false l.
Proof. induction 1 as [|c k -> Hk IH]; [done|]. simpl. by rewrite IH. Qed.

Lemma cut_word b w l : Forall (λ c, c ≠ space ∧ c ≠ 0%Z) w →
  cut b (w ++ l) = w ++ cut (match w with [] => b | _ => true end) l.
Proof.
  intros Hw. revert b. induction Hw as [|c w [Hc _] Hw IH]; intros b; simpl; [done|].
  rewrite bool_decide_eq_false_2, IH by done. by destruct w.
Qed.

Lemma length_cut b l : length (cut b l) = length l.
Proof. revert b. induction l as [|c l IH]; intros b; simpl; [done|]. case_bool_decide; simpl; by rewrite IH. Qed.

(** A message is blanks, or blanks and a word up to a space or its end. *)
Lemma next_word l :
  Forall (λ c, c ≠ 0%Z) l →
  blank l ∨ ∃ k w, blank k ∧ word w ∧ (l = k ++ w ∨ ∃ l', l = k ++ w ++ space :: l').
Proof.
  induction 1 as [|c l Hc Hl IH]; [left; constructor|]. destruct (decide (c = space)) as [->|Hs].
  - destruct IH as [Hb|(k & w & Hk & Hw & [->|(l' & ->)])].
    + left. by constructor.
    + right. exists (space :: k), w. split_and!; [by constructor|done|by left].
    + right. exists (space :: k), w. split_and!; [by constructor|done|right]. by exists l'.
  - right. destruct (IH) as [Hb|(k & w & Hk & Hw & Hl')].
    + destruct l as [|c' l].
      * exists [], [c]. split_and!; [constructor|split; [done|by repeat constructor]|by left].
      * apply Forall_cons in Hb as [-> Hb]. exists [], [c].
        split_and!; [constructor|split; [done|by repeat constructor]|right; by exists l].
    + destruct k as [|c' k].
      * exists [], (c :: w). split_and!; [constructor|split; [done|constructor; [done|apply Hw]]|].
        destruct Hl' as [->|(l' & ->)]; [by left|right; by exists l'].
      * apply Forall_cons in Hk as [-> Hk]. exists [], [c].
        split_and!; [constructor|split; [done|by repeat constructor]|right].
        destruct Hl' as [->|(l' & ->)]; [by exists (k ++ w)|by exists (k ++ w ++ space :: l')].
Qed.

Lemma strspn_blank k c l : blank k → c ≠ space → strspn (k ++ c :: l) = Some (length k).
Proof.
  intros Hk Hc. induction Hk as [|x k -> Hk IH]; simpl.
  - by rewrite bool_decide_eq_false_2.
  - by rewrite IH.
Qed.

Lemma strcspn_word w c l : Forall (λ c, c ≠ space ∧ c ≠ 0%Z) w → c = space ∨ c = 0%Z →
  strcspn (w ++ c :: l) = Some (length w).
Proof.
  intros Hw Hc. induction Hw as [|x w [H1 H2] Hw IH]; simpl.
  - by destruct Hc as [->| ->].
  - rewrite !bool_decide_eq_false_2 by done. simpl. by rewrite IH.
Qed.

Lemma cstring_word w l : Forall (λ c, c ≠ 0%Z) w → cstring (w ++ 0%Z :: l) = Some w.
Proof.
  induction 1 as [|x w Hx Hw IH]; simpl; [done|]. rewrite bool_decide_eq_false_2 by done. by rewrite IH.
Qed.

Lemma word_nonzero w : word w → Forall (λ c, c ≠ 0%Z) w.
Proof. intros [_ Hw]. eapply Forall_impl; [exact Hw|]. naive_solver. Qed.
End text.

(** ** The tokenizer *)
Section tokens.
Implicit Types (s : server) (pre l rest w : list Z) (o : nat) (ts : list (nat * list Z)).

Lemma wp_option {A} (x : option A) a s (Q : A → server → Prop) : x = Some a → Q a s → wp (of_option x) s Q.
Proof. by intros ->. Qed.

(** The string at an offset, once [strtok] has ended it. *)
Definition token_at pre l (t : nat * list Z) : Prop :=
  (∀ tail, cstring (drop t.1 (pre ++ tail)) = Some t.2) ∨
  (l = [] ∧ ∀ tail, cstring (drop t.1 (pre ++ 0%Z :: tail)) = Some t.2).

(** The state of a scan: what [strtok] has passed and what is left. *)
Definition scanning s pre l rest : Prop :=
  buf s = pre ++ l ++ 0%Z :: rest ∧ Forall (λ c, c ≠ 0%Z) l.

Record strtok_post s pre l rest (r : option nat) s' pre' l' : Prop := {
  sp_state : s' = with_buf (pre' ++ l' ++ 0%Z :: rest) (Some (length pre')) s;
  sp_nonzero : Forall (λ c, c ≠ 0%Z) l';
  sp_prefix : ∃ x, pre' = pre ++ x;
  sp_cut : pre' ++ cut false l' = pre ++ cut false l;
  sp_result : match r with
    | None => words l = [] ∧ l' = []
    | Some o => ∃ w, words l = w :: words l' ∧ token_at pre' l' (o, w) ∧ length l' < length l
    end
}.

Lemma drop_at pre (k w tail : list Z) :
  drop (length pre + length k) (pre ++ k ++ w ++ tail) = w ++ tail.
Proof. rewrite app_assoc, <-length_app. apply drop_app_length. Qed.

Lemma lookup_at (a b : list Z) c : (a ++ c :: b) !! length a = Some c.
Proof. by apply list_lookup_middle. Qed.

(** The run of [strtok] up to the start of a token. *)
Lemma strtok_start s str pre l rest (Q : option nat → server → Prop) :
  scanning s pre l rest → str = Some (length pre) ∨ (str = None ∧ saved s = Some (length pre)) →
  blank l → Q None (with_buf (buf s) (Some (length (pre ++ l))) s) → wp (strtok str) s Q.
Proof.
  intros [Hb Hl] Hstr Hbl HQ. unfold strtok. apply wp_bind, wp_gets.
  apply wp_bind, (wp_option _ (length pre)); [by destruct Hstr as [->|[-> ->]]|].
  apply wp_bind, wp_gets. rewrite Hb. rewrite drop_app_length.
  apply wp_bind, (wp_option _ (length l)); [by apply strspn_blank|].
  apply wp_bind, (wp_option _ 0%Z); [rewrite <-length_app, app_assoc; apply lookup_at|].
  rewrite bool_decide_eq_true_2 by done. apply wp_bind, wp_modify, wp_ret.
  rewrite <-length_app, <-Hb. exact HQ.
Qed.

Lemma strtok_word s str pre k w c tail (Q : option nat → server → Prop) :
  buf s = pre ++ k ++ w ++ c :: tail → blank k → word w → c = space ∨ c = 0%Z →
  str = Some (length pre) ∨ (str = None ∧ saved s = Some (length pre)) →
  Q (Some (length pre + length k))
    (if bool_decide (c = 0)%Z then with_buf (buf s) (Some (length (pre ++ k ++ w))) s
     else with_buf (pre ++ k ++ w ++ 0%Z :: tail) (Some (S (length (pre ++ k ++ w)))) s) →
  wp (strtok str) s Q.
Proof.
  intros Hb Hk Hw Hc Hstr HQ. destruct Hw as [Hne Hw]. destruct w as [|x w]; [done|].
  apply Forall_cons in Hw as Hxw. destruct Hxw as [[Hx1 Hx2] _].
  unfold strtok. apply wp_bind, wp_gets.
  apply wp_bind, (wp_option _ (length pre)); [by destruct Hstr as [->|[-> ->]]|].
  apply wp_bind, wp_gets. rewrite Hb. rewrite drop_app_length.
  apply wp_bind, (wp_option _ (length k)); [by apply strspn_blank|].
  apply wp_bind, (wp_option _ x); [rewrite <-length_app, app_assoc; apply lookup_at|].
  rewrite bool_decide_eq_false_2 by done. rewrite (drop_at pre k (x :: w)).
  apply wp_bind, (wp_option _ (length (x :: w))); [by apply strcspn_word|].
  replace (length pre + length k + length (x :: w)) with (length (pre ++ k ++ x :: w))
    by (rewrite !length_app; lia).
  replace (pre ++ k ++ (x :: w) ++ c :: tail) with ((pre ++ k ++ x :: w) ++ c :: tail)
    by (by rewrite <-!app_assoc).
  apply wp_bind, (wp_option _ c); [apply lookup_at|]. apply wp_bind.
  replace (pre ++ k ++ (x :: w) ++ c :: tail) with ((pre ++ k ++ x :: w) ++ c :: tail) in Hb
    by (by rewrite <-!app_assoc).
  rewrite Hb in HQ. replace (pre ++ k ++ (x :: w) ++ 0%Z :: tail) with ((pre ++ k ++ x :: w) ++ 0%Z :: tail) in HQ
    by (by rewrite <-!app_assoc).
  case_bool_decide; apply wp_modify, wp_ret; [exact HQ|].
  rewrite insert_app_r_alt, Nat.sub_diag by lia. exact HQ.
Qed.

Lemma strtok_ok s str pre l rest :
  scanning s pre l rest → str = Some (length pre) ∨ (str = None ∧ saved s = Some (length pre)) →
  wp (strtok str) s (λ r s', ∃ pre' l', strtok_post s pre l rest r s' pre' l').
Proof.
  intros Hs Hstr. pose proof Hs as [Hb Hl].
  destruct (next_word l Hl) as [Hbl|(k & w & Hk & Hw & [->|(l' & ->)])].
  - eapply strtok_start; [done..|]. exists (pre ++ l), []. split.
    + by rewrite Hb, <-app_assoc.
    + constructor.
    + by exists l.
    + rewrite app_nil_r. f_equal. rewrite <-(app_nil_r l) at 2. by rewrite cut_blank, app_nil_r.
    + split; [|done]. rewrite <-(app_nil_r l). by rewrite words_blank.
  - rewrite <-app_assoc in Hb. eapply strtok_word; [done..|by right|done|].
    rewrite bool_decide_eq_true_2 by done. exists (pre ++ k ++ w), []. split.
    + by rewrite Hb, <-!app_assoc.
    + constructor.
    + by exists (k ++ w).
    + rewrite app_nil_r, cut_blank by done. do 2 f_equal. rewrite <-(app_nil_r w) at 2.
      rewrite cut_word by apply Hw. by rewrite app_nil_r.
    + exists w. rewrite words_blank, words_word by done. split_and!; [done| |].
      * right. split; [done|]. intros tail. simpl. rewrite <-!app_assoc.
        rewrite drop_at. by apply cstring_word, word_nonzero.
      * destruct Hw as [Hw _]. destruct w; [done|]. rewrite length_app. simpl. lia.
  - replace ((k ++ w ++ space :: l') ++ 0%Z :: rest) with (k ++ w ++ space :: l' ++ 0%Z :: rest) in Hb
      by (by rewrite <-!app_assoc).
    eapply strtok_word; [done..|by left|done|]. rewrite bool_decide_eq_false_2 by done.
    exists (pre ++ k ++ w ++ [0%Z]), l'. split.
    + rewrite <-!app_assoc. simpl. f_equal. f_equal. rewrite !length_app. simpl. lia.
    + apply Forall_app in Hl as [_ Hl]. apply Forall_app in Hl as [_ Hl]. by apply Forall_cons in Hl as [_ ?].
    + by exists (k ++ w ++ [0%Z]).
    + rewrite cut_blank, cut_word, <-!app_assoc by (done || apply Hw). do 3 f_equal.
      destruct Hw as [Hw _]. by destruct w.
    + exists w. rewrite words_blank, words_word_space by done. split_and!; [done| |].
      * left. intros tail. simpl. rewrite <-!app_assoc. rewrite drop_at. simpl.
        by apply cstring_word, word_nonzero.
      * rewrite !length_app. simpl. lia.
Qed.

Lemma token_at_mono pre x l l' t : token_at pre l t → l ≠ [] ∨ x = [] ∧ l' = [] → token_at (pre ++ x) l' t.
Proof.
  intros [Ht|[-> Ht]] Hx.
  - left. intros tail. rewrite <-app_assoc. apply Ht.
  - destruct Hx as [?|[-> ->]]; [done|]. right. by rewrite app_nil_r.
Qed.

(** The array of tokens found so far. *)
Definition token_array ts : list (option nat) :=
  (Some <$> ts.*1) ++ replicate (MAX_TOKENS - length ts) None.

Lemma token_array_snoc ts o w :
  length ts < MAX_TOKENS → <[length ts := Some o]> (token_array ts) = token_array (ts ++ [(o, w)]).
Proof.
  intros Hlen. unfold token_array. rewrite insert_app_r_alt by (rewrite !length_fmap; lia).
  rewrite !length_fmap, Nat.sub_diag, !fmap_app, length_app, <-app_assoc. simpl.
  replace (MAX_TOKENS - length ts) with (S (MAX_TOKENS - (length ts + 1))) by (unfold MAX_TOKENS in *; lia).
  done.
Qed.

Lemma length_token_array ts : length ts ≤ MAX_TOKENS → length (token_array ts) = MAX_TOKENS.
Proof. intros Hlen. unfold token_array. rewrite length_app, !length_fmap, length_replicate. lia. Qed.

(** What the tokenizer leaves: the words, their array, and the buffer cut. *)
Record split_post s pre l rest (found : list (list Z)) (r : list (option nat) * nat) s' ts : Prop := {
  so_array : r = (token_array ts, length ts);
  so_count : length ts ≤ MAX_TOKENS;
  so_words : ts.*2 = found ++ words l;
  so_state : ∃ p, s' = with_buf (pre ++ cut false l ++ 0%Z :: rest) p s;
  so_tokens : Forall (λ t, cstring (drop t.1 (buf s')) = Some t.2) ts
}.

Lemma tokens_done pre rest ts :
  Forall (token_at pre []) ts → Forall (λ t, cstring (drop t.1 (pre ++ 0%Z :: rest)) = Some t.2) ts.
Proof. intros Ht. eapply Forall_impl; [exact Ht|]. intros t [Hc|[_ Hc]]; apply Hc. Qed.

Lemma split_loop fuel : ∀ s pre l rest ts o w,
  scanning s pre l rest → saved s = Some (length pre) → length ts ≤ MAX_TOKENS →
  Forall (token_at pre l) (ts ++ [(o, w)]) → length l + 1 < fuel →
  wpu (loop fuel kvs_split_iter (Some o, token_array ts, length ts)) s
    (λ r s', ∃ ts', split_post s pre l rest (ts.*2 ++ [w]) r s' ts')
    (MAX_TOKENS < length (ts.*2 ++ w :: words l)).
Proof.
  induction fuel as [|fuel IH]; intros s pre l rest ts o w Hs Hsv Hlen Ht Hfu; [lia|].
  cbn [loop]. apply wpu_seq. unfold kvs_split_iter at 1. rewrite length_token_array by done.
  case_bool_decide as Hc; [|apply wpu_undef; rewrite length_app, length_fmap; simpl; lia].
  cbn zeta. rewrite (token_array_snoc ts o w) by done.
  replace (S (length ts)) with (length (ts ++ [(o, w)])) by (rewrite length_app; simpl; lia). apply wpu_bind.
  eapply wp_mono; [eapply strtok_ok; [exact Hs|by right]|]. intros r s1 (pre' & l' & [-> Hnz [x ->] Hcut Hr]).
  unfold wpu at 1, ret at 1. destruct r as [o'|].
  - destruct Hr as (w' & Hw & Htok & Hll). eapply wpu_mono.
    + eapply (IH _ (pre ++ x) l' rest (ts ++ [(o, w)]) o' w').
      * split; [|done]. simpl. by rewrite <-app_assoc.
      * done.
      * rewrite length_app. simpl. lia.
      * apply Forall_app. split; [|by apply Forall_singleton]. eapply Forall_impl; [exact Ht|].
        intros t Hta. eapply token_at_mono; [exact Hta|]. left. intros ->. simpl in Hll. lia.
      * lia.
    + intros r s2 (ts' & [Ha Hcnt Hwd [p Hst] Htk]). exists ts'. split; [done|done| | |done].
      * rewrite Hwd, Hw, fmap_app. by rewrite <-!app_assoc.
      * exists p. rewrite Hst. unfold with_buf. simpl. f_equal. rewrite app_assoc, Hcut. by rewrite <-app_assoc.
    + rewrite Hw, fmap_app, <-app_assoc. by simpl.
  - destruct Hr as [Hw ->]. destruct fuel as [|fuel]; [lia|]. cbn [loop]. unfold bind, kvs_split_iter, ret, wpu.
    rewrite app_nil_r in Hcut.
    exists (ts ++ [(o, w)]). split.
    + done.
    + rewrite length_app. simpl. lia.
    + by rewrite Hw, app_nil_r, fmap_app.
    + eexists. unfold with_buf. simpl. f_equal. by rewrite (app_assoc pre (cut _ _)), <-Hcut, <-app_assoc.
    + simpl. apply tokens_done.
      eapply Forall_impl; [exact Ht|]. intros t Hta.
      destruct l as [|c l]; [|eapply token_at_mono; [exact Hta|by left]].
      simpl in Hcut. rewrite app_nil_r in Hcut. rewrite Hcut. done.
Qed.
End tokens.

(** ** Parsing a message *)
Section parsing.
Implicit Types (s : server) (l rest w : list Z) (o : nat) (ts : list (nat * list Z)).

Lemma split_tokens_ok fuel s l rest :
  scanning s [] l rest → length l + 1 < fuel →
  wpu (kvs_split_tokens fuel (replicate MAX_TOKENS None) 0) s
    (λ r s', ∃ ts, split_post s [] l rest [] r s' ts) (MAX_TOKENS < length (words l)).
Proof.
  intros Hs Hfu. unfold kvs_split_tokens. apply wpu_bind.
  eapply wp_mono; [eapply strtok_ok; [exact Hs|by left]|]. intros r s1 (pre' & l' & [-> Hnz [x ->] Hcut Hr]).
  change (replicate MAX_TOKENS None) with (token_array []). simpl in *. destruct r as [o|].
  - destruct Hr as (w & Hw & Ht & Hl). eapply wpu_mono.
    + eapply (split_loop fuel _ x l' rest [] o w); [by split|done|unfold MAX_TOKENS; simpl; lia| |lia].
      by apply Forall_singleton.
    + intros r s2 (ts & [Ha Hc Hwd [p ->] Htk]). exists ts. split; [done|done| | |done].
      * by rewrite Hwd, Hw.
      * exists p. unfold with_buf. simpl. f_equal. by rewrite app_assoc, Hcut.
    + rewrite Hw. by simpl.
  - destruct Hr as [Hw ->]. destruct fuel as [|fuel]; [lia|]. cbn [loop].
    unfold bind, kvs_split_iter, ret, wpu. exists []. split.
    + done.
    + simpl. lia.
    + by rewrite Hw.
    + eexists. unfold with_buf. simpl. rewrite app_nil_r in Hcut. by rewrite Hcut.
    + constructor.
Qed.

Lemma print_tokens_ok s ts n :
  Forall (λ t, cstring (drop t.1 (buf s)) = Some t.2) ts →
  print_tokens ((Some <$> ts.*1) ++ replicate n None) (length ts) s = Ok ts.*2 s.
Proof.
  intros Ht. apply wp_eq. induction Ht as [|[o w] ts Ht _ IH]; [by apply wp_ret|]. csimpl.
  apply wp_bind, (wp_option _ o); [done|]. apply wp_bind, wp_gets.
  apply wp_bind, (wp_option _ w); [done|]. apply wp_bind. eapply wp_mono; [exact IH|].
  intros ws s' [-> ->]. by apply wp_ret.
Qed.

Lemma strcmp_eq_ok l w lit :
  cstring l = Some w → Forall (λ c, c ≠ 0%Z) lit → strcmp_eq l lit = Some (bool_decide (w = lit)).
Proof.
  revert w lit. induction l as [|c l IH]; intros w lit; simpl; [done|].
  intros Hw Hlit. destruct lit as [|x lit].
  - case_bool_decide as Hc; [injection Hw as <-; by rewrite bool_decide_eq_true_2|].
    destruct (cstring l); [|done]. injection Hw as <-. by rewrite bool_decide_eq_false_2.
  - apply Forall_cons in Hlit as [Hx Hlit]. destruct (decide (c = x)) as [->|Hcx].
    + rewrite bool_decide_eq_false_2 in Hw by done. rewrite (bool_decide_eq_true_2 (x = x)) by done.
      destruct (cstring l) as [w'|] eqn:Hw'; [|done]. injection Hw as <-.
      rewrite (IH w') by done. f_equal. apply bool_decide_ext. naive_solver.
    + rewrite (bool_decide_eq_false_2 (c = x)) by done. f_equal. symmetry. apply bool_decide_eq_false_2.
      intros ->. case_bool_decide; [done|]. destruct (cstring l); [|done]. by injection Hw as ->.
Qed.

(** The place of a word in the command table, [KVS_CMD_COUNT] if it is none. *)
Fixpoint index_of w (cmds : list (list Z)) : nat :=
  match cmds with
  | [] => 0
  | c :: cmds' => if bool_decide (w = c) then 0 else S (index_of w cmds')
  end.

Lemma find_command_ok s l w cmds cmd :
  cstring l = Some w → Forall (Forall (λ c, c ≠ 0%Z)) cmds →
  find_command l cmds cmd s = Ok (cmd + index_of w cmds) s.
Proof.
  intros Hl Hc. apply wp_eq. revert cmd. induction Hc as [|c cmds Hc _ IH]; intros cmd; cbn [find_command index_of].
  - apply wp_ret. split; [done|lia].
  - apply wp_bind. eapply wp_option; [by apply strcmp_eq_ok|]. case_bool_decide; [apply wp_ret; split; [done|lia]|].
    rewrite <-Nat.add_succ_comm. apply IH.
Qed.

Lemma commands_nonzero : Forall (Forall (λ c, c ≠ 0%Z)) commands.
Proof. by repeat constructor. Qed.

Lemma process_ok fuel s l rest :
  scanning s [] l rest → length l + 1 < fuel →
  wpu (kvs_proto_process fuel 0) s
    (λ r s', r = (words l, if bool_decide (words l = []) then -1 else 0)%Z ∧ length (words l) ≤ MAX_TOKENS ∧
       ∃ p, s' = with_buf (cut false l ++ 0%Z :: rest) p s)
    (MAX_TOKENS < length (words l)).
Proof.
  intros Hs Hfu. unfold kvs_proto_process. apply wpu_seq. eapply wpu_mono; [by apply split_tokens_ok| |done].
  intros r s' (ts & [-> Hc Hw [p Hst] Ht]). simpl in Hw. cbn iota. apply wpu_wp.
  apply wp_bind. eapply wp_pure_run; [by apply print_tokens_ok|].
  assert (∃ p, s' = with_buf (cut false l ++ 0%Z :: rest) p s) as Hst' by (by exists p).
  assert (length (words l) ≤ MAX_TOKENS) as Hlen by (by rewrite <-Hw, length_fmap).
  unfold kvs_proto_parser. rewrite Hw. destruct ts as [|[o w] ts].
  - apply wp_bind. simpl in Hw. rewrite <-Hw in *. by apply wp_ret.
  - apply Forall_cons in Ht as [Ht _]. simpl in Hw. rewrite <-Hw. apply wp_bind.
    rewrite bool_decide_eq_false_2 by (simpl; lia).
    apply wp_bind, (wp_option _ (Some o)); [done|]. apply wp_bind, (wp_option _ o); [done|].
    apply wp_bind, wp_gets, wp_bind. eapply wp_pure_run; [by eapply find_command_ok, commands_nonzero|].
    apply wp_ret, wp_ret. rewrite bool_decide_eq_false_2 by done. by rewrite Hw.
Qed.
End parsing.

(** ** What the server promises *)
Section claims.
Implicit Types (s : server) (l data : list Z).

(** The message as a C string: the bytes before the first NUL. *)
Fixpoint text data : list Z :=
  match data with
  | [] => []
  | c :: data' => if bool_decide (c = 0)%Z then [] else c :: text data'
  end.

(** The bytes sent back for received ones. *)
Definition echo data : list Z := cut false (text data) ++ drop (length (text data)) data.

Lemma text_nonzero data : Forall (λ c, c ≠ 0%Z) (text data).
Proof. induction data as [|c data IH]; simpl; [constructor|]. case_bool_decide; by constructor. Qed.

Lemma text_split data n :
  0%Z ∈ data ∨ 0 < n → ∃ rest, data ++ replicate n 0%Z = text data ++ 0%Z :: rest ∧
    drop (length (text data)) (data ++ replicate n 0%Z) = 0%Z :: rest.
Proof.
  induction data as [|c data IH]; simpl.
  - intros [Hx|Hn]; [set_solver|]. destruct n; [lia|]. by exists (replicate n 0%Z).
  - intros Hn. case_bool_decide as Hc; [subst; by eexists|].
    destruct IH as (rest & H1 & H2); [set_solver|]. exists rest. split; [by rewrite H1|done].
Qed.

Lemma cstring_none l : 0%Z ∉ l → cstring l = None.
Proof.
  induction l as [|c l IH]; [done|]. intros [Hc Hl]%not_elem_of_cons. simpl.
  rewrite bool_decide_eq_false_2 by done. by rewrite IH.
Qed.

(** C34: Parsing a NUL-terminated message of at most 16 words succeeds: it
    prints exactly the words, returns -1 for a message without words and 0 for
    any other, known command or not, and leaves the message with the space
    behind each word turned into a NUL; a message of more than 16 words
    overruns the token array. *)
Theorem kvs_proto_process_spec fuel s l rest :
  buf s = l ++ 0%Z :: rest → Forall (λ c, c ≠ 0%Z) l → length l + 1 < fuel →
  if bool_decide (length (words l) ≤ MAX_TOKENS)
  then ∃ p, kvs_proto_process fuel 0 s =
         Ok (words l, if bool_decide (words l = []) then -1 else 0)%Z
           (with_buf (cut false l ++ 0%Z :: rest) p s)
  else kvs_proto_process fuel 0 s = Undef.
Proof.
  intros Hb Hl Hfu. pose proof (process_ok fuel s l rest (conj Hb Hl) Hfu) as Hp.
  destruct (bool_decide (length (words l) ≤ MAX_TOKENS)) eqn:Hc;
    [apply bool_decide_eq_true in Hc|apply bool_decide_eq_false in Hc].
  - unfold wpu in Hp. destruct (kvs_proto_process fuel 0 s) as [r s'| | |]; [|done| |done].
    + destruct Hp as (-> & _ & p & ->). by exists p.
    + unfold MAX_TOKENS in *. lia.
  - eapply wpu_Undef, wpu_mono; [exact Hp| |exact id]. by intros r s' (_ & ? & _).
Qed.

(** Counting the bytes written, when there are any. *)
Definition out_fits (written : Z) (s : server) : Prop :=
  (to_int written ≤ 0 ∨ - 2 ^ 31 ≤ bytes_out s + to_int written < 2 ^ 31)%Z.
#[export] Instance out_fits_dec written s : Decision (out_fits written s).
Proof. unfold out_fits. apply _. Defined.

Lemma count_out_ok written s :
  wpu (when bool_decide (to_int written > 0)%Z then count_out (to_int written)) s
    (λ _ s', out_fits written s ∧ s' = Server (buf s) (saved s) (bytes_in s) (bytes_out s + Z.max 0 (to_int written))
       (listener s) (running s) (net s))
    (¬ out_fits written s).
Proof.
  unfold out_fits. case_bool_decide as Hm.
  - apply wpu_bind, wp_gets, wpu_seq. unfold add_int, is_int. case_bool_decide as Hr.
    + apply wpu_wp, wp_ret, wpu_wp, wp_modify. split; [by right|]. by rewrite Z.max_r by lia.
    + apply wpu_undef. lia.
  - apply wpu_wp, wp_ret. split; [left; lia|]. rewrite Z.max_l, Z.add_0_r by lia. by destruct s.
Qed.

(** The handler on [n > 0] received bytes. *)
Lemma callback_data fuel sock data written s :
  0 < length data → length data ≤ BUFFER_SIZE → length data + 1 < fuel →
  0%Z ∈ data ∨ length data < BUFFER_SIZE →
  wpu (spdk_server_callback fuel sock (Z.of_nat (length data)) data written) s
    (λ _ s', length (words (text data)) ≤ MAX_TOKENS ∧
       net s' = net s ++ [Written sock (echo data)] ∧
       bytes_in s' = to_int (bytes_in s + Z.of_nat (length data)) ∧
       out_fits written s ∧ bytes_out s' = (bytes_out s + Z.max 0 (to_int written))%Z ∧
       listener s' = listener s ∧ running s' = running s)
    (MAX_TOKENS < length (words (text data)) ∨ ¬ out_fits written s).
Proof.
  intros Hn Hmax Hfu Hz. destruct (text_split data (BUFFER_SIZE - length data)) as (rest & Hb & Hd);
    [destruct Hz; [by left|right; lia]|].
  assert (length (text data) ≤ length data) as Ht.
  { clear. induction data as [|c data IH]; simpl; [lia|]. case_bool_decide; simpl; lia. }
  unfold spdk_server_callback. rewrite Hb. apply wpu_bind, wp_modify.
  rewrite !bool_decide_eq_false_2 by lia. apply wpu_bind, wp_gets. apply wpu_bind.
  eapply wp_option; [simpl; apply cstring_word, text_nonzero|]. apply wpu_seq.
  eapply wpu_mono; [apply (process_ok fuel _ (text data) rest); [split; [done|apply text_nonzero]|lia]| |by left].
  intros r s' (_ & Hc & p & ->). apply wpu_bind, wp_modify, wpu_bind, wp_gets, wpu_bind, wp_modify.
  cbn [buf with_buf net bytes_in bytes_out listener running saved].
  assert (take (Z.to_nat (Z.of_nat (length data))) (cut false (text data) ++ 0%Z :: rest) = echo data) as ->.
  { rewrite Nat2Z.id, take_app, length_cut, take_ge by (rewrite length_cut; lia). unfold echo. f_equal.
    rewrite <-Hd, drop_app_le by lia. rewrite <-length_drop, take_app_length. done. }
  eapply wpu_mono; [by apply count_out_ok| |by right]. by intros [] s' (? & ->).
Qed.

(** C35: The handler of a readable socket, for every number of bytes received:
    a closed connection is removed and closed, an error changes nothing, and a
    message is echoed with the space behind each word turned into a NUL.  The
    bytes received are counted modulo 2^32, those written exactly; more than 16
    words, a full buffer without a NUL and a count of the written bytes that
    leaves the range of [int] are undefined behaviour, and nothing else is. *)
Theorem spdk_server_callback_spec fuel sock n data written s :
  (Z.of_nat (length data) = Z.max 0 n)%Z → length data ≤ BUFFER_SIZE → length data + 1 < fuel →
  if bool_decide (n <= 0)%Z then
    ∃ s', spdk_server_callback fuel sock n data written s = Ok tt s' ∧
      net s' = net s ++ (if bool_decide (n = 0)%Z then [Removed sock; Closed sock] else []) ∧
      bytes_in s' = bytes_in s ∧ bytes_out s' = bytes_out s
  else if bool_decide (0%Z ∈ data ∨ length data < BUFFER_SIZE) &&
          bool_decide (length (words (text data)) ≤ MAX_TOKENS) &&
          bool_decide (to_int written ≤ 0 ∨ - 2 ^ 31 ≤ bytes_out s + to_int written < 2 ^ 31)%Z then
    ∃ s', spdk_server_callback fuel sock n data written s = Ok tt s' ∧
      net s' = net s ++ [Written sock (echo data)] ∧
      bytes_in s' = to_int (bytes_in s + n) ∧
      bytes_out s' = (bytes_out s + Z.max 0 (to_int written))%Z
  else spdk_server_callback fuel sock n data written s = Undef.
Proof.
  intros Hn Hmax Hfu. case_bool_decide as H0.
  - unfold spdk_server_callback, bind, modify, log, ret. case_bool_decide as H1.
    + eexists. rewrite (bool_decide_eq_false_2 (n = 0)%Z) by lia. by rewrite app_nil_r.
    + rewrite (bool_decide_eq_true_2 (n = 0)%Z) by lia. eexists. split; [done|]. simpl. by rewrite <-app_assoc.
  - assert (n = Z.of_nat (length data)) as -> by lia. case_bool_decide as Hz; cbn [andb].
    + pose proof (callback_data fuel sock data written s ltac:(lia) Hmax Hfu Hz) as Hp.
      rewrite <-bool_decide_and. case_bool_decide as Hc.
      * unfold wpu in Hp. destruct (spdk_server_callback _ _ _ _ _ _) as [[] s'| | |]; [|done| |done].
        -- exists s'. by destruct Hp as (_ & ? & ? & ? & ? & _).
        -- exfalso. unfold out_fits, MAX_TOKENS in *. destruct Hc, Hp; [lia|done].
      * eapply wpu_Undef, wpu_mono; [exact Hp| |exact id]. intros r s' (? & _ & _ & ? & _). by apply Hc.
    + unfold spdk_server_callback, bind, modify, gets. rewrite !bool_decide_eq_false_2 by lia.
      assert (length data = BUFFER_SIZE) as Hl by (destruct (decide (length data < BUFFER_SIZE)); [tauto|lia]).
      cbn [buf with_buf]. rewrite Hl, Nat.sub_diag, app_nil_r. unfold of_option.
      by rewrite cstring_none by tauto.
Qed.

Definition accepted (c : conn) : Prop := (0 ≤ c_getaddr c)%Z ∧ (0 ≤ c_add c)%Z.

Lemma accept_loop_good s ls good rest count :
  listener s = Some ls → Forall accepted good →
  ∃ s', spdk_server_accept_loop (good ++ rest) count s =
      spdk_server_accept_loop rest (count + Z.of_nat (length good)) s' ∧
    listener s' = Some ls ∧ net s' = net s ++ (Added ∘ c_sock <$> good).
Proof.
  intros Hl Hg. revert s count Hl. induction Hg as [|c good [H1 H2] _ IH]; intros s count Hl.
  - exists s. simpl. by rewrite app_nil_r, Z.add_0_r.
  - destruct (IH (Server (buf s) (saved s) (bytes_in s) (bytes_out s) (listener s) (running s)
      (net s ++ [Added (c_sock c)])) (count + 1)%Z Hl) as (s' & Hr & Hl' & Hn).
    exists s'. split_and!; [|done|rewrite Hn; simpl; by rewrite <-app_assoc].
    replace (count + Z.of_nat (length (c :: good)))%Z with (count + 1 + Z.of_nat (length good))%Z by (simpl; lia).
    rewrite <-Hr. cbn [app spdk_server_accept_loop]. unfold bind at 1, gets. rewrite Hl.
    rewrite !bool_decide_eq_false_2 by lia. unfold log, bind, modify. by rewrite Hl.
Qed.

(** The accept poller takes all waiting connections in order and reports
    whether there were any; the first one that fails ends it: a failure to add
    it to the group closes that connection, but a failure to read its address
    closes the listening socket, after which the next call is undefined. *)
Theorem spdk_server_accept_spec s ls good rest :
  listener s = Some ls → Forall accepted good → (∀ c, head rest = Some c → ¬ accepted c) →
  ∃ s', spdk_server_accept (good ++ rest) s =
      Ok (if bool_decide (rest = [] ∧ good ≠ []) then SPDK_POLLER_BUSY else SPDK_POLLER_IDLE, tail rest) s' ∧
    net s' = net s ++ (Added ∘ c_sock <$> good) ++
      match rest with
      | [] => []
      | c :: _ => [Closed (if bool_decide (c_getaddr c < 0)%Z then ls else c_sock c)]
      end ∧
    (listener s' = match rest with
       | c :: _ => if bool_decide (c_getaddr c < 0)%Z then None else Some ls
       | [] => Some ls
       end) ∧
    (listener s' = None → ∀ waiting, spdk_server_accept waiting s' = Undef).
Proof.
  intros Hl Hg Hr. unfold spdk_server_accept.
  destruct (accept_loop_good s ls good rest 0 Hl Hg) as (s1 & -> & Hl1 & Hn1).
  assert (∀ s', listener s' = None → ∀ waiting, spdk_server_accept_loop waiting 0 s' = Undef) as Hnone.
  { intros s' Hs' waiting. destruct waiting; simpl; unfold bind at 1, gets; by rewrite Hs'. }
  destruct rest as [|c rest].
  - exists s1. cbn [spdk_server_accept_loop]. unfold bind at 1, gets. rewrite Hl1, app_nil_r.
    split_and!; [by destruct good|done|done|done].
  - assert (¬ accepted c) as Hc by (by apply Hr). rewrite bool_decide_eq_false_2 by naive_solver.
    cbn [spdk_server_accept_loop]. unfold bind at 1, gets. rewrite Hl1.
    case_bool_decide as Hga; [|rewrite (bool_decide_eq_true_2 (c_add c < 0)%Z) by (unfold accepted in Hc; lia)];
      unfold bind, log, modify, ret; eexists; (split; [done|]); simpl; rewrite Hn1, <-app_assoc;
      split_and!; try done; auto.
Qed.
End claims.

(** ** The theorems at concrete inputs *)
Definition sample_server : server := Server [] None 0 0 (Some 3%Z) true [].

Lemma kvs_proto_process_witness :
  (∃ p, kvs_proto_process 20 0 (with_buf (chars "RGET  k" ++ [0%Z]) None sample_server) =
     Ok ([chars "RGET"; chars "k"], 0%Z)
       (with_buf (chars "RGET" ++ [0; 32]%Z ++ chars "k" ++ [0%Z]) p sample_server)).
Proof.
  refine (kvs_proto_process_spec 20 (with_buf (chars "RGET  k" ++ [0%Z]) None sample_server)
    (chars "RGET  k") [] eq_refl _ _); [by repeat constructor|simpl; lia].
Defined.

Lemma spdk_server_callback_witness :
  ∃ s', spdk_server_callback 20 5 6 (chars "BGET k") 6 sample_server = Ok tt s' ∧
    net s' = [Written 5 (chars "BGET" ++ [0%Z] ++ chars "k")] ∧ bytes_in s' = 6%Z ∧ bytes_out s' = 6%Z.
Proof.
  refine (spdk_server_callback_spec 20 5 6 (chars "BGET k") 6 sample_server eq_refl _ _);
    vm_compute; lia.
Defined.

Lemma spdk_server_accept_witness :
  ∃ s', spdk_server_accept [Conn 10 0 0; Conn 11 (-1) 0; Conn 12 0 0] sample_server =
      Ok (SPDK_POLLER_IDLE, [Conn 12 0 0]) s' ∧
    net s' = [Added 10; Closed 3] ∧ listener s' = None ∧
    (listener s' = None → ∀ waiting, spdk_server_accept waiting s' = Undef).
Proof.
  refine (spdk_server_accept_spec sample_server 3 [Conn 10 0 0] [Conn 11 (-1) 0; Conn 12 0 0] eq_refl _ _).
  - repeat constructor; simpl; lia.
  - intros c [= <-] [H _]. simpl in H. lia.
Defined.

(** An unknown command is answered like a known one. *)
Example unknown_command_accepted :
  run_result (kvs_proto_process 20 0) (with_buf (chars "FOO" ++ [0%Z]) None sample_server) =
    Some ([chars "FOO"], 0%Z).
Proof. vm_compute. reflexivity. Qed.

(** Seventeen words are too many. *)
Example seventeen_words :
  spdk_server_callback 60 5 33 (replicate 16 97 ≫= λ c, [c; 32])%Z 33 sample_server ≠ Undef ∧
  spdk_server_callback 60 5 33 ((replicate 16 97 ≫= λ c, [c; 32]) ++ [97])%Z 33 sample_server = Undef.
Proof. split; [vm_compute; discriminate|vm_compute; reflexivity]. Qed.
