(* ===== verification/JsonConfig.v ===== *)
(** * spdk_filesystem/json_config.c: loading a JSON configuration over RPC

    The loader is driven by the event loop: pollers, messages to its own thread
    and the callback of [spdk_subsystem_init].  Its context is allocated once
    and freed by [app_json_config_load_done]; using it later is undefined
    behaviour, whoever calls.  The JSON and RPC libraries are the class
    [JsonLib]; what they return where it can vary from call to call is the
    [input] of the event. *)
From stdpp Require Import base list strings pretty.
From S2P Require Import Prelude Bytes.

(** *** The JSON library *)

(** [enum spdk_json_val_type] *)
Inductive json_kind :=
  VAL_INVALID | VAL_NULL | VAL_TRUE | VAL_FALSE | VAL_NUMBER | VAL_STRING |
  VAL_ARRAY_BEGIN | VAL_ARRAY_END | VAL_OBJECT_BEGIN | VAL_OBJECT_END | VAL_NAME.
#[global] Instance json_kind_eq_dec : EqDecision json_kind.
Proof. solve_decision. Defined.

(** [struct spdk_json_val]; [jstart] is an offset into the text. *)
Record json_val := JsonVal { jtype : json_kind; jstart : nat; jlen : Z }.

Definition EINVAL : Z := 22.
Definition ENOENT : Z := 2.
Definition ENOMEM : Z := 12.
Definition EDOM : Z := 33.
Definition EPROTOTYPE : Z := 91.
Definition ENOTCONN : Z := 107.
Definition ETIMEDOUT : Z := 110.

(** An entry of an object decoder: name, decoding function, optional. *)
Definition decoder : Type := string * (json_val → Z) * bool.

(** Values are positions in the array of parsed values. *)
Class JsonLib := {
  (** result and values of [spdk_json_parse] without and with room for values *)
  json_count : list Z → Z;
  json_parse : list Z → nat → Z * list json_val;
  find_array : list json_val → string → Z * option nat;
  array_first : list json_val → nat → option nat;
  json_next : list json_val → nat → option nat;
  val_len : list json_val → nat → nat;
  (** the values taken by the decoders, in their order *)
  decode_object : list json_val → nat → list decoder → option (list (option nat));
  decode_string : json_val → Z;
  string_of : list Z → json_val → list Z;
  get_method_state_mask : list Z → Z * Z;
  SPDK_RPC_STARTUP : Z;
  SPDK_RPC_RUNTIME : Z;
  ticks_hz : Z;
  sun_path_size : nat
}.

Definition RPC_CLIENT_CONNECT_TIMEOUT_US : Z := 1 * 1000 * 1000.
Definition RPC_CLIENT_REQUEST_TIMEOUT_US : Z := 10 * 1000 * 1000.
Definition uint64 (z : Z) : Z := (z mod 2 ^ 64)%Z.

(** *** The text of an error response *)

(** [struct json_write_buf]: the characters written, and [cur_off]. *)
Record json_write_buf := WriteBuf { wdata : list Z; cur_off : Z }.
Definition WRITE_BUF_SIZE : Z := 1024.
Definition uint32 (z : Z) : Z := (z mod 2 ^ 32)%Z.

(** [snprintf] stores what fits before the terminating NUL and returns the
    length of the whole string; a start behind the array is undefined. *)
Definition json_write_stdout (data : list Z) (size : Z) : M json_write_buf Z := λ b,
  if bool_decide (cur_off b > WRITE_BUF_SIZE)%Z then Undef
  else
    let rc := Z.of_nat (length data) in
    let room := Z.to_nat (WRITE_BUF_SIZE - cur_off b) in
    let text := take (room - 1) data in
    let b1 := WriteBuf (take (Z.to_nat (cur_off b)) (wdata b) ++ text) (cur_off b) in
    let b2 := if bool_decide (rc > 0)%Z then WriteBuf (wdata b1) (uint32 (cur_off b + rc)) else b1 in
    Ok (if bool_decide (rc = size)%Z then 0 else -1)%Z b2.

(** The pieces of text the JSON writer hands over, with the sizes it gives; it
    stops when one is refused. *)
Fixpoint write_pieces (ps : list (list Z * Z)) : M json_write_buf unit :=
  match ps with
  | [] => ret tt
  | (data, size) :: ps =>
      let* rc := json_write_stdout data size in
      when bool_decide (rc = 0)%Z then write_pieces ps
  end.

(** *** The context and the event loop *)
Inductive poller := connect_poller | rpc_poller.
(** The functions sent to the thread, and the one response handler. *)
Inductive msg := load_subsystem_msg | load_entry_msg.
Inductive resp_handler := entry_next.

Record load_json_config_ctx := Ctx {
  stop_on_error : bool;
  subsystems : option nat;
  subsystems_it : option nat;
  subsystem_name : option nat;
  config : option nat;
  config_it : option nat;
  rpc_request_id : Z;
  json_data : list Z;
  values : list json_val;
  client_conn : bool;
  client_conn_poller : option poller;
  client_resp_cb : option resp_handler;
  timeout : Z
}.
(** After [calloc]. *)
Definition zero_ctx : load_json_config_ctx :=
  Ctx false None None None None None 0 [] [] false None None 0.

(** What the loader asks for. *)
Inductive out :=
| o_rpc_initialize
| o_rpc_finish
| o_request (id : Z) (method : list Z) (params : option (list Z))
| o_subsystem_init
| o_set_state (st : Z)
| o_done (rc : Z).

Record world := World {
  ctx : option load_json_config_ctx;
  rpc_state : Z;
  pollers : list poller;
  msgs : list msg;
  init_pending : nat;
  log : list out
}.

(** What the calls made while an event is handled return. *)
Record input := Input {
  i_poll : Z;        (* spdk_jsonrpc_client_poll *)
  i_error : option (list (list Z * Z));  (* the pieces of the response's error, if it has one *)
  i_now : Z;         (* spdk_get_ticks when a timeout is checked *)
  i_later : Z;       (* and when one is set *)
  i_create : Z;      (* errno of a request that cannot be created, 0 if it can *)
  i_begin : bool;
  i_send : Z
}.

Section loader.
Context `{!JsonLib}.
Abbreviation LD := (M world).

Definition with_ctx (c : option load_json_config_ctx) (w : world) : world :=
  World c (rpc_state w) (pollers w) (msgs w) (init_pending w) (log w).
Definition with_pollers (p : list poller) (w : world) : world :=
  World (ctx w) (rpc_state w) p (msgs w) (init_pending w) (log w).

Definition emit (o : out) : LD unit :=
  modify (λ w, World (ctx w) (rpc_state w) (pollers w) (msgs w) (init_pending w) (log w ++ [o])).
Definition of_option {A} (o : option A) : LD A := λ w, match o with Some a => Ok a w | None => Undef end.
Definition assert (b : bool) : LD unit := if b then ret tt else throw "assert".
(** [ctx->...]: a freed context is undefined. *)
Definition get_ctx : LD load_json_config_ctx := λ w, of_option (ctx w) w.
Definition update (f : load_json_config_ctx → load_json_config_ctx) : LD unit :=
  let* c := get_ctx in modify (with_ctx (Some (f c))).

Definition set_it (it : option nat) (c : load_json_config_ctx) :=
  Ctx (stop_on_error c) (subsystems c) it (subsystem_name c) (config c) (config_it c) (rpc_request_id c)
    (json_data c) (values c) (client_conn c) (client_conn_poller c) (client_resp_cb c) (timeout c).
Definition set_config_it (it : option nat) (c : load_json_config_ctx) :=
  Ctx (stop_on_error c) (subsystems c) (subsystems_it c) (subsystem_name c) (config c) it (rpc_request_id c)
    (json_data c) (values c) (client_conn c) (client_conn_poller c) (client_resp_cb c) (timeout c).
Definition set_subsystem (name cfg : option nat) (c : load_json_config_ctx) :=
  Ctx (stop_on_error c) (subsystems c) (subsystems_it c) name cfg (config_it c) (rpc_request_id c)
    (json_data c) (values c) (client_conn c) (client_conn_poller c) (client_resp_cb c) (timeout c).
Definition set_poller (p : option poller) (c : load_json_config_ctx) :=
  Ctx (stop_on_error c) (subsystems c) (subsystems_it c) (subsystem_name c) (config c) (config_it c) (rpc_request_id c)
    (json_data c) (values c) (client_conn c) p (client_resp_cb c) (timeout c).
Definition set_resp_cb (h : option resp_handler) (c : load_json_config_ctx) :=
  Ctx (stop_on_error c) (subsystems c) (subsystems_it c) (subsystem_name c) (config c) (config_it c) (rpc_request_id c)
    (json_data c) (values c) (client_conn c) (client_conn_poller c) h (timeout c).
Definition set_timeout (t : Z) (c : load_json_config_ctx) :=
  Ctx (stop_on_error c) (subsystems c) (subsystems_it c) (subsystem_name c) (config c) (config_it c) (rpc_request_id c)
    (json_data c) (values c) (client_conn c) (client_conn_poller c) (client_resp_cb c) t.
Definition set_subsystems (s it : option nat) (c : load_json_config_ctx) :=
  Ctx (stop_on_error c) s it (subsystem_name c) (config c) (config_it c) (rpc_request_id c)
    (json_data c) (values c) (client_conn c) (client_conn_poller c) (client_resp_cb c) (timeout c).
Definition set_values (d : list Z) (v : list json_val) (c : load_json_config_ctx) :=
  Ctx (stop_on_error c) (subsystems c) (subsystems_it c) (subsystem_name c) (config c) (config_it c) (rpc_request_id c)
    d v (client_conn c) (client_conn_poller c) (client_resp_cb c) (timeout c).
Definition set_conn (b : bool) (c : load_json_config_ctx) :=
  Ctx (stop_on_error c) (subsystems c) (subsystems_it c) (subsystem_name c) (config c) (config_it c) (rpc_request_id c)
    (json_data c) (values c) b (client_conn_poller c) (client_resp_cb c) (timeout c).
Definition set_stop (b : bool) (c : load_json_config_ctx) :=
  Ctx b (subsystems c) (subsystems_it c) (subsystem_name c) (config c) (config_it c) (rpc_request_id c)
    (json_data c) (values c) (client_conn c) (client_conn_poller c) (client_resp_cb c) (timeout c).

Definition send_msg (m : msg) : LD unit :=
  modify (λ w, World (ctx w) (rpc_state w) (pollers w) (msgs w ++ [m]) (init_pending w) (log w)).
(** [SPDK_POLLER_REGISTER] into the context, and [spdk_poller_unregister] of
    the poller in it, if any. *)
Definition register (p : poller) : LD unit :=
  modify (λ w, with_pollers (pollers w ++ [p]) w) ;; update (set_poller (Some p)).
Definition unregister : LD unit :=
  let* c := get_ctx in
  match client_conn_poller c with
  | None => ret tt
  | Some _ => modify (with_pollers []) ;; update (set_poller None)
  end.

Definition app_json_config_load_done (rc : Z) : LD unit :=
  unregister ;;
  let* _ := get_ctx in (* closes the connection, if there is one *)
  emit o_rpc_finish ;;
  let* _ := get_ctx in
  emit (o_done rc) ;;
  let* _ := get_ctx in
  modify (with_ctx None).

Definition rpc_client_set_timeout (now timeout_us : Z) : LD unit :=
  update (set_timeout (uint64 (now + uint64 (timeout_us * ticks_hz) / (1000 * 1000)))).
Definition rpc_client_check_timeout (now : Z) : LD Z :=
  let* c := get_ctx in
  ret (if bool_decide (timeout c < now)%Z then - ETIMEDOUT else 0)%Z.

Definition client_send_request (i : input) (id : Z) (method : list Z) (params : option (list Z)) (h : resp_handler) : LD Z :=
  update (set_resp_cb (Some h)) ;;
  rpc_client_set_timeout (i_later i) RPC_CLIENT_REQUEST_TIMEOUT_US ;;
  let* _ := get_ctx in
  (when bool_decide (i_send i = 0)%Z then emit (o_request id method params)) ;;
  ret (i_send i).

Definition cap_string (v : json_val) : Z := if bool_decide (jtype v = VAL_STRING) then 0 else - EINVAL.
Definition cap_object (v : json_val) : Z := if bool_decide (jtype v = VAL_OBJECT_BEGIN) then 0 else - EINVAL.
Definition cap_array_or_null (v : json_val) : Z :=
  if bool_decide (jtype v = VAL_ARRAY_BEGIN) || bool_decide (jtype v = VAL_NULL) then 0 else - EINVAL.

Definition jsonrpc_cmd_decoders : list decoder :=
  [("method", decode_string, false); ("params", cap_object, true)].
Definition subsystem_decoders : list decoder :=
  [("subsystem", cap_string, false); ("config", cap_array_or_null, false)].

(** The raw text of the parameters, up to the end of the object. *)
Definition raw_params (data : list Z) (vs : list json_val) (p : nat) : option (list Z) :=
  v ← vs !! p;
  e ← vs !! (p + val_len vs p - 1);
  Some (take (jstart e - jstart v + 1) (drop (jstart v) data)).

Definition entry_skip : LD unit :=
  let* c := get_ctx in
  let* it := of_option (config_it c) in
  update (set_config_it (json_next (values c) it)) ;;
  send_msg load_entry_msg.

Definition app_json_config_load_subsystem_config_entry (i : input) : LD unit :=
  let* c := get_ctx in
  match config_it c with
  | None =>
      let* it := of_option (subsystems_it c) in
      update (set_it (json_next (values c) it)) ;;
      send_msg load_subsystem_msg
  | Some it =>
      match decode_object (values c) it jsonrpc_cmd_decoders with
      | None => app_json_config_load_done (- EINVAL)
      | Some [m; params] =>
          let* m := of_option m in
          let* mv := of_option (values c !! m) in
          let method := string_of (json_data c) mv in
          let '(rc, state_mask) := get_method_state_mask method in
          if bool_decide (rc = - ENOENT)%Z then app_json_config_load_done rc
          else
            let* cur_state_mask := gets rpc_state in
            if bool_decide (Z.land state_mask cur_state_mask ≠ cur_state_mask) then entry_skip
            else
              let startup_runtime := Z.lor SPDK_RPC_STARTUP SPDK_RPC_RUNTIME in
              if bool_decide (Z.land state_mask startup_runtime = startup_runtime) &&
                 bool_decide (cur_state_mask = SPDK_RPC_RUNTIME) then entry_skip
              else
                let* text := match params with
                             | Some p => let* t := of_option (raw_params (json_data c) (values c) p) in ret (Some t)
                             | None => ret None
                             end in
                if negb (bool_decide (i_create i = 0)%Z) then app_json_config_load_done (- i_create i)
                else if negb (i_begin i) then app_json_config_load_done (- ENOMEM)
                else
                  let* rc := client_send_request i (rpc_request_id c) method text entry_next in
                  when negb (bool_decide (rc = 0)%Z) then app_json_config_load_done (- rc)
      | Some _ => undef
      end
  end.

Definition app_json_config_load_subsystem_config_entry_next (i : input) : LD unit :=
  let* c := get_ctx in
  let* it := of_option (config_it c) in
  update (set_config_it (json_next (values c) it)) ;;
  app_json_config_load_subsystem_config_entry i.

Definition app_json_config_load_subsystem (i : input) : LD unit :=
  let* c := get_ctx in
  match subsystems_it c with
  | None =>
      let* st := gets rpc_state in
      if bool_decide (st = SPDK_RPC_STARTUP) then
        emit o_subsystem_init ;;
        modify (λ w, World (ctx w) (rpc_state w) (pollers w) (msgs w) (S (init_pending w)) (log w))
      else app_json_config_load_done 0
  | Some it =>
      match decode_object (values c) it subsystem_decoders with
      | None => app_json_config_load_done (- EINVAL)
      | Some [name; cfg] =>
          update (set_subsystem name cfg) ;;
          let* cfg := of_option cfg in
          update (set_config_it (array_first (values c) cfg)) ;;
          app_json_config_load_subsystem_config_entry i
      | Some _ => undef
      end
  end.

Definition subsystem_init_done (rc : Z) (i : input) : LD unit :=
  if negb (bool_decide (rc = 0)%Z) then app_json_config_load_done rc
  else
    modify (λ w, World (ctx w) SPDK_RPC_RUNTIME (pollers w) (msgs w) (init_pending w) (log w)) ;;
    emit (o_set_state SPDK_RPC_RUNTIME) ;;
    let* c := get_ctx in
    (match subsystems c with
     | Some s => update (set_it (array_first (values c) s))
     | None => ret tt
     end) ;;
    app_json_config_load_subsystem i.

Definition run_resp_handler (h : resp_handler) (i : input) : LD unit :=
  match h with entry_next => app_json_config_load_subsystem_config_entry_next i end.

(** Printing the error of a response. *)
Definition print_error (e : option (list (list Z * Z))) : LD unit := λ w,
  match e with
  | None => Ok tt w
  | Some ps => match write_pieces ps (WriteBuf [] 0) with Ok _ _ => Ok tt w | _ => Undef end
  end.

Definition rpc_client_poller (i : input) : LD unit :=
  let* _ := get_ctx in
  let* rc :=
    (if bool_decide (i_poll i = 0)%Z then
       let* t := rpc_client_check_timeout (i_now i) in
       if bool_decide (t = - ETIMEDOUT)%Z then
         rpc_client_set_timeout (i_later i) RPC_CLIENT_REQUEST_TIMEOUT_US ;; ret 0%Z
       else ret t
     else ret (i_poll i)) in
  if bool_decide (rc = 0)%Z then ret tt
  else if bool_decide (rc < 0)%Z then app_json_config_load_done rc
  else
    print_error (i_error i) ;;
    let* c := get_ctx in
    if bool_decide (is_Some (i_error i)) && stop_on_error c then app_json_config_load_done (- EINVAL)
    else
      let cb := client_resp_cb c in
      assert (bool_decide (is_Some cb)) ;;
      let* cb := of_option cb in
      update (set_resp_cb None) ;;
      run_resp_handler cb i.

Definition rpc_client_connect_poller (i : input) : LD unit :=
  let* _ := get_ctx in
  if bool_decide (i_poll i ≠ - ENOTCONN)%Z then
    unregister ;;
    register rpc_poller ;;
    app_json_config_load_subsystem i
  else
    let* rc := rpc_client_check_timeout (i_now i) in
    when negb (bool_decide (rc = 0)%Z) then app_json_config_load_done rc.

(** *** Starting *)

(** What the calls of the start return: the file ([inr] the errno), whether
    memory was available for the context and the values, the process id,
    [spdk_rpc_initialize], and whether the client could connect. *)
Record start_input := StartInput {
  s_file : list Z + Z;
  s_ctx : bool;
  s_values : bool;
  s_pid : nat;
  s_rpc : Z;
  s_conn : bool;
  s_ticks : Z
}.

Definition app_json_config_read (si : start_input) : LD Z :=
  match s_file si with
  | inr errno => ret (- errno)%Z
  | inl json =>
      let values_cnt := json_count json in
      if bool_decide (values_cnt < 0)%Z then ret values_cnt
      else if negb (s_values si) then ret values_cnt
      else
        let '(rc, vs) := json_parse json (Z.to_nat values_cnt) in
        if bool_decide (rc ≠ values_cnt)%Z then ret rc
        else update (set_values json vs) ;; ret 0%Z
  end.

Definition SPDK_DEFAULT_RPC_ADDR : list Z := chars "/var/tmp/spdk.sock".
Definition socket_path (rpc_addr : option (list Z)) (pid : nat) : list Z :=
  let addr := match rpc_addr with
              | Some (c :: a) => if bool_decide (c = 47)%Z then c :: a else SPDK_DEFAULT_RPC_ADDR
              | _ => SPDK_DEFAULT_RPC_ADDR
              end in
  addr ++ chars "." ++ chars (pretty pid) ++ chars "_config".

(** The label [fail]. *)
Definition start_fail : LD unit := app_json_config_load_done (- EINVAL).

Definition start_connect (rpc_addr : option (list Z)) (si : start_input) : LD unit :=
  let* _ := get_ctx in
  let path := socket_path rpc_addr (s_pid si) in
  if bool_decide (sun_path_size + 1 <= length path) then start_fail
  else if negb (bool_decide (s_rpc si = 0)%Z) then start_fail
  else
    emit o_rpc_initialize ;;
    if negb (s_conn si) then start_fail
    else
      update (set_conn true) ;;
      rpc_client_set_timeout (s_ticks si) RPC_CLIENT_CONNECT_TIMEOUT_US ;;
      register connect_poller.

Definition spdk_subsystem_init_from_json_config_temp
    (rpc_addr : option (list Z)) (stop : bool) (si : start_input) : LD unit :=
  if negb (s_ctx si) then emit (o_done (- ENOMEM))
  else
    modify (with_ctx (Some (set_stop stop zero_ctx))) ;;
    let* rc := app_json_config_read si in
    if negb (bool_decide (rc = 0)%Z) then start_fail
    else
      let* c := get_ctx in
      let '(rc, s) := find_array (values c) "subsystems" in
      if bool_decide (rc = 0)%Z then
        let* a := of_option s in
        update (set_subsystems s (array_first (values c) a)) ;;
        start_connect rpc_addr si
      else if bool_decide (rc = - EPROTOTYPE)%Z then start_fail
      else if bool_decide (rc = - ENOENT)%Z then start_connect rpc_addr si
      else start_fail.

(** *** Events *)
Inductive event := ev_poll (i : input) | ev_msg (i : input) | ev_init (rc : Z) (i : input).

Definition run_msg (m : msg) (i : input) : LD unit :=
  match m with
  | load_subsystem_msg => app_json_config_load_subsystem i
  | load_entry_msg => app_json_config_load_subsystem_config_entry i
  end.

(** The event can happen. *)
Definition enabled (e : event) (w : world) : bool :=
  match e with
  | ev_poll _ => negb (bool_decide (pollers w = []))
  | ev_msg _ => negb (bool_decide (msgs w = []))
  | ev_init _ _ => bool_decide (0 < init_pending w)
  end.
Definition handle (e : event) : LD unit := λ w,
  match e with
  | ev_poll i =>
      match pollers w with
      | connect_poller :: _ => rpc_client_connect_poller i w
      | rpc_poller :: _ => rpc_client_poller i w
      | [] => Ok tt w
      end
  | ev_msg i =>
      match msgs w with
      | m :: ms => run_msg m i (World (ctx w) (rpc_state w) (pollers w) ms (init_pending w) (log w))
      | [] => Ok tt w
      end
  | ev_init rc i =>
      match init_pending w with
      | S n => subsystem_init_done rc i (World (ctx w) (rpc_state w) (pollers w) (msgs w) n (log w))
      | 0 => Ok tt w
      end
  end.

(** Before the loader is called. *)
Definition idle_world : world := World None SPDK_RPC_STARTUP [] [] 0 [].
End loader.
