(* ===== verification/JsonConfigInv.v ===== *)
(** * json_config.c: the plan of a load, and the invariant of the loader

    [plan] is what a load does with the values of the configuration: the
    requests of the startup methods, the initialisation of the subsystems, the
    requests of the runtime methods, and the callback.  [phase] describes the
    states between events by what is still to be done of the plan. *)
From stdpp Require Import base list strings pretty.
From S2P Require Import Prelude Bytes JsonConfig.

(** What the loader relies on of the JSON and RPC libraries: arrays are finite,
    a decoded object has its required members and only accepted ones, an object
    ends within the values, and a text has at least one value or an error. *)
Class JsonLaws `{!JsonLib} := {
  elements : list json_val → option nat → list nat;
  elements_None vs : elements vs None = [];
  elements_Some vs v : elements vs (Some v) = v :: elements vs (json_next vs v);
  decode_ok vs v ds l : decode_object vs v ds = Some l →
    Forall2 (λ d o, (d.2 = false → is_Some o) ∧
      ∀ p, o = Some p → ∃ x, vs !! p = Some x ∧ d.1.2 x = 0%Z) ds l;
  object_end vs p x : vs !! p = Some x → jtype x = VAL_OBJECT_BEGIN → p + val_len vs p - 1 < length vs;
  find_array_ok vs k s : find_array vs k = (0%Z, s) → is_Some s;
  json_count_nz d : json_count d ≠ 0%Z;
  json_parse_nz d n : (json_parse d n).1 ≠ 0%Z;
  states_differ : SPDK_RPC_STARTUP ≠ SPDK_RPC_RUNTIME
}.

(** ** The plan *)
Section plan.
Context `{!JsonLib, !JsonLaws}.
Context (data : list Z) (vs : list json_val).

Inductive verdict := v_skip | v_send (method : list Z) (params : option (list Z)) | v_fail (rc : Z).

(** A method is sent in the state it is allowed in, once. *)
Definition method_verdict (st : Z) (method : list Z) (params : option (list Z)) : verdict :=
  let '(rc, mask) := get_method_state_mask method in
  if bool_decide (rc = - ENOENT)%Z then v_fail rc
  else if bool_decide (Z.land mask st ≠ st) then v_skip
  else if bool_decide (Z.land mask (Z.lor SPDK_RPC_STARTUP SPDK_RPC_RUNTIME) = Z.lor SPDK_RPC_STARTUP SPDK_RPC_RUNTIME) &&
          bool_decide (st = SPDK_RPC_RUNTIME) then v_skip
  else v_send method params.
Definition entry_verdict (st : Z) (v : nat) : verdict :=
  match decode_object vs v jsonrpc_cmd_decoders with
  | Some [Some m; params] =>
      match vs !! m with
      | Some mv => method_verdict st (string_of data mv) (params ≫= raw_params data vs)
      | None => v_fail (- EINVAL)
      end
  | _ => v_fail (- EINVAL)
  end.
Definition sub_entries (v : nat) : option (list nat) :=
  match decode_object vs v subsystem_decoders with
  | Some [_; Some cfg] => Some (elements vs (array_first vs cfg))
  | _ => None
  end.

(** Requests, and the error that ends them. *)
Fixpoint plan_entries (st : Z) (es : list nat) : list out * option Z :=
  match es with
  | [] => ([], None)
  | v :: es =>
      match entry_verdict st v with
      | v_skip => plan_entries st es
      | v_send m p => let '(os, r) := plan_entries st es in (o_request 0 m p :: os, r)
      | v_fail rc => ([], Some rc)
      end
  end.
Definition join (p k : list out * option Z) : list out * option Z :=
  match p.2 with Some _ => p | None => (p.1 ++ k.1, k.2) end.
Fixpoint plan_subs (st : Z) (subs : list nat) : list out * option Z :=
  match subs with
  | [] => ([], None)
  | v :: subs =>
      match sub_entries v with
      | Some es => join (plan_entries st es) (plan_subs st subs)
      | None => ([], Some (- EINVAL)%Z)
      end
  end.

Context (all : list nat).

Definition ended (rc : Z) : list out := [o_rpc_finish; o_done rc].
Definition runtime_plan : list out :=
  let '(os, r) := plan_subs SPDK_RPC_RUNTIME all in os ++ ended (default 0%Z r).
Definition after_init : list out := o_set_state SPDK_RPC_RUNTIME :: runtime_plan.
(** What remains in state [st] from entries [es] and subsystems [subs] on. *)
Definition remaining (st : Z) (es subs : list nat) : list out :=
  let '(os, r) := join (plan_entries st es) (plan_subs st subs) in
  os ++ match r with
        | Some rc => ended rc
        | None => if bool_decide (st = SPDK_RPC_STARTUP) then o_subsystem_init :: after_init else ended 0
        end.
Definition plan : list out := o_rpc_initialize :: remaining SPDK_RPC_STARTUP [] all.

(** How many events it takes at most. *)
Definition sub_cost (v : nat) : nat := 3 + 2 * length (default [] (sub_entries v)).
Definition subs_cost (st : Z) (subs : list nat) : nat :=
  foldr (λ v n, sub_cost v + n) (if bool_decide (st = SPDK_RPC_STARTUP) then 3 + foldr (λ v n, sub_cost v + n) 1 all else 1) subs.

Lemma remaining_nil_entry st subs : remaining st [] subs =
  let '(os, r) := plan_subs st subs in
  os ++ match r with
        | Some rc => ended rc
        | None => if bool_decide (st = SPDK_RPC_STARTUP) then o_subsystem_init :: after_init else ended 0
        end.
Proof. unfold remaining, join. simpl. by destruct (plan_subs st subs). Qed.

Lemma remaining_skip st v es subs : entry_verdict st v = v_skip → remaining st (v :: es) subs = remaining st es subs.
Proof. intros Hv. unfold remaining. simpl. by rewrite Hv. Qed.
Lemma remaining_send st v es subs m p :
  entry_verdict st v = v_send m p → remaining st (v :: es) subs = o_request 0 m p :: remaining st es subs.
Proof.
  intros Hv. unfold remaining, join. simpl. rewrite Hv.
  destruct (plan_entries st es) as [os [r|]]; simpl; [done|]. by destruct (plan_subs st subs).
Qed.
Lemma remaining_fail st v es subs rc : entry_verdict st v = v_fail rc → remaining st (v :: es) subs = ended rc.
Proof. intros Hv. unfold remaining, join. simpl. by rewrite Hv. Qed.
Lemma remaining_sub st v subs es : sub_entries v = Some es → remaining st [] (v :: subs) = remaining st es subs.
Proof.
  intros Hv. rewrite remaining_nil_entry. simpl. rewrite Hv. unfold remaining. done.
Qed.
Lemma remaining_bad st v subs : sub_entries v = None → remaining st [] (v :: subs) = ended (- EINVAL).
Proof. intros Hv. rewrite remaining_nil_entry. simpl. by rewrite Hv. Qed.
End plan.

(** ** The states between events *)
Section invariant.
Context `{!JsonLib, !JsonLaws}.
Context (data : list Z) (vs : list json_val) (s0 : option nat).
Implicit Types (w : world) (c : load_json_config_ctx) (i : input) (st : Z) (es subs : list nat) (n : nat).

(** The subsystems of the configuration. *)
Definition all : list nat := match s0 with Some s => elements vs (array_first vs s) | None => [] end.
Abbreviation remaining := (remaining data vs all).
Abbreviation subs_cost := (subs_cost vs all).

(** A context with poller [p] that holds the configuration. *)
Definition holds (p : poller) c w : Prop :=
  ctx w = Some c ∧ pollers w = [p] ∧ client_conn_poller c = Some p ∧
  values c = vs ∧ json_data c = data ∧ subsystems c = s0 ∧ rpc_request_id c = 0%Z ∧
  (rpc_state w = SPDK_RPC_STARTUP ∨ rpc_state w = SPDK_RPC_RUNTIME).

(** What is still to be done, and the events it takes at most. *)
Inductive phase w c : list out → nat → Prop :=
| ph_connect :
    holds connect_poller c w → msgs w = [] → init_pending w = 0 → client_resp_cb c = None →
    phase w c (remaining (rpc_state w) [] (elements vs (subsystems_it c)))
      (S (subs_cost (rpc_state w) (elements vs (subsystems_it c))))
| ph_request v s :
    holds rpc_poller c w → msgs w = [] → init_pending w = 0 → client_resp_cb c = Some entry_next →
    config_it c = Some v → subsystems_it c = Some s →
    phase w c (remaining (rpc_state w) (elements vs (json_next vs v)) (elements vs (json_next vs s)))
      (2 * length (elements vs (json_next vs v)) + 2 + subs_cost (rpc_state w) (elements vs (json_next vs s)))
| ph_entry s :
    holds rpc_poller c w → msgs w = [load_entry_msg] → init_pending w = 0 → client_resp_cb c = None →
    subsystems_it c = Some s →
    phase w c (remaining (rpc_state w) (elements vs (config_it c)) (elements vs (json_next vs s)))
      (2 * length (elements vs (config_it c)) + 1 + subs_cost (rpc_state w) (elements vs (json_next vs s)))
| ph_subsystem :
    holds rpc_poller c w → msgs w = [load_subsystem_msg] → init_pending w = 0 → client_resp_cb c = None →
    phase w c (remaining (rpc_state w) [] (elements vs (subsystems_it c)))
      (subs_cost (rpc_state w) (elements vs (subsystems_it c)))
| ph_init :
    holds rpc_poller c w → msgs w = [] → init_pending w = 1 → client_resp_cb c = None →
    rpc_state w = SPDK_RPC_STARTUP → subsystems_it c = None →
    phase w c (after_init data vs all) (2 + foldr (λ v n, sub_cost vs v + n) 1 all).

(** The context is freed and nothing is registered or pending. *)
Definition released w : Prop := ctx w = None ∧ pollers w = [] ∧ msgs w = [] ∧ init_pending w = 0.
Definition cut_short (l k : list out) : Prop :=
  ∃ pre rest rc, l = pre ++ rest ∧ rest ≠ [] ∧ k = pre ++ ended rc ∧ rc ≠ 0%Z.

(** Live with fewer than [n] events to go, or released with the plan [l] carried
    out; it is cut short only by an error of the environment. *)
Definition outcome (l : list out) (clean : bool) n w : Prop :=
  (∃ c todo m, phase w c todo m ∧ log w ++ todo = l ∧ m < n) ∨
  (released w ∧ (log w = l ∨ (clean = false ∧ cut_short l (log w)))).

(** The calls of the event succeed. *)
Definition clean_input i : bool := bool_decide (i_create i = 0%Z) && i_begin i && bool_decide (i_send i = 0%Z).

Lemma outcome_mono l b b' n n' w : outcome l b n w → n ≤ n' → (b' = true → b = true) → outcome l b' n' w.
Proof.
  intros [(c & todo & m & ? & ? & ?)|[Hr [?|[-> ?]]]] Hn Hb; [left|right|right].
  - exists c, todo, m. split_and!; [done|done|lia].
  - by split; [|left].
  - split; [done|]. right. split; [|done]. destruct b'; [by specialize (Hb eq_refl)|done].
Qed.

(** *** The primitive steps *)
Lemma wp_get_ctx w c (Q : load_json_config_ctx → world → Prop) : ctx w = Some c → Q c w → wp get_ctx w Q.
Proof. intros Hc HQ. unfold wp, get_ctx, of_option. by rewrite Hc. Qed.
Lemma wp_update w c f (Q : unit → world → Prop) : ctx w = Some c → Q tt (with_ctx (Some (f c)) w) → wp (update f) w Q.
Proof. intros Hc HQ. apply wp_bind. eapply wp_get_ctx; [exact Hc|]. by apply wp_modify. Qed.
Lemma wp_some {A} (a : A) w (Q : A → world → Prop) : Q a w → wp (of_option (Some a)) w Q.
Proof. done. Qed.

Lemma wp_done rc p c w :
  holds p c w →
  wp (app_json_config_load_done rc) w (λ _ w',
    w' = World None (rpc_state w) [] (msgs w) (init_pending w) (log w ++ ended rc)).
Proof.
  intros (Hc & Hp & Hcp & _). unfold app_json_config_load_done, unregister.
  apply wp_bind, wp_bind. eapply wp_get_ctx; [exact Hc|]. rewrite Hcp. apply wp_bind, wp_modify.
  eapply wp_update; [exact Hc|]. apply wp_bind. eapply wp_get_ctx; [done|]. apply wp_bind, wp_modify, wp_bind.
  eapply wp_get_ctx; [done|]. apply wp_bind, wp_modify, wp_bind. eapply wp_get_ctx; [done|]. apply wp_modify.
  simpl. by rewrite <-app_assoc.
Qed.

(** Ending where the plan ends, and ending early. *)
Lemma done_planned rc p c w l b n :
  holds p c w → msgs w = [] → init_pending w = 0 → log w ++ ended rc = l →
  wp (app_json_config_load_done rc) w (λ _ w', outcome l b n w').
Proof.
  intros Hh Hm Hi Hl. eapply wp_mono; [by eapply wp_done|]. intros [] w' ->. right. simpl. by split; [|left].
Qed.
Lemma done_early rc p c w l todo n :
  holds p c w → msgs w = [] → init_pending w = 0 → log w ++ todo = l → todo ≠ [] → rc ≠ 0%Z →
  wp (app_json_config_load_done rc) w (λ _ w', outcome l false n w').
Proof.
  intros Hh Hm Hi Hl Ht Hrc. eapply wp_mono; [by eapply wp_done|]. intros [] w' ->. right. simpl. split; [done|right].
  split; [done|]. by exists (log w), todo, rc.
Qed.

Lemma remaining_ne st es subs : remaining st es subs ≠ [].
Proof.
  unfold JsonConfigInv.remaining. destruct (join _ _) as [os [r|]]; [|case_bool_decide]; by destruct os.
Qed.

(** *** Decoding *)
Lemma decode_entry_cases v :
  match decode_object vs v jsonrpc_cmd_decoders with
  | None => True
  | Some l => ∃ m params mv, l = [Some m; params] ∧ vs !! m = Some mv ∧
      (∀ p, params = Some p → is_Some (raw_params data vs p))
  end.
Proof.
  destruct (decode_object vs v jsonrpc_cmd_decoders) as [l|] eqn:Hd; [|done].
  pose proof (decode_ok _ _ _ _ Hd) as Hf. unfold jsonrpc_cmd_decoders in Hf.
  apply Forall2_cons_inv_l in Hf as (o1 & l1 & [Hr1 Ha1] & H1 & ->).
  apply Forall2_cons_inv_l in H1 as (o2 & l2 & [_ Ha2] & H2 & ->). apply Forall2_nil_inv_l in H2 as ->.
  destruct (Hr1 eq_refl) as [m ->]. destruct (Ha1 m eq_refl) as (mv & Hmv & _).
  exists m, o2, mv. split_and!; [done|done|]. intros p ->. destruct (Ha2 p eq_refl) as (x & Hx & Hk).
  simpl in Hk. unfold cap_object in Hk. case_bool_decide as Hj; [|by unfold EINVAL in Hk].
  pose proof (object_end _ _ _ Hx Hj) as Hend. apply lookup_lt_is_Some_2 in Hend as [e He].
  unfold raw_params. rewrite Hx. simpl. rewrite He. by eexists.
Qed.

Lemma decode_subsystem_cases v :
  match decode_object vs v subsystem_decoders with
  | None => True
  | Some l => ∃ name cfg, l = [name; Some cfg]
  end.
Proof.
  destruct (decode_object vs v subsystem_decoders) as [l|] eqn:Hd; [|done].
  pose proof (decode_ok _ _ _ _ Hd) as Hf. unfold subsystem_decoders in Hf.
  apply Forall2_cons_inv_l in Hf as (o1 & l1 & _ & H1 & ->).
  apply Forall2_cons_inv_l in H1 as (o2 & l2 & [Hr2 _] & H2 & ->). apply Forall2_nil_inv_l in H2 as ->.
  destruct (Hr2 eq_refl) as [cfg ->]. by exists o1, cfg.
Qed.

(** *** The handlers *)
Lemma outcome_live l b n w c todo m : phase w c todo m → log w ++ todo = l → m < n → outcome l b n w.
Proof. intros. left. by exists c, todo, m. Qed.

Lemma wp_send_request i id method params h c w (Q : Z → world → Prop) :
  ctx w = Some c →
  (∀ t, Q (i_send i) (World (Some (set_timeout t (set_resp_cb (Some h) c))) (rpc_state w) (pollers w) (msgs w) (init_pending w)
     (log w ++ (if bool_decide (i_send i = 0)%Z then [o_request id method params] else [])))) →
  wp (client_send_request i id method params h) w Q.
Proof.
  intros Hc HQ. unfold client_send_request. apply wp_bind. eapply wp_update; [exact Hc|].
  apply wp_bind. unfold rpc_client_set_timeout. eapply wp_update; [done|]. apply wp_bind. eapply wp_get_ctx; [done|].
  apply wp_bind. specialize (HQ (uint64 (i_later i + uint64 (RPC_CLIENT_REQUEST_TIMEOUT_US * ticks_hz) / (1000 * 1000)))).
  simpl in HQ. case_bool_decide; [apply wp_modify, wp_ret; exact HQ|]. rewrite app_nil_r in HQ. apply wp_ret, wp_ret. exact HQ.
Qed.

Lemma wp_entry_skip c w v (Q : unit → world → Prop) :
  ctx w = Some c → config_it c = Some v →
  Q tt (World (Some (set_config_it (json_next (values c) v) c)) (rpc_state w) (pollers w) (msgs w ++ [load_entry_msg])
     (init_pending w) (log w)) →
  wp entry_skip w Q.
Proof.
  intros Hc Hv HQ. unfold entry_skip. apply wp_bind. eapply wp_get_ctx; [exact Hc|]. rewrite Hv. apply wp_bind, wp_some, wp_bind.
  eapply wp_update; [exact Hc|]. by apply wp_modify.
Qed.

(** Sending the request of an entry. *)
Lemma send_entry i w c v s method params l n :
  holds rpc_poller c w → msgs w = [] → init_pending w = 0 → config_it c = Some v → subsystems_it c = Some s →
  log w ++ o_request 0 method params :: remaining (rpc_state w) (elements vs (json_next vs v)) (elements vs (json_next vs s)) = l →
  2 * length (elements vs (json_next vs v)) + 3 + subs_cost (rpc_state w) (elements vs (json_next vs s)) ≤ n →
  wp (if negb (bool_decide (i_create i = 0)%Z) then app_json_config_load_done (- i_create i)
      else if negb (i_begin i) then app_json_config_load_done (- ENOMEM)
      else let* rc := client_send_request i (rpc_request_id c) method params entry_next in
           when negb (bool_decide (rc = 0)%Z) then app_json_config_load_done (- rc)) w
    (λ _ w', outcome l (clean_input i) n w').
Proof.
  intros Hh Hm Hi Hv Hs Hl Hn. pose proof Hh as (Hc & Hp & Hcp & Hvs & Hd & Hs0 & Hid & Hst). unfold clean_input.
  case_bool_decide as Hcr; cbn [negb andb]; [|eapply done_early; [exact Hh|done|done|exact Hl|done|lia]].
  destruct (i_begin i) eqn:Hb; cbn [negb andb]; [|by eapply done_early; [exact Hh|done|done|exact Hl|done|]].
  apply wp_bind. eapply wp_send_request; [exact Hc|]. intros t. case_bool_decide as Hsd; cbn [negb].
  - apply wp_ret. eapply outcome_live; [apply (ph_request _ (set_timeout t (set_resp_cb (Some entry_next) c)) v s); [|done..]| |].
    + by split_and!.
    + simpl. rewrite <-app_assoc, Hid. exact Hl.
    + simpl. lia.
  - eapply done_early; [|done|done|simpl; rewrite (app_nil_r (log w)); exact Hl|done|lia]. by split_and!.
Qed.

(** After the last entry of a subsystem. *)
Lemma entries_end b w c s l n :
  holds rpc_poller c w → msgs w = [] → init_pending w = 0 → client_resp_cb c = None → subsystems_it c = Some s →
  log w ++ remaining (rpc_state w) [] (elements vs (json_next vs s)) = l →
  2 * 0 + 1 + subs_cost (rpc_state w) (elements vs (json_next vs s)) ≤ n →
  wp (let* it := of_option (subsystems_it c) in
      update (set_it (json_next (values c) it)) ;; send_msg load_subsystem_msg) w (λ _ w', outcome l b n w').
Proof.
  intros Hh Hm Hi Hr Hs Hl Hn. pose proof Hh as (Hc & Hp & Hcp & Hvs & Hd & Hs0 & Hid & Hst).
  rewrite Hs. apply wp_bind, wp_some, wp_bind. eapply wp_update; [exact Hc|]. apply wp_modify.
  eapply outcome_live; [apply (ph_subsystem _ (set_it (json_next (values c) s) c))| |].
  - by split_and!.
  - simpl. by rewrite Hm.
  - done.
  - done.
  - simpl. by rewrite Hvs.
  - simpl in *. rewrite Hvs. lia.
Qed.

Lemma skip_entry b w c v s l n :
  holds rpc_poller c w → msgs w = [] → init_pending w = 0 → client_resp_cb c = None → config_it c = Some v → subsystems_it c = Some s →
  entry_verdict data vs (rpc_state w) v = v_skip →
  log w ++ remaining (rpc_state w) (v :: elements vs (json_next vs v)) (elements vs (json_next vs s)) = l →
  2 * S (length (elements vs (json_next vs v))) + 1 + subs_cost (rpc_state w) (elements vs (json_next vs s)) ≤ n →
  wp entry_skip w (λ _ w', outcome l b n w').
Proof.
  intros Hh Hm Hi Hr Hv Hs Hsk Hl Hn. pose proof Hh as (Hc & Hp & Hcp & Hvs & Hd & Hs0 & Hid & Hst).
  rewrite (remaining_skip _ _ _ _ _ _ _ Hsk) in Hl. eapply wp_entry_skip; [exact Hc|exact Hv|].
  eapply outcome_live; [apply (ph_entry _ (set_config_it (json_next (values c) v) c) s)| |].
  - by split_and!.
  - simpl. by rewrite Hm.
  - done.
  - done.
  - done.
  - simpl. by rewrite Hvs.
  - simpl. rewrite Hvs. lia.
Qed.

Lemma load_entry_ok i w c s l n :
  holds rpc_poller c w → msgs w = [] → init_pending w = 0 → client_resp_cb c = None → subsystems_it c = Some s →
  log w ++ remaining (rpc_state w) (elements vs (config_it c)) (elements vs (json_next vs s)) = l →
  2 * length (elements vs (config_it c)) + 1 + subs_cost (rpc_state w) (elements vs (json_next vs s)) ≤ n →
  wp (app_json_config_load_subsystem_config_entry i) w (λ _ w', outcome l (clean_input i) n w').
Proof.
  intros Hh Hm Hi Hr Hs Hl Hn. pose proof Hh as (Hc & Hp & Hcp & Hvs & Hd & Hs0 & Hid & Hst).
  unfold app_json_config_load_subsystem_config_entry. apply wp_bind. eapply wp_get_ctx; [exact Hc|].
  destruct (config_it c) as [v|] eqn:Hv.
  2: { rewrite elements_None in Hl, Hn. by eapply entries_end. }
  rewrite elements_Some in Hl, Hn. simpl in Hn. rewrite Hvs, Hd. pose proof (decode_entry_cases v) as Hdec.
  destruct (decode_object vs v jsonrpc_cmd_decoders) as [dl|] eqn:Hdo.
  2: { eapply done_planned; [exact Hh|done|done|]. rewrite <-Hl. f_equal. symmetry. apply remaining_fail.
    unfold entry_verdict. by rewrite Hdo. }
  destruct Hdec as (m & params & mv & -> & Hmv & Hpar). apply wp_bind, wp_some, wp_bind. rewrite Hmv. apply wp_some.
  assert (entry_verdict data vs (rpc_state w) v = method_verdict (rpc_state w) (string_of data mv) (params ≫= raw_params data vs)) as Hve
    by (unfold entry_verdict; by rewrite Hdo, Hmv).
  unfold method_verdict in Hve. destruct (get_method_state_mask (string_of data mv)) as [rc mask].
  assert (entry_verdict data vs (rpc_state w) v = v_skip → wp entry_skip w (λ _ w', outcome l (clean_input i) n w')) as Hskip
    by (intros Hsk; by eapply skip_entry).
  assert (∀ text, entry_verdict data vs (rpc_state w) v = v_send (string_of data mv) text → params ≫= raw_params data vs = text →
    wp (let* text := match params with
                     | Some p => let* t := of_option (raw_params data vs p) in ret (Some t)
                     | None => ret None
                     end in
        if negb (bool_decide (i_create i = 0)%Z) then app_json_config_load_done (- i_create i)
        else if negb (i_begin i) then app_json_config_load_done (- ENOMEM)
        else let* rc := client_send_request i (rpc_request_id c) (string_of data mv) text entry_next in
             when negb (bool_decide (rc = 0)%Z) then app_json_config_load_done (- rc)) w
      (λ _ w', outcome l (clean_input i) n w')) as Hsend.
  { intros text Hse Htext. rewrite (remaining_send _ _ _ _ _ _ _ _ _ Hse) in Hl. apply wp_bind.
    assert (wp (match params with
                | Some p => let* t := of_option (raw_params data vs p) in ret (Some t)
                | None => ret None
                end) w (λ r w', r = text ∧ w' = w)) as Hp'.
    { destruct params as [p|]; simpl in Htext; [|by subst]. destruct (Hpar p eq_refl) as [t Ht]. rewrite Ht in Htext |- *.
      subst. by apply wp_bind, wp_some, wp_ret. }
    eapply wp_mono; [exact Hp'|]. intros r w' [-> ->]. apply (send_entry i w c v s _ _ l n); [done..|exact Hl|lia]. }
  revert Hve. destruct (bool_decide (rc = - ENOENT)%Z); intros Hve.
  { eapply done_planned; [exact Hh|done|done|]. rewrite <-Hl. f_equal. symmetry. by apply remaining_fail. }
  apply wp_bind, wp_gets. cbn zeta. revert Hve. destruct (bool_decide (Z.land mask (rpc_state w) ≠ rpc_state w)); intros Hve; [by apply Hskip|].
  revert Hve. destruct (bool_decide (Z.land mask (Z.lor _ _) = _) && bool_decide (rpc_state w = _)); intros Hve; [by apply Hskip|].
  by eapply Hsend.
Qed.

Lemma load_subsystem_ok i w c l n :
  holds rpc_poller c w → msgs w = [] → init_pending w = 0 → client_resp_cb c = None →
  log w ++ remaining (rpc_state w) [] (elements vs (subsystems_it c)) = l →
  subs_cost (rpc_state w) (elements vs (subsystems_it c)) ≤ n →
  wp (app_json_config_load_subsystem i) w (λ _ w', outcome l (clean_input i) n w').
Proof.
  intros Hh Hm Hi Hr Hl Hn. pose proof Hh as (Hc & Hp & Hcp & Hvs & Hd & Hs0 & Hid & Hst).
  unfold app_json_config_load_subsystem. apply wp_bind. eapply wp_get_ctx; [exact Hc|].
  destruct (subsystems_it c) as [v|] eqn:Hv.
  - rewrite elements_Some in Hl, Hn. rewrite Hvs. pose proof (decode_subsystem_cases v) as Hdec.
    destruct (decode_object vs v subsystem_decoders) as [dl|] eqn:Hdo.
    2: { eapply done_planned; [exact Hh|done|done|]. rewrite <-Hl. f_equal. symmetry. apply remaining_bad.
      unfold sub_entries. by rewrite Hdo. }
    destruct Hdec as (name & cfg & ->).
    assert (sub_entries vs v = Some (elements vs (array_first vs cfg))) as Hse by (unfold sub_entries; by rewrite Hdo).
    rewrite (remaining_sub _ _ _ _ _ _ _ Hse) in Hl.
    change (sub_cost vs v + subs_cost (rpc_state w) (elements vs (json_next vs v)) ≤ n) in Hn.
    assert (sub_cost vs v = 3 + 2 * length (elements vs (array_first vs cfg))) as Hsc by (unfold sub_cost; by rewrite Hse).
    apply wp_bind. eapply wp_update; [exact Hc|]. apply wp_bind, wp_some, wp_bind. eapply wp_update; [done|].
    eapply (load_entry_ok _ _ (set_config_it (array_first vs cfg) (set_subsystem name (Some cfg) c)) v);
      [by split_and!|done|done|done|done|exact Hl|].
    simpl config_it. simpl rpc_state. lia.
  - rewrite elements_None in Hl, Hn. apply wp_bind, wp_gets. rewrite remaining_nil_entry in Hl.
    unfold JsonConfigInv.subs_cost in Hn. simpl in Hl. cbn [foldr] in Hn. revert Hl Hn. case_bool_decide as Hs; intros Hl Hn.
    + apply wp_bind, wp_modify, wp_modify. eapply outcome_live; [apply (ph_init _ c)| |].
      * by split_and!.
      * done.
      * simpl. by rewrite Hi.
      * done.
      * done.
      * done.
      * simpl. by rewrite <-app_assoc.
      * lia.
    + by eapply done_planned.
Qed.

(** The callback of [spdk_subsystem_init]. *)
Lemma init_done_ok rc i w c l n :
  holds rpc_poller c w → msgs w = [] → init_pending w = 0 → client_resp_cb c = None → subsystems_it c = None →
  log w ++ after_init data vs all = l → 1 + foldr (λ v n, sub_cost vs v + n) 1 all ≤ n →
  wp (subsystem_init_done rc i) w (λ _ w', outcome l (bool_decide (rc = 0)%Z && clean_input i) n w').
Proof.
  intros Hh Hm Hi Hr Hs Hl Hn. pose proof Hh as (Hc & Hp & Hcp & Hvs & Hd & Hs0 & Hid & Hst).
  unfold subsystem_init_done. case_bool_decide as Hrc; cbn [negb andb].
  2: { by eapply done_early; [exact Hh|done|done|exact Hl|done|]. }
  apply wp_bind, wp_modify, wp_bind, wp_modify, wp_bind. eapply wp_get_ctx; [exact Hc|]. apply wp_bind.
  pose proof states_differ as Hne.
  assert (wp (match subsystems c with
      | Some s => update (set_it (array_first (values c) s)) | None => ret tt end)
    (World (ctx w) SPDK_RPC_RUNTIME (pollers w) (msgs w) (init_pending w) (log w ++ [o_set_state SPDK_RPC_RUNTIME]))
    (λ _ w', ∃ c', w' = World (Some c') SPDK_RPC_RUNTIME (pollers w) (msgs w) (init_pending w) (log w ++ [o_set_state SPDK_RPC_RUNTIME]) ∧
       holds rpc_poller c' w' ∧ client_resp_cb c' = None ∧ elements vs (subsystems_it c') = all)) as Hset.
  { unfold all. rewrite Hs0. destruct s0 as [s|] eqn:Hs0'.
    - eapply wp_update; [exact Hc|]. exists (set_it (array_first (values c) s) c). simpl.
      split; [done|]. split; [unfold holds; split_and!; (done || (simpl; congruence) || by right)|]. split; [done|]. by rewrite Hvs.
    - apply wp_ret. exists c. rewrite Hc. split; [done|]. split; [unfold holds; split_and!; (done || (simpl; congruence) || by right)|].
      split; [done|]. by rewrite Hs, elements_None. }
  eapply wp_mono; [exact Hset|]. cbn beta. intros [] w' (c' & -> & Hh' & Hr' & He').
  eapply load_subsystem_ok; [exact Hh'|done|done|done| |].
  - rewrite He'. rewrite <-Hl. unfold after_init, runtime_plan. rewrite remaining_nil_entry. simpl.
    rewrite <-app_assoc. simpl. do 2 f_equal. destruct (plan_subs data vs SPDK_RPC_RUNTIME all) as [os [r|]]; simpl; [done|].
    by rewrite bool_decide_eq_false_2.
  - rewrite He'. unfold JsonConfigInv.subs_cost. cbn [rpc_state]. rewrite bool_decide_eq_false_2 by done. lia.
Qed.

(** *** Events *)

(** The text of an error response fits the buffer it is printed from. *)
Definition fits i : Prop :=
  match i_error i with Some ps => write_pieces ps (WriteBuf [] 0) ≠ Undef | None => True end.

(** The connection reports something only when a request is outstanding, and
    errors that fit. *)
Definition polite (e : event) w : Prop :=
  match e with
  | ev_poll i => fits i ∧
      ∀ c, ctx w = Some c → client_conn_poller c = Some rpc_poller → client_resp_cb c = None → i_poll i = 0%Z
  | _ => True
  end.

(** The event finds nothing to do. *)
Definition idle (e : event) w : bool :=
  match e, ctx w with
  | ev_poll i, Some c =>
      match client_conn_poller c with
      | Some connect_poller => bool_decide (i_poll i = - ENOTCONN)%Z && negb (bool_decide (timeout c < i_now i)%Z)
      | Some rpc_poller => bool_decide (i_poll i = 0)%Z
      | None => false
      end
  | _, _ => false
  end.

(** The event brings no error that ends the load. *)
Definition clean (e : event) w : bool :=
  match e with
  | ev_poll i =>
      match ctx w with
      | Some c =>
          match client_conn_poller c with
          | Some connect_poller => bool_decide (i_poll i ≠ - ENOTCONN)%Z
          | _ => bool_decide (0 < i_poll i)%Z && negb (bool_decide (is_Some (i_error i)) && stop_on_error c)
          end && clean_input i
      | None => false
      end
  | ev_msg i => clean_input i
  | ev_init rc i => bool_decide (rc = 0)%Z && clean_input i
  end.

Lemma write_pieces_cases ps b : write_pieces ps b = Undef ∨ ∃ b', write_pieces ps b = Ok tt b'.
Proof.
  revert b. induction ps as [|[d n] ps IH]; intros b; simpl; [by right; eexists|].
  unfold bind, json_write_stdout. case_bool_decide; [by left|].
  destruct (bool_decide (_ = n)); simpl; [apply IH|by right; eexists].
Qed.

Lemma wp_print_error i w (Q : unit → world → Prop) : fits i → Q tt w → wp (print_error (i_error i)) w Q.
Proof.
  unfold fits, wp, print_error. destruct (i_error i) as [ps|]; [|done]. intros Hf HQ.
  destruct (write_pieces_cases ps (WriteBuf [] 0)) as [?|[b ->]]; [done|exact HQ].
Qed.

(** A poll with a response. *)
Lemma response_ok i w c v s l n :
  holds rpc_poller c w → msgs w = [] → init_pending w = 0 → client_resp_cb c = Some entry_next →
  config_it c = Some v → subsystems_it c = Some s → fits i → i_poll i ≠ 0%Z →
  log w ++ remaining (rpc_state w) (elements vs (json_next vs v)) (elements vs (json_next vs s)) = l →
  2 * length (elements vs (json_next vs v)) + 1 + subs_cost (rpc_state w) (elements vs (json_next vs s)) ≤ n →
  wp (rpc_client_poller i) w (λ _ w', outcome l
    (bool_decide (0 < i_poll i)%Z && negb (bool_decide (is_Some (i_error i)) && stop_on_error c) && clean_input i) n w').
Proof.
  intros Hh Hm Hi Hr Hv Hs Hf Hpo Hl Hn. pose proof Hh as (Hc & Hp & Hcp & Hvs & Hd & Hs0 & Hid & Hst).
  pose proof (remaining_ne (rpc_state w) (elements vs (json_next vs v)) (elements vs (json_next vs s))) as Hne.
  unfold rpc_client_poller. apply wp_bind. eapply wp_get_ctx; [exact Hc|]. apply wp_bind.
  rewrite bool_decide_eq_false_2 by done. apply wp_ret. rewrite bool_decide_eq_false_2 by done.
  case_bool_decide as Hneg.
  { rewrite (bool_decide_eq_false_2 (0 < i_poll i)%Z) by lia. by eapply done_early. }
  rewrite (bool_decide_eq_true_2 (0 < i_poll i)%Z) by lia. apply wp_bind, wp_print_error; [done|]. apply wp_bind.
  eapply wp_get_ctx; [exact Hc|]. destruct (bool_decide (is_Some (i_error i)) && stop_on_error c); cbn [negb andb].
  { by eapply done_early. }
  rewrite Hr. cbn zeta. apply wp_bind. rewrite bool_decide_eq_true_2 by done. apply wp_ret, wp_bind, wp_some, wp_bind.
  eapply wp_update; [exact Hc|]. cbn [run_resp_handler]. apply wp_bind. eapply wp_get_ctx; [done|]. cbn [config_it set_resp_cb].
  rewrite Hv. apply wp_bind, wp_some, wp_bind. eapply wp_update; [done|].
  eapply (load_entry_ok _ _ (set_config_it (json_next vs v) (set_resp_cb None c)) s); [|done..|exact Hl|exact Hn].
  split_and!; try done. simpl. by rewrite Hvs.
Qed.

(** A poll while the client connects. *)
Lemma connected_ok i w c l n :
  holds connect_poller c w → msgs w = [] → init_pending w = 0 → client_resp_cb c = None → i_poll i ≠ (- ENOTCONN)%Z →
  log w ++ remaining (rpc_state w) [] (elements vs (subsystems_it c)) = l →
  subs_cost (rpc_state w) (elements vs (subsystems_it c)) ≤ n →
  wp (rpc_client_connect_poller i) w (λ _ w', outcome l (clean_input i) n w').
Proof.
  intros Hh Hm Hi Hr Hpo Hl Hn. pose proof Hh as (Hc & Hp & Hcp & Hvs & Hd & Hs0 & Hid & Hst).
  unfold rpc_client_connect_poller. apply wp_bind. eapply wp_get_ctx; [exact Hc|].
  rewrite bool_decide_eq_true_2 by done. apply wp_bind. unfold unregister. apply wp_bind. eapply wp_get_ctx; [exact Hc|].
  rewrite Hcp. apply wp_bind, wp_modify. eapply wp_update; [exact Hc|]. apply wp_bind, wp_bind, wp_modify.
  eapply wp_update; [done|]. eapply (load_subsystem_ok _ _ (set_poller (Some rpc_poller) (set_poller None c)));
    [by split_and!|done..|exact Hl|exact Hn].
Qed.

Lemma connect_timeout_ok i w c l todo n :
  holds connect_poller c w → msgs w = [] → init_pending w = 0 → log w ++ todo = l → todo ≠ [] →
  i_poll i = (- ENOTCONN)%Z → (timeout c < i_now i)%Z →
  wp (rpc_client_connect_poller i) w (λ _ w', outcome l false n w').
Proof.
  intros Hh Hm Hi Hl Hne Hpo Ht. pose proof Hh as (Hc & _).
  unfold rpc_client_connect_poller. apply wp_bind. eapply wp_get_ctx; [exact Hc|].
  rewrite bool_decide_eq_false_2 by (intros Hn; by apply Hn). apply wp_bind, wp_bind. eapply wp_get_ctx; [exact Hc|].
  apply wp_ret. rewrite (bool_decide_eq_true_2 (timeout c < i_now i)%Z) by done.
  by eapply done_early.
Qed.

(** A poll that finds nothing to do. *)
Lemma connect_idle i w c (Q : unit → world → Prop) :
  ctx w = Some c → i_poll i = (- ENOTCONN)%Z → ¬ (timeout c < i_now i)%Z → Q tt w →
  wp (rpc_client_connect_poller i) w Q.
Proof.
  intros Hc Hpo Ht HQ. unfold rpc_client_connect_poller. apply wp_bind. eapply wp_get_ctx; [exact Hc|].
  rewrite bool_decide_eq_false_2 by (intros Hn; by apply Hn). apply wp_bind, wp_bind. eapply wp_get_ctx; [exact Hc|].
  apply wp_ret. rewrite (bool_decide_eq_false_2 (timeout c < i_now i)%Z) by done. exact HQ.
Qed.
Lemma poll_idle i w c (Q : unit → world → Prop) :
  ctx w = Some c → i_poll i = 0%Z → (∀ t, Q tt (with_ctx (Some (set_timeout t c)) w)) → Q tt w →
  wp (rpc_client_poller i) w Q.
Proof.
  intros Hc Hpo HQt HQ. unfold rpc_client_poller. apply wp_bind. eapply wp_get_ctx; [exact Hc|].
  rewrite (bool_decide_eq_true_2 (i_poll i = 0)%Z) by done. apply wp_bind, wp_bind, wp_bind.
  eapply wp_get_ctx; [exact Hc|]. apply wp_ret. destruct (bool_decide (timeout c < i_now i)%Z).
  - rewrite bool_decide_eq_true_2 by done. apply wp_bind. unfold rpc_client_set_timeout.
    eapply wp_update; [exact Hc|]. apply wp_ret. rewrite bool_decide_eq_true_2 by done. apply wp_ret, HQt.
  - rewrite bool_decide_eq_false_2 by done. apply wp_ret. rewrite bool_decide_eq_true_2 by done. by apply wp_ret.
Qed.

Lemma phase_holds w c todo m : phase w c todo m → ∃ p, holds p c w.
Proof. destruct 1; by eexists. Qed.

Lemma phase_timeout t w c todo m :
  phase w c todo m → phase (with_ctx (Some (set_timeout t c)) w) (set_timeout t c) todo m.
Proof.
  assert (∀ p, holds p c w → holds p (set_timeout t c) (with_ctx (Some (set_timeout t c)) w)) as Hh
    by (intros p (?&?&?&?&?&?&?&?); by split_and!).
  destruct 1.
  - by apply (ph_connect (with_ctx _ w) (set_timeout t c)); [apply Hh|..].
  - by apply (ph_request (with_ctx _ w) (set_timeout t c)); [apply Hh|..].
  - by apply (ph_entry (with_ctx _ w) (set_timeout t c)); [apply Hh|..].
  - by apply (ph_subsystem (with_ctx _ w) (set_timeout t c)); [apply Hh|..].
  - by apply (ph_init (with_ctx _ w) (set_timeout t c)); [apply Hh|..].
Qed.

(** What an event does in a phase. *)
Definition event_post (e : event) w todo m w' : Prop :=
  if idle e w then ∃ c', phase w' c' todo m ∧ log w' = log w
  else outcome (log w ++ todo) (clean e w) m w'.

Lemma poll_ok i w c todo m :
  phase w c todo m → polite (ev_poll i) w → wp (handle (ev_poll i)) w (λ _ w', event_post (ev_poll i) w todo m w').
Proof.
  intros Hph [Hf Hpol]. destruct (phase_holds _ _ _ _ Hph) as [p (Hc & Hp & Hcp & _)].
  assert (handle (ev_poll i) w = match p with connect_poller => rpc_client_connect_poller i w | rpc_poller => rpc_client_poller i w end)
    as Hhd by (unfold handle; by rewrite Hp).
  unfold wp. rewrite Hhd. unfold event_post, idle, clean. rewrite Hc, Hcp. specialize (Hpol c Hc). rewrite Hcp in Hpol. destruct p.
  - inversion Hph as [Hh Hm Hi Hr| | | |];
      try (match goal with H : holds rpc_poller _ _ |- _ => destruct H as (_ & ? & _); congruence end). subst.
    case_bool_decide as Hpo; cbn [andb].
    + rewrite (bool_decide_eq_false_2 (i_poll i ≠ _)) by (intros Hn; by apply Hn). case_bool_decide as Ht; cbn [negb andb].
      * eapply connect_timeout_ok; [exact Hh|done|done|done|apply remaining_ne|done|done].
      * eapply connect_idle; [done..|]. exists c. by split.
    + rewrite (bool_decide_eq_true_2 (i_poll i ≠ _)) by done.
      eapply connected_ok; [exact Hh|done|done|done|done|done|lia].
  - case_bool_decide as Hpo.
    + eapply poll_idle; [done..| |].
      * intros t. exists (set_timeout t c). split; [by apply phase_timeout|done].
      * by exists c.
    + assert (client_resp_cb c ≠ None) as Hr by (intros Hr; by apply Hpo, Hpol).
      inversion Hph as [Hh|v s Hh Hm Hi Hr' Hv Hs| | |]; try done; subst.
      * eapply response_ok; [exact Hh|done..|lia].
Qed.

Lemma event_ok e w c todo m :
  phase w c todo m → enabled e w → polite e w → wp (handle e) w (λ _ w', event_post e w todo m w').
Proof.
  intros Hph Hen Hpol. destruct e as [i|i|rc i]; [by eapply poll_ok| |].
  - assert (msgs w ≠ []) as Hne by (simpl in Hen; by case_bool_decide).
    inversion Hph as [? Hm|? ? ? Hm|s Hh Hm Hi Hr Hs|Hh Hm Hi Hr|? Hm]; try done; subst; unfold wp, handle, event_post; cbn [idle]; rewrite Hm;
      cbn [run_msg clean].
    + destruct Hh as (?&?&?&?&?&?&?&?). eapply (load_entry_ok _ (World _ _ _ _ _ _)); [|done..|simpl; lia]. by split_and!.
    + destruct Hh as (?&?&?&?&?&?&?&?). eapply (load_subsystem_ok _ (World _ _ _ _ _ _)); [|done..|simpl; lia]. by split_and!.
  - assert (init_pending w ≠ 0) as Hne by (simpl in Hen; case_bool_decide; [lia|done]).
    inversion Hph as [| | | |Hh Hm Hi Hr Hst Hs]; try done; subst. unfold wp, handle, event_post. cbn [idle clean]. rewrite Hi.
    destruct Hh as (?&?&?&?&?&?&?&?). eapply (init_done_ok _ _ (World _ _ _ _ _ _)); [|done..|lia]. by split_and!.
Qed.

(** ** Runs of the event loop *)

(** Runs with well-behaved connections; [b] says that no event brought an error,
    [n] counts the events that found something to do. *)
Inductive run : world → list event → bool → nat → world → Prop :=
| run_nil w : run w [] true 0 w
| run_cons w e w1 evs b n w2 :
    enabled e w → polite e w → handle e w = Ok tt w1 → run w1 evs b n w2 →
    run w (e :: evs) ((idle e w || clean e w) && b) ((if idle e w then 0 else 1) + n) w2.

Lemma released_enabled e w : released w → enabled e w = false.
Proof. intros (_ & Hp & Hm & Hi). destruct e; simpl; rewrite ?Hp, ?Hm, ?Hi; done. Qed.
Lemma released_run w evs b n w' : released w → run w evs b n w' → evs = [] ∧ b = true ∧ n = 0 ∧ w' = w.
Proof. intros Hr Hrun. destruct Hrun as [|w e ? ? ? ? ? He]; [done|]. rewrite (released_enabled e w Hr) in He. by destruct He. Qed.

(** After [n] events that did something; [cost] bounds them. *)
Definition progress (l : list out) (b : bool) (n cost : nat) w : Prop :=
  (∃ c todo m, phase w c todo m ∧ log w ++ todo = l ∧ m + n ≤ cost) ∨
  (released w ∧ n ≤ cost ∧ (log w = l ∨ (b = false ∧ cut_short l (log w)))).

Lemma progress_mono l b b' n n' m m' w :
  progress l b n m w → n' + m ≤ n + m' → n' ≤ m' → (b' = true → b = true) → progress l b' n' m' w.
Proof.
  intros [(c & todo & k & ? & ? & ?)|(Hr & ? & Hl)] Hn Hn' Hb; [left|right].
  - exists c, todo, k. split_and!; [done|done|lia].
  - split_and!; [done|lia|]. destruct Hl as [?|[-> ?]]; [by left|right]. split; [|done].
    destruct b'; [by specialize (Hb eq_refl)|done].
Qed.

Lemma event_progress e w c todo m w1 :
  phase w c todo m → enabled e w → polite e w → handle e w = Ok tt w1 →
  progress (log w ++ todo) (idle e w || clean e w) (if idle e w then 0 else 1) m w1.
Proof.
  intros Hph Hen Hpol Hh. pose proof (event_ok _ _ _ _ _ Hph Hen Hpol) as Hwp. unfold wp in Hwp. rewrite Hh in Hwp.
  unfold event_post in Hwp. destruct (idle e w); simpl.
  - destruct Hwp as (c' & Hph' & Hl). left. exists c', todo, m. rewrite Hl. split_and!; [done|done|lia].
  - assert (0 < m) as Hm by (destruct Hph; try lia; unfold JsonConfigInv.subs_cost; destruct (elements _ _) as [|v ?]; simpl;
      [case_bool_decide; lia|unfold sub_cost; lia]).
    destruct Hwp as [(c' & todo' & m' & ? & ? & ?)|(? & ?)]; [left|by right; split_and!].
    exists c', todo', m'. split_and!; [done|done|lia].
Qed.

Lemma run_progress w evs b n w' c todo m :
  run w evs b n w' → phase w c todo m → progress (log w ++ todo) b n m w'.
Proof.
  intros Hrun. revert c todo m. induction Hrun as [w|w e w1 evs b n w2 Hen Hpol Hh Hrun IH]; intros c todo m Hph.
  - left. exists c, todo, m. split_and!; [done|done|lia].
  - pose proof (event_progress _ _ _ _ _ _ Hph Hen Hpol Hh) as [(c1 & todo1 & m1 & Hph1 & Hl1 & Hm1)|(Hr & Hm1 & Hl1)].
    + specialize (IH _ _ _ Hph1). rewrite Hl1 in IH. eapply progress_mono; [exact IH|lia| |by destruct (_ || _)].
      destruct IH as [(? & ? & ? & ? & ? & ?)|(? & ? & ?)]; lia.
    + destruct (released_run _ _ _ _ _ Hr Hrun) as (-> & -> & -> & ->). right. rewrite andb_true_r. split_and!; [done|lia|done].
Qed.

(** An event that finds something to do and brings no error. *)
Definition good_input (rc : Z) : input := Input rc None 0 0 0 true 0.
Lemma good_event w c todo m : phase w c todo m →
  ∃ e, enabled e w ∧ polite e w ∧ idle e w = false ∧ clean e w = true.
Proof.
  intros Hph. assert (fits (good_input 0) ∧ fits (good_input 1)) as [? ?] by done.
  destruct Hph as [Hh|v s Hh ? ? Hr|s Hh Hm|Hh Hm|Hh ? Hi]; pose proof Hh as (Hc & Hp & Hcp & _).
  - exists (ev_poll (good_input 0)). simpl. rewrite Hp, Hc, Hcp. split_and!; try done.
  - exists (ev_poll (good_input 1)). simpl. rewrite Hp, Hc, Hcp. split_and!; try done. intros ? [= <-]. congruence.
  - exists (ev_msg (good_input 0)). simpl. by rewrite Hm.
  - exists (ev_msg (good_input 0)). simpl. by rewrite Hm.
  - exists (ev_init 0 (good_input 0)). simpl. by rewrite Hi.
Qed.

Lemma run_to_end w c todo m : phase w c todo m → ∃ evs n w', run w evs true n w' ∧ released w' ∧ log w' = log w ++ todo.
Proof.
  revert w c todo. induction (lt_wf m) as [m _ IH]. intros w c todo Hph.
  destruct (good_event _ _ _ _ Hph) as (e & Hen & Hpol & Hid & Hcl).
  pose proof (event_ok _ _ _ _ _ Hph Hen Hpol) as Hwp. apply wp_Ok in Hwp as ([] & w1 & Hh & Hpost).
  unfold event_post in Hpost. rewrite Hid, Hcl in Hpost. destruct Hpost as [(c1 & todo1 & m1 & Hph1 & Hl1 & Hm1)|(Hr & [Hl|[? _]])]; [| |done].
  - destruct (IH m1 Hm1 _ _ _ Hph1) as (evs & n & w' & Hrun & Hr & Hl). exists (e :: evs), (1 + n), w'. split_and!; [|done|by rewrite Hl].
    pose proof (run_cons _ _ _ _ _ _ _ Hen Hpol Hh Hrun) as Hr'. by rewrite Hid, Hcl in Hr'.
  - exists [e], 1, w1. split_and!; [|done|done]. pose proof (run_cons _ _ _ _ _ _ _ Hen Hpol Hh (run_nil w1)) as Hr'.
    by rewrite Hid, Hcl in Hr'.
Qed.
End invariant.
