(* ===== verification/JsonDevice.v ===== *)
(** * A JSON library that obeys the laws of [JsonLaws]

    It knows one configuration, written as a tree: [render] gives its text and
    its values, which [json_parse] returns.  Objects and arrays are walked as
    the library does, over the flat array of values. *)
From stdpp Require Import base list strings.
From S2P Require Import Prelude Bytes JsonConfig JsonConfigInv.

Inductive tree := TStr (s : string) | TNum (s : string) | TArr (ts : list tree) | TObj (ts : list (string * tree)).

Definition quoted (s : string) : list Z := 34%Z :: chars s ++ [34%Z].
(** Text and values of a tree whose text starts at [off]. *)
Fixpoint render (off : nat) (t : tree) : list Z * list json_val :=
  match t with
  | TStr s => (quoted s, [JsonVal VAL_STRING (off + 1) (Z.of_nat (length (chars s)))])
  | TNum s => (chars s, [JsonVal VAL_NUMBER off (Z.of_nat (length (chars s)))])
  | TArr ts =>
      let '(text, vs) :=
        (fix go off ts := match ts with
           | [] => ([], [])
           | t :: ts =>
               let '(x, v) := render off t in
               let sep := match ts with [] => [] | _ => chars "," end in
               let '(y, u) := go (off + length x + length sep) ts in
               (x ++ sep ++ y, v ++ u)
           end) (off + 1) ts in
      (chars "[" ++ text ++ chars "]",
       JsonVal VAL_ARRAY_BEGIN off (Z.of_nat (length vs)) :: vs ++ [JsonVal VAL_ARRAY_END (off + 1 + length text) 0%Z])
  | TObj ts =>
      let '(text, vs) :=
        (fix go off ts := match ts with
           | [] => ([], [])
           | (k, t) :: ts =>
               let name := quoted k ++ chars ":" in
               let '(x, v) := render (off + length name) t in
               let sep := match ts with [] => [] | _ => chars "," end in
               let '(y, u) := go (off + length name + length x + length sep) ts in
               (name ++ x ++ sep ++ y, JsonVal VAL_NAME (off + 1) (Z.of_nat (length (chars k))) :: v ++ u)
           end) (off + 1) ts in
      (chars "{" ++ text ++ chars "}",
       JsonVal VAL_OBJECT_BEGIN off (Z.of_nat (length vs)) :: vs ++ [JsonVal VAL_OBJECT_END (off + 1 + length text) 0%Z])
  end.

(** A startup method, one for both states, and the runtime method of myfs.json. *)
Definition config_tree : tree :=
  TObj [("subsystems", TArr [
    TObj [("subsystem", TStr "iobuf"); ("config", TArr [
      TObj [("method", TStr "iobuf_set_options"); ("params", TObj [("small_pool_count", TNum "8192")])];
      TObj [("method", TStr "log_set_level")]])];
    TObj [("subsystem", TStr "bdev"); ("config", TArr [
      TObj [("method", TStr "bdev_malloc_create");
            ("params", TObj [("name", TStr "Malloc0"); ("num_blocks", TNum "32768"); ("block_size", TNum "512")])]])]])].
Definition config_text : list Z := Eval vm_compute in fst (render 0 config_tree).
Definition config_values : list json_val := Eval vm_compute in snd (render 0 config_tree).

Definition text_of (text : list Z) (x : json_val) : list Z := take (Z.to_nat (jlen x)) (drop (jstart x) text).

(** The values of [v], its own included, as far as the array goes. *)
Definition span (vs : list json_val) (v : nat) : nat :=
  match vs !! v with
  | Some x =>
      if bool_decide (jtype x = VAL_ARRAY_BEGIN) || bool_decide (jtype x = VAL_OBJECT_BEGIN)
      then (Z.to_nat (jlen x) + 2) `min` (length vs - v) else 1
  | None => 1
  end.
Definition at_value (vs : list json_val) (p : nat) : option nat :=
  match vs !! p with
  | Some x => if bool_decide (jtype x = VAL_ARRAY_END) || bool_decide (jtype x = VAL_OBJECT_END) then None else Some p
  | None => None
  end.
Definition next_value (vs : list json_val) (v : nat) : option nat := at_value vs (v + span vs v).
Definition first_value (vs : list json_val) (v : nat) : option nat :=
  match vs !! v with
  | Some x => if bool_decide (jtype x = VAL_ARRAY_BEGIN) then at_value vs (v + 1) else None
  | None => None
  end.

(** The members of an object, name and value, from position [p] on. *)
Fixpoint members (vs : list json_val) (fuel p : nat) : list (list Z * nat) :=
  match fuel, vs !! p with
  | S fuel, Some x =>
      if bool_decide (jtype x = VAL_NAME)
      then (text_of config_text x, p + 1) :: members vs fuel (p + 1 + span vs (p + 1)) else []
  | _, _ => []
  end.
Definition member (vs : list json_val) (v : nat) (k : string) : option nat :=
  match list_find (λ m, m.1 = chars k) (members vs (length vs) (v + 1)) with
  | Some (_, (_, p)) => Some p
  | None => None
  end.

Definition decode_one (vs : list json_val) (v : nat) (d : decoder) : option (option nat) :=
  match member vs v d.1.1 with
  | Some p => x ← vs !! p; if bool_decide (d.1.2 x = 0%Z) then Some (Some p) else None
  | None => if d.2 then Some None else None
  end.
(** Members that no decoder names are refused. *)
Definition decode_all (vs : list json_val) (v : nat) (ds : list decoder) : option (list (option nat)) :=
  x ← vs !! v;
  if bool_decide (jtype x = VAL_OBJECT_BEGIN) &&
     forallb (λ m, existsb (λ d : decoder, bool_decide (m.1 = chars d.1.1)) ds) (members vs (length vs) (v + 1))
  then mapM (decode_one vs v) ds else None.

Definition array_member (vs : list json_val) (k : string) : Z * option nat :=
  match vs !! 0 with
  | Some x =>
      if bool_decide (jtype x = VAL_OBJECT_BEGIN) then
        match member vs 0 k with
        | Some p =>
            match vs !! p with
            | Some y => if bool_decide (jtype y = VAL_ARRAY_BEGIN) then (0%Z, Some p) else ((- EDOM)%Z, None)
            | None => ((- EDOM)%Z, None)
            end
        | None => ((- ENOENT)%Z, None)
        end
      else ((- EPROTOTYPE)%Z, None)
  | None => ((- EPROTOTYPE)%Z, None)
  end.

#[export] Instance json_device : JsonLib := {|
  json_count text := if bool_decide (text = config_text) then Z.of_nat (length config_values) else (-1)%Z;
  json_parse text n :=
    if bool_decide (text = config_text) then (Z.of_nat (length config_values), take n config_values) else ((-1)%Z, []);
  find_array := array_member;
  array_first := first_value;
  json_next := next_value;
  val_len := span;
  decode_object := decode_all;
  decode_string x := if bool_decide (jtype x = VAL_STRING) then 0%Z else (-1)%Z;
  string_of := text_of;
  get_method_state_mask m :=
    if bool_decide (m = chars "iobuf_set_options") then (0, 1)%Z
    else if bool_decide (m = chars "log_set_level") then (0, 3)%Z
    else if bool_decide (m = chars "bdev_malloc_create") then (0, 2)%Z
    else (- ENOENT, 0)%Z;
  SPDK_RPC_STARTUP := 1%Z;
  SPDK_RPC_RUNTIME := 2%Z;
  ticks_hz := (10 ^ 9)%Z;
  sun_path_size := 108
|}.

(** *** The laws *)
Fixpoint walk (vs : list json_val) (fuel : nat) (o : option nat) : list nat :=
  match fuel, o with
  | S fuel, Some v => v :: walk vs fuel (next_value vs v)
  | _, _ => []
  end.

Lemma span_pos vs v : is_Some (vs !! v) → 1 ≤ span vs v.
Proof.
  intros [x Hx]. unfold span. rewrite Hx. pose proof (lookup_lt_Some _ _ _ Hx). destruct (_ || _); lia.
Qed.
Lemma next_value_lt vs v p : next_value vs v = Some p → v < p < length vs.
Proof.
  unfold next_value, at_value. intros Hn. destruct (vs !! (v + span vs v)) as [x|] eqn:Hx; [|done].
  destruct (_ || _); simplify_eq. pose proof (lookup_lt_Some _ _ _ Hx) as Hlt. split; [|done].
  pose proof (span_pos vs v). destruct (lookup_lt_is_Some_2 vs v); [lia|]. destruct H; [by eexists|lia|lia].
Qed.

Lemma walk_fuel vs o n m :
  length vs - default (length vs) o < n → n ≤ m → walk vs n o = walk vs m o.
Proof.
  revert o m. induction n as [|n IH]; intros o m Hn Hm; [lia|]. destruct m as [|m]; [lia|].
  destruct o as [v|]; simpl in *; [|done]. f_equal. destruct (next_value vs v) as [p|] eqn:Hp.
  - apply IH; [|lia]. simpl. apply next_value_lt in Hp. lia.
  - by destruct n, m.
Qed.

Lemma decode_one_ok vs v d o : decode_one vs v d = Some o →
  (d.2 = false → is_Some o) ∧ ∀ p, o = Some p → ∃ x, vs !! p = Some x ∧ d.1.2 x = 0%Z.
Proof.
  unfold decode_one. destruct (member vs v d.1.1) as [p|].
  - destruct (vs !! p) as [x|] eqn:Hx; simpl; [|done]. case_bool_decide; [|done]. intros [= <-]. split; [done|].
    intros ? [= <-]. by exists x.
  - destruct d.2; [|done]. intros [= <-]. by split.
Qed.

#[export] Program Instance json_device_laws : JsonLaws := {|
  elements vs o := walk vs (S (length vs)) o
|}.
Next Obligation. done. Qed.
Next Obligation.
  intros vs v. change (v :: walk vs (length vs) (next_value vs v) = v :: walk vs (S (length vs)) (next_value vs v)).
  f_equal. destruct (next_value vs v) as [p|] eqn:Hp.
  - apply walk_fuel; [|lia]. apply next_value_lt in Hp. simpl. lia.
  - by destruct (length vs).
Qed.
Next Obligation.
  intros vs v ds l. cbn [decode_object json_device]. unfold decode_all. destruct (vs !! v) as [x|]; simpl; [|done].
  destruct (_ && _); [|done]. rewrite mapM_Some. intros Hl. eapply Forall2_impl; [exact Hl|]. intros d o. apply decode_one_ok.
Qed.
Next Obligation.
  intros vs p x Hx Hk. cbn [val_len json_device]. unfold span. rewrite Hx.
  rewrite (bool_decide_eq_true_2 (jtype x = VAL_OBJECT_BEGIN)) by done. rewrite orb_true_r.
  apply lookup_lt_Some in Hx. lia.
Qed.
Next Obligation.
  intros vs k s. cbn [find_array json_device]. unfold array_member. intros Hf. repeat case_match; by simplify_eq.
Qed.
Next Obligation. intros d. cbn [json_count json_device]. by case_bool_decide. Qed.
Next Obligation. intros d n. cbn [json_parse json_device]. by case_bool_decide. Qed.
Next Obligation. done. Qed.
