(* ===== verification/JsonConfigSpec.v ===== *)
(** * json_config.c: what loading a configuration promises

    Every run of the event loop after the start carries out the plan of the
    configuration or is cut short by an error, calls back once, and ends. *)
From stdpp Require Import base list strings pretty.
From S2P Require Import Prelude Bytes JsonConfig JsonConfigInv JsonDevice.

Section spec.
Context `{!JsonLib, !JsonLaws}.
Implicit Types (w : world) (si : start_input) (l : list out) (e : event) (evs : list event).

(** ** The start *)

(** What the start reads: text and values, then the subsystems array. *)
Definition values_read si : option (list Z * list json_val) :=
  match s_file si with
  | inr _ => None
  | inl text =>
      let '(rc, vs) := json_parse text (Z.to_nat (json_count text)) in
      if bool_decide (0 ≤ json_count text)%Z && s_values si && bool_decide (rc = json_count text)
      then Some (text, vs) else None
  end.
Definition configuration si : option (list Z * list json_val * option nat) :=
  '(text, vs) ← values_read si;
  let '(rc, s) := find_array vs "subsystems" in
  if bool_decide (rc = 0)%Z then Some (text, vs, s)
  else if bool_decide (rc = - ENOENT)%Z then Some (text, vs, None) else None.

(** The configuration is there and its RPC server can be started. *)
Definition served (rpc_addr : option (list Z)) si : option (list Z * list json_val * option nat) :=
  k ← configuration si;
  if bool_decide (length (socket_path rpc_addr (s_pid si)) ≤ sun_path_size) && bool_decide (s_rpc si = 0%Z)
  then Some k else None.
Definition loadable (rpc_addr : option (list Z)) si : option (list Z * list json_val * option nat) :=
  if s_ctx si && s_conn si then served rpc_addr si else None.

Definition plan_of (k : list Z * list json_val * option nat) : list out :=
  let '(text, vs, s) := k in plan text vs (all vs s).
Definition cost_of (k : list Z * list json_val * option nat) : nat :=
  let '(_, vs, s) := k in S (subs_cost vs (all vs s) SPDK_RPC_STARTUP (all vs s)).
Definition phase_of (k : list Z * list json_val * option nat) w (todo : list out) (m : nat) : Prop :=
  let '(text, vs, s) := k in ∃ c, phase text vs s w c todo m.

(** What a start that fails does. *)
Definition start_failed (rpc_addr : option (list Z)) si : list out :=
  if s_ctx si then (if served rpc_addr si then [o_rpc_initialize] else []) ++ ended (- EINVAL) else [o_done (- ENOMEM)].

Lemma wp_start_fail w c l :
  ctx w = Some c → client_conn_poller c = None → pollers w = [] → msgs w = [] → init_pending w = 0 → log w = l →
  wp start_fail w (λ _ w', released w' ∧ log w' = l ++ ended (- EINVAL)).
Proof.
  intros Hc Hcp Hp Hm Hi Hl. unfold start_fail, app_json_config_load_done, unregister.
  apply wp_bind, wp_bind. eapply wp_get_ctx; [exact Hc|]. rewrite Hcp. apply wp_ret, wp_bind.
  eapply wp_get_ctx; [exact Hc|]. apply wp_bind, wp_modify, wp_bind. eapply wp_get_ctx; [done|].
  apply wp_bind, wp_modify, wp_bind. eapply wp_get_ctx; [done|]. apply wp_modify. split; [by split_and!|].
  simpl. by rewrite Hl, <-app_assoc.
Qed.

(** The world of a start with context [c]. *)
Definition opening c : world := World (Some c) SPDK_RPC_STARTUP [] [] 0 [].

Lemma read_ok si c : s_file si ≠ inr 0%Z →
  wp (app_json_config_read si) (opening c) (λ rc w,
    match values_read si with
    | Some (text, vs) => rc = 0%Z ∧ w = opening (set_values text vs c)
    | None => rc ≠ 0%Z ∧ w = opening c
    end).
Proof.
  intros Hf. unfold app_json_config_read, values_read. destruct (s_file si) as [text|errno].
  2: { apply wp_ret. split; [|done]. intros He. apply Hf. f_equal. lia. }
  pose proof (json_count_nz text) as Hnz. pose proof (json_parse_nz text (Z.to_nat (json_count text))) as Hpz.
  destruct (json_parse text _) as [rc vs] eqn:Hpa. simpl in Hpz. case_bool_decide as Hneg.
  { rewrite (bool_decide_eq_false_2 (0 ≤ json_count text)%Z) by lia. by apply wp_ret. }
  rewrite (bool_decide_eq_true_2 (0 ≤ json_count text)%Z) by lia. destruct (s_values si); simpl; [|by apply wp_ret].
  rewrite bool_decide_not. case_bool_decide; simpl; [|by apply wp_ret].
  apply wp_bind. eapply wp_update; [done|]. by apply wp_ret.
Qed.

Lemma connect_ok rpc_addr si text vs s c :
  values c = vs → json_data c = text → subsystems c = s → elements vs (subsystems_it c) = all vs s →
  rpc_request_id c = 0%Z → client_conn_poller c = None → client_resp_cb c = None →
  wp (start_connect rpc_addr si) (opening c) (λ _ w,
    let up := bool_decide (length (socket_path rpc_addr (s_pid si)) ≤ sun_path_size) && bool_decide (s_rpc si = 0%Z) in
    if s_conn si && up then
      phase_of (text, vs, s) w (drop 1 (plan_of (text, vs, s))) (cost_of (text, vs, s)) ∧ log w = [o_rpc_initialize] ∧ pollers w = [connect_poller]
    else released w ∧ log w = (if up then [o_rpc_initialize] else []) ++ ended (- EINVAL)).
Proof.
  intros Hv Hd Hs Hit Hid Hcp Hr. unfold start_connect. apply wp_bind. eapply wp_get_ctx; [done|]. cbv zeta.
  case_bool_decide as Hlen.
  { rewrite (bool_decide_eq_false_2 (length _ ≤ sun_path_size)) by lia. rewrite andb_false_r. by eapply wp_start_fail. }
  rewrite (bool_decide_eq_true_2 (length _ ≤ sun_path_size)) by lia. case_bool_decide as Hrpc; cbn [negb andb].
  2: { rewrite andb_false_r. by eapply wp_start_fail. }
  apply wp_bind, wp_modify. destruct (s_conn si); cbn [negb andb]; [|by eapply wp_start_fail].
  apply wp_bind. eapply wp_update; [done|]. apply wp_bind. unfold rpc_client_set_timeout. eapply wp_update; [done|].
  unfold register. apply wp_bind, wp_modify. eapply wp_update; [done|]. split; [|done]. unfold phase_of. eexists.
  match goal with |- phase _ _ _ ?w ?c _ _ => unify (ctx w) (Some c); pose proof (ph_connect text vs s w c) as Hph end.
  cbn [subsystems_it set_poller set_timeout set_conn] in Hph. rewrite Hit in Hph.
  apply Hph; [|done..]. subst. unfold holds. split_and!; (done || by left).
Qed.

Lemma start_ok rpc_addr stop si : s_file si ≠ inr 0%Z →
  wp (spdk_subsystem_init_from_json_config_temp rpc_addr stop si) idle_world (λ _ w,
    match loadable rpc_addr si with
    | Some k => phase_of k w (drop 1 (plan_of k)) (cost_of k) ∧ log w = [o_rpc_initialize] ∧ pollers w = [connect_poller]
    | None => released w ∧ log w = start_failed rpc_addr si
    end).
Proof.
  intros Hf. unfold spdk_subsystem_init_from_json_config_temp, loadable, start_failed. destruct (s_ctx si); cbn [negb andb].
  2: by apply wp_modify.
  apply wp_bind, wp_modify, wp_bind. eapply wp_mono; [by apply (read_ok si (set_stop stop zero_ctx))|]. intros rc w.
  unfold served, configuration. destruct (values_read si) as [[text vs]|]; cbn [mbind option_bind].
  2: { intros [Hrc ->]. rewrite bool_decide_eq_false_2 by done. destruct (s_conn si); by eapply wp_start_fail. }
  intros [-> ->]. rewrite bool_decide_eq_true_2 by done. cbn [negb]. apply wp_bind. eapply wp_get_ctx; [done|].
  cbn [values set_values]. pose proof (find_array_ok vs "subsystems") as Hok.
  destruct (find_array vs "subsystems") as [rc s]. case_bool_decide as Hrc.
  { subst rc. destruct (Hok s eq_refl) as [a ->]. apply wp_bind, wp_some, wp_bind. eapply wp_update; [done|].
    eapply wp_mono; [by apply (connect_ok rpc_addr si text vs (Some a))|]. intros [] w. cbn [mbind option_bind].
    by destruct (s_conn si), (bool_decide (length _ ≤ _)), (bool_decide (s_rpc si = _)). }
  destruct (decide (rc = - EPROTOTYPE)%Z) as [->|Hp].
  { rewrite bool_decide_eq_true_2 by done. rewrite (bool_decide_eq_false_2 (_ = - ENOENT)%Z) by done. destruct (s_conn si); by eapply wp_start_fail. }
  rewrite (bool_decide_eq_false_2 (rc = - EPROTOTYPE)%Z) by done. case_bool_decide as Hn.
  { eapply wp_mono; [apply (connect_ok rpc_addr si text vs None); try done; apply elements_None|]. intros [] w. cbn [mbind option_bind].
    by destruct (s_conn si), (bool_decide (length _ ≤ _)), (bool_decide (s_rpc si = _)). }
  destruct (s_conn si); by eapply wp_start_fail.
Qed.

(** *** The callback *)
Definition is_done (o : out) : bool := match o with o_done _ => true | _ => false end.
Definition callbacks (l : list out) : nat := length (filter is_done l).

Lemma callbacks_app l k : callbacks (l ++ k) = callbacks l + callbacks k.
Proof. unfold callbacks. by rewrite filter_app, length_app. Qed.

(** It comes last and once. *)
Definition calls_last l : Prop := ∃ k rc, l = k ++ [o_done rc] ∧ callbacks k = 0.

Lemma calls_last_app l k : callbacks l = 0 → calls_last k → calls_last (l ++ k).
Proof. intros Hl (x & rc & -> & Hx). exists (l ++ x), rc. by rewrite app_assoc, callbacks_app, Hl. Qed.
Lemma calls_last_ended rc : calls_last (ended rc).
Proof. by exists [o_rpc_finish], rc. Qed.
Lemma calls_last_once l : calls_last l → callbacks l = 1.
Proof. intros (k & rc & -> & Hk). by rewrite callbacks_app, Hk. Qed.
Lemma calls_last_before l k : calls_last (l ++ k) → k ≠ [] → callbacks l = 0.
Proof.
  intros (x & rc & Hx & Hc) Hk. destruct k as [|o k _] using rev_ind; [done|]. rewrite app_assoc in Hx.
  apply app_inj_tail in Hx as [<- _]. rewrite callbacks_app in Hc. lia.
Qed.

Lemma plan_entries_calls data vs st es : callbacks (plan_entries data vs st es).1 = 0.
Proof.
  induction es as [|v es IH]; simpl; [done|]. destruct (entry_verdict data vs st v); [done| |done].
  by destruct (plan_entries data vs st es).
Qed.
Lemma join_calls p k : callbacks p.1 = 0 → callbacks k.1 = 0 → callbacks (join p k).1 = 0.
Proof. intros Hp Hk. unfold join. destruct p.2; [done|]. simpl. by rewrite callbacks_app, Hp, Hk. Qed.
Lemma plan_subs_calls data vs st subs : callbacks (plan_subs data vs st subs).1 = 0.
Proof.
  induction subs as [|v subs IH]; simpl; [done|]. destruct (sub_entries vs v); [|done].
  by apply join_calls; [apply plan_entries_calls|].
Qed.

Lemma after_init_calls data vs subs : calls_last (after_init data vs subs).
Proof.
  unfold after_init, runtime_plan. pose proof (plan_subs_calls data vs SPDK_RPC_RUNTIME subs) as Hc.
  destruct (plan_subs _ _ _ _) as [os r]. apply (calls_last_app [_]); [done|]. by apply calls_last_app, calls_last_ended.
Qed.
Lemma remaining_calls data vs subs st es k : calls_last (remaining data vs subs st es k).
Proof.
  unfold remaining. pose proof (join_calls _ _ (plan_entries_calls data vs st es) (plan_subs_calls data vs st k)) as Hc.
  destruct (join _ _) as [os r]. apply calls_last_app; [done|]. destruct r; [apply calls_last_ended|].
  case_bool_decide; [|apply calls_last_ended]. apply (calls_last_app [_]); [done|apply after_init_calls].
Qed.
Lemma plan_calls k : calls_last (plan_of k).
Proof. destruct k as [[text vs] s]. apply (calls_last_app [_]); [done|apply remaining_calls]. Qed.
Lemma phase_todo_ne data vs s w c todo m : phase data vs s w c todo m → todo ≠ [].
Proof. destruct 1; try apply remaining_ne; done. Qed.

(** A run after the start. *)
Lemma loaded_run rpc_addr stop si w0 evs b n w :
  s_file si ≠ inr 0%Z → spdk_subsystem_init_from_json_config_temp rpc_addr stop si idle_world = Ok tt w0 → run w0 evs b n w →
  match loadable rpc_addr si with
  | Some k =>
      (∃ todo m, phase_of k w todo m ∧ log w ++ todo = plan_of k ∧ m + n ≤ cost_of k) ∨
      (released w ∧ n ≤ cost_of k ∧ (log w = plan_of k ∨ (b = false ∧ cut_short (plan_of k) (log w))))
  | None => released w ∧ log w = start_failed rpc_addr si
  end.
Proof.
  intros Hf Hs Hrun. pose proof (start_ok rpc_addr stop si Hf) as Hok. unfold wp in Hok. rewrite Hs in Hok.
  destruct (loadable rpc_addr si) as [k|].
  - destruct Hok as (Hph & Hl & _). destruct k as [[text vs] s]. destruct Hph as [c Hph].
    pose proof (run_progress _ _ _ _ _ _ _ _ _ _ _ Hrun Hph) as Hpr. rewrite Hl in Hpr.
    destruct Hpr as [(c' & todo & m & Hph' & Hl' & Hm)|Hpr]; [left; exists todo, m; split_and!; [by exists c'|done..]|by right].
  - destruct Hok as [Hr Hl]. by destruct (released_run _ _ _ _ _ Hr Hrun) as (_ & _ & _ & ->).
Qed.

Lemma cut_short_callbacks l k : calls_last l → cut_short l k → callbacks k = 1.
Proof.
  intros Hl (pre & rest & rc & -> & Hne & -> & _). by rewrite callbacks_app, (calls_last_before _ _ Hl Hne).
Qed.

(** The world between two events: a phase of some configuration, or released. *)
Definition well_formed w : Prop := (∃ text vs s c todo m, phase text vs s w c todo m) ∨ released w.

(** C28: over a polite connection, one that, once made, reports nothing while no
    request of the loader is outstanding, and whose error texts fit the loader's
    print buffer, every state a load reaches is well formed, the callback has been
    called exactly once when the context is freed and not before, and handling
    any polite event that can happen there is defined behaviour: no freed
    context is used, no assertion fails.  For a file whose reading fails with
    an [errno] that is not zero.  (An impolite event leads to the use of the
    freed context, see [json_load_poll_error_use_after_free].) *)
Theorem json_load_well_formed rpc_addr stop si w0 evs b n w :
  s_file si ≠ inr 0%Z → spdk_subsystem_init_from_json_config_temp rpc_addr stop si idle_world = Ok tt w0 → run w0 evs b n w →
  well_formed w ∧ callbacks (log w) = (if ctx w then 0 else 1) ∧
  ∀ e, enabled e w → polite e w → ∃ w', handle e w = Ok tt w' ∧ well_formed w'.
Proof.
  intros Hf Hs Hrun. pose proof (loaded_run _ _ _ _ _ _ _ _ Hf Hs Hrun) as Hl.
  assert (released w → callbacks (log w) = 1 → well_formed w ∧ callbacks (log w) = (if ctx w then 0 else 1) ∧
    ∀ e, enabled e w → polite e w → ∃ w', handle e w = Ok tt w' ∧ well_formed w') as Hrel.
  { intros Hr Hc. split_and!; [by right|by destruct Hr as [-> _]|]. intros e He. by rewrite (released_enabled e w Hr) in He. }
  destruct (loadable rpc_addr si) as [k|].
  2: { destruct Hl as [Hr Hl]. apply Hrel; [done|]. rewrite Hl. unfold start_failed. by repeat case_match. }
  pose proof (plan_calls k) as Hk. destruct Hl as [(todo & m & Hph & Hl & _)|(Hr & _ & [Hl|[_ Hl]])].
  - destruct k as [[text vs] s]. destruct Hph as [c Hph]. split_and!; [left; by exists text, vs, s, c, todo, m| |].
    + rewrite <-Hl in Hk. rewrite (calls_last_before _ _ Hk) by by eapply phase_todo_ne.
      by destruct (phase_holds _ _ _ _ _ _ _ Hph) as (? & -> & _).
    + intros e He Hp. pose proof (event_ok _ _ _ _ _ _ _ _ Hph He Hp) as Hwp. apply wp_Ok in Hwp as ([] & w' & Hh & Hpost).
      exists w'. split; [done|]. unfold event_post in Hpost. destruct (idle e w).
      * left. destruct Hpost as (c' & ? & _). by exists text, vs, s, c', todo, m.
      * destruct Hpost as [(c' & todo' & m' & ? & _)|[? _]]; [left; by exists text, vs, s, c', todo', m'|by right].
  - apply Hrel; [done|]. rewrite Hl. by apply calls_last_once.
  - apply Hrel; [done|]. by eapply cut_short_callbacks.
Qed.

(** C27: over a polite connection a load carries out the plan of its
    configuration: before the end its requests are a beginning of the plan; at the end they are the plan, or, if
    some event brought an error, a beginning of it that the closing of the RPC
    server and the callback with an error follow. *)
Theorem json_load_refines_plan rpc_addr stop si k w0 evs b n w :
  s_file si ≠ inr 0%Z → loadable rpc_addr si = Some k →
  spdk_subsystem_init_from_json_config_temp rpc_addr stop si idle_world = Ok tt w0 → run w0 evs b n w →
  match ctx w with
  | Some _ => ∃ todo, todo ≠ [] ∧ plan_of k = log w ++ todo
  | None => log w = plan_of k ∨ (b = false ∧ cut_short (plan_of k) (log w))
  end.
Proof.
  intros Hf Hk Hs Hrun. pose proof (loaded_run _ _ _ _ _ _ _ _ Hf Hs Hrun) as Hl. rewrite Hk in Hl.
  destruct Hl as [(todo & m & Hph & Hl & _)|((-> & _) & _ & Hl)]; [|done].
  destruct k as [[text vs] s]. destruct Hph as [c Hph]. destruct (phase_holds _ _ _ _ _ _ _ Hph) as (? & -> & _).
  exists todo. split; [by eapply phase_todo_ne|done].
Qed.

(** C29: over a polite connection a load ends: at most [cost_of k] of its events find something to do, a
    number that the configuration alone gives, and from every state it reaches
    some events without errors lead to its end. *)
Theorem json_load_terminates rpc_addr stop si k w0 evs b n w :
  s_file si ≠ inr 0%Z → loadable rpc_addr si = Some k →
  spdk_subsystem_init_from_json_config_temp rpc_addr stop si idle_world = Ok tt w0 → run w0 evs b n w →
  n ≤ cost_of k ∧
  ∃ evs' n' w', run w evs' true n' w' ∧ released w' ∧ (b = true → log w' = plan_of k) ∧ n + n' ≤ cost_of k.
Proof.
  intros Hf Hk Hs Hrun. pose proof (loaded_run _ _ _ _ _ _ _ _ Hf Hs Hrun) as Hl. rewrite Hk in Hl.
  destruct Hl as [(todo & m & Hph & Hl & Hm)|(Hr & Hn & Hl)].
  - split; [lia|]. destruct k as [[text vs] s]. destruct Hph as [c Hph].
    destruct (run_to_end _ _ _ _ _ _ _ Hph) as (evs' & n' & w' & Hrun' & Hr & Hl').
    exists evs', n', w'. split_and!; [done|done|by rewrite Hl'|].
    pose proof (run_progress _ _ _ _ _ _ _ _ _ _ _ Hrun' Hph) as [(? & ? & ? & Hph' & _)|(_ & Hn' & _)]; [|lia].
    destruct (phase_holds _ _ _ _ _ _ _ Hph') as (? & Hc & _). destruct Hr as [Hr _]. congruence.
  - split; [done|]. exists [], 0, w. split_and!; [constructor|done| |lia]. intros ->. by destruct Hl as [?|[? _]].
Qed.

(** C30: the start returns, whatever it finds: the loader is left polling for a
    connection with its RPC server up exactly if the file holds a configuration,
    the path of the socket fits, and server and client can be made; otherwise
    everything is released and the callback has the error.  (A file whose
    reading fails leaves an [errno] that is not zero.) *)
Theorem json_load_start rpc_addr stop si : s_file si ≠ inr 0%Z →
  ∃ w, spdk_subsystem_init_from_json_config_temp rpc_addr stop si idle_world = Ok tt w ∧
    (is_Some (ctx w) ↔ is_Some (loadable rpc_addr si)) ∧
    pollers w = (if loadable rpc_addr si then [connect_poller] else []) ∧
    log w = (if loadable rpc_addr si then [o_rpc_initialize] else start_failed rpc_addr si).
Proof.
  intros Hf. pose proof (start_ok rpc_addr stop si Hf) as Hok. apply wp_Ok in Hok as ([] & w & Hs & Hw). exists w. split; [done|].
  destruct (loadable rpc_addr si) as [[[text vs] s]|].
  - destruct Hw as ([c Hph] & Hl & Hp). destruct (phase_holds _ _ _ _ _ _ _ Hph) as (? & Hc & _). rewrite Hc. by split_and!.
  - destruct Hw as [(Hc & Hp & _) Hl]. rewrite Hc. split_and!; [by split; intros [? ?]|done..].
Qed.

(** C31: a connection error while the subsystems are being initialised frees the
    context that their callback still holds: whatever that callback is given,
    it then uses freed memory. *)
Theorem json_load_poll_error_use_after_free rpc_addr stop si w0 evs b n w i :
  s_file si ≠ inr 0%Z → spdk_subsystem_init_from_json_config_temp rpc_addr stop si idle_world = Ok tt w0 → run w0 evs b n w →
  0 < init_pending w → (i_poll i < 0)%Z →
  ∃ w', enabled (ev_poll i) w ∧ handle (ev_poll i) w = Ok tt w' ∧ log w' = log w ++ ended (i_poll i) ∧
    ∀ rc i', enabled (ev_init rc i') w' ∧ handle (ev_init rc i') w' = Undef.
Proof.
  intros Hf Hs Hrun Hi Hpo. pose proof (loaded_run _ _ _ _ _ _ _ _ Hf Hs Hrun) as Hl.
  assert (∃ text vs s c todo m, phase text vs s w c todo m) as (text & vs & s & c & todo & m & Hph).
  { destruct (loadable rpc_addr si) as [[[text vs] s]|]; [|destruct Hl as [(_ & _ & _ & ?) _]; lia].
    destruct Hl as [(todo & m & [c Hph] & _)|((_ & _ & _ & ?) & _)]; [by exists text, vs, s, c, todo, m|lia]. }
  destruct Hph as [? ? Hi0|? ? ? ? Hi0|? ? ? Hi0|? ? Hi0|Hh Hm Hi1 Hr Hst Hit]; try (rewrite Hi0 in Hi; lia).
  pose proof Hh as (Hc & Hp & Hcp & _). exists (World None (rpc_state w) [] (msgs w) (init_pending w) (log w ++ ended (i_poll i))).
  split_and!; [simpl; by rewrite Hp| |done|].
  - assert (wp (rpc_client_poller i) w (λ _ w', w' = World None (rpc_state w) [] (msgs w) (init_pending w) (log w ++ ended (i_poll i)))) as Hwp.
    { unfold rpc_client_poller. apply wp_bind. eapply wp_get_ctx; [exact Hc|]. apply wp_bind.
      rewrite bool_decide_eq_false_2 by lia. apply wp_ret. rewrite bool_decide_eq_false_2 by lia.
      rewrite (bool_decide_eq_true_2 (i_poll i < 0)%Z) by done. by eapply wp_done. }
    apply wp_Ok in Hwp as ([] & w' & Hw' & ->). unfold handle. by rewrite Hp.
  - intros rc i'. rewrite Hi1. split; [done|]. unfold handle, subsystem_init_done. simpl. by case_bool_decide.
Qed.

(** ** The text of an error *)

(** The pieces the writer hands over: up to the first that is refused. *)
Fixpoint accepted (ps : list (list Z * Z)) : list (list Z) :=
  match ps with
  | [] => []
  | (d, n) :: ps => d :: (if bool_decide (Z.of_nat (length d) = n) then accepted ps else [])
  end.
(** The buffer after the text [t]. *)
Definition buffer (t : list Z) : json_write_buf := WriteBuf (take 1023 t) (Z.of_nat (length t)).

Lemma json_write_stdout_buffer d n t :
  (Z.of_nat (length (t ++ d)) < 2 ^ 32)%Z →
  json_write_stdout d n (buffer t) =
    if bool_decide (length t ≤ 1024)
    then Ok (if bool_decide (Z.of_nat (length d) = n) then 0 else -1)%Z (buffer (t ++ d)) else Undef.
Proof.
  intros Hlen. rewrite length_app in Hlen. unfold json_write_stdout, buffer, WRITE_BUF_SIZE. cbn [wdata cur_off].
  destruct (decide (length t ≤ 1024)) as [Ht|Ht].
  2: { by rewrite bool_decide_eq_true_2, bool_decide_eq_false_2 by lia. }
  rewrite bool_decide_eq_false_2, (bool_decide_eq_true_2 (length t ≤ 1024)) by lia. f_equal.
  assert (take (Z.to_nat (Z.of_nat (length t))) (take 1023 t) ++ take (Z.to_nat (1024 - Z.of_nat (length t)) - 1) d = take 1023 (t ++ d)) as ->.
  { rewrite Nat2Z.id, take_app, take_ge by (rewrite length_take; lia). f_equal. f_equal. lia. }
  rewrite length_app. case_bool_decide as Hd.
  - f_equal. unfold uint32. rewrite Z.mod_small by lia. lia.
  - f_equal. lia.
Qed.

Lemma write_pieces_buffer ps t :
  (Z.of_nat (length (t ++ concat (accepted ps))) < 2 ^ 32)%Z →
  write_pieces ps (buffer t) =
    if bool_decide (ps = []) || bool_decide (length (t ++ concat (removelast (accepted ps))) ≤ 1024)
    then Ok tt (buffer (t ++ concat (accepted ps))) else Undef.
Proof.
  revert t. induction ps as [|[d n] ps IH]; intros t Hlen; [simpl; by rewrite app_nil_r|].
  rewrite (bool_decide_eq_false_2 (_ :: _ = [])) by done. cbn [orb write_pieces accepted concat] in *.
  unfold bind. rewrite app_assoc in Hlen |- *. rewrite json_write_stdout_buffer by (rewrite !length_app in *; lia).
  destruct (decide (length t ≤ 1024)) as [Ht|Ht].
  2: { rewrite (bool_decide_eq_false_2 (length t ≤ 1024)), bool_decide_eq_false_2; [done|rewrite length_app; lia|done]. }
  rewrite (bool_decide_eq_true_2 (length t ≤ 1024)) by done. case_bool_decide as Hn.
  - rewrite bool_decide_eq_true_2 by done. rewrite IH by done. destruct ps as [|[d' n'] ps].
    + cbn. rewrite !app_nil_r. by rewrite bool_decide_eq_true_2.
    + rewrite (bool_decide_eq_false_2 (_ :: _ = [])) by done. cbn [orb].
      assert (removelast (d :: accepted ((d', n') :: ps)) = d :: removelast (accepted ((d', n') :: ps))) as -> by done.
      cbn [concat]. by rewrite app_assoc.
  - rewrite bool_decide_eq_false_2 by done. cbn. rewrite !app_nil_r. by rewrite bool_decide_eq_true_2.
Qed.
End spec.

(** C32: printing an error response keeps its first 1023 characters, and is
    undefined exactly if the pieces before the last one the writer hands over
    have more than 1024 characters together: the next one is then written
    behind the array. *)
Theorem json_write_stdout_bounds ps :
  (Z.of_nat (length (concat (accepted ps))) < 2 ^ 32)%Z →
  write_pieces ps (WriteBuf [] 0) =
    if bool_decide (length (concat (removelast (accepted ps))) ≤ 1024)
    then Ok tt (WriteBuf (take 1023 (concat (accepted ps))) (Z.of_nat (length (concat (accepted ps))))) else Undef.
Proof.
  intros Hlen. change (WriteBuf [] 0) with (buffer []). rewrite write_pieces_buffer by done. destruct ps; [done|].
  by rewrite bool_decide_eq_false_2.
Qed.

(** ** A run of the device *)

(** Following a list of events, as long as each can happen and is polite. *)
Definition politeb (e : event) (w : world) : bool :=
  match e with
  | ev_poll i =>
      match i_error i with
      | Some ps => match write_pieces ps (WriteBuf [] 0) with Undef => false | _ => true end
      | None => true
      end &&
      match ctx w with
      | Some c =>
          match client_conn_poller c, client_resp_cb c with
          | Some rpc_poller, None => bool_decide (i_poll i = 0%Z)
          | _, _ => true
          end
      | None => true
      end
  | _ => true
  end.
Fixpoint follow `{!JsonLib} (w : world) (evs : list event) : option (bool * nat * world) :=
  match evs with
  | [] => Some (true, 0, w)
  | e :: evs =>
      if enabled e w && politeb e w then
        match handle e w with
        | Ok _ w1 =>
            '(b, n, w2) ← follow w1 evs;
            Some ((idle e w || clean e w) && b, (if idle e w then 0 else 1) + n, w2)
        | _ => None
        end
      else None
  end.

Lemma politeb_polite e w : politeb e w = true → polite e w.
Proof.
  destruct e as [i|i|rc i]; [|done..]. simpl. intros [Hf Hp]%andb_true_iff. split.
  - unfold fits. destruct (i_error i); [|done]. by destruct (write_pieces _ _).
  - intros c Hc Hcp Hr. rewrite Hc, Hcp, Hr in Hp. by apply bool_decide_eq_true in Hp.
Qed.
Lemma follow_run `{!JsonLib} w evs b n w' : follow w evs = Some (b, n, w') → run w evs b n w'.
Proof.
  revert w b n. induction evs as [|e evs IH]; intros w b n Hf; simpl in Hf; [simplify_eq; constructor|].
  destruct (enabled e w) eqn:Hen; [|done]. destruct (politeb e w) eqn:Hpol; [|done]. simpl in Hf.
  destruct (handle e w) as [[] w1|?|?|] eqn:Hh; try done. destruct (follow w1 evs) as [[[b1 n1] w2]|] eqn:Hfo; [|done].
  simpl in Hf. simplify_eq. econstructor; [by rewrite Hen|by apply politeb_polite|exact Hh|by apply IH].
Qed.

Definition device_start : start_input := StartInput (inl config_text) true true 4242 0 true 0.
Definition device_world : world :=
  match spdk_subsystem_init_from_json_config_temp None true device_start idle_world with Ok _ w => w | _ => idle_world end.
Definition poll (rc : Z) : event := ev_poll (good_input rc).
Definition message : event := ev_msg (good_input 0).
(** Connecting takes two polls, the second request waits for its response. *)
Definition startup_events : list event := [poll (- ENOTCONN); poll 0; poll 1; poll 0; poll 1; message; message; message].
Definition runtime_events : list event :=
  [ev_init 0 (good_input 0); message; message; message; poll 1; message].
(** A response that says the request failed. *)
Definition refused : event := ev_poll (Input 1 (Some [(chars "Invalid parameters", 18%Z)]) 0 0 0 true 0).
Definition after (evs : list event) : world :=
  match follow device_world evs with Some (_, _, w) => w | None => idle_world end.
Definition device_config : list Z * list json_val * option nat := (config_text, config_values, Some 2).

Lemma device_starts : spdk_subsystem_init_from_json_config_temp None true device_start idle_world = Ok tt device_world.
Proof. vm_compute. reflexivity. Qed.
Lemma device_loadable : loadable None device_start = Some device_config.
Proof. vm_compute. reflexivity. Qed.
Lemma device_file : s_file device_start ≠ inr 0%Z.
Proof. discriminate. Qed.
Lemma device_full : run device_world (startup_events ++ runtime_events) true 12 (after (startup_events ++ runtime_events)).
Proof. apply follow_run. vm_compute. reflexivity. Qed.
Lemma device_refused : run device_world ([poll 0; refused]) false 2 (after ([poll 0; refused])).
Proof. apply follow_run. vm_compute. reflexivity. Qed.
Lemma device_startup : run device_world startup_events true 6 (after startup_events).
Proof. apply follow_run. vm_compute. reflexivity. Qed.

Lemma device_ends : ctx (after (startup_events ++ runtime_events)) = None ∧ ctx (after [poll 0; refused]) = None.
Proof. split; vm_compute; reflexivity. Qed.
Lemma device_differs : log (after [poll 0; refused]) ≠ plan_of device_config.
Proof. vm_compute. discriminate. Qed.

Lemma json_load_well_formed_witness :
  let w := after startup_events in
  well_formed w ∧ callbacks (log w) = 0 ∧ ∀ e, enabled e w → polite e w → ∃ w', handle e w = Ok tt w' ∧ well_formed w'.
Proof.
  apply (json_load_well_formed None true device_start device_world startup_events true 6);
    [apply device_file|apply device_starts|apply device_startup].
Defined.

Lemma json_load_refines_plan_witness :
  log (after (startup_events ++ runtime_events)) = plan_of device_config ∧
  cut_short (plan_of device_config) (log (after [poll 0; refused])).
Proof.
  pose proof (json_load_refines_plan None true device_start device_config _ _ _ _ _ device_file device_loadable device_starts
    device_full) as Hfull.
  pose proof (json_load_refines_plan None true device_start device_config _ _ _ _ _ device_file device_loadable device_starts
    device_refused) as Hcut.
  rewrite (proj1 device_ends) in Hfull. rewrite (proj2 device_ends) in Hcut.
  split; [destruct Hfull as [Hl|[Hb _]]; [exact Hl|discriminate Hb]|].
  destruct Hcut as [Hl|[_ Hl]]; [|exact Hl]. exfalso. revert Hl. apply device_differs.
Defined.

Lemma json_load_terminates_witness :
  cost_of device_config = 29 ∧
  ∃ evs n w, run (after startup_events) evs true n w ∧ released w ∧ log w = plan_of device_config ∧ 6 + n ≤ 29.
Proof.
  split; [vm_compute; reflexivity|].
  destruct (json_load_terminates None true device_start device_config _ _ _ _ _ device_file device_loadable device_starts
      device_startup) as (_ & evs & n & w & Hrun & Hr & Hl & Hn).
  exists evs, n, w. split_and!; [done|done|by apply Hl|exact Hn].
Defined.

Lemma json_load_start_witness :
  loadable None (StartInput (inr ENOENT) true true 4242 0 true 0) = None ∧
  ∃ w, spdk_subsystem_init_from_json_config_temp None true (StartInput (inr ENOENT) true true 4242 0 true 0) idle_world = Ok tt w ∧
    log w = [o_rpc_finish; o_done (- EINVAL)].
Proof.
  split; [vm_compute; reflexivity|].
  destruct (json_load_start None true (StartInput (inr ENOENT) true true 4242 0 true 0) ltac:(done)) as (w & Hw & _ & _ & Hl).
  by exists w.
Defined.

Lemma json_load_poll_error_use_after_free_witness :
  ∃ w', handle (poll (- 5)) (after startup_events) = Ok tt w' ∧
    ∀ rc i, enabled (ev_init rc i) w' ∧ handle (ev_init rc i) w' = Undef.
Proof.
  destruct (json_load_poll_error_use_after_free None true device_start _ _ _ _ _ (good_input (- 5)) device_file device_starts
      device_startup ltac:(vm_compute; lia) ltac:(done)) as (w' & _ & Hw & _ & Hu).
  exists w'. split; [exact Hw|exact Hu].
Defined.

Lemma json_write_stdout_bounds_witness :
  write_pieces [(repeat 97%Z 1020, 1020%Z); (repeat 98%Z 10, 10%Z); (chars "!", 1%Z)] (WriteBuf [] 0) = Undef ∧
  write_pieces [(repeat 97%Z 1020, 1020%Z); (repeat 98%Z 10, 10%Z)] (WriteBuf [] 0) =
    Ok tt (WriteBuf (repeat 97%Z 1020 ++ repeat 98%Z 3) 1030).
Proof. split; rewrite json_write_stdout_bounds by (vm_compute; done); vm_compute; reflexivity. Defined.
