(* ===== verification/JsonLoader.v ===== *)
(** * json_config.c: the loader as a part of an event loop

    [EventLoop] is what drives a load: which event comes next, with idle events
    between two useful ones only as long as its patience lasts.  A [load] is a
    state that the loader reaches under it; [advance] lets it handle one event.
    A load ends within a number of events that the configuration and the
    patience give, and its last act is the callback. *)
From stdpp Require Import base list strings.
From S2P Require Import Prelude Bytes JsonConfig JsonConfigInv JsonDevice JsonConfigSpec.

(** The context is not freed yet. *)
Definition live (w : world) : bool := if ctx w then true else false.

Class EventLoop (E : Type) `{!JsonLib, !JsonLaws} := {
  (** what the calls of the start return *)
  start_values : start_input;
  start_errno : s_file start_values ≠ inr 0%Z;
  choose : E → world → event * E;
  patience : E → nat;
  max_patience : nat;
  patience_max g : patience g ≤ max_patience;
  choose_ok g w : well_formed w → live w = true →
    enabled (choose g w).1 w = true ∧ polite (choose g w).1 w ∧
    (idle (choose g w).1 w = true → patience (choose g w).2 < patience g)
}.

Section loading.
Context `{!JsonLib, !JsonLaws} {E : Type} `{!EventLoop E}.
Implicit Types (w : world) (e : event) (g : E) (n : nat).

(** myfs.c passes the default address, and asks to stop on errors. *)
Abbreviation start := (spdk_subsystem_init_from_json_config_temp (Some SPDK_DEFAULT_RPC_ADDR) true start_values).
Abbreviation config_loaded := (loadable (Some SPDK_DEFAULT_RPC_ADDR) start_values).
Definition start_world : world := match start idle_world with Ok _ w => w | _ => idle_world end.

Lemma start_world_ok : start idle_world = Ok tt start_world.
Proof.
  destruct (json_load_start (Some SPDK_DEFAULT_RPC_ADDR) true start_values start_errno) as (w & Hw & _).
  unfold start_world. by rewrite Hw.
Qed.

(** The loader, what drives it, and how many events found something to do. *)
Record load_state := LoadState { ld_world : world; ld_env : E; ld_steps : nat }.
Definition reached (s : load_state) : Prop := ∃ evs b, run start_world evs b (ld_steps s) (ld_world s).

Lemma run_snoc w evs b n w1 e w2 :
  run w evs b n w1 → enabled e w1 → polite e w1 → handle e w1 = Ok tt w2 →
  ∃ b', run w (evs ++ [e]) b' (n + (if idle e w1 then 0 else 1)) w2.
Proof.
  intros Hrun Hen Hp Hh. induction Hrun as [w|w e' w1' evs b n w1 Hen' Hp' Hh' Hrun IH].
  - eexists. rewrite Nat.add_comm. by eapply run_cons; [..|constructor].
  - destruct (IH Hen Hp Hh) as [b' Hr']. eexists. rewrite <-Nat.add_assoc. by eapply run_cons.
Qed.

(** One event. *)
Definition step (s : load_state) : load_state :=
  if live (ld_world s) then
    let '(e, g) := choose (ld_env s) (ld_world s) in
    match handle e (ld_world s) with
    | Ok _ w => LoadState w g (ld_steps s + (if idle e (ld_world s) then 0 else 1))
    | _ => s
    end
  else s.

Lemma reached_well_formed s : reached s → well_formed (ld_world s) ∧
  callbacks (log (ld_world s)) = (if ctx (ld_world s) then 0 else 1) ∧
  ∀ e, enabled e (ld_world s) → polite e (ld_world s) → ∃ w', handle e (ld_world s) = Ok tt w' ∧ well_formed w'.
Proof. intros (evs & b & Hrun). by eapply json_load_well_formed; [apply start_errno|apply start_world_ok|]. Qed.

(** The events it takes at most. *)
Definition load_cost : nat := match config_loaded with Some k => cost_of k | None => 0 end.

Lemma loaded_run_reached s : reached s →
  match config_loaded with
  | Some k =>
      (∃ todo m, phase_of k (ld_world s) todo m ∧ log (ld_world s) ++ todo = plan_of k ∧ m + ld_steps s ≤ cost_of k) ∨
      (released (ld_world s) ∧ ld_steps s ≤ cost_of k ∧
         (log (ld_world s) = plan_of k ∨ cut_short (plan_of k) (log (ld_world s))))
  | None => released (ld_world s) ∧ log (ld_world s) = start_failed (Some SPDK_DEFAULT_RPC_ADDR) start_values
  end.
Proof.
  intros (evs & b & Hrun). pose proof (loaded_run _ _ _ _ _ _ _ _ start_errno start_world_ok Hrun) as Hl.
  destruct config_loaded; [|done]. destruct Hl as [?|(? & ? & [?|[_ ?]])]; [by left|right..]; split_and!; eauto.
Qed.

Lemma step_reached s : reached s → reached (step s).
Proof.
  intros Hs. unfold step. destruct (live (ld_world s)) eqn:Hlive; [|done].
  destruct (reached_well_formed s Hs) as (Hwf & _ & Hok).
  destruct (choose_ok (ld_env s) (ld_world s) Hwf Hlive) as (Hen & Hp & _).
  destruct (choose (ld_env s) (ld_world s)) as [e g]. simpl in Hen, Hp. destruct (Hok e) as (w' & Hh & _); [by rewrite Hen|done|].
  rewrite Hh. destruct Hs as (evs & b & Hrun).
  destruct (run_snoc _ _ _ _ _ e w' Hrun) as [b' Hr']; [by rewrite Hen|done|done|]. by exists (evs ++ [e]), b'.
Qed.

(** What a step of a live load does. *)
Lemma step_live s : reached s → live (ld_world s) = true →
  (ld_steps (step s) = S (ld_steps s)) ∨
  (ld_steps (step s) = ld_steps s ∧ patience (ld_env (step s)) < patience (ld_env s)).
Proof.
  intros Hs Hlive. unfold step. rewrite Hlive. destruct (reached_well_formed s Hs) as (Hwf & _ & Hok).
  destruct (choose_ok (ld_env s) (ld_world s) Hwf Hlive) as (Hen & Hp & Hid).
  destruct (choose (ld_env s) (ld_world s)) as [e g]. simpl in Hen, Hp, Hid. destruct (Hok e) as (w' & -> & _); [by rewrite Hen|done|].
  simpl. destruct (idle e (ld_world s)); [right|left; lia]. split; [lia|]. by apply Hid.
Qed.

(** *** Loads *)
Record load := Load { ld : load_state; ld_reached : reached ld }.
Definition ended_load (x : load) : bool := negb (live (ld_world (ld x))).

Lemma start_reached g : reached (LoadState start_world g 0).
Proof. exists [], true. constructor. Qed.
Definition begin_load (g : E) : load := Load (LoadState start_world g 0) (start_reached g).
Definition advance (x : load) : load := Load (step (ld x)) (step_reached (ld x) (ld_reached x)).

(** The code the callback gets. *)
Definition load_rc (x : load) : Z := match last (log (ld_world (ld x))) with Some (o_done rc) => rc | _ => 0%Z end.

(** Events until the end. *)
Definition load_delay (x : load) : nat :=
  if ended_load x then 0
  else S ((load_cost - ld_steps (ld x)) * S max_patience + patience (ld_env (ld x))).
Definition load_latency : nat := S (load_cost * S max_patience + max_patience).

Lemma load_delay_max x : load_delay x ≤ load_latency.
Proof.
  unfold load_delay, load_latency. destruct (ended_load x); [apply Nat.le_0_l|]. pose proof (patience_max (ld_env (ld x))).
  pose proof (Nat.mul_le_mono_r (load_cost - ld_steps (ld x)) load_cost (S max_patience)). lia.
Qed.

Lemma live_steps s : reached s → live (ld_world s) = true → ld_steps s < load_cost.
Proof.
  intros Hs Hlive. pose proof (loaded_run_reached s Hs) as Hl. unfold load_cost, live in *.
  destruct config_loaded as [[[text vs] s0]|].
  - destruct Hl as [(todo & m & [c Hph] & _ & Hm)|((Hc & _) & _)]; [|by rewrite Hc in Hlive].
    pose proof (good_event _ _ _ _ _ _ _ Hph) as (e & Hen & Hp & Hid & _). 
    destruct (proj1 (wp_Ok _ _ _) (event_ok _ _ _ _ _ _ _ _ Hph Hen Hp)) as ([] & w1 & Hh & _).
    pose proof (event_progress _ _ _ _ _ _ _ _ _ Hph Hen Hp Hh) as Hpr. rewrite Hid in Hpr.
    destruct Hpr as [(? & ? & ? & _ & _ & ?)|(_ & ? & _)]; lia.
  - destruct Hl as [(Hc & _) _]. by rewrite Hc in Hlive.
Qed.

Lemma advance_delay x : ended_load x = false → load_delay (advance x) < load_delay x.
Proof.
  intros Hx. unfold load_delay. rewrite Hx. destruct (ended_load (advance x)); [apply Nat.lt_0_succ|].
  destruct x as [s Hs]. unfold ended_load in Hx. cbn [ld advance] in *. apply negb_false_iff in Hx.
  pose proof (live_steps s Hs Hx) as Hlt. destruct (step_live s Hs Hx) as [-> | [-> ?]]; [|by apply (proj1 (Nat.succ_lt_mono _ _)), Nat.add_lt_mono_l].
  pose proof (patience_max (ld_env (step s))). replace (load_cost - ld_steps s) with (S (load_cost - S (ld_steps s))) by lia.
  rewrite Nat.mul_succ_l. generalize ((load_cost - S (ld_steps s)) * S max_patience). lia.
Qed.

(** What a load has done when it has ended. *)
Definition load_report (x : load) : Prop :=
  callbacks (log (ld_world (ld x))) = 1 ∧
  match config_loaded with
  | Some k => log (ld_world (ld x)) = plan_of k ∨ cut_short (plan_of k) (log (ld_world (ld x)))
  | None => log (ld_world (ld x)) = start_failed (Some SPDK_DEFAULT_RPC_ADDR) start_values
  end.

Lemma load_ends x : ended_load x = true → load_report x.
Proof.
  destruct x as [s Hs]. unfold ended_load, load_report, live. simpl. intros Hx.
  destruct (reached_well_formed s Hs) as (_ & Hc & _). pose proof (loaded_run_reached s Hs) as Hl.
  destruct (ctx (ld_world s)) eqn:Hctx; [done|]. split; [done|]. destruct config_loaded as [[[text vs] s0]|]; [|by destruct Hl].
  destruct Hl as [(todo & m & [c Hph] & _)|(_ & _ & Hl)]; [|done].
  destruct (phase_holds _ _ _ _ _ _ _ Hph) as (? & ? & _). congruence.
Qed.
End loading.

(** ** An event loop *)

(** Messages and the subsystems' callback come at once, the connection answers
    after at most two idle polls; [g] counts those that are left. *)
Definition idle_input (w : world) : input :=
  match ctx w with
  | Some c => match client_conn_poller c with Some connect_poller => good_input (- ENOTCONN) | _ => good_input 0 end
  | None => good_input 0
  end.
Definition ready_input (w : world) : input :=
  match ctx w with
  | Some c => match client_conn_poller c with Some connect_poller => good_input 0 | _ => good_input 1 end
  | None => good_input 0
  end.
Definition choose_event `{!JsonLib} (g : nat) (w : world) : event * nat :=
  match msgs w, init_pending w, g with
  | _ :: _, _, _ => (ev_msg (good_input 0), g)
  | [], S _, _ => (ev_init 0 (good_input 0), g)
  | [], 0, S g => (ev_poll (idle_input w), g `min` 1)
  | [], 0, 0 => (ev_poll (ready_input w), 2)
  end.

Lemma choose_event_ok `{!JsonLib, !JsonLaws} g w : well_formed w → live w = true →
  enabled (choose_event g w).1 w = true ∧ polite (choose_event g w).1 w ∧
  (idle (choose_event g w).1 w = true → (choose_event g w).2 `min` 2 < g `min` 2).
Proof.
  assert (∀ rc, fits (good_input rc)) as Hfits by done. unfold live. intros [(text & vs & s & c & todo & m & Hph)|(Hc & _)] Hlive; [|by rewrite Hc in Hlive].
  destruct Hph as [Hh Hm Hi Hr|v s0 Hh Hm Hi Hr|s0 Hh Hm|Hh Hm|Hh Hm Hi]; destruct Hh as (Hc & Hp & Hcp & _);
    unfold choose_event; rewrite Hm, ?Hi; unfold idle_input, ready_input; rewrite ?Hc, ?Hcp; simpl; rewrite ?Hm, ?Hi.
  - destruct g as [|g]; simpl; rewrite ?Hc, ?Hcp, Hp; (split_and!; [done|done| |]); try (intros ?; congruence); try done. intros _. lia.
  - destruct g as [|g]; simpl; rewrite ?Hc, ?Hcp, Hp; (split_and!; [done|done| |]); try (intros ?; congruence); try done. intros _. lia.
  - by split_and!.
  - by split_and!.
  - by split_and!.
Qed.

(** The device's library under this event loop. *)
#[export] Program Instance device_loop : EventLoop nat := {|
  start_values := device_start;
  choose := choose_event;
  patience g := g `min` 2;
  max_patience := 2
|}.
Next Obligation. discriminate. Qed.
Next Obligation. intros g. simpl. lia. Qed.
Next Obligation. intros g w. apply choose_event_ok. Qed.
