(* ===== verification/MyFs.v ===== *)
(** * spdk_filesystem/myfs.c: the file layer over an SPDK blobstore

    SPDK itself is the class [Spdk]: the calls the file makes into it, the
    callbacks a poll of the thread delivers, and what its plain functions
    return.  The state [world] holds the globals of the file, the [malloc]ed
    file objects and the library.  Contexts on a caller's stack are passed by
    value. *)
From stdpp Require Import base gmap list strings.
From S2P Require Import Prelude.

Abbreviation loc := positive.

Definition MAX_FD_COUNT : Z := 1024.
Definition DEFAULT_FD_NUM : Z := 3.
Definition FD_TABLE_SIZE : Z := MAX_FD_COUNT / 8.
Definition POLLER_MAX_TIME : Z := 100000000.
Definition ENOENT : Z := 2.

Record myfs_s := Fs {
  thread : option Z;
  bs_dev : option Z;
  bs : option Z;
  channel : option Z;
  unit_size : Z;
  finished : bool
}.

Inductive myfs_file_status_t :=
  FILE_CREATE | FILE_OPEN | FILE_WRITE | FILE_READ | FILE_CLOSE | FILE_RELEASE.

(** [struct myfs_file_s]; the name is never filled in. *)
Record myfs_file_s := File {
  blobid : Z;
  blob : option Z;
  flags : Z;
  offset : Z;
  f_ret : Z;
  status : myfs_file_status_t;
  done : bool
}.
(** After [memset(file, 0, ...)]. *)
Definition zero_file : myfs_file_s := File 0 None 0 0 0 FILE_CREATE false.

(** The functions sent to the thread. *)
Inductive msg_fn :=
| do_create_msg (file : loc)
| do_open_msg (file : loc)
| do_write_msg (file : loc) (buf size : Z)
| do_read_msg (file : loc) (buf size : Z)
| do_close_msg (file : loc)
| do_release_msg (file : loc)
| setup_json_msg
| myfs_alloc_msg
| myfs_free_msg.

(** The asynchronous calls into SPDK. *)
Inductive call :=
| send_msg (fn : msg_fn)
| bs_get_super (bs : option Z) (arg : loc)
| bs_create_blob (bs : option Z) (arg : loc)
| bs_open_blob (bs : option Z) (id : Z) (arg : loc)
| blob_resize (blob : option Z) (sz : Z) (arg : loc)
| blob_io_write (blob : option Z) (channel : option Z) (buf offset count : Z) (arg : loc)
| blob_io_read (blob : option Z) (channel : option Z) (buf offset count : Z) (arg : loc)
| blob_close (blob : option Z) (arg : loc)
| bs_delete_blob (bs : option Z) (id : Z) (arg : loc)
| subsystem_init_json
| bs_init (dev : option Z)
| bs_destroy (bs : option Z).

(** The callbacks. *)
Inductive event :=
| run_msg (fn : msg_fn)
| get_super_done (arg : loc) (id bserrno : Z)
| create_done (arg : loc) (id bserrno : Z)
| open_done (arg : loc) (blob : option Z) (bserrno : Z)
| resize_done (arg : loc) (bserrno : Z)
| write_done (arg : loc) (bserrno : Z)
| read_done (arg : loc) (bserrno : Z)
| close_done (arg : loc) (bserrno : Z)
| delete_done (arg : loc) (bserrno : Z)
| json_done (rc : Z)
| bs_init_done (bs : option Z) (bserrno : Z)
| bs_destroy_done (bserrno : Z).

(** The system calls the hooks fall back to. *)
Inductive sys :=
| sys_creat (mode : Z) | sys_open (flags : Z)
| sys_read (fd buf count : Z) | sys_write (fd buf count : Z) | sys_close (fd : Z).

(** The calls that return a number at once: [p_blob_id] is the read of
    [blob->id], what is [void] returns anything. *)
Inductive plain :=
| p_env_init
| p_thread_lib_init
| p_set_thread (t : Z)
| p_blob_id (blob : Z)
| p_free_cluster_count (bs : option Z)
| p_io_unit_size (bs : option Z)
| p_free_io_channel (channel : option Z)
| p_sys (c : sys).

Class Spdk (L : Type) := {
  submit : call → L → L;
  poll_begin : L → L;
  (** the next callback of the current poll, [None] when the poll returns *)
  next : L → option (event * L);
  plain_call : plain → L → Z * L;
  alloc_io_channel : L → option Z → option Z;
  (** return code and device *)
  create_bs_dev : L → Z * option Z;
  thread_create : L → option Z
}.

Record world (L : Type) := World {
  fs : option myfs_s;
  fd_table : list Z;
  files : list (option loc);
  initilized : bool;
  store : gmap loc myfs_file_s;
  json_loaded : bool;
  lib : L
}.
Arguments World {L} _ _ _ _ _ _ _.
Arguments fs {L} _.
Arguments fd_table {L} _.
Arguments files {L} _.
Arguments initilized {L} _.
Arguments store {L} _.
Arguments json_loaded {L} _.
Arguments lib {L} _.

Section myfs.
Context {L : Type} `{!Spdk L}.
Abbreviation FS := (M (world L)).

Definition with_fs (f : option myfs_s) (w : world L) : world L :=
  World f (fd_table w) (files w) (initilized w) (store w) (json_loaded w) (lib w).
Definition with_table (t : list Z) (w : world L) : world L :=
  World (fs w) t (files w) (initilized w) (store w) (json_loaded w) (lib w).
Definition with_files (f : list (option loc)) (w : world L) : world L :=
  World (fs w) (fd_table w) f (initilized w) (store w) (json_loaded w) (lib w).
Definition with_store (h : gmap loc myfs_file_s) (w : world L) : world L :=
  World (fs w) (fd_table w) (files w) (initilized w) h (json_loaded w) (lib w).
Definition with_json (b : bool) (w : world L) : world L :=
  World (fs w) (fd_table w) (files w) (initilized w) (store w) b (lib w).
Definition with_init (b : bool) (w : world L) : world L :=
  World (fs w) (fd_table w) (files w) b (store w) (json_loaded w) (lib w).
Definition with_lib (l : L) (w : world L) : world L :=
  World (fs w) (fd_table w) (files w) (initilized w) (store w) (json_loaded w) l.

Definition of_option {A} (o : option A) : FS A := λ w,
  match o with Some a => Ok a w | None => Undef end.
(** [fs->...]; a null [fs] is undefined. *)
Definition get_fs : FS myfs_s := λ w, of_option (fs w) w.
Definition get_file (f : loc) : FS myfs_file_s := λ w, of_option (store w !! f) w.
Definition put_file (f : loc) (x : myfs_file_s) : FS unit := λ w,
  match store w !! f with Some _ => Ok tt (with_store (<[f := x]> (store w)) w) | None => Undef end.
Definition call_spdk (c : call) : FS unit := modify (λ w, with_lib (submit c (lib w)) w).
Definition do_plain (p : plain) : FS Z := λ w,
  let '(r, l) := plain_call p (lib w) in Ok r (with_lib l w).

Definition set_blobid (id : Z) (x : myfs_file_s) := File id (blob x) (flags x) (offset x) (f_ret x) (status x) (done x).
Definition set_blob (b : option Z) (x : myfs_file_s) := File (blobid x) b (flags x) (offset x) (f_ret x) (status x) (done x).
Definition set_ret (r : Z) (x : myfs_file_s) := File (blobid x) (blob x) (flags x) (offset x) r (status x) (done x).
Definition set_status (s : myfs_file_status_t) (x : myfs_file_s) :=
  File (blobid x) (blob x) (flags x) (offset x) (f_ret x) s (done x).
Definition set_done (d : bool) (x : myfs_file_s) := File (blobid x) (blob x) (flags x) (offset x) (f_ret x) (status x) d.
Definition update_file (f : loc) (g : myfs_file_s → myfs_file_s) : FS unit :=
  let* x := get_file f in put_file f (g x).

(** *** The descriptor bitmap *)
Fixpoint get_fd_loop (n : nat) (fd : Z) : FS Z :=
  match n with
  | 0 => ret (-1)%Z
  | S n =>
      let* t := gets fd_table in
      let* b := of_option (t !! Z.to_nat (fd / 8)) in
      let bit := Z.shiftl 1 (fd mod 8) in
      if bool_decide (Z.land b bit = 0)%Z then
        modify (with_table (<[Z.to_nat (fd / 8) := (Z.lor b bit mod 256)%Z]> t)) ;;
        ret fd
      else get_fd_loop n (fd + 1)
  end.
Definition get_fd_from_bitmap : FS Z :=
  get_fd_loop (Z.to_nat (MAX_FD_COUNT - DEFAULT_FD_NUM)) DEFAULT_FD_NUM.

Definition set_fd_to_bitmap (fd : Z) : FS Z :=
  if bool_decide (fd >= MAX_FD_COUNT)%Z then ret (-1)%Z
  else if bool_decide (fd < 0)%Z then undef (* negative index or shift *)
  else
    let* t := gets fd_table in
    let* b := of_option (t !! Z.to_nat (fd / 8)) in
    modify (with_table (<[Z.to_nat (fd / 8) := (Z.land b (Z.lnot (Z.shiftl 1 (fd mod 8))) mod 256)%Z]> t)) ;;
    ret 0%Z.

(** *** Completion callbacks *)
Definition myfs_blob_resize_complete (arg : loc) : FS unit := update_file arg (set_done true).

Definition myfs_blob_open_complete (arg : loc) (b : option Z) : FS unit :=
  update_file arg (set_blob b) ;;
  let* b' := of_option b in
  let* id := do_plain (p_blob_id b') in
  update_file arg (set_blobid id) ;;
  let* f := get_fs in
  let* numfreed := do_plain (p_free_cluster_count (bs f)) in
  let* x := get_file arg in
  call_spdk (blob_resize (blob x) numfreed arg).

Definition myfs_blob_create_complete (arg : loc) (id : Z) : FS unit :=
  update_file arg (set_blobid id) ;;
  let* f := get_fs in
  call_spdk (bs_open_blob (bs f) id arg).

Definition myfs_bs_get_super_complete (arg : loc) (id bserrno : Z) : FS unit :=
  let* f := get_fs in
  if bool_decide (bserrno ≠ 0)%Z then
    when bool_decide (bserrno = - ENOENT)%Z then call_spdk (bs_create_blob (bs f) arg)
  else call_spdk (bs_open_blob (bs f) id arg).

Definition myfs_file_write_complete (arg : loc) : FS unit := update_file arg (set_done true).
Definition myfs_file_read_complete (arg : loc) : FS unit := update_file arg (set_done true).
Definition myfs_file_release_complete (arg : loc) : FS unit := update_file arg (set_done true).

Definition myfs_file_close_complete (arg : loc) : FS unit :=
  let* x := get_file arg in
  match status x with
  | FILE_CLOSE => update_file arg (set_done true)
  | FILE_RELEASE =>
      let* f := get_fs in
      call_spdk (bs_delete_blob (bs f) (blobid x) arg)
  | _ => ret tt
  end.

(** *** Functions run on the thread *)
Definition do_create (file : loc) : FS unit :=
  update_file file (set_status FILE_CREATE) ;;
  let* f := get_fs in
  call_spdk (bs_get_super (bs f) file).

Definition do_open (file : loc) : FS unit :=
  let* x := get_file file in
  if bool_decide (blobid x = 0)%Z then update_file file (set_ret (-1))
  else
    update_file file (set_status FILE_OPEN) ;;
    let* f := get_fs in
    call_spdk (bs_open_blob (bs f) (blobid x) file).

(** [size / fs->unit_size + 1] as a [size_t]; division by zero is undefined. *)
Definition io_count (size : Z) : FS Z :=
  let* f := get_fs in
  if bool_decide (unit_size f = 0)%Z then undef else ret ((size / unit_size f + 1) mod 2 ^ 64)%Z.

Definition do_write (file : loc) (buf size : Z) : FS unit :=
  let* count := io_count size in
  update_file file (set_status FILE_WRITE) ;;
  let* x := get_file file in
  let* f := get_fs in
  call_spdk (blob_io_write (blob x) (channel f) buf 0 count file).

Definition do_read (file : loc) (buf size : Z) : FS unit :=
  let* count := io_count size in
  update_file file (set_status FILE_READ) ;;
  let* x := get_file file in
  let* f := get_fs in
  call_spdk (blob_io_read (blob x) (channel f) buf 0 count file).

Definition do_close (file : loc) : FS unit :=
  update_file file (set_status FILE_CLOSE) ;;
  let* x := get_file file in
  call_spdk (blob_close (blob x) file).

Definition do_release (file : loc) : FS unit :=
  update_file file (set_status FILE_RELEASE) ;;
  let* x := get_file file in
  call_spdk (blob_close (blob x) file).

Definition setup_spdk_json_app : FS unit := call_spdk subsystem_init_json.
Definition json_app_load_done : FS unit := modify (with_json true).

Definition set_fs (g : myfs_s → myfs_s) : FS unit :=
  let* f := get_fs in modify (with_fs (Some (g f))).

Definition myfs_alloc : FS unit :=
  let* l := gets lib in
  let '(rc, dev) := create_bs_dev l in
  if bool_decide (rc ≠ 0)%Z then throw "exit"
  else
    set_fs (λ f, Fs (thread f) dev (bs f) (channel f) (unit_size f) (finished f)) ;;
    call_spdk (bs_init dev).

Definition myfs_blobstore_init_complete (b : option Z) : FS unit :=
  set_fs (λ f, Fs (thread f) (bs_dev f) b (channel f) (unit_size f) (finished f)) ;;
  let* u := do_plain (p_io_unit_size b) in
  set_fs (λ f, Fs (thread f) (bs_dev f) (bs f) (channel f) u (finished f)) ;;
  let* l := gets lib in
  let ch := alloc_io_channel l b in
  set_fs (λ f, Fs (thread f) (bs_dev f) (bs f) ch (unit_size f) (finished f)) ;;
  match ch with
  | None => ret tt
  | Some _ => set_fs (λ f, Fs (thread f) (bs_dev f) (bs f) (channel f) (unit_size f) true)
  end.

Definition myfs_free : FS unit :=
  let* f := get_fs in
  let* _ := do_plain (p_free_io_channel (channel f)) in
  call_spdk (bs_destroy (bs f)).

Definition myfs_blobstore_destory_complete : FS unit :=
  set_fs (λ f, Fs (thread f) (bs_dev f) (bs f) (channel f) (unit_size f) true).

(** *** Polling *)
Definition run_fn (fn : msg_fn) : FS unit :=
  match fn with
  | do_create_msg f => do_create f
  | do_open_msg f => do_open f
  | do_write_msg f buf size => do_write f buf size
  | do_read_msg f buf size => do_read f buf size
  | do_close_msg f => do_close f
  | do_release_msg f => do_release f
  | setup_json_msg => setup_spdk_json_app
  | myfs_alloc_msg => myfs_alloc
  | myfs_free_msg => myfs_free
  end.

(** Most callbacks ignore the error code. *)
Definition handle (e : event) : FS unit :=
  match e with
  | run_msg fn => run_fn fn
  | get_super_done f id err => myfs_bs_get_super_complete f id err
  | create_done f id _ => myfs_blob_create_complete f id
  | open_done f b _ => myfs_blob_open_complete f b
  | resize_done f _ => myfs_blob_resize_complete f
  | write_done f _ => myfs_file_write_complete f
  | read_done f _ => myfs_file_read_complete f
  | close_done f _ => myfs_file_close_complete f
  | delete_done f _ => myfs_file_release_complete f
  | json_done _ => json_app_load_done
  | bs_init_done b _ => myfs_blobstore_init_complete b
  | bs_destroy_done _ => myfs_blobstore_destory_complete
  end.

(** The callbacks of one poll. *)
Definition poll_iter (_ : unit) : FS (unit + unit) :=
  let* l := gets lib in
  match next l with
  | None => ret (inr tt)
  | Some (e, l') => modify (with_lib l') ;; handle e ;; ret (inl tt)
  end.
Definition spdk_thread_poll (fuel : nat) : FS unit :=
  modify (λ w, with_lib (poll_begin (lib w)) w) ;;
  loop fuel poll_iter tt.

(** [fuel] bounds the callbacks of one poll, [polls] the polls. *)
Definition poller_iter (fuel : nat) (done : FS bool) (poller_count : Z) : FS (Z + Z) :=
  spdk_thread_poll fuel ;;
  let poller_count := (poller_count + 1)%Z in
  let* d := done in
  ret (if negb d && bool_decide (poller_count < POLLER_MAX_TIME)%Z then inl poller_count
       else inr poller_count).
(** Sending a message to a null thread is undefined. *)
Definition poller (polls fuel : nat) (th : option Z) (fn : msg_fn) (done : FS bool) : FS bool :=
  let* _ := of_option th in
  call_spdk (send_msg fn) ;;
  let* poller_count := loop polls (poller_iter fuel done) 0%Z in
  let* d := done in
  ret (negb (negb d && bool_decide (poller_count >= POLLER_MAX_TIME)%Z)).

(** *** File operations *)
Definition file_done (f : loc) : FS bool := let* x := get_file f in ret (done x).
Definition fs_finished : FS bool := let* f := get_fs in ret (finished f).

Section operations.
Context (polls fuel : nat).

(** Send a function for a file and poll; the file's return code. *)
Definition file_op (f : loc) (fn : msg_fn) : FS Z :=
  update_file f (set_done false) ;;
  let* s := get_fs in
  let* _ := poller polls fuel (thread s) fn (file_done f) in
  let* x := get_file f in
  ret (f_ret x).

Definition myfs_file_create (f : loc) : FS Z := file_op f (do_create_msg f).
Definition myfs_file_open (f : loc) : FS Z := file_op f (do_open_msg f).
Definition myfs_file_write (f : loc) (buf size : Z) : FS Z :=
  if bool_decide (buf = 0)%Z || negb (bool_decide (size > 0)%Z) then throw "assert"
  else file_op f (do_write_msg f buf size).
Definition myfs_file_read (f : loc) (buf size : Z) : FS Z :=
  if bool_decide (buf = 0)%Z || negb (bool_decide (size > 0)%Z) then throw "assert"
  else file_op f (do_read_msg f buf size).
Definition myfs_file_lseek (f : loc) : FS Z := let* x := get_file f in ret (f_ret x).
Definition myfs_file_close (f : loc) : FS Z := file_op f (do_close_msg f).
Definition myfs_file_release (f : loc) : FS Z := file_op f (do_release_msg f).

(** *** The virtual file system *)
Definition new_file : FS loc := λ w,
  let f := fresh (dom (store w)) in Ok f (with_store (<[f := zero_file]> (store w)) w).
Definition file_at (fd : Z) : FS (option loc) :=
  let* t := gets files in
  if bool_decide (fd < 0)%Z then undef else of_option (t !! Z.to_nat fd).
Definition set_file_at (fd : Z) (f : loc) : FS unit :=
  let* _ := file_at fd in
  modify (λ w, with_files (<[Z.to_nat fd := Some f]> (files w)) w).

Definition myfs_create : FS Z :=
  let* fd := get_fd_from_bitmap in
  let* f := new_file in
  let* _ := myfs_file_create f in
  set_file_at fd f ;;
  ret fd.
Definition myfs_open : FS Z :=
  let* fd := get_fd_from_bitmap in
  let* f := new_file in
  let* _ := myfs_file_open f in
  set_file_at fd f ;;
  ret fd.

(** [files[fd]], dereferenced. *)
Definition file_of (fd : Z) : FS loc :=
  let* f := file_at fd in of_option f.
Definition file_ret (f : loc) : FS Z := let* x := get_file f in ret (f_ret x).

Definition myfs_write (fd buf count : Z) : FS Z :=
  let* f := file_of fd in
  let* _ := myfs_file_write f buf count in
  file_ret f.
Definition myfs_read (fd buf count : Z) : FS Z :=
  let* f := file_of fd in
  let* _ := myfs_file_read f buf count in
  file_ret f.
Definition myfs_close (fd : Z) : FS Z :=
  let* f := file_of fd in
  let* _ := myfs_file_close f in
  let* _ := set_fd_to_bitmap fd in
  file_ret f.

(** Both return codes are ignored, but for the message printed; the settings
    of the log are left out. *)
Definition myfs_spdk_env_init : FS Z :=
  let* rc := do_plain p_env_init in
  let* _ := do_plain p_thread_lib_init in
  let* l := gets lib in
  let t := thread_create l in
  set_fs (λ f, Fs t (bs_dev f) (bs f) (channel f) (unit_size f) (finished f)) ;;
  match t with
  | None => ret (-1)%Z
  | Some th =>
      let* _ := do_plain (p_set_thread th) in
      modify (with_json false) ;;
      let* _ := poller polls fuel t setup_json_msg (gets json_loaded) in
      ret 0%Z
  end.

Definition myfs_setup : FS Z :=
  modify (with_fs (Some (Fs None None None None 0 false))) ;;
  let* _ := myfs_spdk_env_init in
  set_fs (λ f, Fs (thread f) (bs_dev f) (bs f) (channel f) (unit_size f) false) ;;
  let* f := get_fs in
  let* _ := poller polls fuel (thread f) myfs_alloc_msg fs_finished in
  ret 0%Z.

Definition myfs_destory : FS Z :=
  set_fs (λ f, Fs (thread f) (bs_dev f) (bs f) (channel f) (unit_size f) false) ;;
  let* f := get_fs in
  let* _ := poller polls fuel (thread f) myfs_free_msg fs_finished in
  modify (with_fs None) ;;
  ret 0%Z.

(** *** The hooks of the C library's functions *)
Definition do_syscall (c : sys) : FS Z := do_plain (p_sys c).

Definition setup_if_needed : FS unit :=
  let* f := gets fs in
  match f with None => let* _ := myfs_setup in ret tt | Some _ => ret tt end.

Definition creat (mode : Z) : FS Z :=
  let* i := gets initilized in
  if negb i then
    setup_if_needed ;;
    modify (with_init true) ;;
    myfs_create
  else do_syscall (sys_creat mode).

Definition open (flags : Z) : FS Z :=
  let* i := gets initilized in
  if i : bool then setup_if_needed ;; myfs_open
  else do_syscall (sys_open flags).

Definition read (fd buf count : Z) : FS Z :=
  let* f := file_at fd in
  let* i := gets initilized in
  match i, f with
  | true, Some _ => myfs_read fd buf count
  | _, _ => do_syscall (sys_read fd buf count)
  end.
Definition write (fd buf count : Z) : FS Z :=
  let* f := file_at fd in
  let* i := gets initilized in
  match i, f with
  | true, Some _ => myfs_write fd buf count
  | _, _ => do_syscall (sys_write fd buf count)
  end.
Definition lseek : FS Z := ret 0%Z.
Definition close (fd : Z) : FS Z :=
  let* f := file_at fd in
  let* i := gets initilized in
  match i, f with
  | true, Some _ => myfs_close fd
  | _, _ => do_syscall (sys_close fd)
  end.

(** [main]: the two values it prints; [buffer] is its array. *)
Definition main (buffer : Z) : FS (Z * Z) :=
  let* fd := creat 0x1ff in
  let* r1 := write fd buffer 128 in
  let* r2 := read fd buffer 128 in
  let* _ := close fd in
  ret (r1, r2).
End operations.
End myfs.
