(* ===== verification/MyFsKeep.v ===== *)
(** * myfs.c: invariants of the library

    [keeps I m]: whenever [m] returns from a state with [I], it has [I] again.
    [LibInv] is the class of invariants of the world that only look at the
    library and the flag of the configuration; every operation that polls
    nothing keeps them, by the walk [keep] over its code. *)
From stdpp Require Import base gmap list strings.
From S2P Require Import Prelude MyFs.

Section keeps.
Context {S : Type} (I : S → Prop).

Definition keeps {A} (m : M S A) : Prop := ∀ s, I s → match m s with Ok _ s' => I s' | _ => True end.

Lemma keeps_ret {A} (a : A) : keeps (ret a).
Proof. by intros s Hs. Qed.
Lemma keeps_gets {A} (f : S → A) : keeps (gets f).
Proof. by intros s Hs. Qed.
Lemma keeps_throw {A} e : keeps (A := A) (throw e).
Proof. by intros s Hs. Qed.
Lemma keeps_undef {A} : keeps (A := A) undef.
Proof. by intros s Hs. Qed.
Lemma keeps_modify f : (∀ s, I s → I (f s)) → keeps (modify f).
Proof. intros Hf s Hs. by apply Hf. Qed.
Lemma keeps_bind {A B} (m : M S A) (k : A → M S B) : keeps m → (∀ a, keeps (k a)) → keeps (bind m k).
Proof.
  intros Hm Hk s Hs. specialize (Hm s Hs). unfold bind. destruct (m s) as [a s'| | |]; [|done..]. by apply Hk.
Qed.
Lemma keeps_loop {A B} fuel (body : A → M S (A + B)) a : (∀ a, keeps (body a)) → keeps (loop fuel body a).
Proof.
  intros Hb. revert a. induction fuel as [|fuel IH]; intros a; [by intros s Hs|].
  apply keeps_bind; [apply Hb|]. intros [a'|b]; [apply IH|apply keeps_ret].
Qed.
(** A computation that returns in the state it started from. *)
Lemma keeps_query {A} (m : M S A) : (∀ s, match m s with Ok _ s' => s' = s | _ => True end) → keeps m.
Proof. intros Hm s Hs. specialize (Hm s). by destruct (m s); subst. Qed.

Lemma wp_keeps {A} (m : M S A) s Q : keeps m → I s → wp m s Q → wp m s (λ a s', Q a s' ∧ I s').
Proof. intros Hm Hs. specialize (Hm s Hs). unfold wp. by destruct (m s). Qed.
End keeps.
Create HintDb keeps.
#[export] Hint Resolve keeps_ret keeps_gets keeps_throw keeps_undef keeps_loop : keeps.
#[export] Hint Extern 4 (keeps _ (bind _ _)) => apply keeps_bind; [|intros ?] : keeps.
#[export] Hint Extern 4 (keeps _ (match ?x with _ => _ end)) => destruct x : keeps.

(** ** Invariants of the library *)
Class LibInv {L} `{!Spdk L} (I : world L → Prop) : Prop := {
  inv_globals w w' : lib w' = lib w → (json_loaded w' = true → json_loaded w = true) → I w → I w';
  inv_submit c w : I w → I (with_lib (submit c (lib w)) w);
  inv_plain p w : I w → I (with_lib (plain_call p (lib w)).2 w)
}.

Section inv.
Context {L : Type} `{!Spdk L} {I : world L → Prop} `{!LibInv I}.
Abbreviation kept := (keeps I).

Lemma keeps_globals g :
  (∀ w, lib (g w) = lib w ∧ (json_loaded (g w) = true → json_loaded w = true)) → kept (modify g).
Proof. intros Hg. apply keeps_modify. intros w. by apply inv_globals; destruct (Hg w). Qed.
Lemma keeps_call c : kept (call_spdk c).
Proof. apply keeps_modify. intros w. apply inv_submit. Qed.
Lemma keeps_plain p : kept (do_plain p).
Proof. intros w Hw. unfold do_plain. pose proof (inv_plain p w Hw). by destruct (plain_call p (lib w)). Qed.
Lemma keeps_get_fs : kept get_fs.
Proof. apply keeps_query. intros w. unfold get_fs, of_option. by destruct (fs w). Qed.
Lemma keeps_get_file f : kept (get_file f).
Proof. apply keeps_query. intros w. unfold get_file, of_option. by destruct (store w !! f). Qed.
Lemma keeps_of_option {A} (o : option A) : kept (of_option o).
Proof. apply keeps_query. intros w. by destruct o. Qed.
Lemma keeps_put_file f x : kept (put_file f x).
Proof. intros w Hw. unfold put_file. destruct (store w !! f); [|done]. by eapply inv_globals; [| |exact Hw]. Qed.
Lemma keeps_new_file : kept new_file.
Proof. intros w Hw. by eapply inv_globals; [| |exact Hw]. Qed.
End inv.
#[export] Hint Resolve keeps_call keeps_plain keeps_get_fs keeps_get_file keeps_of_option
  keeps_put_file keeps_new_file : keeps.
#[export] Hint Extern 1 (LibInv _) => apply _ : keeps.
#[export] Hint Extern 5 (keeps _ (modify _)) => apply keeps_globals; done : keeps.

Ltac head_of t := lazymatch t with ?f _ => head_of f | _ => t end.
(** Walks through an operation, down to the lemmas above. *)
Ltac keep :=
  repeat lazymatch goal with
  | |- ∀ _, _ => intros ?
  | |- keeps _ ?m => first [solve [eauto 2 with keeps] | apply keeps_bind | apply keeps_loop |
      lazymatch m with match ?x with _ => _ end => destruct x | _ => let h := head_of m in progress unfold h end]
  end.

Section handlers.
Context {L : Type} `{!Spdk L} {I : world L → Prop} `{!LibInv I}.
Abbreviation kept := (keeps I).

Lemma keeps_update_file f g : kept (update_file f g).
Proof. keep. Qed.
Lemma keeps_set_fs g : kept (set_fs g).
Proof. keep. Qed.
Lemma keeps_get_fd n fd : kept (get_fd_loop n fd).
Proof. revert fd. induction n as [|n IH]; intros fd; cbn [get_fd_loop]; keep. Qed.

(** Of the callbacks, only that of the loader raises its flag. *)
Lemma keeps_handle e : (∀ rc, e ≠ json_done rc) → kept (handle e).
Proof. intros He. destruct e as [[]| | | | | | | | |rc| |]; try (by destruct (He rc)); cbn [handle run_fn]; keep. Qed.
End handlers.
#[export] Hint Resolve keeps_update_file keeps_set_fs keeps_get_fd : keeps.
