(* ===== verification/MyFsFd.v ===== *)
(** * myfs.c: the descriptor bitmap

    The table as the set of descriptors whose bit is set. *)
From stdpp Require Import base gmap list.
From S2P Require Import Prelude MyFs.

Section bitmap.
Context {L : Type} `{!Spdk L}.
Implicit Types (t : list Z) (w : world L) (fd j : Z).

(** A table of bytes of the right size. *)
Record table_ok t : Prop := {
  to_length : length t = Z.to_nat FD_TABLE_SIZE;
  to_bytes : Forall (λ b, (0 ≤ b < 256)%Z) t
}.

Definition fd_used t fd : bool := Z.testbit (t !!! Z.to_nat (fd / 8)) (fd mod 8).
Definition fd_free t fd : Prop := (DEFAULT_FD_NUM ≤ fd < MAX_FD_COUNT)%Z ∧ fd_used t fd = false.

Lemma fd_byte t fd : table_ok t → (0 ≤ fd < MAX_FD_COUNT)%Z →
  t !! Z.to_nat (fd / 8) = Some (t !!! Z.to_nat (fd / 8)) ∧ (0 ≤ t !!! Z.to_nat (fd / 8) < 256)%Z ∧
  Z.to_nat (fd / 8) < length t.
Proof.
  intros [Hl Hb] Hfd. assert (Z.to_nat (fd / 8) < length t) as Hlt.
  { rewrite Hl. unfold FD_TABLE_SIZE, MAX_FD_COUNT in *.
    pose proof (Z.div_lt_upper_bound fd 8 128 ltac:(lia) ltac:(lia)).
    pose proof (Z.div_pos fd 8 ltac:(lia) ltac:(lia)). change (1024 / 8)%Z with 128%Z. lia. }
  pose proof (list_lookup_lookup_total_lt t _ Hlt) as Hx. split; [done|]. split; [|done].
  rewrite Forall_forall in Hb. apply Hb. by eapply list_elem_of_lookup_2.
Qed.

Lemma land_bit b k : (0 ≤ k)%Z → bool_decide (Z.land b (Z.shiftl 1 k) = 0)%Z = negb (Z.testbit b k).
Proof.
  intros Hk. rewrite Z.shiftl_1_l. destruct (Z.testbit b k) eqn:Hb; simpl.
  - apply bool_decide_eq_false_2. intros Hz. assert (Z.testbit (Z.land b (2 ^ k)) k = false) as Hx
      by (by rewrite Hz, Z.bits_0). rewrite Z.land_spec, Hb, Z.pow2_bits_true in Hx by done. done.
  - apply bool_decide_eq_true_2. apply Z.bits_inj'. intros n Hn. rewrite Z.land_spec, Z.bits_0.
    destruct (decide (n = k)) as [->|Hne]; [by rewrite Hb|].
    by rewrite Z.pow2_bits_false, andb_false_r by done.
Qed.

(** Writing one byte back with a bit changed. *)
Lemma fd_used_insert t fd j v :
  table_ok t → (0 ≤ fd < MAX_FD_COUNT)%Z → (0 ≤ j)%Z →
  (∀ k, (0 ≤ k < 8)%Z → k ≠ (fd mod 8)%Z → Z.testbit v k = Z.testbit (t !!! Z.to_nat (fd / 8)) k) →
  fd_used (<[Z.to_nat (fd / 8) := v]> t) j =
    if bool_decide (j = fd) then Z.testbit v (fd mod 8) else fd_used t j.
Proof.
  intros Ht Hfd Hj Hv. destruct (fd_byte t fd Ht Hfd) as (_ & _ & Hlt). unfold fd_used.
  pose proof (Z.mod_pos_bound j 8 ltac:(lia)) as Hmj.
  pose proof (Z.div_mod j 8 ltac:(lia)). pose proof (Z.div_mod fd 8 ltac:(lia)).
  pose proof (Z.div_pos j 8 Hj ltac:(lia)). pose proof (Z.div_pos fd 8 ltac:(lia) ltac:(lia)).
  case_bool_decide as Hjf.
  - subst j. by rewrite list_lookup_total_insert_eq.
  - destruct (decide (Z.to_nat (j / 8) = Z.to_nat (fd / 8))) as [He|He].
    + rewrite He, list_lookup_total_insert_eq by done. apply Hv; lia.
    + by rewrite list_lookup_total_insert_ne by done.
Qed.

Lemma table_ok_insert t i v : table_ok t → (0 ≤ v < 256)%Z → table_ok (<[i := v]> t).
Proof. intros [Hl Hb] Hv. split; [by rewrite length_insert|by apply Forall_insert]. Qed.

Lemma small_bits v : (0 ≤ v < 256)%Z ↔ (v = v mod 256)%Z.
Proof.
  split; [intros Hv; by rewrite Z.mod_small|intros ->; apply Z.mod_pos_bound; lia].
Qed.

Lemma testbit_byte v k : (0 ≤ k < 8)%Z → Z.testbit (v mod 256) k = Z.testbit v k.
Proof. intros Hk. change 256%Z with (2 ^ 8)%Z. by rewrite Z.mod_pow2_bits_low by lia. Qed.

(** Setting the bit of a descriptor. *)
Definition set_bit t fd : list Z :=
  <[Z.to_nat (fd / 8) := (Z.lor (t !!! Z.to_nat (fd / 8)) (Z.shiftl 1 (fd mod 8)) mod 256)%Z]> t.
Definition clear_bit t fd : list Z :=
  <[Z.to_nat (fd / 8) := (Z.land (t !!! Z.to_nat (fd / 8)) (Z.lnot (Z.shiftl 1 (fd mod 8))) mod 256)%Z]> t.

Lemma set_bit_ok t fd : table_ok t → (0 ≤ fd < MAX_FD_COUNT)%Z →
  table_ok (set_bit t fd) ∧ ∀ j, (0 ≤ j)%Z → fd_used (set_bit t fd) j = fd_used t j || bool_decide (j = fd).
Proof.
  intros Ht Hfd. pose proof (Z.mod_pos_bound fd 8 ltac:(lia)). split.
  - apply table_ok_insert; [done|]. apply Z.mod_pos_bound. lia.
  - intros j Hj. unfold set_bit. rewrite fd_used_insert by (done || intros k Hk Hne;
      rewrite testbit_byte, Z.lor_spec, Z.shiftl_1_l, Z.pow2_bits_false, orb_false_r by (done || lia); done).
    case_bool_decide as Hjf; [|by rewrite orb_false_r].
    rewrite testbit_byte, Z.lor_spec, Z.shiftl_1_l, Z.pow2_bits_true, !orb_true_r by lia. done.
Qed.

Lemma clear_bit_ok t fd : table_ok t → (0 ≤ fd < MAX_FD_COUNT)%Z →
  table_ok (clear_bit t fd) ∧
  ∀ j, (0 ≤ j)%Z → fd_used (clear_bit t fd) j = fd_used t j && negb (bool_decide (j = fd)).
Proof.
  intros Ht Hfd. pose proof (Z.mod_pos_bound fd 8 ltac:(lia)). split.
  - apply table_ok_insert; [done|]. apply Z.mod_pos_bound. lia.
  - intros j Hj. unfold clear_bit. rewrite fd_used_insert by (done || intros k Hk Hne;
      rewrite testbit_byte, Z.land_spec, Z.lnot_spec, Z.shiftl_1_l, Z.pow2_bits_false, andb_true_r by (done || lia); done).
    case_bool_decide as Hjf; [|by rewrite andb_true_r].
    rewrite testbit_byte, Z.land_spec, Z.lnot_spec, Z.shiftl_1_l, Z.pow2_bits_true by lia. simpl.
    by rewrite !andb_false_r.
Qed.

(** The scan for a free descriptor. *)
Lemma get_fd_loop_step n fd w :
  table_ok (fd_table w) → (0 ≤ fd < MAX_FD_COUNT)%Z →
  get_fd_loop (S n) fd w =
    if fd_used (fd_table w) fd then get_fd_loop n (fd + 1) w
    else Ok fd (with_table (set_bit (fd_table w) fd) w).
Proof.
  intros Ht Hfd. destruct (fd_byte (fd_table w) fd Ht Hfd) as (Hb & Hr & _).
  pose proof (Z.mod_pos_bound fd 8 ltac:(lia)) as Hm.
  cbn [get_fd_loop]. unfold bind, gets, of_option. rewrite Hb, land_bit by lia.
  fold (fd_used (fd_table w) fd). by destruct (fd_used (fd_table w) fd).
Qed.

Lemma get_fd_loop_ok n fd w :
  table_ok (fd_table w) → (0 ≤ fd)%Z → (fd + Z.of_nat n = MAX_FD_COUNT)%Z →
  (∃ r, (fd ≤ r < MAX_FD_COUNT)%Z ∧ fd_used (fd_table w) r = false ∧
     (∀ j, (fd ≤ j < r)%Z → fd_used (fd_table w) j = true) ∧
     get_fd_loop n fd w = Ok r (with_table (set_bit (fd_table w) r) w)) ∨
  ((∀ j, (fd ≤ j < MAX_FD_COUNT)%Z → fd_used (fd_table w) j = true) ∧ get_fd_loop n fd w = Ok (-1)%Z w).
Proof.
  intros Ht. revert fd. induction n as [|n IH]; intros fd H0 Hn.
  - right. split; [lia|done].
  - rewrite get_fd_loop_step by (done || lia). destruct (fd_used (fd_table w) fd) eqn:Hu.
    + destruct (IH (fd + 1)%Z ltac:(lia) ltac:(lia)) as [(r & Hr1 & Hr2 & Hr3 & Hrun)|[Hall Hrun]].
      * left. exists r. split_and!; [lia|lia|done| |exact Hrun]. intros j Hj.
        destruct (decide (j = fd)) as [->|]; [done|apply Hr3; lia].
      * right. split; [|exact Hrun]. intros j Hj. destruct (decide (j = fd)) as [->|]; [done|apply Hall; lia].
    + left. exists fd. split_and!; [lia|lia|done|lia|done].
Qed.

Definition least_free t fd : Prop := fd_free t fd ∧ ∀ j, fd_free t j → (fd ≤ j)%Z.

Lemma get_fd_run w :
  table_ok (fd_table w) →
  (∃ fd, least_free (fd_table w) fd ∧
     get_fd_from_bitmap w = Ok fd (with_table (set_bit (fd_table w) fd) w)) ∨
  ((∀ j, ¬ fd_free (fd_table w) j) ∧ get_fd_from_bitmap w = Ok (-1)%Z w).
Proof.
  intros Ht. unfold get_fd_from_bitmap.
  destruct (get_fd_loop_ok (Z.to_nat (MAX_FD_COUNT - DEFAULT_FD_NUM)) DEFAULT_FD_NUM w Ht)
    as [(r & Hr1 & Hr2 & Hr3 & Hrun)|[Hall Hrun]]; [done|done|left|right].
  - exists r. split; [|done]. split; [done|]. intros j [Hj Hf].
    destruct (decide (r ≤ j)%Z) as [|Hlt]; [done|]. rewrite Hr3 in Hf by lia. done.
  - split; [|done]. intros j [Hj Hf]. by rewrite Hall in Hf.
Qed.

Lemma free_range t fd : fd_free t fd → (0 ≤ fd < MAX_FD_COUNT)%Z.
Proof. intros [H _]. unfold DEFAULT_FD_NUM in H. lia. Qed.

Lemma set_fd_run w fd :
  table_ok (fd_table w) → (0 ≤ fd < MAX_FD_COUNT)%Z →
  set_fd_to_bitmap fd w = Ok 0%Z (with_table (clear_bit (fd_table w) fd) w).
Proof.
  intros Ht Hfd. unfold set_fd_to_bitmap. rewrite !bool_decide_eq_false_2 by lia.
  destruct (fd_byte (fd_table w) fd Ht Hfd) as (Hb & _ & _).
  unfold bind, gets, of_option, modify, ret. by rewrite Hb.
Qed.

(** A descriptor allocation returns the least free descriptor from 3 on,
    marks it and no other, and returns -1 exactly when all are in use. *)
Theorem get_fd_from_bitmap_spec w :
  table_ok (fd_table w) →
  (∃ fd t', least_free (fd_table w) fd ∧
     get_fd_from_bitmap w = Ok fd (with_table t' w) ∧ table_ok t' ∧
     ∀ j, (0 ≤ j)%Z → fd_used t' j = fd_used (fd_table w) j || bool_decide (j = fd)) ∨
  ((∀ j, ¬ fd_free (fd_table w) j) ∧ get_fd_from_bitmap w = Ok (-1)%Z w).
Proof.
  intros Ht. destruct (get_fd_run w Ht) as [(fd & Hfd & Hrun)|?]; [left|by right].
  destruct (set_bit_ok _ fd Ht (free_range _ _ (proj1 Hfd))) as [Hok Hused].
  by exists fd, (set_bit (fd_table w) fd).
Qed.

(** Releasing a descriptor of the table clears its bit and no other; in
    particular an allocation followed by the release of what it returned
    leaves the same descriptors in use; a descriptor beyond the table is
    refused and a negative one is undefined. *)
Theorem set_fd_to_bitmap_spec w fd :
  table_ok (fd_table w) →
  (if bool_decide (fd < 0)%Z then set_fd_to_bitmap fd w = Undef
   else if bool_decide (fd < MAX_FD_COUNT)%Z then
     ∃ t', set_fd_to_bitmap fd w = Ok 0%Z (with_table t' w) ∧ table_ok t' ∧
       ∀ j, (0 ≤ j)%Z → fd_used t' j = fd_used (fd_table w) j && negb (bool_decide (j = fd))
   else set_fd_to_bitmap fd w = Ok (-1)%Z w) ∧
  (∀ r w1, get_fd_from_bitmap w = Ok r w1 → r ≠ (-1)%Z →
     ∃ t2, set_fd_to_bitmap r w1 = Ok 0%Z (with_table t2 w) ∧
       ∀ j, (0 ≤ j)%Z → fd_used t2 j = fd_used (fd_table w) j).
Proof.
  intros Ht. split.
  - case_bool_decide as H0; [|case_bool_decide as H1].
    + unfold set_fd_to_bitmap. rewrite bool_decide_eq_false_2 by (unfold MAX_FD_COUNT; lia).
      by rewrite bool_decide_eq_true_2.
    + destruct (clear_bit_ok (fd_table w) fd Ht ltac:(lia)) as [Hok Hused].
      exists (clear_bit (fd_table w) fd). split; [by apply set_fd_run; [|lia]|done].
    + unfold set_fd_to_bitmap. by rewrite bool_decide_eq_true_2 by lia.
  - intros r w1 Hget Hr. destruct (get_fd_run w Ht) as [(fd' & Hfd & Hrun)|[_ Hrun]];
      rewrite Hrun in Hget; injection Hget as <- <-; [|done].
    pose proof (free_range _ _ (proj1 Hfd)) as Hrg.
    destruct (set_bit_ok _ _ Ht Hrg) as [Hok Hused].
    destruct (clear_bit_ok _ _ Hok Hrg) as [Hok2 Hused2].
    exists (clear_bit (set_bit (fd_table w) fd') fd'). split; [by apply (set_fd_run (with_table _ w))|].
    intros j Hj. rewrite Hused2, Hused by done. case_bool_decide as Hjf; simpl.
    + subst j. rewrite andb_false_r. symmetry. apply Hfd.
    + by rewrite orb_false_r, andb_true_r.
Qed.
End bitmap.
