(* ===== verification/MyFsPoll.v ===== *)
(** * myfs.c: polling an SPDK thread

    [SpdkLaws] is what the file relies on: a call made on the thread is
    answered by one callback, one that [ans] allows, within a bounded number of
    polls, and a poll runs nothing else.  [healthy] is what a
    healthy device does.  [stage] describes a world that waits
    for at most [n] more callbacks; [poller_ok] is the result of polling. *)
From stdpp Require Import base gmap list strings.
From S2P Require Import Prelude MyFs MyFsKeep.

(** The callbacks with which a device answers a call; [super] are the error
    codes with which the super blob may be reported. *)
Inductive answers (super : Z → Prop) : call → event → Prop :=
| a_msg fn : answers super (send_msg fn) (run_msg fn)
| a_super b f id err : super err → answers super (bs_get_super b f) (get_super_done f id err)
| a_create b f id err : answers super (bs_create_blob b f) (create_done f id err)
| a_open b id f blob err : answers super (bs_open_blob b id f) (open_done f (Some blob) err)
| a_resize b n f err : answers super (blob_resize b n f) (resize_done f err)
| a_write b ch buf o n f err : answers super (blob_io_write b ch buf o n f) (write_done f err)
| a_read b ch buf o n f err : answers super (blob_io_read b ch buf o n f) (read_done f err)
| a_close b f err : answers super (blob_close b f) (close_done f err)
| a_delete b id f err : answers super (bs_delete_blob b id f) (delete_done f err)
| a_json rc : answers super subsystem_init_json (json_done rc)
| a_init dev b err : answers super (bs_init dev) (bs_init_done (Some b) err)
| a_destroy b err : answers super (bs_destroy b) (bs_destroy_done err).
Arguments a_super {super} b f id err _.

(** A healthy device has a super blob, or none. *)
Definition super_ok (err : Z) : Prop := err = 0%Z ∨ err = (- ENOENT)%Z.
Abbreviation healthy := (answers super_ok).

(** What passes between the file layer and the library. *)
Inductive item :=
| i_poll
| i_call (c : call)
| i_event (e : event)
| i_plain (p : plain) (r : Z).

(** [trace] is a ghost, all that has passed so far; a library that does not keep
    it can be given one that does. *)
Class SpdkLaws (L : Type) `{!Spdk L} (ans : call → event → Prop) := {
  outstanding : L → list call;
  trace : L → list item;
  (** polls until the next callback *)
  delay : L → nat;
  latency : nat;
  out_submit l c : outstanding l = [] → outstanding (submit c l) = [c];
  out_poll l : outstanding (poll_begin l) = outstanding l;
  out_plain p l : outstanding (plain_call p l).2 = outstanding l;
  trace_submit l c : trace (submit c l) = trace l ++ [i_call c];
  trace_poll l : trace (poll_begin l) = trace l ++ [i_poll];
  trace_next l e l' : next l = Some (e, l') → trace l' = trace l ++ [i_event e];
  trace_plain p l : trace (plain_call p l).2 = trace l ++ [i_plain p (plain_call p l).1];
  next_idle l : outstanding l = [] → next l = None;
  next_one l c : outstanding l = [c] →
    match next l with
    | Some (e, l') => ans c e ∧ outstanding l' = []
    | None => delay (poll_begin l) < delay l
    end;
  delay_latency l : delay l ≤ latency;
  latency_short : (8 * (Z.of_nat latency + 1) ≤ POLLER_MAX_TIME)%Z
}.

(** ** What has passed, apart from polls, and how many polls there were *)
Definition is_poll (i : item) : bool := match i with i_poll => true | _ => false end.
Definition call_item (i : item) : option call := match i with i_call c => Some c | _ => None end.
Definition sys_item (i : item) : option (sys * Z) := match i with i_plain (p_sys c) r => Some (c, r) | _ => None end.
(** The calls and the system calls of a trace. *)
Definition calls_of (h : list item) : list call := omap call_item h.
Definition sys_of (h : list item) : list (sys * Z) := omap sys_item h.

Section histories.
Context {L : Type} {ans : call → event → Prop} `{!Spdk L, !SpdkLaws L ans}.
Implicit Types (l : L) (h : list item).

Definition history l : list item := filter (λ i, is_poll i = false) (trace l).
Definition polls_made l : Z := Z.of_nat (length (filter (λ i, is_poll i = true) (trace l))).

Lemma history_submit l c : history (submit c l) = history l ++ [i_call c].
Proof. unfold history. by rewrite trace_submit, filter_app. Qed.
Lemma history_poll l : history (poll_begin l) = history l.
Proof. unfold history. by rewrite trace_poll, filter_app, app_nil_r. Qed.
Lemma history_next l e l' : next l = Some (e, l') → history l' = history l ++ [i_event e].
Proof. intros Hn. unfold history. by rewrite (trace_next _ _ _ Hn), filter_app. Qed.
Lemma history_plain p l : history (plain_call p l).2 = history l ++ [i_plain p (plain_call p l).1].
Proof. unfold history. by rewrite trace_plain, filter_app. Qed.

Lemma polls_submit l c : polls_made (submit c l) = polls_made l.
Proof. unfold polls_made. by rewrite trace_submit, filter_app, app_nil_r. Qed.
Lemma polls_poll l : polls_made (poll_begin l) = (polls_made l + 1)%Z.
Proof. unfold polls_made. rewrite trace_poll, filter_app, length_app. by rewrite Nat2Z.inj_add. Qed.
Lemma polls_next l e l' : next l = Some (e, l') → polls_made l' = polls_made l.
Proof. intros Hn. unfold polls_made. by rewrite (trace_next _ _ _ Hn), filter_app, app_nil_r. Qed.
Lemma polls_plain p l : polls_made (plain_call p l).2 = polls_made l.
Proof. unfold polls_made. by rewrite trace_plain, filter_app, app_nil_r. Qed.

Lemma calls_of_app h h' : calls_of (h ++ h') = calls_of h ++ calls_of h'.
Proof. apply omap_app. Qed.
Lemma sys_of_app h h' : sys_of (h ++ h') = sys_of h ++ sys_of h'.
Proof. apply omap_app. Qed.

(** The callbacks do not poll. *)
Definition polled (k : Z) (w : world L) : Prop := polls_made (lib w) = k.
#[export] Instance polled_inv k : LibInv (polled k).
Proof.
  unfold polled. split; [by intros w w' ->|intros c w; cbn [lib with_lib]; by rewrite polls_submit|].
  intros p w. cbn [lib with_lib]. by rewrite polls_plain.
Qed.
Lemma keeps_polled k e : keeps (polled k) (handle e).
Proof.
  assert ((∃ rc, e = json_done rc) ∨ ∀ rc, e ≠ json_done rc) as [(rc & ->)|He] by (destruct e; by eauto).
  - by intros w Hw.
  - by apply keeps_handle.
Qed.
Lemma poll_iter_polled k u : keeps (polled k) (poll_iter u).
Proof.
  intros w Hw. unfold poll_iter, bind, gets. destruct (next (lib w)) as [[e l]|] eqn:Hn; [|done].
  assert (polled k (with_lib l w)) as Hw' by (unfold polled; cbn [lib with_lib]; by rewrite (polls_next _ _ _ Hn)).
  cbn. pose proof (keeps_polled k e _ Hw') as Hh. by destruct (handle e _).
Qed.
Lemma thread_poll_polled fuel w Q :
  wp (spdk_thread_poll fuel) w Q → wp (spdk_thread_poll fuel) w (λ r w', Q r w' ∧ polls_made (lib w') = (polls_made (lib w) + 1)%Z).
Proof.
  intros H. apply wp_bind_inv in H. unfold wp at 1 in H. cbn in H. apply wp_bind, wp_modify. refine (wp_keeps (polled _) _ _ _ _ _ H).
  - apply keeps_loop. intros []. apply poll_iter_polled.
  - unfold polled. cbn [lib with_lib]. apply polls_poll.
Qed.
End histories.

Section polling.
Context {L : Type} {ans : call → event → Prop} `{!Spdk L, !SpdkLaws L ans}.
Abbreviation world := (world L).
Implicit Types (w : world) (l : L) (n : nat) (b : bool).

Lemma with_lib_lib l l' w : with_lib l (with_lib l' w) = with_lib l w.
Proof. done. Qed.

Section stages.
Context (dn : M world bool) (b : bool) (Q : world → Prop).

Definition settled w : Prop :=
  outstanding (lib w) = [] ∧
  ∀ l, history l = history (lib w) → dn (with_lib l w) = Ok b (with_lib l w) ∧ Q (with_lib l w).

Fixpoint stage n w : Prop :=
  settled w ∨
  match n with
  | 0 => False
  | S n =>
      ∃ c, outstanding (lib w) = [c] ∧
        (∀ l, dn (with_lib l w) = Ok false (with_lib l w)) ∧
        ∀ e l, ans c e → outstanding l = [] → history l = history (lib w) ++ [i_event e] →
          wp (handle e) (with_lib l w) (λ _ w', stage n w')
  end.

Lemma settled_stage n w : settled w → stage n w.
Proof. destruct n; by left. Qed.

Lemma settled_lib l w : settled w → outstanding l = [] → history l = history (lib w) → settled (with_lib l w).
Proof. intros [_ H] Hl Hh. split; [done|]. intros l' Hl'. cbn [lib with_lib] in Hl'. apply H. by rewrite Hl'. Qed.

Lemma stage_lib n l w :
  stage n w → outstanding l = outstanding (lib w) → history l = history (lib w) → stage n (with_lib l w).
Proof.
  intros Hs Hl Hh. destruct n as [|n]; (destruct Hs as [Hs|Hs]; [left; apply settled_lib; [done|by rewrite Hl; apply Hs|done]|]).
  - done.
  - right. destruct Hs as (c & Hc & Hd & He). exists c. rewrite <-Hl in Hc. split_and!; [done|done|].
    intros e l' Ha Hl' Hh'. apply He; [done|done|]. rewrite Hh'. cbn [lib with_lib]. by rewrite Hh.
Qed.

Lemma stage_done n w :
  stage n w → (settled w ∧ dn w = Ok b w) ∨ (outstanding (lib w) ≠ [] ∧ dn w = Ok false w).
Proof.
  assert (w = with_lib (lib w) w) as Hw by (by destruct w).
  intros Hs. assert (settled w ∨ ∃ c, outstanding (lib w) = [c] ∧ ∀ l, dn (with_lib l w) = Ok false (with_lib l w)) as Hs'.
  { destruct n; destruct Hs as [Hs|Hs]; [by left|done|by left|]. destruct Hs as (c & ? & ? & _). right. eauto. }
  destruct Hs' as [Hs'|(c & Hc & Hd)]; [left|right].
  - split; [done|]. destruct Hs' as [_ H]. rewrite Hw. by apply H.
  - rewrite Hc. split; [done|]. rewrite Hw. apply Hd.
Qed.

(** The callbacks of one poll. *)
Lemma poll_loop fuel n w :
  stage n w → n < fuel →
  wp (loop fuel poll_iter tt) w (λ _ w', ∃ n', n' ≤ n ∧ stage n' w' ∧
    (outstanding (lib w') = [] ∨
     (n' ≠ 0 ∧ delay (poll_begin (lib w')) < delay (lib w') ∧ (n' < n ∨ w' = w)))).
Proof.
  revert n w. induction fuel as [|fuel IH]; intros n w Hs Hn; [lia|]. apply wp_loop.
  apply wp_bind, wp_gets. pose proof Hs as Hs0.
  assert (settled w ∨ ∃ n' c, n = S n' ∧ outstanding (lib w) = [c] ∧
    ∀ e l, ans c e → outstanding l = [] → history l = history (lib w) ++ [i_event e] → wp (handle e) (with_lib l w) (λ _ w', stage n' w')) as [Hset|(n' & c & -> & Hc & He)].
  { destruct n as [|n]; destruct Hs as [Hs|Hs]; [by left|done|by left|]. destruct Hs as (c & ? & _ & ?).
    right. by exists n, c. }
  - rewrite (next_idle _ (proj1 Hset)). apply wp_ret. exists n. split_and!; [done|done|left; apply Hset].
  - pose proof (next_one _ _ Hc) as Hx. destruct (next (lib w)) as [[e l']|] eqn:Hnext.
    + destruct Hx as [Ha Hl']. apply wp_bind, wp_modify, wp_bind.
      eapply wp_mono; [apply He; [exact Ha|exact Hl'|by eapply history_next]|]. intros [] w1 H1. apply wp_ret.
      eapply wp_mono; [apply (IH n' w1 H1); lia|]. intros [] w2 (n2 & Hle & H2 & Hd).
      exists n2. split_and!; [lia|done|]. destruct Hd as [Hd|(H0 & Hd & _)]; [by left|right].
      split_and!; [done|done|left; lia].
    + apply wp_ret. exists (S n'). split_and!; [done|done|right]. split_and!; [done|done|by right].
Qed.

(** One poll makes progress, or finds the world settled. *)
Lemma thread_poll_ok fuel n w :
  stage n w → n < fuel →
  wp (spdk_thread_poll fuel) w (λ _ w', ∃ n', stage n' w' ∧ n' ≤ n ∧
    (outstanding (lib w') = [] ∨
     n' * (latency + 1) + delay (poll_begin (lib w')) < n * (latency + 1) + delay (poll_begin (lib w)))).
Proof.
  intros Hs Hn. apply wp_bind, wp_modify. eapply wp_mono.
  - apply poll_loop; [|exact Hn]. apply stage_lib; [exact Hs|apply out_poll|apply history_poll].
  - intros [] w' (n' & Hle & H' & Hd). exists n'. split_and!; [done|done|].
    destruct Hd as [Hd|(H0 & Hd & [Hlt| ->])]; [by left|right|right; simpl in *; nia].
    pose proof (delay_latency (lib w')). nia.
Qed.

(** Polling with budget left: it ends with the world settled. *)
Lemma polls_ok polls fuel n w count :
  stage n w → n < fuel → b = true →
  n * (latency + 1) + delay (poll_begin (lib w)) < polls →
  (count + Z.of_nat (n * (latency + 1) + delay (poll_begin (lib w))) + 1 < POLLER_MAX_TIME)%Z →
  wp (loop polls (poller_iter fuel dn) count) w (λ _ w', settled w').
Proof.
  intros Hs Hn Hb. revert n w count Hs Hn. induction polls as [|polls IH]; intros n w count Hs Hn Hp Hc; [lia|].
  apply wp_loop, wp_bind. eapply wp_mono; [by apply thread_poll_ok|].
  intros [] w' (n' & H' & Hle & Hd). apply wp_bind.
  destruct (stage_done _ _ H') as [[Hset Hdn]|[Hout Hdn]]; (eapply wp_pure_run; [exact Hdn|]); apply wp_ret.
  - by rewrite Hb.
  - destruct Hd as [Hd|Hd]; [done|]. simpl. rewrite bool_decide_eq_true_2 by lia.
    eapply IH; [exact H'|lia|lia|lia].
Qed.

(** Polling for a flag that is never set: it ends with the counter used up. *)
Lemma polls_time_out polls fuel n w count :
  stage n w → n < fuel → b = false →
  settled w ∨ (Z.of_nat (n * (latency + 1) + delay (poll_begin (lib w))) < POLLER_MAX_TIME - count)%Z →
  (count < POLLER_MAX_TIME ≤ Z.of_nat polls + count)%Z →
  wp (loop polls (poller_iter fuel dn) count) w (λ c w', c = POLLER_MAX_TIME ∧ settled w' ∧
    polls_made (lib w') = (polls_made (lib w) + (POLLER_MAX_TIME - count))%Z).
Proof.
  intros Hs Hn Hb. revert n w count Hs Hn. induction polls as [|polls IH]; intros n w count Hs Hn Hm Hc; [lia|].
  apply wp_loop, wp_bind. assert (wp (spdk_thread_poll fuel) w (λ _ w', ∃ n', stage n' w' ∧ n' ≤ n ∧
    (settled w' ∨ (Z.of_nat (n' * (latency + 1) + delay (poll_begin (lib w'))) < POLLER_MAX_TIME - (count + 1))%Z))) as Hp.
  { destruct Hm as [Hm|Hm].
    - eapply wp_mono; [apply (thread_poll_ok fuel 0); [by apply settled_stage|lia]|].
      intros [] w' (n' & H' & Hle & _). exists n'. destruct n'; [|lia]. split_and!; [done|lia|].
      destruct H' as [?|[]]. by left.
    - eapply wp_mono; [by apply thread_poll_ok|]. intros [] w' (n' & H' & Hle & Hd).
      exists n'. split_and!; [done|done|]. destruct Hd as [Hd|Hd]; [|right; lia].
      left. by destruct (stage_done _ _ H') as [[? _]|[? _]]. }
  eapply wp_mono; [apply thread_poll_polled, Hp|]. intros [] w' [(n' & H' & Hle & Hd) Hpm]. apply wp_bind.
  assert (dn w' = Ok false w') as Hdn by (destruct (stage_done _ _ H') as [[_ ?]|[_ ?]]; congruence).
  eapply wp_pure_run; [exact Hdn|]. apply wp_ret. cbn [negb andb]. case_bool_decide as Hlt.
  - eapply wp_mono; [eapply IH; [exact H'|lia|exact Hd|lia]|]. intros c w2 (? & ? & Hp2). split_and!; [done|done|lia].
  - split; [lia|]. split; [destruct Hd as [?|Hd]; [done|lia]|lia].
Qed.

(** [poller]: the flag's final value is its result. *)
Lemma poller_ok polls fuel n w th fn :
  stage n (with_lib (submit (send_msg fn) (lib w)) w) → n < fuel → n ≤ 6 →
  (POLLER_MAX_TIME ≤ Z.of_nat polls)%Z → is_Some th →
  wp (poller polls fuel th fn dn) w (λ r w', r = b ∧ outstanding (lib w') = [] ∧ Q w' ∧
    (b = false → polls_made (lib w') = (polls_made (lib w) + POLLER_MAX_TIME)%Z)).
Proof.
  intros Hs Hn Hn6 Hp [t ->]. apply wp_bind, wp_ret, wp_bind, wp_modify, wp_bind. set (w1 := with_lib _ w) in *.
  pose proof latency_short as Hlat. pose proof (delay_latency (poll_begin (lib w1))) as Hdl.
  assert (Z.of_nat (n * (latency + 1) + delay (poll_begin (lib w1))) + 1 < POLLER_MAX_TIME)%Z as Hmu by nia.
  assert (∀ w', settled w' → dn w' = Ok b w' ∧ outstanding (lib w') = [] ∧ Q w') as Hset.
  { intros w' [Ho H]. destruct (H (lib w') eq_refl) as [H1 H2]. by destruct w'. }
  destruct b eqn:Hb.
  - eapply wp_mono; [eapply polls_ok; [exact Hs|done..|lia|lia]|]. intros c w' H'.
    destruct (Hset w' H') as (Hd & Ho & HQ). apply wp_bind. eapply wp_pure_run; [exact Hd|]. by apply wp_ret.
  - eapply wp_mono; [eapply polls_time_out; [exact Hs|done..|right; lia|lia]|]. intros c w' (-> & H' & Hpm).
    destruct (Hset w' H') as (Hd & Ho & HQ). apply wp_bind. eapply wp_pure_run; [exact Hd|]. apply wp_ret.
    split_and!; [done|done|done|]. intros _. rewrite Hpm. unfold w1. cbn [lib with_lib]. rewrite polls_submit. lia.
Qed.
End stages.
End polling.
