(* ===== verification/MyFsDevice.v ===== *)
(** * myfs.c: a library that obeys the laws

    A device that answers the outstanding calls in order, one callback after
    another, without errors: the laws of [SpdkLaws] can hold.  The examples of
    the file operations are run on it. *)
From stdpp Require Import base gmap list strings.
From S2P Require Import Prelude MyFs MyFsFd MyFsPoll.

(** The outstanding calls, and what has passed so far. *)
Record device := Device { pending : list call; past : list item }.

(** The device has no super blob; every new blob has number 7. *)
Definition answer (c : call) : event :=
  match c with
  | send_msg fn => run_msg fn
  | bs_get_super _ f => get_super_done f 0 (- ENOENT)
  | bs_create_blob _ f => create_done f 7 0
  | bs_open_blob _ id f => open_done f (Some id) 0
  | blob_resize _ _ f => resize_done f 0
  | blob_io_write _ _ _ _ _ f => write_done f 0
  | blob_io_read _ _ _ _ _ f => read_done f 0
  | blob_close _ f => close_done f 0
  | bs_delete_blob _ _ f => delete_done f 0
  | subsystem_init_json => json_done 0
  | bs_init _ => bs_init_done (Some 1%Z) 0
  | bs_destroy _ => bs_destroy_done 0
  end.

(** 16 free clusters of 512-byte units; the kernel refuses every call. *)
Definition plain_answer (p : plain) : Z :=
  match p with
  | p_blob_id b => b
  | p_free_cluster_count _ => 16
  | p_io_unit_size _ => 512
  | p_sys _ => -1
  | _ => 0
  end.

#[export] Instance device_spdk : Spdk device := {|
  submit c l := Device (pending l ++ [c]) (past l ++ [i_call c]);
  poll_begin l := Device (pending l) (past l ++ [i_poll]);
  next l :=
    match pending l with
    | [] => None
    | c :: p => Some (answer c, Device p (past l ++ [i_event (answer c)]))
    end;
  plain_call p l := (plain_answer p, Device (pending l) (past l ++ [i_plain p (plain_answer p)]));
  alloc_io_channel _ _ := Some 1%Z;
  create_bs_dev _ := (0%Z, Some 1%Z);
  thread_create _ := Some 1%Z
|}.

Lemma answer_ok c : healthy c (answer c).
Proof. destruct c; constructor. by right. Qed.

#[export] Instance device_laws : SpdkLaws device healthy.
Proof.
  refine {| outstanding := pending; trace := past; delay _ := 0; latency := 0 |}.
  - by intros l c; cbn; intros ->.
  - done.
  - done.
  - done.
  - done.
  - by intros [[|c p] h] e l'; cbn; [|intros [= <- <-]].
  - done.
  - by intros [p h]; cbn; intros ->.
  - intros [p h] c; cbn; intros ->. split; [apply answer_ok|done].
  - done.
  - done.
Defined.

(** Enough polls and callbacks. *)
Definition many_polls : nat := Z.to_nat POLLER_MAX_TIME.
Definition many_events : nat := 8.

Lemma many_polls_enough : (POLLER_MAX_TIME ≤ Z.of_nat many_polls)%Z.
Proof. unfold many_polls. rewrite Z2Nat.id; [done|]. unfold POLLER_MAX_TIME. lia. Qed.

Definition empty_table : list Z := replicate (Z.to_nat FD_TABLE_SIZE) 0%Z.
Definition no_files : list (option loc) := replicate (Z.to_nat MAX_FD_COUNT) None.
Definition device_fs : myfs_s := Fs (Some 1%Z) (Some 1%Z) (Some 1%Z) (Some 1%Z) 512 true.

(** The globals as the program starts, after the set-up, and with one file. *)
Definition cold_world : world device := World None empty_table no_files false ∅ false (Device [] []).
Definition warm_world : world device := World (Some device_fs) empty_table no_files true ∅ true (Device [] []).
Definition some_file : myfs_file_s := File 7 (Some 7%Z) 0 0 0 FILE_CREATE true.
Definition one_file_world : world device :=
  World (Some device_fs) (set_bit empty_table 3) (<[3 := Some 1%positive]> no_files) true {[1%positive := some_file]} true (Device [] []).

Lemma empty_table_ok : table_ok empty_table.
Proof. split; [by vm_compute|]. by apply Forall_replicate. Qed.

Lemma three_free : fd_free empty_table 3.
Proof. split; [unfold DEFAULT_FD_NUM, MAX_FD_COUNT; lia|by vm_compute]. Qed.

Lemma no_files_length : length no_files = Z.to_nat MAX_FD_COUNT.
Proof. apply length_replicate. Qed.
