(* ===== verification/MyFsSpec.v ===== *)
(** * myfs.c: the file operations

    What [create], [open], [read], [write] and [close] do on a healthy device,
    and which behaviours of a file system they do not have. *)
From stdpp Require Import base gmap list strings.
From S2P Require Import Prelude MyFs MyFsFd MyFsPoll MyFsDevice.

Section files.
Context {L : Type} {super : Z → Prop} `{!Spdk L, !SpdkLaws L (answers super)}.
Abbreviation world := (world L).
Implicit Types (w : world) (l : L) (f : loc) (x : myfs_file_s) (n : nat).

(** A world whose file [f] is [x], with another library state. *)
Definition file_world w f x l : world := with_lib l (with_store (<[f := x]> (store w)) w).

Lemma wp_update_file w f x l g (Q : unit → world → Prop) :
  Q tt (file_world w f (g x) l) → wp (update_file f g) (file_world w f x l) Q.
Proof.
  intros HQ. unfold wp, update_file, bind, get_file, of_option, put_file. simpl.
  rewrite lookup_insert_eq. simpl. rewrite lookup_insert_eq. unfold with_store. simpl.
  rewrite insert_insert_eq. exact HQ.
Qed.

Lemma wp_get_file w f x l (Q : myfs_file_s → world → Prop) :
  Q x (file_world w f x l) → wp (get_file f) (file_world w f x l) Q.
Proof. intros HQ. unfold wp, get_file, of_option. simpl. by rewrite lookup_insert_eq. Qed.

Lemma wp_get_fs w s (Q : myfs_s → world → Prop) : fs w = Some s → Q s w → wp get_fs w Q.
Proof. intros Hs HQ. unfold wp, get_fs, of_option. by rewrite Hs. Qed.

Lemma wp_call w f x l c (Q : unit → world → Prop) :
  Q tt (file_world w f x (submit c l)) → wp (call_spdk c) (file_world w f x l) Q.
Proof. done. Qed.

(** A plain call: the library answers [r] and goes on as [l']. *)
Lemma wp_plain w f x l p (Q : Z → world → Prop) :
  (∀ r l', outstanding l' = outstanding l → history l' = history l ++ [i_plain p r] → Q r (file_world w f x l')) →
  wp (do_plain p) (file_world w f x l) Q.
Proof.
  intros HQ. unfold wp, do_plain. pose proof (history_plain p l) as Hh. pose proof (out_plain p l) as Ho.
  cbn [lib file_world with_lib]. destruct (plain_call p l) as [r l']. by apply HQ.
Qed.

Lemma file_done_ok w f x l : file_done f (file_world w f x l) = Ok (done x) (file_world w f x l).
Proof. apply wp_eq. apply wp_bind, wp_get_file, wp_ret. done. Qed.

(** Stages of an operation on one file. *)
Section stages.
Context (w : world) (f : loc) (b : bool) (P : myfs_file_s → list item → Prop).

Definition file_post (w' : world) : Prop := ∃ x l, w' = file_world w f x l ∧ P x (history l).
Abbreviation stage := (stage (file_done f) b file_post).

Lemma file_settled x l : outstanding l = [] → done x = b → P x (history l) →
  settled (file_done f) b file_post (file_world w f x l).
Proof.
  intros Hl Hd HP. split; [done|]. intros l' Hh. cbn [lib file_world with_lib] in Hh. split.
  - rewrite <-Hd. apply (file_done_ok w f x l').
  - exists x, l'. split; [done|]. by rewrite Hh.
Qed.

Lemma file_stage n x l c :
  outstanding l = [] → done x = false →
  (∀ e l', answers super c e → outstanding l' = [] → history l' = history l ++ [i_call c; i_event e] →
    wp (handle e) (file_world w f x l') (λ _ w', stage n w')) →
  stage (S n) (file_world w f x (submit c l)).
Proof.
  intros Hl Hd He. right. exists c. split_and!; [|intros l'; rewrite <-Hd; apply (file_done_ok w f x l')|].
  - simpl. by apply out_submit.
  - intros e l' Ha Hl' Hh. apply He; [done|done|]. rewrite Hh. cbn [lib file_world with_lib]. by rewrite history_submit, <-app_assoc.
Qed.
End stages.

(** What passes when a function is sent to the thread and run. *)
Definition msg_items (fn : msg_fn) : list item := [i_call (send_msg fn); i_event (run_msg fn)].

(** Running an operation on a file. *)
Lemma world_file w f x : store w !! f = Some x → file_world w f x (lib w) = w.
Proof.
  intros Hf. unfold file_world, with_lib, with_store. simpl. rewrite insert_id by done. by destruct w.
Qed.

Lemma file_op_ok polls fuel n w f x l fn b P s :
  fs w = Some s → is_Some (thread s) → outstanding l = [] →
  (∀ l', outstanding l' = [] → history l' = history l ++ msg_items fn →
     wp (run_fn fn) (file_world w f (set_done false x) l') (λ _ w', stage (file_done f) b (file_post w f P) n w')) →
  n < 6 → S n < fuel → (POLLER_MAX_TIME ≤ Z.of_nat polls)%Z →
  wp (file_op polls fuel f fn) (file_world w f x l) (λ r w', ∃ x' l', w' = file_world w f x' l' ∧
    outstanding l' = [] ∧ P x' (history l') ∧ r = f_ret x' ∧
    (b = false → polls_made l' = (polls_made l + POLLER_MAX_TIME)%Z)).
Proof.
  intros Hfs Hth Hout Hrun Hn Hfu Hp. unfold file_op. apply wp_bind, wp_update_file, wp_bind.
  eapply wp_get_fs; [exact Hfs|]. apply wp_bind.
  eapply wp_mono; [apply (poller_ok (file_done f) b (file_post w f P) polls fuel (S n) _ (thread s))|].
  - apply (file_stage w f b P n (set_done false x) l (send_msg fn)); [done|done|].
    intros e l' Ha Hl' Hh. inversion Ha; subst. by apply Hrun.
  - done.
  - lia.
  - done.
  - done.
  - intros r w' (-> & Ho & (x' & l' & -> & HP) & Hpm). apply wp_bind, wp_get_file, wp_ret. by exists x', l'.
Qed.

(** Opening a blob: it is remembered with its id, and gets the clusters that
    are free. *)
Definition open_items s f id bl bid cl err err' : list item :=
  [i_call (bs_open_blob (bs s) id f); i_event (open_done f (Some bl) err);
   i_plain (p_blob_id bl) bid; i_plain (p_free_cluster_count (bs s)) cl;
   i_call (blob_resize (Some bl) cl f); i_event (resize_done f err')].

Lemma open_stage w f P x l s id n :
  fs w = Some s → outstanding l = [] → done x = false →
  (∀ bl bid cl err err' h, h = history l ++ open_items s f id bl bid cl err err' →
     P (set_done true (set_blobid bid (set_blob (Some bl) x))) h) →
  stage (file_done f) true (file_post w f P) (S (S n)) (file_world w f x (submit (bs_open_blob (bs s) id f) l)).
Proof.
  intros Hs Hl Hd HP. apply file_stage; [done|done|].
  intros e l1 Ha Hl1 Hh1. inversion Ha as [| | |? ? ? bl err| | | | | | | |]; subst. cbn [handle].
  unfold myfs_blob_open_complete. apply wp_bind, wp_update_file, wp_bind, wp_ret.
  apply wp_bind, wp_plain. intros bid l2 Hl2 Hh2. apply wp_bind, wp_update_file, wp_bind.
  eapply wp_get_fs; [exact Hs|]. apply wp_bind, wp_plain. intros k l3 Hl3 Hh3. apply wp_bind, wp_get_file, wp_call.
  apply file_stage; [by rewrite Hl3, Hl2|done|]. intros e l4 Ha4 Hl4 Hh4. inversion Ha4; subst. cbn [handle].
  apply wp_update_file, settled_stage, file_settled; [done|done|]. eapply (HP bl bid k).
  by rewrite Hh4, Hh3, Hh2, Hh1, <-!app_assoc.
Qed.

(** Opening by name: the blob id of a new file object is 0, so nothing is
    submitted and the flag is never set. *)
Lemma open_run w f x l h :
  outstanding l = [] → history l = h → blobid x = 0%Z → done x = false →
  wp (do_open f) (file_world w f x l)
    (λ _ w', stage (file_done f) false (file_post w f (λ x' h', x' = set_ret (-1) x ∧ h' = h)) 0 w').
Proof.
  intros Hl Hh Hid Hd. unfold do_open. apply wp_bind, wp_get_file. rewrite bool_decide_eq_true_2 by done.
  by apply wp_update_file, settled_stage, file_settled.
Qed.

(** The units of a transfer. *)
Definition units s (size : Z) : Z := ((size / unit_size s + 1) mod 2 ^ 64)%Z.

(** Reading and writing: the completion ignores the error code. *)
Lemma io_count_ok w f x l s size (Q : Z → world → Prop) :
  fs w = Some s → unit_size s ≠ 0%Z → Q (units s size) (file_world w f x l) →
  wp (io_count size) (file_world w f x l) Q.
Proof.
  intros Hs Hu HQ. apply wp_bind. eapply wp_get_fs; [exact Hs|]. rewrite bool_decide_eq_false_2 by done.
  by apply wp_ret.
Qed.

Lemma write_run w f x s l h buf size :
  fs w = Some s → unit_size s ≠ 0%Z → outstanding l = [] → history l = h → done x = false →
  wp (do_write f buf size) (file_world w f x l)
    (λ _ w', stage (file_done f) true (file_post w f (λ x' h',
       x' = set_done true (set_status FILE_WRITE x) ∧ ∃ err,
       h' = h ++ [i_call (blob_io_write (blob x) (channel s) buf 0 (units s size) f); i_event (write_done f err)])) 1 w').
Proof.
  intros Hs Hu Hl <- Hd. unfold do_write. apply wp_bind. eapply io_count_ok; [done..|].
  apply wp_bind, wp_update_file, wp_bind, wp_get_file, wp_bind. eapply wp_get_fs; [exact Hs|]. apply wp_call.
  apply file_stage; [done|done|]. intros e l1 Ha Hl1 Hh1. inversion Ha; subst. cbn [handle].
  apply wp_update_file, settled_stage, file_settled; [done|done|by eauto].
Qed.

Lemma read_run w f x s l h buf size :
  fs w = Some s → unit_size s ≠ 0%Z → outstanding l = [] → history l = h → done x = false →
  wp (do_read f buf size) (file_world w f x l)
    (λ _ w', stage (file_done f) true (file_post w f (λ x' h',
       x' = set_done true (set_status FILE_READ x) ∧ ∃ err,
       h' = h ++ [i_call (blob_io_read (blob x) (channel s) buf 0 (units s size) f); i_event (read_done f err)])) 1 w').
Proof.
  intros Hs Hu Hl <- Hd. unfold do_read. apply wp_bind. eapply io_count_ok; [done..|].
  apply wp_bind, wp_update_file, wp_bind, wp_get_file, wp_bind. eapply wp_get_fs; [exact Hs|]. apply wp_call.
  apply file_stage; [done|done|]. intros e l1 Ha Hl1 Hh1. inversion Ha; subst. cbn [handle].
  apply wp_update_file, settled_stage, file_settled; [done|done|by eauto].
Qed.

Lemma close_run w f x l h :
  outstanding l = [] → history l = h → done x = false →
  wp (do_close f) (file_world w f x l)
    (λ _ w', stage (file_done f) true (file_post w f (λ x' h',
       x' = set_done true (set_status FILE_CLOSE x) ∧ ∃ err,
       h' = h ++ [i_call (blob_close (blob x) f); i_event (close_done f err)])) 1 w').
Proof.
  intros Hl <- Hd. unfold do_close. apply wp_bind, wp_update_file, wp_bind, wp_get_file, wp_call.
  apply file_stage; [done|done|]. intros e l1 Ha Hl1 Hh1. inversion Ha; subst. cbn [handle].
  unfold myfs_file_close_complete. apply wp_bind, wp_get_file. cbn [status set_status].
  apply wp_update_file, settled_stage, file_settled; [done|done|by eauto].
Qed.

(** Releasing closes the blob and then deletes it. *)
Lemma release_run w f x s l h :
  fs w = Some s → outstanding l = [] → history l = h → done x = false →
  wp (do_release f) (file_world w f x l)
    (λ _ w', stage (file_done f) true (file_post w f (λ x' h',
       x' = set_done true (set_status FILE_RELEASE x) ∧ ∃ err err',
       h' = h ++ [i_call (blob_close (blob x) f); i_event (close_done f err);
                  i_call (bs_delete_blob (bs s) (blobid x) f); i_event (delete_done f err')])) 2 w').
Proof.
  intros Hs Hl <- Hd. unfold do_release. apply wp_bind, wp_update_file, wp_bind, wp_get_file, wp_call.
  apply file_stage; [done|done|]. intros e l1 Ha Hl1 Hh1. inversion Ha; subst. cbn [handle].
  unfold myfs_file_close_complete. apply wp_bind, wp_get_file. cbn [status set_status].
  apply wp_bind. eapply wp_get_fs; [exact Hs|]. apply wp_call.
  apply file_stage; [done|done|]. intros e l2 Ha2 Hl2 Hh2. inversion Ha2; subst. cbn [handle].
  apply wp_update_file, settled_stage, file_settled; [done|done|]. split; [done|]. eexists _, _. by rewrite Hh2, Hh1, <-app_assoc.
Qed.

(** ** The calls of the file layer *)

(** The file layer is set up and nothing is outstanding. *)
Record ready w (s : myfs_s) : Prop := {
  rd_fs : fs w = Some s;
  rd_thread : is_Some (thread s);
  rd_unit : (0 < unit_size s)%Z;
  rd_idle : outstanding (lib w) = [];
  rd_table : table_ok (fd_table w);
  rd_files : length (files w) = Z.to_nat MAX_FD_COUNT
}.

(** Bounds that never end a loop early. *)
Definition enough (polls fuel : nat) : Prop := (POLLER_MAX_TIME ≤ Z.of_nat polls)%Z ∧ 7 < fuel.

(** Nothing is outstanding in [l], and since [w], [tr] has passed, apart from
    polls; the calls made since [w] are [cs]. *)
Definition happened w (tr : list item) l : Prop := outstanding l = [] ∧ history l = history (lib w) ++ tr.
Definition did w (cs : list call) l : Prop :=
  outstanding l = [] ∧ calls_of (history l) = calls_of (history (lib w)) ++ cs.

Lemma happened_did w tr l : happened w tr l → did w (calls_of tr) l.
Proof. intros [Hl Hh]. split; [done|]. by rewrite Hh, calls_of_app. Qed.

(** The world after descriptor [fd] was given to the new file [f]. *)
Definition opened_world w fd f x l : world :=
  World (fs w) (set_bit (fd_table w) fd) (<[Z.to_nat fd := Some f]> (files w)) (initilized w)
    (<[f := x]> (store w)) (json_loaded w) l.

Lemma new_file_ok w (Q : loc → world → Prop) :
  (∀ f, store w !! f = None → Q f (file_world w f zero_file (lib w))) → wp new_file w Q.
Proof.
  intros HQ. unfold wp, new_file. specialize (HQ (fresh (dom (store w)))). simpl in *.
  destruct w; apply HQ. apply not_elem_of_dom, is_fresh.
Qed.

Lemma file_at_ok w fd (Q : option loc → world → Prop) :
  length (files w) = Z.to_nat MAX_FD_COUNT → (0 ≤ fd < MAX_FD_COUNT)%Z →
  (∀ o, files w !! Z.to_nat fd = Some o → Q o w) → wp (file_at fd) w Q.
Proof.
  intros Hl Hfd HQ. apply wp_bind, wp_gets. rewrite bool_decide_eq_false_2 by lia.
  destruct (lookup_lt_is_Some_2 (files w) (Z.to_nat fd)) as [o Ho]; [rewrite Hl; lia|].
  unfold wp, of_option. rewrite Ho. by apply HQ.
Qed.

Lemma set_file_at_ok w fd f (Q : unit → world → Prop) :
  length (files w) = Z.to_nat MAX_FD_COUNT → (0 ≤ fd < MAX_FD_COUNT)%Z →
  Q tt (with_files (<[Z.to_nat fd := Some f]> (files w)) w) → wp (set_file_at fd f) w Q.
Proof. intros Hl Hfd HQ. apply wp_bind, file_at_ok; [done|done|]. intros o _. by apply wp_modify. Qed.

(** Allocating a descriptor, making a file and running an operation on it. *)
Lemma open_with w s (op : loc → M world Z) (P : loc → myfs_file_s → L → Prop) :
  ready w s →
  (∀ w1 f, fs w1 = Some s → lib w1 = lib w → outstanding (lib w1) = [] →
     wp (op f) (file_world w1 f zero_file (lib w1)) (λ _ w', ∃ x l, w' = file_world w1 f x l ∧
       outstanding l = [] ∧ P f x l)) →
  let run := (let* fd := get_fd_from_bitmap in let* f := new_file in let* _ := op f in
              set_file_at fd f ;; ret fd) w in
  (∃ fd f x l, least_free (fd_table w) fd ∧ store w !! f = None ∧ run = Ok fd (opened_world w fd f x l) ∧
     outstanding l = [] ∧ P f x l) ∨
  ((∀ j, ¬ fd_free (fd_table w) j) ∧ run = Undef).
Proof.
  intros [Hfs Hth Hu Hid Ht Hlen] Hop run. destruct (get_fd_run w Ht) as [(fd & Hfd & Hget)|[Hall Hget]].
  - left. pose proof (free_range _ _ (proj1 Hfd)) as Hr.
    assert (wp (let* fd := get_fd_from_bitmap in let* f := new_file in let* _ := op f in
      set_file_at fd f ;; ret fd) w (λ r w', ∃ f x l, r = fd ∧ store w !! f = None ∧
        w' = opened_world w fd f x l ∧ outstanding l = [] ∧ P f x l)) as Hwp.
    { apply wp_bind. eapply wp_pure_run_to; [exact Hget|]. apply wp_bind, new_file_ok.
      intros f Hf. apply wp_bind. eapply wp_mono; [by apply Hop|]. cbn beta.
      intros _ w' (x & l & -> & Hl & HP). apply wp_bind, set_file_at_ok; [done|done|].
      apply wp_ret. by exists f, x, l. }
    apply wp_Ok in Hwp as (r & w' & Hrun & f & x & l & -> & ? & -> & ? & ?). by exists fd, f, x, l.
  - right. split; [done|]. unfold run. eapply (wpu_Undef _ _ True). apply wpu_bind.
    eapply wp_pure_run_to; [exact Hget|]. apply wpu_bind, new_file_ok. intros f Hf. apply wpu_bind.
    eapply wp_mono; [by apply Hop|]. intros _ w' (x & l & -> & _). done.
Qed.

Lemma ready_opened w s fd f x l :
  ready w s → (0 ≤ fd < MAX_FD_COUNT)%Z → outstanding l = [] → ready (opened_world w fd f x l) s.
Proof. intros [] Hfd Hl. split; [done|done|done|done|by apply set_bit_ok|]. simpl. by rewrite length_insert. Qed.

(** Opening: nothing is asked of the library but to run the function, and the
    polls are used up. *)
Definition opened_nothing w f x l : Prop :=
  x = set_ret (-1) zero_file ∧ history l = history (lib w) ++ msg_items (do_open_msg f) ∧
  polls_made l = (polls_made (lib w) + POLLER_MAX_TIME)%Z.

Lemma open_op polls fuel w w1 s f :
  ready w s → enough polls fuel → fs w1 = Some s → lib w1 = lib w →
  wp (myfs_file_open polls fuel f) (file_world w1 f zero_file (lib w1)) (λ _ w', ∃ x l, w' = file_world w1 f x l ∧
    outstanding l = [] ∧ opened_nothing w f x l).
Proof.
  intros Hs [Hp Hfu] Hfs Hw. eapply wp_mono; [eapply (file_op_ok _ _ 0); [exact Hfs|apply Hs|by rewrite Hw; apply Hs| |lia|lia|done]|].
  - intros l Hl Hh. by apply open_run.
  - intros r w' (x & l & -> & Hl & [-> Hh] & _ & Hpm). specialize (Hpm eq_refl). rewrite Hw in Hh, Hpm.
    by exists (set_ret (-1) zero_file), l.
Qed.

(** Opening, when a descriptor is free. *)
Lemma wp_open polls fuel w s j :
  ready w s → enough polls fuel → fd_free (fd_table w) j →
  wp (myfs_open polls fuel) w (λ fd w', ∃ f l, least_free (fd_table w) fd ∧ store w !! f = None ∧
    w' = opened_world w fd f (set_ret (-1) zero_file) l ∧ happened w (msg_items (do_open_msg f)) l).
Proof.
  intros Hs Hen Hj. destruct (open_with w s (myfs_file_open polls fuel) (opened_nothing w))
    as [(fd & f & x & l & ? & ? & Hrun & ? & -> & ? & _)|[Hall _]]; [done| | |by destruct (Hall j)].
  - intros w1 f Hfs Hw Hid. by eapply open_op.
  - apply wp_Ok. exists fd, (opened_world w fd f (set_ret (-1) zero_file) l). split; [done|]. by exists f, l.
Qed.

(** C23: Opening a file never opens anything: the new file object has blob id
    0, so the request that is sent to the thread is refused without a call to
    the blob store, and the thread is polled [POLLER_MAX_TIME] times for
    nothing.  When a descriptor is free,
    the least is returned all the same, entered for a file without a blob; when
    none is, the entry is written before the table, which is undefined. *)
Theorem myfs_open_spec polls fuel w s :
  ready w s → enough polls fuel →
  (∃ fd f l, least_free (fd_table w) fd ∧ store w !! f = None ∧
     myfs_open polls fuel w = Ok fd (opened_world w fd f (set_ret (-1) zero_file) l) ∧
     happened w [i_call (send_msg (do_open_msg f)); i_event (run_msg (do_open_msg f))] l ∧
     polls_made l = (polls_made (lib w) + POLLER_MAX_TIME)%Z) ∨
  ((∀ j, ¬ fd_free (fd_table w) j) ∧ myfs_open polls fuel w = Undef).
Proof.
  intros Hs Hen. destruct (open_with w s (myfs_file_open polls fuel) (opened_nothing w))
    as [(fd & f & x & l & ? & ? & ? & ? & -> & ? & ?)|?]; [done| | |by right].
  - intros w1 f Hfs Hw Hid. by eapply open_op.
  - left. by exists fd, f, l.
Qed.

(** Descriptor [fd] is entered for the file object [f]. *)
Definition entered w fd f x : Prop :=
  (0 ≤ fd < MAX_FD_COUNT)%Z ∧ files w !! Z.to_nat fd = Some (Some f) ∧ store w !! f = Some x.

Lemma file_of_entered w fd f x (Q : loc → world → Prop) :
  entered w fd f x → Q f w → wp (file_of fd) w Q.
Proof.
  intros (Hfd & Hf & _) HQ. apply wp_bind, wp_bind, wp_gets. rewrite bool_decide_eq_false_2 by lia.
  unfold wp, of_option. by rewrite Hf.
Qed.

Lemma file_at_entered w fd f x (Q : option loc → world → Prop) :
  entered w fd f x → Q (Some f) w → wp (file_at fd) w Q.
Proof.
  intros (Hfd & Hf & _) HQ. apply wp_bind, wp_gets. rewrite bool_decide_eq_false_2 by lia.
  unfold wp, of_option. by rewrite Hf.
Qed.

(** A function sent for an entered file, and what became of the file; [T] says
    what passed after it was run. *)
Lemma file_op_entered polls fuel n w fd f x fn x2 T s (op : M world Z) :
  ready w s → entered w fd f x → enough polls fuel → n < 6 → op = file_op polls fuel f fn →
  (∀ l, outstanding l = [] → history l = history (lib w) ++ msg_items fn →
     wp (run_fn fn) (file_world w f (set_done false x) l) (λ _ w', stage (file_done f) true
       (file_post w f (λ x' h', x' = x2 ∧ ∃ err, h' = (history (lib w) ++ msg_items fn) ++ T err)) n w')) →
  wp op w (λ r w', ∃ l' (err : Z), w' = file_world w f x2 l' ∧ happened w (msg_items fn ++ T err) l' ∧ r = f_ret x2).
Proof.
  intros [Hfs Hth Hu Hid _ _] (_ & _ & Hf) [Hp Hfu] Hn -> Hrun. rewrite <-(world_file w f x Hf) at 1.
  eapply wp_mono; [eapply (file_op_ok polls fuel n); [done|done|done|exact Hrun|done|lia|done]|].
  intros r w' (x' & l' & -> & Hl & [-> (err & Hh)] & -> & _). exists l', err. split_and!; [done| |done].
  split; [done|]. by rewrite Hh, <-app_assoc.
Qed.

(** The end of a hook that reads or writes. *)
Lemma wp_io (o : loc → M world Z) w fd f x x2 (T : Z → list item) :
  entered w fd f x →
  wp (o f) w (λ r w', ∃ l' err, w' = file_world w f x2 l' ∧ happened w (T err) l' ∧ r = f_ret x2) →
  wp (let* f := file_of fd in let* _ := o f in file_ret f) w
    (λ r w', r = f_ret x2 ∧ ∃ l err, w' = file_world w f x2 l ∧ happened w (T err) l).
Proof.
  intros He Hop. apply wp_bind. eapply file_of_entered; [exact He|]. apply wp_bind.
  eapply wp_mono; [exact Hop|]. intros r w' (l' & err & -> & Hl & _). apply wp_bind, wp_get_file, wp_ret.
  split; [done|]. by exists l', err.
Qed.

(** What passes in reading and writing: whole units, from the start. *)
Definition write_items s f x buf count err : list item :=
  msg_items (do_write_msg f buf count) ++
  [i_call (blob_io_write (blob x) (channel s) buf 0 (units s count) f); i_event (write_done f err)].
Definition read_items s f x buf count err : list item :=
  msg_items (do_read_msg f buf count) ++
  [i_call (blob_io_read (blob x) (channel s) buf 0 (units s count) f); i_event (read_done f err)].
Definition close_items f x err : list item :=
  msg_items (do_close_msg f) ++ [i_call (blob_close (blob x) f); i_event (close_done f err)].

Section descriptor.
Context (polls fuel : nat) (w : world) (s : myfs_s) (fd : Z) (f : loc) (x : myfs_file_s).
Hypothesis Hs : ready w s.
Hypothesis He : entered w fd f x.
Hypothesis Hen : enough polls fuel.
Hypothesis Hi : initilized w = true.

Lemma wp_write buf count : (0 < buf)%Z → (0 < count)%Z →
  wp (write polls fuel fd buf count) w (λ r w', r = f_ret x ∧
    ∃ l err, w' = file_world w f (set_done true (set_status FILE_WRITE (set_done false x))) l ∧
      happened w (write_items s f x buf count err) l).
Proof.
  intros Hb Hc. pose proof Hs as [Hfs _ Hu _ _ _]. apply wp_bind. eapply file_at_entered; [exact He|].
  apply wp_bind, wp_gets. rewrite Hi.
  apply (wp_io _ w fd f x (set_done true (set_status FILE_WRITE (set_done false x))) (write_items s f x buf count)); [exact He|]. unfold myfs_file_write.
  rewrite bool_decide_eq_false_2, (bool_decide_eq_true_2 (count > 0)%Z) by lia. cbn [orb negb].
  eapply (file_op_entered _ _ 1); [done..|lia|done|]. intros l Hl Hh. eapply (write_run _ _ (set_done false x)); [done|lia|done..].
Qed.

Lemma wp_read buf count : (0 < buf)%Z → (0 < count)%Z →
  wp (read polls fuel fd buf count) w (λ r w', r = f_ret x ∧
    ∃ l err, w' = file_world w f (set_done true (set_status FILE_READ (set_done false x))) l ∧
      happened w (read_items s f x buf count err) l).
Proof.
  intros Hb Hc. pose proof Hs as [Hfs _ Hu _ _ _]. apply wp_bind. eapply file_at_entered; [exact He|].
  apply wp_bind, wp_gets. rewrite Hi.
  apply (wp_io _ w fd f x (set_done true (set_status FILE_READ (set_done false x))) (read_items s f x buf count)); [exact He|]. unfold myfs_file_read.
  rewrite bool_decide_eq_false_2, (bool_decide_eq_true_2 (count > 0)%Z) by lia. cbn [orb negb].
  eapply (file_op_entered _ _ 1); [done..|lia|done|]. intros l Hl Hh. eapply (read_run _ _ (set_done false x)); [done|lia|done..].
Qed.

Lemma wp_close :
  wp (close polls fuel fd) w (λ r w', r = f_ret x ∧ ∃ l err, happened w (close_items f x err) l ∧
    w' = with_table (clear_bit (fd_table w) fd)
           (file_world w f (set_done true (set_status FILE_CLOSE (set_done false x))) l)).
Proof.
  pose proof Hs as [Hfs Hth Hu Hid Ht Hlen]. pose proof He as (Hfd & _ & _).
  apply wp_bind. eapply file_at_entered; [exact He|]. apply wp_bind, wp_gets. rewrite Hi.
  apply wp_bind. eapply file_of_entered; [exact He|]. apply wp_bind. eapply wp_mono.
  - eapply (file_op_entered _ _ 1); [done..|lia|done|]. intros l Hl Hh. by apply (close_run _ _ (set_done false x)).
  - intros r w' (l & err & -> & Hl & ->). apply wp_bind.
    eapply wp_pure_run_to; [by apply (set_fd_run (file_world w f _ l))|].
    apply wp_bind. unfold wp at 1, get_file, of_option. simpl. rewrite lookup_insert_eq. apply wp_ret.
    split; [done|]. by exists l, err.
Qed.
End descriptor.

(** C22: What a descriptor of a created file does on a healthy device, whatever
    error code the device reports.  Writing and reading, with a buffer and a
    count that are not 0, hand the blob, channel and buffer to the library, for
    [count / unit_size + 1] units, as a [size_t], from the start of the blob,
    and return the stored return code of the file, which is 0
    after [myfs_create]: neither an error nor the number of bytes is ever
    reported, and only the file's status changes.  Closing closes the blob and
    frees the descriptor, but leaves the file entered in the table: until the
    descriptor is reused, it still reaches the file object whose blob was
    closed. *)
Theorem myfs_descriptor_spec polls fuel w s fd f x buf count :
  ready w s → entered w fd f x → enough polls fuel →
  initilized w = true → (0 < buf)%Z → (0 < count)%Z →
  (∃ l, write polls fuel fd buf count w = Ok (f_ret x) (file_world w f (set_done true (set_status FILE_WRITE (set_done false x))) l) ∧
     did w [send_msg (do_write_msg f buf count);
            blob_io_write (blob x) (channel s) buf 0 ((count / unit_size s + 1) mod 2 ^ 64) f] l) ∧
  (∃ l, read polls fuel fd buf count w = Ok (f_ret x) (file_world w f (set_done true (set_status FILE_READ (set_done false x))) l) ∧
     did w [send_msg (do_read_msg f buf count);
            blob_io_read (blob x) (channel s) buf 0 ((count / unit_size s + 1) mod 2 ^ 64) f] l) ∧
  ∃ w', close polls fuel fd w = Ok (f_ret x) w' ∧ ready w' s ∧
    (∀ j, (0 ≤ j)%Z → fd_used (fd_table w') j = fd_used (fd_table w) j && negb (bool_decide (j = fd))) ∧
    entered w' fd f (set_done true (set_status FILE_CLOSE (set_done false x))) ∧
    (∀ g, g ≠ f → store w' !! g = store w !! g) ∧
    did w [send_msg (do_close_msg f); blob_close (blob x) f] (lib w').
Proof.
  intros Hs He Hen Hi Hb Hc. split_and!.
  - destruct (proj1 (wp_Ok _ _ _) (wp_write polls fuel w s fd f x Hs He Hen Hi buf count Hb Hc))
      as (r & w' & Hrun & -> & l & err & -> & Hl%happened_did). by exists l.
  - destruct (proj1 (wp_Ok _ _ _) (wp_read polls fuel w s fd f x Hs He Hen Hi buf count Hb Hc))
      as (r & w' & Hrun & -> & l & err & -> & Hl%happened_did). by exists l.
  - pose proof Hs as [Hfs Hth Hu Hid Ht Hlen]. pose proof He as (Hfd & Hf & Hx).
    destruct (clear_bit_ok (fd_table w) fd Ht Hfd) as [Hok Hused].
    pose proof (wp_close polls fuel w s fd f x Hs He Hen Hi) as Hwp.
    apply wp_Ok in Hwp as (r & w' & Hrun & -> & l & err & Hl%happened_did & ->). pose proof (proj1 Hl). eexists. split; [exact Hrun|].
    split_and!; [by split|exact Hused| | |exact Hl].
    + split; [done|]. split; [done|]. simpl. by rewrite lookup_insert_eq.
    + intros g Hg. simpl. by rewrite lookup_insert_ne.
Qed.
End files.

(** ** Creating, when the super blob can be read or there is none *)
Section create.
Context {L : Type} `{!Spdk L, !SpdkLaws L healthy}.
Abbreviation world := (world L).
Implicit Types (w : world) (l : L) (f : loc) (x : myfs_file_s).

(** What passes in [myfs_create], and the file it makes: the super blob is
    opened, or when there is none a new blob is created and opened; the clusters
    that are free then are what it is resized to. *)
Inductive create_trace s f : myfs_file_s → list item → Prop :=
| create_super id bl bid cl err err' :
    create_trace s f (File bid (Some bl) 0 0 0 FILE_CREATE true)
      (msg_items (do_create_msg f) ++
       [i_call (bs_get_super (bs s) f); i_event (get_super_done f id 0)] ++
       open_items s f id bl bid cl err err')
| create_new id0 id bl bid cl err0 err err' :
    create_trace s f (File bid (Some bl) 0 0 0 FILE_CREATE true)
      (msg_items (do_create_msg f) ++
       [i_call (bs_get_super (bs s) f); i_event (get_super_done f id0 (- ENOENT));
        i_call (bs_create_blob (bs s) f); i_event (create_done f id err0)] ++
       open_items s f id bl bid cl err err').

Lemma create_trace_file s f x tr : create_trace s f x tr → is_Some (blob x) ∧ f_ret x = 0%Z.
Proof. by destruct 1. Qed.

(** The file after its creation; [h] is what passed before it. *)
Definition created s f (h : list item) x h' : Prop := ∃ tr, create_trace s f x tr ∧ h' = h ++ tr.

Lemma create_run w f s l h :
  fs w = Some s → outstanding l = [] → history l = h ++ msg_items (do_create_msg f) →
  wp (do_create f) (file_world w f (set_done false zero_file) l)
    (λ _ w', stage (file_done f) true (file_post w f (created s f h)) 4 w').
Proof.
  intros Hs Hl Hh. unfold do_create. apply wp_bind, wp_update_file, wp_bind.
  eapply wp_get_fs; [exact Hs|]. apply wp_call.
  apply file_stage; [done|done|]. intros e l1 Ha Hl1 Hh1. rewrite Hh in Hh1.
  inversion Ha as [|? ? id err Hsuper| | | | | | | | | |]; subst. cbn [handle]. unfold myfs_bs_get_super_complete.
  apply wp_bind. eapply wp_get_fs; [exact Hs|]. destruct Hsuper as [-> | ->]; cycle 1.
  - rewrite bool_decide_eq_true_2 by done. rewrite bool_decide_eq_true_2 by done. apply wp_call.
    apply file_stage; [done|done|]. intros e l2 Ha2 Hl2 Hh2. inversion Ha2 as [| |? ? id2 err2| | | | | | | | |]; subst.
    cbn [handle]. unfold myfs_blob_create_complete. apply wp_bind, wp_update_file, wp_bind.
    eapply wp_get_fs; [exact Hs|]. apply wp_call. eapply open_stage; [done..|].
    intros bl bid cl e1 e2 h' ->. eexists. split; [apply (create_new s f id id2 bl bid cl err2 e1 e2)|].
    by rewrite Hh2, Hh1, <-!app_assoc.
  - rewrite bool_decide_eq_false_2 by naive_solver. apply wp_call. eapply open_stage; [done..|].
    intros bl bid cl e1 e2 h' ->. eexists. split; [apply (create_super s f id bl bid cl e1 e2)|].
    by rewrite Hh1, <-!app_assoc.
Qed.

Lemma create_op polls fuel w s f :
  enough polls fuel → fs w = Some s → is_Some (thread s) → outstanding (lib w) = [] →
  wp (myfs_file_create polls fuel f) (file_world w f zero_file (lib w)) (λ _ w', ∃ x l, w' = file_world w f x l ∧
    outstanding l = [] ∧ created s f (history (lib w)) x (history l)).
Proof.
  intros [Hp Hfu] Hfs Hth Hid. eapply wp_mono; [eapply file_op_ok; [exact Hfs|exact Hth|done| |..]|].
  - intros l Hl Hh. by eapply create_run.
  - lia.
  - lia.
  - done.
  - intros r w' (x & l & -> & Hl & Hc & _). by exists x, l.
Qed.

Lemma create_op_with polls fuel w s :
  ready w s → enough polls fuel → ∀ w1 f, fs w1 = Some s → lib w1 = lib w → outstanding (lib w1) = [] →
  wp (myfs_file_create polls fuel f) (file_world w1 f zero_file (lib w1)) (λ _ w', ∃ x l, w' = file_world w1 f x l ∧
    outstanding l = [] ∧ created s f (history (lib w)) x (history l)).
Proof. intros Hs Hen w1 f Hfs Hw Hid. rewrite <-Hw. apply (create_op polls fuel w1 s f); [done|done|apply Hs|done]. Qed.

Lemma wp_create polls fuel w s j :
  ready w s → enough polls fuel → fd_free (fd_table w) j →
  wp (myfs_create polls fuel) w (λ fd w', ∃ f x l tr, least_free (fd_table w) fd ∧ store w !! f = None ∧
    w' = opened_world w fd f x l ∧ create_trace s f x tr ∧ happened w tr l).
Proof.
  intros Hs Hen Hj. destruct (open_with w s (myfs_file_create polls fuel) (λ f x l, created s f (history (lib w)) x (history l)) Hs
    (create_op_with polls fuel w s Hs Hen)) as [(fd & f & x & l & ? & ? & Hrun & ? & tr & ? & ?)|[Hall _]].
  - apply wp_Ok. exists fd, (opened_world w fd f x l). split; [done|]. by exists f, x, l, tr.
  - by destruct (Hall j).
Qed.

(** C21: Creating a file on a device that has a super blob, or answers that it has
    none, and that gives a blob when asked to open one, opens that blob, or the
    one it has created, and resizes it to the number of clusters the blob store
    has just reported free, whatever error codes are reported on the way; it
    returns the least free descriptor and
    enters a new file object with the blob and the blob's id under it, changing
    no other descriptor or file.  When no descriptor is free, the entry is
    written before the table, which is undefined behaviour. *)
Theorem myfs_create_spec polls fuel w s :
  ready w s → enough polls fuel →
  (∃ fd f x l tr, least_free (fd_table w) fd ∧ store w !! f = None ∧
     myfs_create polls fuel w = Ok fd (opened_world w fd f x l) ∧
     create_trace s f x tr ∧ happened w tr l) ∨
  ((∀ j, ¬ fd_free (fd_table w) j) ∧ myfs_create polls fuel w = Undef).
Proof.
  intros Hs Hen. destruct (open_with w s (myfs_file_create polls fuel) (λ f x l, created s f (history (lib w)) x (history l)) Hs
    (create_op_with polls fuel w s Hs Hen)) as [(fd & f & x & l & ? & ? & ? & ? & tr & ? & ?)|?]; [|by right].
  left. by exists fd, f, x, l, tr.
Qed.
End create.

(** *** The size of a transfer *)

(** For any library, a write or read hands the blob and the number of units to
    the library. *)
Lemma transfer_calls {L : Type} `{!Spdk L} (w : world L) s f x buf size :
  fs w = Some s → (0 < unit_size s)%Z → store w !! f = Some x →
  (∃ w', do_write f buf size w = Ok tt w' ∧
     lib w' = submit (blob_io_write (blob x) (channel s) buf 0 (units s size) f) (lib w)) ∧
  (∃ w', do_read f buf size w = Ok tt w' ∧
     lib w' = submit (blob_io_read (blob x) (channel s) buf 0 (units s size) f) (lib w)).
Proof.
  intros Hs Hu Hf. pose proof (world_file w f x Hf) as Hw.
  assert (∀ (m : M (world L) unit) w', wp m w (λ _ v, v = w') → m w = Ok tt w') as Hrun.
  { intros m w' Hm. apply wp_Ok in Hm as ([] & v & -> & ->). done. }
  split; eexists; (split; [apply Hrun|]).
  - rewrite <-Hw at 1. apply wp_bind. eapply io_count_ok; [done|lia|].
    apply wp_bind, wp_update_file, wp_bind, wp_get_file, wp_bind. eapply wp_get_fs; [exact Hs|]. by apply wp_call.
  - done.
  - rewrite <-Hw at 1. apply wp_bind. eapply io_count_ok; [done|lia|].
    apply wp_bind, wp_update_file, wp_bind, wp_get_file, wp_bind. eapply wp_get_fs; [exact Hs|]. by apply wp_call.
  - done.
Qed.

(** These are whole units at offset 0, always more than [size] bytes and at
    most one unit more: the transfer runs over the end of a buffer of [size]
    bytes. *)
Theorem transfer_overruns {L : Type} `{!Spdk L} (w : world L) s f x buf size :
  fs w = Some s → (0 < unit_size s)%Z → (0 ≤ size < 2 ^ 64 - 1)%Z → store w !! f = Some x →
  ∃ n, (size < n * unit_size s ≤ size + unit_size s)%Z ∧
    (∃ w', do_write f buf size w = Ok tt w' ∧
       lib w' = submit (blob_io_write (blob x) (channel s) buf 0 n f) (lib w)) ∧
    (∃ w', do_read f buf size w = Ok tt w' ∧
       lib w' = submit (blob_io_read (blob x) (channel s) buf 0 n f) (lib w)).
Proof.
  intros Hs Hu Hsz Hf. exists (size / unit_size s + 1)%Z.
  pose proof (Z.div_mod size (unit_size s) ltac:(lia)).
  pose proof (Z.mod_pos_bound size (unit_size s) Hu). split; [nia|].
  assert (units s size = (size / unit_size s + 1)%Z) as <- by (apply Z.mod_small; nia).
  by apply transfer_calls.
Qed.

(** ** Examples on the device *)
Lemma warm_ready : ready warm_world device_fs.
Proof.
  split; [done|by eexists|done|done|apply empty_table_ok|exact no_files_length].
Qed.

Lemma one_file_ready : ready one_file_world device_fs ∧ entered one_file_world 3 1 some_file.
Proof.
  split.
  - split; [done|by eexists|done|done|apply set_bit_ok; [apply empty_table_ok|unfold MAX_FD_COUNT; lia]|].
    transitivity (length no_files); [apply length_insert|exact no_files_length].
  - split; [unfold MAX_FD_COUNT; lia|]. split; [|by apply lookup_singleton_Some].
    apply list_lookup_insert_eq. rewrite no_files_length. unfold MAX_FD_COUNT. lia.
Qed.

Lemma device_enough : enough many_polls many_events.
Proof. split; [apply many_polls_enough|unfold many_events; lia]. Qed.

Lemma get_fd_from_bitmap_witness : ∃ fd t', get_fd_from_bitmap warm_world = Ok fd (with_table t' warm_world) ∧ fd_used t' fd = true.
Proof.
  destruct (get_fd_from_bitmap_spec warm_world empty_table_ok) as [(fd & t' & Hfd & Hrun & _ & Hused)|[Hall _]].
  - exists fd, t'. split; [exact Hrun|]. rewrite Hused by (destruct Hfd as [[Hr _] _]; unfold DEFAULT_FD_NUM in Hr; lia).
    rewrite bool_decide_eq_true_2 by done. apply orb_true_r.
  - exfalso. exact (Hall 3%Z three_free).
Defined.

Lemma set_fd_to_bitmap_witness : ∃ t', set_fd_to_bitmap 3 one_file_world = Ok 0%Z (with_table t' one_file_world) ∧ fd_used t' 3 = false.
Proof.
  destruct (set_fd_to_bitmap_spec one_file_world 3 (rd_table _ _ (proj1 one_file_ready))) as [(t' & Hrun & _ & Hused) _].
  exists t'. split; [exact Hrun|]. rewrite Hused by lia. rewrite bool_decide_eq_true_2 by done. apply andb_false_r.
Defined.

Lemma myfs_create_witness : ∃ fd f x l, myfs_create many_polls many_events warm_world = Ok fd (opened_world warm_world fd f x l) ∧ is_Some (blob x).
Proof.
  destruct (myfs_create_spec many_polls many_events warm_world device_fs warm_ready device_enough)
    as [(fd & f & x & l & tr & _ & _ & Hrun & Hb & _)|[Hall _]].
  - exists fd, f, x, l. split; [exact Hrun|]. by apply (create_trace_file _ _ _ _ Hb).
  - exfalso. exact (Hall 3%Z three_free).
Defined.

Lemma myfs_open_witness : ∃ fd f l, myfs_open many_polls many_events warm_world = Ok fd (opened_world warm_world fd f (set_ret (-1) zero_file) l).
Proof.
  destruct (myfs_open_spec many_polls many_events warm_world device_fs warm_ready device_enough)
    as [(fd & f & l & _ & _ & Hrun & _)|[Hall _]].
  - by exists fd, f, l.
  - exfalso. exact (Hall 3%Z three_free).
Defined.

Lemma myfs_descriptor_witness :
  (∃ l, write many_polls many_events 3 4096 128 one_file_world =
     Ok 0%Z (file_world one_file_world 1 (set_status FILE_WRITE some_file) l)) ∧
  ∃ w', close many_polls many_events 3 one_file_world = Ok 0%Z w' ∧ fd_used (fd_table w') 3 = false ∧
    entered w' 3 1 (set_status FILE_CLOSE some_file).
Proof.
  destruct (myfs_descriptor_spec many_polls many_events one_file_world device_fs 3 1 some_file 4096 128
    (proj1 one_file_ready) (proj2 one_file_ready) device_enough eq_refl ltac:(lia) ltac:(lia))
    as ((l & Hwr & _) & _ & w' & Hrun & _ & Hused & He & _).
  split; [by exists l|]. exists w'. split; [exact Hrun|]. split; [|exact He]. rewrite Hused by lia.
  rewrite bool_decide_eq_true_2 by done. apply andb_false_r.
Defined.

Lemma transfer_witness : ∃ n, (128 < n * 512)%Z ∧ ∃ w', do_write 1 4096 128 one_file_world = Ok tt w' ∧
  pending (lib w') = [blob_io_write (Some 7%Z) (Some 1%Z) 4096 0 n 1%positive].
Proof.
  destruct (transfer_overruns one_file_world device_fs 1 some_file 4096 128 eq_refl ltac:(reflexivity) ltac:(lia)
    (proj2 (proj2 (proj2 one_file_ready)))) as (n & [Hn _] & (w' & Hw & Hlib) & _).
  exists n. split; [exact Hn|]. exists w'. split; [exact Hw|]. by rewrite Hlib.
Defined.

(** A blob that cannot be opened is dereferenced all the same. *)
Example failed_open_undefined : handle (open_done 1 None (-5)) one_file_world = Undef.
Proof. reflexivity. Qed.
