(* ===== verification/MyFsMain.v ===== *)
(** * myfs.c: set-up and the program

    The two polled set-up steps, and [main] as the composition of the hooks:
    the file layer is set up by the first [creat]. *)
From stdpp Require Import base gmap list strings.
From S2P Require Import Prelude MyFs MyFsFd MyFsPoll MyFsDevice MyFsSpec.

(** What the plain functions of the library return when the set-up succeeds. *)
Class Healthy (L : Type) `{!Spdk L} := {
  thread_ok l : is_Some (thread_create l);
  dev_ok l : (create_bs_dev l).1 = 0%Z;
  unit_ok l b : (0 < (plain_call (p_io_unit_size b) l).1)%Z;
  channel_ok l b : is_Some (alloc_io_channel l b)
}.

Section program.
Context {L : Type} `{!Spdk L, !SpdkLaws L healthy}.
Abbreviation world := (world L).
Implicit Types (w : world) (l : L) (s : myfs_s).

(** A world whose file system is [s], with another library state. *)
Definition boot w s (j : bool) l : world :=
  World (Some s) (fd_table w) (files w) (initilized w) (store w) j l.

Lemma wp_set_fs w s j l g (Q : unit → world → Prop) :
  Q tt (boot w (g s) j l) → wp (set_fs g) (boot w s j l) Q.
Proof. done. Qed.

Lemma wp_boot_plain w s j l p (Q : Z → world → Prop) :
  (∀ l', outstanding l' = outstanding l → history l' = history l ++ [i_plain p (plain_call p l).1] →
     Q (plain_call p l).1 (boot w s j l')) →
  wp (do_plain p) (boot w s j l) Q.
Proof.
  intros HQ. unfold wp, do_plain. pose proof (history_plain p l) as Hh. pose proof (out_plain p l) as Ho.
  cbn [lib boot]. destruct (plain_call p l) as [r l']. by apply HQ.
Qed.

Lemma fs_finished_ok w s j l : fs_finished (boot w s j l) = Ok (finished s) (boot w s j l).
Proof. done. Qed.

Section stages.
Context (w : world) (dn : M world bool) (P : myfs_s → list item → Prop).

Definition boot_post (j : bool) (w' : world) : Prop := ∃ s l, w' = boot w s j l ∧ P s (history l).

Lemma boot_stage n s j j' l c :
  outstanding l = [] → (∀ l, dn (boot w s j l) = Ok false (boot w s j l)) →
  (∀ e l', healthy c e → outstanding l' = [] → history l' = history l ++ [i_call c; i_event e] →
    wp (handle e) (boot w s j l') (λ _ w', stage dn true (boot_post j') n w')) →
  stage dn true (boot_post j') (S n) (boot w s j (submit c l)).
Proof.
  intros Hl Hd He. right. exists c. split_and!; [simpl; by apply out_submit|exact Hd|].
  intros e l' Ha Hl' Hh. apply He; [done|done|]. rewrite Hh. cbn [lib boot]. by rewrite history_submit, <-app_assoc.
Qed.

Lemma boot_settled s j l :
  outstanding l = [] → (∀ l, dn (boot w s j l) = Ok true (boot w s j l)) → P s (history l) →
  settled dn true (boot_post j) (boot w s j l).
Proof.
  intros Hl Hd HP. split; [done|]. intros l' Hh. cbn [lib boot] in Hh. split; [apply Hd|]. exists s, l'. split; [done|].
  by rewrite Hh.
Qed.

(** Polling for a step of the set-up. *)
Lemma boot_poller polls fuel n s j j' l th fn :
  outstanding l = [] → is_Some th → enough polls fuel → n < 6 →
  (∀ l, dn (boot w s j l) = Ok false (boot w s j l)) →
  (∀ l', outstanding l' = [] → history l' = history l ++ msg_items fn →
    wp (run_fn fn) (boot w s j l') (λ _ w', stage dn true (boot_post j') n w')) →
  wp (poller polls fuel th fn dn) (boot w s j l)
    (λ r w', r = true ∧ ∃ s' l', w' = boot w s' j' l' ∧ outstanding l' = [] ∧ P s' (history l')).
Proof.
  intros Hl Hth [Hp Hf] Hn Hd Hrun.
  eapply wp_mono; [apply (poller_ok dn true (boot_post j') polls fuel (S n)); [|lia|lia|done|done]|].
  - apply (boot_stage n s j j' l (send_msg fn)); [done|done|]. intros e l' Ha Hl' Hh. inversion Ha; subst. by apply Hrun.
  - intros r w' (-> & Ho & (s' & l' & -> & HP) & _). split; [done|]. by exists s', l'.
Qed.
End stages.

(** The configuration is loaded: the file system is untouched. *)
Definition json_items rc : list item := msg_items setup_json_msg ++ [i_call subsystem_init_json; i_event (json_done rc)].

Lemma wp_json polls fuel w s th l :
  outstanding l = [] → enough polls fuel → is_Some th →
  wp (poller polls fuel th setup_json_msg (gets json_loaded)) (boot w s false l)
    (λ r w', r = true ∧ ∃ l' rc, w' = boot w s true l' ∧ outstanding l' = [] ∧ history l' = history l ++ json_items rc).
Proof.
  intros Hl Hen Hth. set (P := λ s' h, s' = s ∧ ∃ rc, h = history l ++ json_items rc).
  eapply wp_mono; [apply (boot_poller w (gets json_loaded) P _ _ 1 _ _ true); [done|done|done|lia|done|]|].
  - intros l1 Hl1 Hh1. unfold run_fn, setup_spdk_json_app, call_spdk. apply wp_modify.
    apply (boot_stage w _ _ 0 s false true l1); [done|done|]. intros e l2 Ha Hl2 Hh2. inversion Ha as [| | | | | | | | |rc| |]; subst. cbn [handle].
    apply wp_modify, settled_stage. apply (boot_settled w (gets json_loaded) P s true l2); [done|done|].
    split; [done|]. exists rc. by rewrite Hh2, Hh1, <-app_assoc.
  - intros r w' (-> & s' & l' & -> & ? & -> & rc & ?). split; [done|]. by exists l', rc.
Qed.

Section healthy.
Context `{!Healthy L}.

(** What a file operation needs. *)
Definition set_up s : Prop := (0 < unit_size s)%Z ∧ is_Some (bs s) ∧ is_Some (channel s) ∧ is_Some (thread s).
(** What passes in the set-up, and the file system it makes. *)
Definition alloc_items dev b err u : list item :=
  msg_items myfs_alloc_msg ++
  [i_call (bs_init dev); i_event (bs_init_done (Some b) err); i_plain (p_io_unit_size (Some b)) u].
Inductive setup_trace : myfs_s → list item → Prop :=
| setup_intro th dev b ch u r0 r1 r2 rc err :
    setup_trace (Fs (Some th) dev (Some b) (Some ch) u true)
      ([i_plain p_env_init r0; i_plain p_thread_lib_init r1; i_plain (p_set_thread th) r2] ++
       json_items rc ++ alloc_items dev b err u).

Lemma setup_trace_up s tr : setup_trace s tr → (0 < unit_size s)%Z → set_up s.
Proof. by destruct 1. Qed.

Lemma wp_alloc polls fuel w s j l :
  outstanding l = [] → enough polls fuel → finished s = false → is_Some (thread s) →
  wp (poller polls fuel (thread s) myfs_alloc_msg fs_finished) (boot w s j l)
    (λ r w', r = true ∧ ∃ s' l', w' = boot w s' j l' ∧ outstanding l' = [] ∧ ∃ dev b ch u err,
       s' = Fs (thread s) dev (Some b) (Some ch) u true ∧ (0 < u)%Z ∧ history l' = history l ++ alloc_items dev b err u).
Proof.
  intros Hl Hen Hf Hth.
  apply (boot_poller w fs_finished (λ s' h, ∃ dev b ch u err,
       s' = Fs (thread s) dev (Some b) (Some ch) u true ∧ (0 < u)%Z ∧ h = history l ++ alloc_items dev b err u)
    _ _ 1); [done|done|done|lia|intros l'; rewrite <-Hf; apply fs_finished_ok|].
  intros l1 Hl1 Hh1. unfold run_fn, myfs_alloc. apply wp_bind, wp_gets. pose proof (dev_ok l1) as Hrc.
  cbn [lib boot]. destruct (create_bs_dev l1) as [rc dev]. cbn in Hrc. subst rc.
  rewrite bool_decide_eq_false_2 by naive_solver. apply wp_bind, wp_set_fs, wp_modify.
  apply (boot_stage w _ _ 0 (Fs (thread s) dev (bs s) (channel s) (unit_size s) (finished s)) j j l1); [done|intros l'; rewrite (fs_finished_ok w); cbn; by rewrite Hf|].
  intros e l2 Ha Hl2 Hh2. inversion Ha as [| | | | | | | | | |? b err|]; subst. cbn [handle].
  unfold myfs_blobstore_init_complete. apply wp_bind, wp_set_fs, wp_bind, wp_boot_plain. intros l3 Hl3 Hh3.
  pose proof (unit_ok l2 (Some b)) as Hu.
  apply wp_bind, wp_set_fs, wp_bind, wp_gets, wp_bind, wp_set_fs.
  cbn [lib boot]. destruct (channel_ok l3 (Some b)) as [ch Hch]. rewrite Hch. apply wp_set_fs, settled_stage, boot_settled;
    [by rewrite Hl3|intros l'; apply (fs_finished_ok w)|]. exists dev, b, ch, (plain_call (p_io_unit_size (Some b)) l2).1, err.
  split_and!; [done|done|]. by rewrite Hh3, Hh2, Hh1, <-!app_assoc.
Qed.

(** The set-up ends with a file system that is ready. *)
Lemma wp_setup polls fuel w :
  outstanding (lib w) = [] → enough polls fuel →
  wp (myfs_setup polls fuel) w (λ r w', r = 0%Z ∧ ∃ s l tr, w' = boot w s true l ∧ set_up s ∧ setup_trace s tr ∧ happened w tr l).
Proof.
  intros Hid Hen. unfold myfs_setup. apply wp_bind, wp_modify, wp_bind. unfold myfs_spdk_env_init.
  destruct w as [fs0 t fl ini st js l]. cbn in Hid. set (w0 := World fs0 t fl ini st js l).
  change (with_fs _ w0) with (boot w0 (Fs None None None None 0 false) js l).
  apply wp_bind, wp_boot_plain. intros l1 Hl1 Hh1. apply wp_bind, wp_boot_plain. intros l2 Hl2 Hh2.
  apply wp_bind, wp_gets. cbn [lib boot]. destruct (thread_ok l2) as [th Hth]. rewrite Hth.
  apply wp_bind, wp_set_fs, wp_bind, wp_boot_plain. intros l3 Hl3 Hh3. apply wp_bind, wp_modify, wp_bind.
  eapply wp_mono; [apply (wp_json polls fuel w0 _ (Some th) l3); [by rewrite Hl3, Hl2, Hl1|done|done]|].
  cbn beta. intros r w' (-> & l4 & rc & -> & Hl4 & Hh4).
  apply wp_ret, wp_bind, wp_set_fs, wp_bind. eapply wp_get_fs; [done|]. cbn [thread].
  apply wp_bind. eapply wp_mono; [by apply (wp_alloc polls fuel w0 (Fs (Some th) None None None 0 false))|]. cbn beta.
  intros r w' (-> & s' & l5 & -> & Hl5 & dev & b & ch & u & err & -> & Hu & Hh5). apply wp_ret. split; [done|].
  eexists _, l5, _. split_and!; [done|by split_and!; [|eexists..]|by econstructor|]. split; [done|].
  rewrite Hh5, Hh4, Hh3, Hh2, Hh1, <-!app_assoc. cbn [lib w0]. reflexivity.
Qed.

(** On a healthy library the set-up ends with everything a file operation
    needs: a thread, a blob store, a channel and a positive unit size, with
    nothing outstanding and no other global changed. *)
Theorem myfs_setup_spec polls fuel w :
  outstanding (lib w) = [] → enough polls fuel → table_ok (fd_table w) → length (files w) = Z.to_nat MAX_FD_COUNT →
  ∃ s l tr, myfs_setup polls fuel w = Ok 0%Z (boot w s true l) ∧ ready (boot w s true l) s ∧
    set_up s ∧ setup_trace s tr ∧ happened w tr l.
Proof.
  intros Hid Hen Ht Hl. destruct (proj1 (wp_Ok _ _ _) (wp_setup polls fuel w Hid Hen))
    as (r & w' & Hrun & -> & s & l & tr & -> & Hu & Htr & Hl').
  exists s, l, tr. split; [done|]. split; [|done]. destruct Hl'. split; [done|apply Hu..|done|done|done].
Qed.

(** The first [creat]: set-up and creation. *)
Lemma wp_creat polls fuel w mode j :
  fs w = None → initilized w = false → outstanding (lib w) = [] → enough polls fuel →
  table_ok (fd_table w) → length (files w) = Z.to_nat MAX_FD_COUNT → fd_free (fd_table w) j →
  wp (creat polls fuel mode) w (λ fd w', ∃ s l0 f x l, least_free (fd_table w) fd ∧ store w !! f = None ∧
    w' = opened_world (with_init true (boot w s true l0)) fd f x l ∧
    ready (with_init true (boot w s true l0)) s ∧ ready w' s ∧
    ∃ t1 t2, setup_trace s t1 ∧ create_trace s f x t2 ∧ happened w (t1 ++ t2) l).
Proof.
  intros Hfs Hini Hid Hen Ht Hl Hj. unfold creat. apply wp_bind, wp_gets. rewrite Hini. cbn [negb].
  apply wp_bind. unfold setup_if_needed. apply wp_bind, wp_gets. rewrite Hfs. apply wp_bind.
  eapply wp_mono; [by apply wp_setup|]. cbn beta. intros _ w' (_ & s & l0 & t1 & -> & Hu & Ht1 & [Hl' Hh']).
  apply wp_ret, wp_bind, wp_modify.
  set (w1 := with_init true (boot w s true l0)). assert (ready w1 s) as Hr by (split; [done|apply Hu..|done|done|done]).
  eapply wp_mono; [by apply (wp_create polls fuel w1 s j)|].
  intros fd w' (f & x & l & t2 & Hfd & Hf & -> & Ht2 & Hl2 & Hh2).
  exists s, l0, f, x, l. split_and!; [done..| |].
  - apply ready_opened; [done|by apply (free_range (fd_table w)), Hfd|done].
  - exists t1, t2. split_and!; [done|done|]. split; [done|]. rewrite Hh2. cbn [lib w1 with_init boot]. by rewrite Hh', <-app_assoc.
Qed.

Lemma entered_opened w fd f x l :
  length (files w) = Z.to_nat MAX_FD_COUNT → (0 ≤ fd < MAX_FD_COUNT)%Z → entered (opened_world w fd f x l) fd f x.
Proof.
  intros Hl Hfd. split; [done|]. split; simpl; [|by rewrite lookup_insert_eq]. apply list_lookup_insert_eq. rewrite Hl.
  unfold MAX_FD_COUNT in *. lia.
Qed.

Lemma happened_trans w w1 tr tr' l1 l : happened w tr l1 → happened w1 tr' l → lib w1 = l1 → happened w (tr ++ tr') l.
Proof. intros [_ H1] [? H2] <-. split; [done|]. by rewrite H2, H1, app_assoc. Qed.

Lemma ready_file_world w s f x l : ready w s → outstanding l = [] → ready (file_world w f x l) s.
Proof. intros [] Hl. by split. Qed.

Lemma entered_file_world w fd f x x' l : entered w fd f x → entered (file_world w f x' l) fd f x'.
Proof. intros (? & ? & _). split; [done|]. split; [done|]. simpl. by rewrite lookup_insert_eq. Qed.

(** [main] on a healthy library: what passes, and what is left. *)
Definition main_trace s f x buffer tr : Prop :=
  ∃ t1 t2 err1 err2 err3, setup_trace s t1 ∧ create_trace s f x t2 ∧
    tr = t1 ++ t2 ++ write_items s f x buffer 128 err1 ++ read_items s f x buffer 128 err2 ++ close_items f x err3.
Definition main_post w buffer (r : Z * Z) (w' : world) : Prop :=
  r = (0, 0)%Z ∧ json_loaded w' = true ∧ ∃ s fd f x tr, ready w' s ∧ initilized w' = true ∧
    least_free (fd_table w) fd ∧ store w !! f = None ∧ entered w' fd f (set_status FILE_CLOSE x) ∧
    (∀ i, (0 ≤ i)%Z → fd_used (fd_table w') i = fd_used (fd_table w) i) ∧
    main_trace s f x buffer tr ∧ happened w tr (lib w').

(** The array of [main] has 129 bytes. *)
Lemma transfers_overrun s : (0 < unit_size s)%Z → ((unit_size s | 129) ∨ 129 < units s 128 * unit_size s)%Z.
Proof.
  intros Hu. unfold units. pose proof (Z.div_mod 128 (unit_size s) ltac:(lia)). pose proof (Z.mod_pos_bound 128 (unit_size s) Hu).
  pose proof (Z.div_pos 128 (unit_size s) ltac:(lia) Hu). pose proof (Z.div_le_upper_bound 128 (unit_size s) 128 Hu ltac:(nia)).
  rewrite Z.mod_small by lia. set (q := (128 / unit_size s + 1)%Z) in *. destruct (decide (129 < q * unit_size s)%Z); [by right|left].
  exists q. nia.
Qed.

Lemma wp_main polls fuel w buffer j :
  fs w = None → initilized w = false → outstanding (lib w) = [] → enough polls fuel →
  table_ok (fd_table w) → length (files w) = Z.to_nat MAX_FD_COUNT → fd_free (fd_table w) j → (0 < buffer)%Z →
  wp (main polls fuel buffer) w (main_post w buffer).
Proof.
  intros Hfs Hini Hid Hen Ht Hl Hj Hbuf.
  unfold main. apply wp_bind. eapply wp_mono; [by eapply wp_creat|]. cbn beta.
  intros fd w1 (s & l0 & f & x & l1 & Hleast & Hfn & Hw1 & _ & Hr & t1 & t2 & Ht1 & Ht2 & Hd1).
  pose proof Hleast as [Hfree _]. pose proof (free_range _ _ Hfree) as Hrg.
  assert (f_ret x = 0%Z) as Hx by (by apply (create_trace_file _ _ _ _ Ht2)).
  assert (entered w1 fd f x) as He by (rewrite Hw1; by apply entered_opened).
  assert (initilized w1 = true) as Hi by (by rewrite Hw1). assert (json_loaded w1 = true) as Hj1 by (by rewrite Hw1).
  assert (fd_table w1 = set_bit (fd_table w) fd) as Htab by (by rewrite Hw1).
  assert (lib w1 = l1) as Hlib by (by rewrite Hw1).
  apply wp_bind. eapply wp_mono; [apply (wp_write polls fuel w1 s fd f x Hr He Hen Hi); lia|]. cbn beta.
  intros r w2 (-> & l2 & e1 & -> & Hd2). pose proof (proj1 Hd2) as Hl2. apply wp_bind.
  eapply wp_mono; [eapply (wp_read polls fuel _ s fd f); [by apply ready_file_world|by eapply entered_file_world|done|done|lia|lia]|].
  cbn beta. intros r w3 (-> & l3 & e2 & -> & Hd3). pose proof (proj1 Hd3) as Hl3. apply wp_bind.
  eapply wp_mono; [eapply (wp_close polls fuel _ s fd f); [by repeat apply ready_file_world|
    by repeat eapply entered_file_world|done|done]|].
  cbn beta. intros r w4 (-> & l4 & e3 & Hd4 & ->). pose proof (proj1 Hd4) as Hl4. apply wp_ret.
  split; [cbn; by rewrite Hx|]. split; [done|].
  exists s, fd, f, x, (t1 ++ t2 ++ write_items s f x buffer 128 e1 ++ read_items s f x buffer 128 e2 ++ close_items f x e3).
  destruct (set_bit_ok (fd_table w) fd Ht Hrg) as [Ht1' Hu1].
  destruct (clear_bit_ok _ fd Ht1' Hrg) as [Ht2' Hu2]. destruct Hr as [? ? ? ? ? ?].
  split_and!; [split; [done|done|done|done| |done]|done|done|done| | | |].
  - cbn. by rewrite Htab.
  - destruct He as (He1 & He2 & _). split; [done|]. split; [exact He2|]. cbn. rewrite lookup_insert_eq. by destruct Ht2.
  - intros i Hi0. cbn. rewrite Htab, Hu2, Hu1 by done. case_bool_decide as Hif; simpl.
    + subst i. rewrite andb_false_r. symmetry. apply Hfree.
    + by rewrite orb_false_r, andb_true_r.
  - by exists t1, t2, e1, e2, e3.
  - rewrite app_assoc. apply (happened_trans _ w1 _ _ l1); [exact Hd1| |exact Hlib].
    eapply happened_trans; [exact Hd2|eapply happened_trans; [exact Hd3|exact Hd4|reflexivity]|reflexivity].
Qed.

(** The program works on any healthy library; [MyFsLoader] has the library
    whose configuration is read by json_config.c. *)
Theorem myfs_main_spec polls fuel w buffer j :
  fs w = None → initilized w = false → outstanding (lib w) = [] → enough polls fuel →
  table_ok (fd_table w) → length (files w) = Z.to_nat MAX_FD_COUNT → fd_free (fd_table w) j → (0 < buffer)%Z →
  ∃ w', main polls fuel buffer w = Ok (0, 0)%Z w' ∧ main_post w buffer (0, 0)%Z w'.
Proof.
  intros Hfs Hini Hid Hen Ht Hl Hj Hbuf.
  pose proof (wp_main polls fuel w buffer j Hfs Hini Hid Hen Ht Hl Hj Hbuf) as Hwp.
  apply wp_Ok in Hwp as (r & w' & Hrun & Hpost). pose proof (proj1 Hpost) as ->. by exists w'.
Qed.
End healthy.
End program.

#[export] Instance device_healthy : Healthy device.
Proof. split; by eauto. Defined.

Lemma myfs_setup_witness : ∃ s l, myfs_setup many_polls many_events cold_world = Ok 0%Z (boot cold_world s true l) ∧ is_Some (channel s).
Proof.
  destruct (myfs_setup_spec many_polls many_events cold_world ltac:(done) device_enough empty_table_ok no_files_length)
    as (s & l & tr & Hrun & _ & (_ & _ & Hc & _) & _).
  by exists s, l.
Defined.

Lemma myfs_main_witness : ∃ w', main many_polls many_events 4096 cold_world = Ok (0, 0)%Z w'.
Proof.
  destruct (myfs_main_spec many_polls many_events cold_world 4096 3 eq_refl eq_refl ltac:(done) device_enough
    empty_table_ok no_files_length three_free ltac:(lia)) as (w' & Hrun & _).
  by exists w'.
Defined.

(** Only the first [creat] reaches the file layer. *)
Example second_creat_is_a_system_call {L : Type} `{!Spdk L} polls fuel (w : world L) mode :
  initilized w = true → creat polls fuel mode w = do_syscall (sys_creat mode) w.
Proof. intros Hi. unfold creat, bind, gets. by rewrite Hi. Qed.
