(* ===== verification/MyFsTeardown.v ===== *)
(** * myfs.c: a failing device, releasing files and tearing down

    Creation on a device whose super blob cannot be read, the release of a
    file, and the end of the file layer's life. *)
From stdpp Require Import base gmap list strings.
From S2P Require Import Prelude MyFs MyFsFd MyFsPoll MyFsDevice MyFsSpec MyFsMain.

(** ** No super blob *)

(** The error codes that [myfs_bs_get_super_complete] has no case for. *)
Definition super_bad (err : Z) : Prop := ¬ super_ok err.

Section failing.
Context {L : Type} `{!Spdk L, !SpdkLaws L (answers super_bad)}.
Abbreviation world := (world L).
Implicit Types (w : world) (l : L) (f : loc) (x : myfs_file_s).

(** The request ends without setting the flag. *)
Lemma create_stuck w f x s l h :
  fs w = Some s → outstanding l = [] → history l = h → done x = false →
  wp (do_create f) (file_world w f x l)
    (λ _ w', stage (file_done f) false (file_post w f (λ x' h', x' = set_status FILE_CREATE x ∧ ∃ id err, super_bad err ∧
       h' = h ++ [i_call (bs_get_super (bs s) f); i_event (get_super_done f id err)])) 1 w').
Proof.
  intros Hs Hl <- Hd. unfold do_create. apply wp_bind, wp_update_file, wp_bind.
  eapply wp_get_fs; [exact Hs|]. apply wp_call.
  apply file_stage; [done|done|]. intros e l1 Ha Hl1 Hh1.
  inversion Ha as [|? ? id err Hbad| | | | | | | | | |]; subst. cbn [handle]. unfold myfs_bs_get_super_complete.
  apply wp_bind. eapply wp_get_fs; [exact Hs|]. pose proof Hbad as Hb. unfold super_bad, super_ok in Hbad.
  rewrite bool_decide_eq_true_2 by naive_solver. rewrite bool_decide_eq_false_2 by naive_solver.
  apply wp_ret, settled_stage, file_settled; [done|done|]. by eauto.
Qed.

(** What passes, and the file that is left. *)
Definition created_nothing w s f x l : Prop :=
  x = zero_file ∧ polls_made l = (polls_made (lib w) + POLLER_MAX_TIME)%Z ∧ ∃ id err, super_bad err ∧
    history l = history (lib w) ++ msg_items (do_create_msg f) ++
      [i_call (bs_get_super (bs s) f); i_event (get_super_done f id err)].

Lemma create_stuck_op polls fuel w w1 s f :
  ready w s → enough polls fuel → fs w1 = Some s → lib w1 = lib w →
  wp (myfs_file_create polls fuel f) (file_world w1 f zero_file (lib w1)) (λ _ w', ∃ x l, w' = file_world w1 f x l ∧
    outstanding l = [] ∧ created_nothing w s f x l).
Proof.
  intros Hr [Hp Hfu] Hfs Hw.
  eapply wp_mono; [eapply (file_op_ok _ _ 1); [exact Hfs|apply Hr|by rewrite Hw; apply Hr| |lia|lia|done]|].
  - intros l Hl Hh. by eapply create_stuck.
  - intros r w' (x & l & -> & Hl & [-> (id & err & Hbad & Hh)] & _ & Hpm). specialize (Hpm eq_refl). rewrite Hw in Hh, Hpm.
    exists zero_file, l. split_and!; [done|done|]. split_and!; [done|done|]. exists id, err. split; [done|]. by rewrite Hh, <-app_assoc.
Qed.

(** C25: When the super blob cannot be read, other than for being absent,
    creating a file does not report it: the callback does nothing, the thread is
    polled [POLLER_MAX_TIME] times in vain, and the least free descriptor, when
    there is one, is returned for a file without a blob, whose transfers then
    hand the null blob to the library. *)
Theorem myfs_create_no_super polls fuel w s j :
  ready w s → enough polls fuel → fd_free (fd_table w) j →
  ∃ fd f l id err, least_free (fd_table w) fd ∧ store w !! f = None ∧
    myfs_create polls fuel w = Ok fd (opened_world w fd f zero_file l) ∧
    super_bad err ∧
    happened w [i_call (send_msg (do_create_msg f)); i_event (run_msg (do_create_msg f));
                i_call (bs_get_super (bs s) f); i_event (get_super_done f id err)] l ∧
    polls_made l = (polls_made (lib w) + POLLER_MAX_TIME)%Z ∧
    ∀ buf size,
      (∃ w2, do_write f buf size (opened_world w fd f zero_file l) = Ok tt w2 ∧
         lib w2 = submit (blob_io_write None (channel s) buf 0 (units s size) f) l) ∧
      (∃ w2, do_read f buf size (opened_world w fd f zero_file l) = Ok tt w2 ∧
         lib w2 = submit (blob_io_read None (channel s) buf 0 (units s size) f) l).
Proof.
  intros Hr Hen Hj. destruct (open_with w s (myfs_file_create polls fuel) (created_nothing w s) Hr)
    as [(fd & f & x & l & Hfd & Hf & Hrun & Hl & -> & Hpm & id & err & Hbad & Hh)|[Hall _]].
  - intros w1 f Hfs Hw Hid. by apply (create_stuck_op polls fuel w w1 s f).
  - exists fd, f, l, id, err. split_and!; [done..|by split|done|]. intros buf size.
    apply (transfer_calls (opened_world w fd f zero_file l) s f zero_file); [apply Hr|apply (rd_unit _ _ Hr)|apply lookup_insert_eq].
  - exfalso. by apply (Hall j).
Qed.
End failing.

(** ** Releasing a file *)
Section files.
Context {L : Type} {super : Z → Prop} `{!Spdk L, !SpdkLaws L (answers super)}.
Abbreviation world := (world L).
Implicit Types (w : world) (l : L) (f : loc) (x : myfs_file_s) (s : myfs_s).

(** The blob is closed and deleted, whatever errors are reported. *)
Theorem myfs_file_release_spec polls fuel w s f x :
  fs w = Some s → is_Some (thread s) → outstanding (lib w) = [] → enough polls fuel → store w !! f = Some x →
  ∃ l, myfs_file_release polls fuel f w =
    Ok (f_ret x) (file_world w f (set_done true (set_status FILE_RELEASE (set_done false x))) l) ∧
    did w [send_msg (do_release_msg f); blob_close (blob x) f; bs_delete_blob (bs s) (blobid x) f] l.
Proof.
  intros Hs Hth Hid [Hp Hfu] Hf. set (h := history (lib w) ++ msg_items (do_release_msg f)).
  set (P := λ x' h', x' = set_done true (set_status FILE_RELEASE (set_done false x)) ∧ ∃ err err',
    h' = h ++ [i_call (blob_close (blob x) f); i_event (close_done f err);
               i_call (bs_delete_blob (bs s) (blobid x) f); i_event (delete_done f err')]).
  assert (wp (myfs_file_release polls fuel f) w (λ r w', ∃ x' l, w' = file_world w f x' l ∧ outstanding l = [] ∧
    P x' (history l) ∧ r = f_ret x' ∧ (true = false → polls_made l = (polls_made (lib w) + POLLER_MAX_TIME)%Z))) as Hwp.
  { rewrite <-(world_file w f x Hf) at 1.
    apply (file_op_ok _ _ 2 w f x (lib w) _ true P s); [done|done|done| |lia|lia|done].
    intros l Hl Hh. by apply (release_run w f (set_done false x) s l h). }
  apply wp_Ok in Hwp as (r & w' & Hrun & x' & l & -> & Hl & [-> (err & err' & Hh)] & -> & _). exists l. split; [done|].
  split; [done|]. rewrite Hh. unfold h. by rewrite !calls_of_app, <-app_assoc.
Qed.
End files.

(** ** Tearing down *)
Section teardown.
Context {L : Type} `{!Spdk L, !SpdkLaws L healthy}.
Abbreviation world := (world L).
Implicit Types (w : world) (l : L) (f : loc) (x : myfs_file_s) (s : myfs_s).

Lemma world_boot w s : fs w = Some s → boot w s (json_loaded w) (lib w) = w.
Proof. destruct w as [f t fl i st j l]. simpl. by intros ->. Qed.

(** What passes in tearing down. *)
Definition free_items s r err : list item :=
  msg_items myfs_free_msg ++
  [i_plain (p_free_io_channel (channel s)) r; i_call (bs_destroy (bs s)); i_event (bs_destroy_done err)].

Lemma wp_free polls fuel w s j l :
  outstanding l = [] → enough polls fuel → finished s = false → is_Some (thread s) →
  wp (poller polls fuel (thread s) myfs_free_msg fs_finished) (boot w s j l)
    (λ r w', r = true ∧ ∃ s' l', w' = boot w s' j l' ∧ outstanding l' = [] ∧
       ∃ r err, history l' = history l ++ free_items s r err).
Proof.
  intros Hl Hen Hf Hth.
  apply (boot_poller w fs_finished (λ _ h, ∃ r err, h = history l ++ free_items s r err) _ _ 1 s j j);
    [done|done|done|lia|intros l'; rewrite <-Hf; apply fs_finished_ok|].
  intros l1 Hl1 Hh1. unfold run_fn, myfs_free. apply wp_bind. eapply wp_get_fs; [done|].
  apply wp_bind, wp_boot_plain. intros l2 Hl2 Hh2. apply wp_modify. cbn [lib boot with_lib].
  apply (boot_stage w _ _ 0 s j j); [by rewrite Hl2|intros l'; rewrite <-Hf; apply fs_finished_ok|].
  intros e l3 Ha Hl3 Hh3. inversion Ha as [| | | | | | | | | | |? err]; subst. cbn [handle]. unfold myfs_blobstore_destory_complete.
  apply wp_set_fs, settled_stage, boot_settled; [done|done|]. eexists _, err. by rewrite Hh3, Hh2, Hh1, <-!app_assoc.
Qed.

(** The world after tearing down. *)
Definition torn w l : world := with_lib l (with_fs None w).

Lemma wp_destory polls fuel w s :
  fs w = Some s → outstanding (lib w) = [] → enough polls fuel → is_Some (thread s) →
  wp (myfs_destory polls fuel) w (λ r w', r = 0%Z ∧ ∃ l r err, w' = torn w l ∧ happened w (free_items s r err) l).
Proof.
  intros Hs Hid Hen Hth. rewrite <-(world_boot w s Hs) at 1. unfold myfs_destory.
  apply wp_bind, wp_set_fs, wp_bind. eapply wp_get_fs; [done|]. cbn [thread].
  apply wp_bind. eapply wp_mono; [by apply (wp_free polls fuel w (Fs (thread s) (bs_dev s) (bs s) (channel s) (unit_size s) false))|]. cbn beta.
  intros r0 w' (-> & s' & l & -> & Hl & r & err & Hh). apply wp_bind, wp_modify, wp_ret. split; [done|]. exists l, r, err.
  by split_and!.
Qed.

Lemma torn_file_at w l fd f x : entered w fd f x → file_at fd (torn w l) = Ok (Some f) (torn w l).
Proof.
  intros (Hfd & Hf & _). unfold file_at, bind, gets. simpl. rewrite bool_decide_eq_false_2 by lia.
  unfold of_option. by rewrite Hf.
Qed.

(** Without a file system no operation on a file is defined. *)
Lemma file_op_torn polls fuel w l f x fn : store w !! f = Some x → file_op polls fuel f fn (torn w l) = Undef.
Proof.
  intros Hf. unfold file_op, update_file, bind, get_file, put_file, of_option, torn. simpl. rewrite Hf. simpl. by rewrite Hf.
Qed.

(** C26: Tearing the layer down, with nothing outstanding on a library that
    answers, frees the channel and asks for the destruction of the blob store;
    whatever the answer, it then forgets the file system and nothing else: the
    descriptors that were open stay open, and every transfer or close through
    one of them uses the null file system, which is undefined. *)
Theorem myfs_destory_spec polls fuel w s :
  ready w s → enough polls fuel →
  ∃ l r err, myfs_destory polls fuel w = Ok 0%Z (torn w l) ∧
    happened w [i_call (send_msg myfs_free_msg); i_event (run_msg myfs_free_msg);
                i_plain (p_free_io_channel (channel s)) r;
                i_call (bs_destroy (bs s)); i_event (bs_destroy_done err)] l ∧
    ∀ fd f x buf count, initilized w = true → entered w fd f x → (0 < buf)%Z → (0 < count)%Z →
      write polls fuel fd buf count (torn w l) = Undef ∧ read polls fuel fd buf count (torn w l) = Undef ∧
      close polls fuel fd (torn w l) = Undef.
Proof.
  intros Hr Hen. pose proof Hr as [Hs Hth Hu Hid Ht Hlen].
  destruct (proj1 (wp_Ok _ _ _) (wp_destory polls fuel w s Hs Hid Hen Hth)) as (r0 & w' & Hrun & -> & l & r & err & -> & Hl).
  exists l, r, err. split; [done|]. split; [done|].
  intros fd f x buf count Hi He Hb Hc. pose proof (torn_file_at w l fd f x He) as Hat.
  destruct He as (_ & _ & Hf). assert (∀ fn, file_op polls fuel f fn (torn w l) = Undef) as Hop.
  { intros fn. by eapply file_op_torn. }
  assert (file_of fd (torn w l) = Ok f (torn w l)) as Hof by (unfold file_of, bind; by rewrite Hat).
  assert (bool_decide (buf = 0)%Z || negb (bool_decide (count > 0)%Z) = false) as Hg.
  { rewrite bool_decide_eq_false_2, bool_decide_eq_true_2 by lia. done. }
  split_and!; [unfold write, myfs_write, myfs_file_write|unfold read, myfs_read, myfs_file_read|unfold close, myfs_close, myfs_file_close];
    unfold bind at 1; rewrite Hat; cbn; rewrite Hi; unfold bind; rewrite Hof, ?Hg, Hop; done.
Qed.
End teardown.

(** ** Examples on devices *)

(** A device whose super blob cannot be read. *)
Record bad_device := Bad { bad_pending : list call; bad_past : list item }.
Definition answer_bad (c : call) : event :=
  match c with bs_get_super _ f => get_super_done f 0 (-5) | _ => answer c end.

#[export] Instance bad_spdk : Spdk bad_device := {|
  submit c l := Bad (bad_pending l ++ [c]) (bad_past l ++ [i_call c]);
  poll_begin l := Bad (bad_pending l) (bad_past l ++ [i_poll]);
  next l :=
    match bad_pending l with
    | [] => None
    | c :: p => Some (answer_bad c, Bad p (bad_past l ++ [i_event (answer_bad c)]))
    end;
  plain_call p l := (plain_answer p, Bad (bad_pending l) (bad_past l ++ [i_plain p (plain_answer p)]));
  alloc_io_channel _ _ := Some 1%Z;
  create_bs_dev _ := (0%Z, Some 1%Z);
  thread_create _ := Some 1%Z
|}.

#[export] Instance bad_laws : SpdkLaws bad_device (answers super_bad).
Proof.
  refine {| outstanding := bad_pending; trace := bad_past; delay _ := 0; latency := 0 |}.
  - by intros l c; cbn; intros ->.
  - done.
  - done.
  - done.
  - done.
  - by intros [[|c p] h] e l'; cbn; [|intros [= <- <-]].
  - done.
  - by intros [p h]; cbn; intros ->.
  - intros [p h] c; cbn; intros ->. split; [|done]. destruct c; constructor. by intros [?|?].
  - done.
  - done.
Defined.

Definition bad_world : MyFs.world bad_device := World (Some device_fs) empty_table no_files true ∅ true (Bad [] []).
Lemma bad_ready : ready bad_world device_fs.
Proof. split; [done|by eexists|done|done|apply empty_table_ok|exact no_files_length]. Qed.

Lemma myfs_create_no_super_witness : ∃ fd f l,
  myfs_create many_polls many_events bad_world = Ok fd (opened_world bad_world fd f zero_file l).
Proof.
  destruct (myfs_create_no_super many_polls many_events bad_world device_fs 3 bad_ready device_enough three_free)
    as (fd & f & l & id & err & _ & _ & Hrun & _).
  exists fd, f, l. exact Hrun.
Defined.

Lemma myfs_destory_witness : ∃ l, myfs_destory many_polls many_events one_file_world = Ok 0%Z (torn one_file_world l) ∧
  close many_polls many_events 3 (torn one_file_world l) = Undef.
Proof.
  destruct (myfs_destory_spec many_polls many_events one_file_world device_fs (proj1 one_file_ready) device_enough)
    as (l & r & err & Hrun & _ & Hu).
  exists l. split; [exact Hrun|].
  destruct (Hu 3%Z 1%positive some_file 4096%Z 128%Z eq_refl (proj2 one_file_ready) ltac:(lia) ltac:(lia)) as (_ & _ & Hc). exact Hc.
Defined.
