(* ===== verification/MyFsScript.v ===== *)
(** * myfs.c: the hooked functions as a table of descriptors

    [layer] is what a client of [creat], [open], [read], [write] and [close] has
    to know: whether the file layer is up, which descriptors it has given out,
    and for which numbers it takes the calls, with or without an open blob.
    Any script of calls that keep to open blobs gets the answers of this table,
    and the kernel's wherever the table has none. *)
From stdpp Require Import base gmap list strings.
From S2P Require Import Prelude MyFs MyFsFd MyFsPoll MyFsDevice MyFsSpec MyFsMain.

Inductive hook :=
| h_creat (mode : Z)
| h_open (flags : Z)
| h_read (fd buf count : Z)
| h_write (fd buf count : Z)
| h_close (fd : Z).

(** ** The table *)

(** [entry] says of a number that the layer takes whether its blob is open. *)
Record layer := Layer { up : bool; used : gset Z; entry : gmap Z bool }.
Definition start_layer : layer := Layer false ∅ ∅.

Definition descriptors : list Z := seqZ DEFAULT_FD_NUM (MAX_FD_COUNT - DEFAULT_FD_NUM).
Definition least_unused (u : gset Z) : option Z := snd <$> list_find (λ fd, fd ∉ u) descriptors.

(** The table after a call, and the answer: [inl] is the table's, [inr] means that
    the kernel is asked.  Without a free descriptor the allocation answers -1. *)
Definition give (b : bool) (a : layer) : layer * (Z + sys) :=
  match least_unused (used a) with
  | Some fd => (Layer true ({[fd]} ∪ used a) (<[fd := b]> (entry a)), inl fd)
  | None => (a, inl (-1)%Z)
  end.
Definition abs_hook (a : layer) (h : hook) : layer * (Z + sys) :=
  match h with
  | h_creat mode => if up a then (a, inr (sys_creat mode)) else give true a
  | h_open flags => if up a then give false a else (a, inr (sys_open flags))
  | h_read fd buf count => (a, if entry a !! fd then inl 0%Z else inr (sys_read fd buf count))
  | h_write fd buf count => (a, if entry a !! fd then inl 0%Z else inr (sys_write fd buf count))
  | h_close fd =>
      if entry a !! fd then (Layer (up a) (used a ∖ {[fd]}) (<[fd := false]> (entry a)), inl 0%Z)
      else (a, inr (sys_close fd))
  end.

(** The layer gives a descriptor only while it has one; descriptors are in the
    range of its table, and those it takes have an open blob. *)
Definition usable (a : layer) (fd : Z) : Prop := (0 ≤ fd < MAX_FD_COUNT)%Z ∧ entry a !! fd ≠ Some false.
Definition friendly (a : layer) (h : hook) : Prop :=
  match h with
  | h_creat _ => up a = false → is_Some (least_unused (used a))
  | h_open _ => up a = true → is_Some (least_unused (used a))
  | h_read fd buf count | h_write fd buf count => usable a fd ∧ (0 < buf)%Z ∧ (0 < count)%Z
  | h_close fd => usable a fd
  end.

Fixpoint abs_script (a : layer) (hs : list hook) : layer * list (Z + sys) :=
  match hs with
  | [] => (a, [])
  | h :: hs => let '(a', rs) := abs_script (abs_hook a h).1 hs in (a', (abs_hook a h).2 :: rs)
  end.
Fixpoint friendly_script (a : layer) (hs : list hook) : Prop :=
  match hs with [] => True | h :: hs => friendly a h ∧ friendly_script (abs_hook a h).1 hs end.
#[export] Instance friendly_dec a h : Decision (friendly a h).
Proof. destruct h; unfold friendly, usable; apply _. Defined.
#[export] Instance friendly_script_dec a hs : Decision (friendly_script a hs).
Proof. revert a. induction hs as [|h hs IH]; intros a; simpl; apply _. Defined.
(** The results [rs] of a script: the table's where it answers, and otherwise what
    the kernel has answered; [k] are the kernel's answers in order. *)
Inductive answered : list (Z + sys) → list Z → list (sys * Z) → Prop :=
| answered_nil : answered [] [] []
| answered_table r os rs k : answered os rs k → answered (inl r :: os) (r :: rs) k
| answered_kernel c r os rs k : answered os rs k → answered (inr c :: os) (r :: rs) ((c, r) :: k).

Lemma answered_app os os' rs rs' k k' : answered os rs k → answered os' rs' k' → answered (os ++ os') (rs ++ rs') (k ++ k').
Proof. intros H H'. induction H; [done|by constructor..]. Qed.

Lemma descriptors_lookup i fd : descriptors !! i = Some fd ↔ (fd = DEFAULT_FD_NUM + Z.of_nat i)%Z ∧ (fd < MAX_FD_COUNT)%Z.
Proof. unfold descriptors. rewrite lookup_seqZ. unfold DEFAULT_FD_NUM, MAX_FD_COUNT. lia. Qed.

Section script.
Context {L : Type} `{!Spdk L, !SpdkLaws L healthy, !Healthy L}.
Abbreviation world := (world L).
Implicit Types (w : world) (l : L) (f : loc) (x : myfs_file_s) (s : myfs_s) (a : layer).
Context (polls fuel : nat).

Definition run_hook (h : hook) : M world Z :=
  match h with
  | h_creat mode => creat polls fuel mode
  | h_open flags => open polls fuel flags
  | h_read fd buf count => read polls fuel fd buf count
  | h_write fd buf count => write polls fuel fd buf count
  | h_close fd => close polls fuel fd
  end.
Fixpoint run_hooks (hs : list hook) : M world (list Z) :=
  match hs with
  | [] => ret []
  | h :: hs => let* r := run_hook h in let* rs := run_hooks hs in ret (r :: rs)
  end.

(** ** The world follows the table *)
Definition entry_ok a w fd : Prop :=
  match entry a !! fd with
  | None => files w !! Z.to_nat fd = Some None
  | Some b => ∃ f x, entered w fd f x ∧ (b = true → is_Some (blob x) ∧ f_ret x = 0%Z)
  end.
Record follows a w : Prop := {
  fo_up : initilized w = up a;
  fo_state : if up a then ∃ s, ready w s else
    fs w = None ∧ outstanding (lib w) = [] ∧ table_ok (fd_table w) ∧ length (files w) = Z.to_nat MAX_FD_COUNT ∧ entry a = ∅;
  fo_used fd : (0 ≤ fd < MAX_FD_COUNT)%Z → fd_used (fd_table w) fd = bool_decide (fd ∈ used a);
  fo_entry fd : (0 ≤ fd < MAX_FD_COUNT)%Z → entry_ok a w fd;
  fo_inj fd fd' f x x' : entered w fd f x → entered w fd' f x' → fd = fd'
}.

Lemma follows_files a w : follows a w → length (files w) = Z.to_nat MAX_FD_COUNT.
Proof. intros [_ Hs _ _ _]. destruct (up a); [by destruct Hs as [s []]|by destruct Hs as (_ & _ & _ & ? & _)]. Qed.

(** *** Free descriptors *)
Lemma least_free_unused a w fd : follows a w → least_free (fd_table w) fd → least_unused (used a) = Some fd.
Proof.
  intros Hf [[Hr Hfr] Hleast]. unfold least_unused.
  assert (list_find (λ fd, fd ∉ used a) descriptors = Some (Z.to_nat (fd - DEFAULT_FD_NUM), fd)) as ->; [|done].
  apply list_find_Some. split_and!.
  - apply descriptors_lookup. lia.
  - rewrite (fo_used a w Hf) in Hfr by (unfold DEFAULT_FD_NUM, MAX_FD_COUNT in *; lia). by apply bool_decide_eq_false in Hfr.
  - intros j y [-> Hy]%descriptors_lookup Hj Hnot.
    assert (fd_free (fd_table w) (DEFAULT_FD_NUM + Z.of_nat j)) as Hfree.
    { split; [lia|]. rewrite (fo_used a w Hf) by (unfold DEFAULT_FD_NUM in *; lia). by apply bool_decide_eq_false_2. }
    specialize (Hleast _ Hfree). lia.
Qed.
Lemma unused_free a w : follows a w → is_Some (least_unused (used a)) → ∃ j, fd_free (fd_table w) j.
Proof.
  intros Hf [fd Hfd]. unfold least_unused in Hfd. destruct (list_find _ _) as [[i y]|] eqn:Hl; [|done].
  apply list_find_Some in Hl as ([Hy1 Hy2]%descriptors_lookup & Hnot & _). exists y. unfold DEFAULT_FD_NUM in *.
  split; [unfold DEFAULT_FD_NUM; lia|]. rewrite (fo_used a w Hf) by lia. by apply bool_decide_eq_false_2.
Qed.

(** *** Steps of the world *)
Lemma follows_lib a w l : follows a w → outstanding l = outstanding (lib w) → follows a (with_lib l w).
Proof.
  intros [Hu Hs Hus He Hi] Hl. split; [done| |done..]. destruct (up a).
  - destruct Hs as [s []]. exists s. split; [done|done|done| |done|done]. cbn [lib with_lib]. by rewrite Hl.
  - destruct Hs as (? & Hid & ? & ? & ?). split_and!; [done| |done..]. cbn [lib with_lib]. by rewrite Hl.
Qed.
(** One call: its result is [o]'s, and the kernel was asked what [o] says. *)
Definition hook_post a (o : Z + sys) w (r : Z) w' : Prop :=
  follows a w' ∧ ∃ k, answered [o] [r] k ∧ sys_of (history (lib w')) = sys_of (history (lib w)) ++ k.

Lemma wp_syscall c a w : follows a w → wp (do_syscall c) w (hook_post a (inr c) w).
Proof.
  intros Hf. unfold wp, do_syscall, do_plain. pose proof (out_plain (p_sys c) (lib w)) as Ho.
  pose proof (history_plain (p_sys c) (lib w)) as Hh. destruct (plain_call (p_sys c) (lib w)) as [r l]. split; [by apply follows_lib|].
  exists [(c, r)]. split; [by repeat constructor|]. cbn [lib with_lib]. cbn in Hh. by rewrite Hh, sys_of_app.
Qed.
(** An answer of the table: no system call has passed. *)
Lemma table_post a r w w' tr : follows a w' → happened w tr (lib w') → sys_of tr = [] → hook_post a (inl r) w r w'.
Proof.
  intros Hf [_ Hh] Htr. split; [done|]. exists []. split; [by repeat constructor|]. by rewrite Hh, sys_of_app, Htr.
Qed.
Lemma create_trace_sys s f x tr : create_trace s f x tr → sys_of tr = [].
Proof. by destruct 1. Qed.
Lemma setup_trace_sys s tr : setup_trace s tr → sys_of tr = [].
Proof. by destruct 1. Qed.

Lemma follows_stored a w fd f : follows a w → (0 ≤ fd < MAX_FD_COUNT)%Z → files w !! Z.to_nat fd = Some (Some f) →
  ∃ x, entered w fd f x.
Proof.
  intros Hf Hr Hfl. pose proof (fo_entry a w Hf fd Hr) as He. unfold entry_ok in He. destruct (entry a !! fd); [|congruence].
  destruct He as (g & x & Hent & _). pose proof Hent as (_ & Hg & _). exists x. congruence.
Qed.

Lemma follows_opened a w s fd f x l b :
  follows a w → up a = true → ready w s → least_free (fd_table w) fd → store w !! f = None → outstanding l = [] →
  (b = true → is_Some (blob x) ∧ f_ret x = 0%Z) →
  follows (Layer true ({[fd]} ∪ used a) (<[fd := b]> (entry a))) (opened_world w fd f x l).
Proof.
  intros Hf Hup Hr Hfd Hfr Hl Hb. pose proof (free_range _ _ (proj1 Hfd)) as Hrg. pose proof Hr as [_ _ _ _ Ht Hlen].
  assert (∀ fd' g y, fd' ≠ fd → entered w fd' g y → entered (opened_world w fd f x l) fd' g y) as Hold.
  { intros fd' g y Hne (Hg1 & Hg2 & Hg3). split; [done|]. simpl. split.
    - rewrite list_lookup_insert_ne; [done|]. lia.
    - rewrite lookup_insert_ne; [done|]. congruence. }
  assert (∀ fd' g y, entered (opened_world w fd f x l) fd' g y → (fd' = fd ∧ g = f) ∨ (fd' ≠ fd ∧ g ≠ f ∧ entered w fd' g y)) as Hnew.
  { intros fd' g y (Hg1 & Hg2 & Hg3). simpl in *. destruct (decide (fd' = fd)) as [->|Hne].
    - left. split; [done|]. rewrite list_lookup_insert_eq in Hg2; [congruence|]. rewrite Hlen. unfold MAX_FD_COUNT in *. lia.
    - right. rewrite list_lookup_insert_ne in Hg2 by lia. destruct (follows_stored a w fd' g Hf Hg1 Hg2) as [z Hz].
      pose proof Hz as (_ & _ & Hz'). assert (g ≠ f) as Hgf by congruence. rewrite lookup_insert_ne in Hg3 by done.
      split_and!; [done|done|]. by split. }
  split.
  - simpl. rewrite (fo_up a w Hf). done.
  - exists s. by apply ready_opened.
  - intros fd' Hfd'. simpl. destruct (set_bit_ok _ fd Ht Hrg) as [_ ->]; [|lia]. rewrite (fo_used a w Hf) by done.
    rewrite <-bool_decide_or. apply bool_decide_ext. set_solver.
  - intros fd' Hfd'. unfold entry_ok. simpl. destruct (decide (fd' = fd)) as [->|Hne].
    + rewrite lookup_insert_eq. exists f, x. split; [by apply entered_opened|done].
    + rewrite lookup_insert_ne by done. pose proof (fo_entry a w Hf fd' Hfd') as He. unfold entry_ok in He.
      destruct (entry a !! fd') as [b'|].
      * destruct He as (g & y & He & Hby). exists g, y. split; [by apply Hold|done].
      * simpl. rewrite list_lookup_insert_ne; [done|]. lia.
  - intros fd1 fd2 g y1 y2 [(-> & ->)|(? & ? & H1)]%Hnew [(-> & ?)|(? & ? & H2)]%Hnew; try done. by eapply (fo_inj a w Hf).
Qed.

(** An entered file changes, but not its blob and code. *)
Lemma entered_file w f x x' l fd g y :
  store w !! f = Some x →
  entered (file_world w f x' l) fd g y ↔ (g = f ∧ y = x' ∧ entered w fd f x) ∨ (g ≠ f ∧ entered w fd g y).
Proof.
  intros Hf. unfold entered. simpl. destruct (decide (g = f)) as [->|Hne].
  - rewrite lookup_insert_eq. naive_solver.
  - rewrite lookup_insert_ne by done. naive_solver.
Qed.

Lemma follows_file a w fd f x x' l b :
  follows a w → up a = true → entered w fd f x → (b = true → is_Some (blob x') ∧ f_ret x' = 0%Z) → outstanding l = [] →
  follows (Layer true (used a) (<[fd := b]> (entry a))) (file_world w f x' l).
Proof.
  intros Hf Hup He Hb Hl. pose proof He as (Hr & Hfl & Hx). destruct Hf as [Hi Hs Hus Hen Hinj]. rewrite Hup in Hs, Hi.
  destruct Hs as [s Hs]. split.
  - done.
  - exists s. by apply ready_file_world.
  - done.
  - intros fd' Hr'. unfold entry_ok. simpl. destruct (decide (fd' = fd)) as [->|Hne].
    + rewrite lookup_insert_eq. exists f, x'. split; [|done]. apply (entered_file _ _ x); [done|]. by left.
    + rewrite lookup_insert_ne by done. specialize (Hen fd' Hr'). unfold entry_ok in Hen. destruct (entry a !! fd') as [b'|].
      * destruct Hen as (g & y & Hg & Hy). exists g, y. split; [|done]. apply (entered_file _ _ x); [done|]. right.
        split; [|done]. intros ->. apply Hne. by eapply Hinj.
      * done.
  - intros fd1 fd2 g y1 y2 H1%(entered_file _ _ x) H2%(entered_file _ _ x); try done.
    destruct H1 as [(-> & _ & H1)|(Hn1 & H1)], H2 as [(? & _ & H2)|(? & H2)]; try done; by eapply Hinj.
Qed.

Lemma follows_clear a w s fd : follows a w → ready w s → up a = true → (0 ≤ fd < MAX_FD_COUNT)%Z →
  follows (Layer true (used a ∖ {[fd]}) (entry a)) (with_table (clear_bit (fd_table w) fd) w).
Proof.
  intros [Hi Hs Hus Hen Hinj] Hr Hup Hrg. pose proof Hr as [? ? ? ? Ht ?]. destruct (clear_bit_ok _ fd Ht Hrg) as [Ht' Hu'].
  split; [by rewrite Hup in Hi|exists s; by split| |done..].
  intros fd' Hfd'. simpl. rewrite Hu', Hus by lia. rewrite <-bool_decide_not, <-bool_decide_and. apply bool_decide_ext. set_solver.
Qed.

(** *** The calls *)

(** A number that the layer does not take goes to the kernel. *)
Lemma wp_unentered a w fd c (m : M world Z) :
  follows a w → (0 ≤ fd < MAX_FD_COUNT)%Z → entry a !! fd = None →
  wp (let* o := file_at fd in
      let* i := gets initilized in
      match i, o with true, Some _ => m | _, _ => do_syscall c end) w (hook_post a (inr c) w).
Proof.
  intros Hf Hr Hn. pose proof (fo_entry a w Hf fd Hr) as He. unfold entry_ok in He. rewrite Hn in He.
  apply wp_bind, file_at_ok; [by eapply follows_files|done|]. intros o Ho. rewrite He in Ho. injection Ho as <-.
  apply wp_bind, wp_gets. destruct (initilized w); by apply wp_syscall.
Qed.

(** One that it takes, with an open blob. *)
Lemma follows_entered a w fd :
  follows a w → usable a fd → is_Some (entry a !! fd) →
  ∃ s f x, up a = true ∧ entry a !! fd = Some true ∧ ready w s ∧ entered w fd f x ∧ initilized w = true ∧
    is_Some (blob x) ∧ f_ret x = 0%Z.
Proof.
  intros Hf [Hr Hne] [b Hb]. assert (b = true) as -> by (destruct b; congruence).
  pose proof (fo_entry a w Hf fd Hr) as He. unfold entry_ok in He. rewrite Hb in He. destruct He as (f & x & Hent & Hx).
  pose proof (fo_state a w Hf) as Hs. destruct (up a) eqn:Hup.
  - destruct Hs as [s Hs]. exists s, f, x. split_and!; [done..| |by apply Hx|by apply Hx]. by rewrite (fo_up a w Hf).
  - destruct Hs as (_ & _ & _ & _ & Hemp). by rewrite Hemp, lookup_empty in Hb.
Qed.

Lemma layer_same a fd : up a = true → entry a !! fd = Some true → Layer true (used a) (<[fd := true]> (entry a)) = a.
Proof. intros Hup Hb. rewrite insert_id by done. destruct a. simpl in Hup. by subst. Qed.

Hypothesis Hen : enough polls fuel.

Lemma hook_creat_ok a w mode : follows a w → friendly a (h_creat mode) →
  wp (creat polls fuel mode) w (hook_post (abs_hook a (h_creat mode)).1 (abs_hook a (h_creat mode)).2 w).
Proof.
  intros Hf Hfr. simpl in *. destruct (up a) eqn:Hup.
  - unfold creat. apply wp_bind, wp_gets. rewrite (fo_up a w Hf), Hup. by apply wp_syscall.
  - pose proof (fo_state a w Hf) as Hs. rewrite Hup in Hs. destruct Hs as (Hfs & Hid & Ht & Hlen & Hemp).
    destruct (unused_free a w Hf (Hfr eq_refl)) as [j Hj].
    assert (initilized w = false) as Hi by (by rewrite (fo_up a w Hf)).
    eapply wp_mono; [by apply (wp_creat polls fuel w mode j)|].
    intros fd w' (s & l0 & f & x & l & Hfd & Hfn & -> & Hr1 & Hr & t1 & t2 & Ht1 & Ht2 & Hl).
    unfold give. rewrite (least_free_unused a w fd Hf Hfd). cbn [fst snd]. eapply table_post; [|exact Hl|
      by rewrite sys_of_app, (setup_trace_sys _ _ Ht1), (create_trace_sys _ _ _ _ Ht2)].
    apply create_trace_file in Ht2 as [Hb Hx].
    set (w1 := with_init true (boot w s true l0)) in *.
    assert (follows (Layer true (used a) (entry a)) w1) as Hf1.
    { destruct Hf as [_ _ Hus Hen' Hinj]. split; [done|by exists s|done|done|done]. }
    apply (follows_opened _ w1 s fd f x l true Hf1); [done|done|done|done|apply Hl|done].
Qed.

Lemma hook_open_ok a w flags : follows a w → friendly a (h_open flags) →
  wp (open polls fuel flags) w (hook_post (abs_hook a (h_open flags)).1 (abs_hook a (h_open flags)).2 w).
Proof.
  intros Hf Hfr. unfold open. apply wp_bind, wp_gets. rewrite (fo_up a w Hf). simpl in *. destruct (up a) eqn:Hup.
  - pose proof (fo_state a w Hf) as Hs. rewrite Hup in Hs. destruct Hs as [s Hs]. destruct (unused_free a w Hf (Hfr eq_refl)) as [j Hj].
    apply wp_bind. unfold setup_if_needed. apply wp_bind, wp_gets. rewrite (rd_fs _ _ Hs). apply wp_ret.
    eapply wp_mono; [by apply (wp_open polls fuel w s j)|]. intros fd w' (f & l & Hfd & Hfn & -> & Hl).
    unfold give. rewrite (least_free_unused a w fd Hf Hfd). cbn [fst snd]. eapply table_post; [|exact Hl|done].
    apply (follows_opened a w s fd f _ l false Hf); [done|done|done|done|apply Hl|done].
  - by apply wp_syscall.
Qed.

(** A number that the layer takes, with the file of its entry. *)
Ltac entered_or_kernel a fd Hf Hu :=
  simpl; destruct (entry a !! fd) as [[]|] eqn:Hb;
    [|by destruct Hu as [_ []]|by apply wp_unentered; [|apply Hu|]];
    destruct (follows_entered a _ fd Hf Hu) as (s & f & x & Hup & _ & Hr & He & Hi & Hblob & Hx); [by rewrite Hb|].

Lemma hook_write_ok a w fd buf count : follows a w → friendly a (h_write fd buf count) →
  wp (write polls fuel fd buf count) w (hook_post (abs_hook a (h_write fd buf count)).1 (abs_hook a (h_write fd buf count)).2 w).
Proof.
  intros Hf (Hu & Hbuf & Hc). entered_or_kernel a fd Hf Hu.
  eapply wp_mono; [by apply (wp_write polls fuel w s fd f x)|]. intros r w' (-> & l & err & -> & Hl). rewrite Hx.
  eapply table_post; [|exact Hl|done]. rewrite <-(layer_same a fd Hup Hb). apply (follows_file a w fd f x); [done..|apply Hl].
Qed.
Lemma hook_read_ok a w fd buf count : follows a w → friendly a (h_read fd buf count) →
  wp (read polls fuel fd buf count) w (hook_post (abs_hook a (h_read fd buf count)).1 (abs_hook a (h_read fd buf count)).2 w).
Proof.
  intros Hf (Hu & Hbuf & Hc). entered_or_kernel a fd Hf Hu.
  eapply wp_mono; [by apply (wp_read polls fuel w s fd f x)|]. intros r w' (-> & l & err & -> & Hl). rewrite Hx.
  eapply table_post; [|exact Hl|done]. rewrite <-(layer_same a fd Hup Hb). apply (follows_file a w fd f x); [done..|apply Hl].
Qed.
Lemma hook_close_ok a w fd : follows a w → friendly a (h_close fd) →
  wp (close polls fuel fd) w (hook_post (abs_hook a (h_close fd)).1 (abs_hook a (h_close fd)).2 w).
Proof.
  intros Hf Hu. simpl in Hu. entered_or_kernel a fd Hf Hu.
  eapply wp_mono; [by apply (wp_close polls fuel w s fd f x)|]. intros r w' (-> & l & err & Hl & ->). pose proof (proj1 Hl). rewrite Hx.
  eapply table_post; [|exact Hl|done]. set (w1 := file_world w f _ l). rewrite Hup. change (fd_table w) with (fd_table w1).
  assert (follows (Layer true (used a) (<[fd := false]> (entry a))) w1) as Hf1 by by apply (follows_file a w fd f x).
  apply (follows_clear _ w1 s fd Hf1); [by apply ready_file_world|done|apply Hu].
Qed.

Lemma hook_ok a w h : follows a w → friendly a h →
  wp (run_hook h) w (hook_post (abs_hook a h).1 (abs_hook a h).2 w).
Proof. destruct h; [apply hook_creat_ok|apply hook_open_ok|apply hook_read_ok|apply hook_write_ok|apply hook_close_ok]. Qed.

Lemma hooks_ok hs a w : follows a w → friendly_script a hs →
  wp (run_hooks hs) w (λ rs w', ∃ k, answered (abs_script a hs).2 rs k ∧
    sys_of (history (lib w')) = sys_of (history (lib w)) ++ k ∧ follows (abs_script a hs).1 w').
Proof.
  revert a w. induction hs as [|h hs IH]; intros a w Hf Hfr.
  { apply wp_ret. exists []. split_and!; [constructor|by rewrite app_nil_r|done]. }
  destruct Hfr as [Hh Hfr]. apply wp_bind. eapply wp_mono; [by apply hook_ok|]. intros r w1 (Hf1 & k1 & Hk1 & Hs1).
  apply wp_bind. eapply wp_mono; [by apply IH|]. intros rs w2 (k2 & Hk2 & Hs2 & Hf2). apply wp_ret. exists (k1 ++ k2). simpl.
  destruct (abs_script (abs_hook a h).1 hs) as [a' rs']. split_and!; [by apply (answered_app [_] _ [_])| |done].
  by rewrite Hs2, Hs1, app_assoc.
Qed.
End script.

Lemma fresh_follows {L} `{!Spdk L, !SpdkLaws L healthy} (w : world L) :
  fs w = None → initilized w = false → outstanding (lib w) = [] → fd_table w = empty_table → files w = no_files →
  follows start_layer w.
Proof.
  intros Hfs Hi Hid Ht Hfl. split.
  - done.
  - split_and!; [done|done|rewrite Ht; apply empty_table_ok|rewrite Hfl; apply no_files_length|done].
  - intros fd Hfd. rewrite Ht. unfold fd_used, empty_table. rewrite bool_decide_eq_false_2 by set_solver.
    rewrite lookup_total_replicate_2, Z.bits_0; [done|]. destruct (fd_byte empty_table fd empty_table_ok Hfd) as (_ & _ & Hlt). unfold empty_table in Hlt. by rewrite length_replicate in Hlt.
  - intros fd Hfd. unfold entry_ok. simpl. rewrite Hfl. unfold no_files, MAX_FD_COUNT in *. apply lookup_replicate_2. lia.
  - intros fd fd' f x x' (Hr & Hf & _). rewrite Hfl in Hf. apply lookup_replicate in Hf as [? _]. done.
Qed.

(** C24: The hooked functions are a table of descriptors.  From the state the
    program starts in, on a healthy library, any script of calls that keeps to
    the table's range, to open blobs and to buffers and counts that are not 0,
    and asks for a descriptor only while there is one, runs to its end (the
    library's accesses to the client's buffers are not modelled, and
    [transfer_overruns] shows that they go too far).  Its results are those of
    the table: the first [creat] brings the layer up; [open] gives the least
    unused descriptor, for a file without a blob; transfers and closes answer 0
    for the numbers of the table; a closed number stays in the table without an
    open blob until it is given out again.  Everything else, every later [creat]
    among it, is handed to the kernel with the same arguments and answered by
    it, and no other system call is made. *)
Theorem myfs_script_refines {L} `{!Spdk L, !SpdkLaws L healthy, !Healthy L} polls fuel (w : world L) hs :
  enough polls fuel → fs w = None → initilized w = false → outstanding (lib w) = [] →
  fd_table w = empty_table → files w = no_files → friendly_script start_layer hs →
  ∃ rs w' k, run_hooks polls fuel hs w = Ok rs w' ∧
    answered (abs_script start_layer hs).2 rs k ∧ sys_of (history (lib w')) = sys_of (history (lib w)) ++ k ∧
    follows (abs_script start_layer hs).1 w'.
Proof.
  intros Hen Hfs Hi Hid Ht Hfl Hfr. assert (wp (run_hooks polls fuel hs) w _) as Hwp by (by apply hooks_ok; [|by apply fresh_follows|]).
  apply wp_Ok in Hwp as (rs & w' & Hrun & k & Hk). by exists rs, w', k.
Qed.

(** ** Numbers outside the table *)

(** The hooks index [files] with any descriptor, [-1] included. *)
Theorem hooks_out_of_range {L} `{!Spdk L} polls fuel (w : world L) fd buf count :
  length (files w) = Z.to_nat MAX_FD_COUNT → (fd < 0 ∨ MAX_FD_COUNT ≤ fd)%Z →
  read polls fuel fd buf count w = Undef ∧ write polls fuel fd buf count w = Undef ∧ close polls fuel fd w = Undef.
Proof.
  intros Hl Hfd. assert (file_at fd w = Undef) as Hat.
  { unfold file_at, bind, gets. case_bool_decide; [done|]. unfold of_option.
    rewrite lookup_ge_None_2; [done|]. rewrite Hl. lia. }
  split_and!; [unfold read|unfold write|unfold close]; unfold bind; by rewrite Hat.
Qed.

(** ** A script on the device *)
Definition sample_script : list hook :=
  [h_close 5; h_creat 511; h_write 3 4096 128; h_creat 511; h_open 0; h_read 3 4096 128; h_close 3; h_read 7 4096 16; h_open 0].

Lemma sample_answers : (abs_script start_layer sample_script).2 =
  [inr (sys_close 5); inl 3; inl 0; inr (sys_creat 511); inl 4; inl 0; inl 0; inr (sys_read 7 4096 16); inl 3]%Z.
Proof. vm_compute. reflexivity. Qed.
Lemma sample_script_friendly : friendly_script start_layer sample_script.
Proof. apply (bool_decide_unpack _). vm_compute. exact I. Qed.

Lemma myfs_script_witness : ∃ rs w' k, run_hooks many_polls many_events sample_script cold_world = Ok rs w' ∧
  answered [inr (sys_close 5); inl 3; inl 0; inr (sys_creat 511); inl 4; inl 0; inl 0; inr (sys_read 7 4096 16); inl 3]%Z rs k ∧
  sys_of (history (lib w')) = k.
Proof.
  destruct (myfs_script_refines many_polls many_events cold_world sample_script device_enough eq_refl eq_refl ltac:(done) eq_refl eq_refl
    sample_script_friendly) as (rs & w' & k & Hrun & Hrs & Hk & _).
  exists rs, w', k. split; [exact Hrun|]. rewrite <-sample_answers. split; [exact Hrs|exact Hk].
Defined.
