(* ===== verification/MyFsLoader.v ===== *)
(** * myfs.c over json_config.c: the program with its configuration loader

    For the file layer, loading the configuration is one call to SPDK that is
    answered by one callback, within a bounded number of polls.  Here that call
    is the loader of json_config.c: [stacked] puts a load on top of a library,
    one event of the loader per poll, and the laws the file layer relies on are
    proved of it from what [JsonConfigSpec] shows of the loader. *)
From stdpp Require Import base gmap list strings.
From S2P Require Import Prelude JsonConfig JsonConfigInv JsonDevice JsonConfigSpec JsonLoader MyFs MyFsKeep MyFsFd MyFsPoll MyFsDevice MyFsSpec MyFsMain.

(** ** The stacked library *)

(** A library that answers in any order, and only what it was asked. *)
Class SpdkOrderly (L : Type) `{!Spdk L, !SpdkLaws L healthy} := {
  orderly_submit l c : outstanding (submit c l) = outstanding l ++ [c];
  orderly_next l e l' : next l = Some (e, l') →
    ∃ pre c post, outstanding l = pre ++ c :: post ∧ healthy c e ∧ outstanding l' = pre ++ post
}.

Inductive loading (E : Type) `{!JsonLib, !JsonLaws, !EventLoop E} :=
| not_loaded
| is_loading (x : load)
| is_loaded (x : load) (H : ended_load x = true).
Arguments not_loaded {E _ _ _}.
Arguments is_loading {E _ _ _} x.
Arguments is_loaded {E _ _ _} x H.

Record stacked (L E : Type) `{!JsonLib, !JsonLaws, !EventLoop E} := Stacked {
  base : L; loader : loading E; env : E; passed : list item (* ghost *) }.
Arguments Stacked {L E _ _ _} base loader env passed.
Arguments base {L E _ _ _} s.
Arguments loader {L E _ _ _} s.
Arguments env {L E _ _ _} s.
Arguments passed {L E _ _ _} s.

(** The configuration is small enough for the polls of myfs.c. *)
Class Quick (E : Type) `{!JsonLib, !JsonLaws, !EventLoop E} : Prop :=
  quick : (8 * (Z.of_nat (load_latency (E := E)) + 1) ≤ POLLER_MAX_TIME)%Z.

Section stacked.
Context {L E : Type} `{!Spdk L, !JsonLib, !JsonLaws, !EventLoop E}.
Abbreviation stack := (stacked L E).
Implicit Types (l : stack) (b : L) (x : load (E := E)).

Definition next_base l : option (MyFs.event * stack) :=
  match next (base l) with
  | Some (e, b) => Some (e, Stacked b (loader l) (env l) (passed l ++ [i_event e]))
  | None => None
  end.

#[export] Instance stacked_spdk : Spdk stack := {|
  submit c l :=
    let h := passed l ++ [i_call c] in
    match c with
    | subsystem_init_json => Stacked (base l) (is_loading (begin_load (env l))) (env l) h
    | _ => Stacked (submit c (base l)) (loader l) (env l) h
    end;
  poll_begin l :=
    Stacked (poll_begin (base l)) (match loader l with is_loading x => is_loading (advance x) | p => p end) (env l)
      (passed l ++ [i_poll]);
  next l :=
    match loader l with
    | is_loading x =>
        match decide (ended_load x = true) with
        | left H => Some (json_done (load_rc x), Stacked (base l) (is_loaded x H) (ld_env (ld x)) (passed l ++ [i_event (json_done (load_rc x))]))
        | right _ => next_base l
        end
    | _ => next_base l
    end;
  plain_call p l :=
    ((plain_call p (base l)).1,
     Stacked (plain_call p (base l)).2 (loader l) (env l) (passed l ++ [i_plain p (plain_call p (base l)).1]));
  alloc_io_channel l := alloc_io_channel (base l);
  create_bs_dev l := create_bs_dev (base l);
  thread_create l := thread_create (base l)
|}.

Context `{!SpdkLaws L healthy}.

(** The load that is under way is one more outstanding call. *)
Definition stacked_outstanding l : list call :=
  outstanding (base l) ++ match loader l with is_loading _ => [subsystem_init_json] | _ => [] end.
Definition stacked_delay l : nat :=
  match loader l with is_loading x => load_delay x | _ => delay (base l) end.

Lemma next_base_one l c : outstanding (base l) = [c] → (∀ x, loader l ≠ is_loading x) →
  match next_base l with
  | Some (e, l') => healthy c e ∧ stacked_outstanding l' = []
  | None => delay (poll_begin (base l)) < delay (base l)
  end.
Proof.
  intros Hc Hnl. pose proof (next_one _ _ Hc) as Hx. unfold next_base. destruct (next (base l)) as [[e b]|]; [|done].
  destruct Hx as [Ha Hb]. split; [done|]. unfold stacked_outstanding. cbn. rewrite Hb.
  destruct (loader l) eqn:Hl; [done| |done]. by destruct (Hnl x).
Qed.

#[export] Instance stacked_laws `{!Quick E} : SpdkLaws stack healthy.
Proof.
  refine {| outstanding := stacked_outstanding; trace := passed; delay := stacked_delay; latency := latency `max` load_latency (E := E) |}.
  - intros l c [Hb Hl]%app_nil. unfold stacked_outstanding.
    destruct (loader l) eqn:Hld; [|done|]; destruct c; cbn; rewrite ?Hld, ?Hb, ?app_nil_r; try done; by apply out_submit.
  - intros l. unfold stacked_outstanding. cbn. rewrite out_poll. by destruct (loader l).
  - intros p l. unfold stacked_outstanding. cbn. by rewrite out_plain.
  - by intros l [].
  - done.
  - intros l e l'. cbn. unfold next_base. destruct (loader l) as [|x|x Hx]; [| |];
      try destruct (decide (ended_load x = true)); try (destruct (next (base l)) as [[e' b]|]; [|done]); by intros [= <- <-].
  - done.
  - intros l [Hb Hl]%app_nil. cbn. unfold next_base. rewrite (next_idle _ Hb). by destruct (loader l).
  - intros l c Hc. unfold stacked_outstanding in Hc. unfold stacked_delay. destruct (loader l) as [|x|x Hx] eqn:Hld.
    + rewrite app_nil_r in Hc. cbn [next poll_begin stacked_spdk loader base]. rewrite Hld. apply next_base_one; [done|]. by rewrite Hld.
    + assert (outstanding (base l) = [] ∧ c = subsystem_init_json) as [Hb ->] by (destruct (outstanding (base l)) as [|? [|]]; by simplify_eq/=).
      cbn [next poll_begin stacked_spdk loader]. rewrite Hld. destruct (decide (ended_load x = true)) as [Hx|Hx].
      * split; [constructor|]. unfold stacked_outstanding. cbn. by rewrite Hb.
      * unfold next_base. rewrite (next_idle _ Hb). apply advance_delay. by destruct (ended_load x).
    + rewrite app_nil_r in Hc. cbn [next poll_begin stacked_spdk loader base]. rewrite Hld. apply next_base_one; [done|]. by rewrite Hld.
  - intros l. unfold stacked_delay. pose proof (delay_latency (base l)).
    destruct (loader l) as [|x|]; [lia| |lia]. pose proof (load_delay_max x). lia.
  - pose proof (latency_short (L := L)). pose proof (quick (E := E)). lia.
Defined.

#[export] Instance stacked_healthy `{!Healthy L} : Healthy stack.
Proof.
  split; cbn; intros.
  - apply thread_ok.
  - apply dev_ok.
  - apply unit_ok.
  - apply channel_ok.
Qed.
End stacked.

(** ** The loader is started by the set-up and by nothing else *)
Section asked.
Context {L E : Type} `{!Spdk L, !SpdkLaws L healthy, !SpdkOrderly L, !JsonLib, !JsonLaws, !EventLoop E}.
Abbreviation world := (MyFs.world (stacked L E)).
Implicit Types (w : world) (f : loc).

(** The library below is never asked for the configuration, and the flag of the
    set-up is only raised by a load. *)
Definition asked w : Prop :=
  subsystem_init_json ∉ outstanding (base (lib w)) ∧ (json_loaded w = true → loader (lib w) ≠ not_loaded).
#[export] Instance asked_inv : LibInv asked.
Proof.
  unfold asked. split.
  - intros w w' -> Hj [Hb Hx]. split; [done|]. by intros ?%Hj%Hx.
  - intros c w [Hb Hj]. cbn [lib with_lib json_loaded]. destruct c; cbn; try done;
      rewrite orderly_submit; (split; [|done]); rewrite elem_of_app, list_elem_of_singleton; by intros [|].
  - intros p w [Hb Hj]. cbn. by rewrite out_plain.
Qed.
Abbreviation kept := (keeps asked).

Lemma keeps_poll_begin : kept (modify (λ w, with_lib (poll_begin (lib w)) w)).
Proof.
  apply keeps_modify. intros w [Hb Hj]. unfold asked. cbn. rewrite out_poll. split; [done|]. intros Hx. specialize (Hj Hx).
  by destruct (loader (lib w)).
Qed.

Lemma next_asked w e (l : stacked L E) : next (lib w) = Some (e, l) → asked w →
  asked (with_lib l w) ∧ ∀ rc, e = json_done rc → loader l ≠ not_loaded.
Proof.
  intros Hn [Hb Hj]. unfold asked. cbn [lib with_lib json_loaded]. cbn in Hn.
  assert (∀ l', next_base (lib w) = Some (e, l') → (subsystem_init_json ∉ outstanding (base l') ∧
    (json_loaded w = true → loader l' ≠ not_loaded)) ∧ ∀ rc, e = json_done rc → loader l' ≠ not_loaded) as Hbase.
  { intros l'. unfold next_base. destruct (next (base (lib w))) as [[e' b]|] eqn:Hnb; [|done]. intros [= -> <-].
    destruct (orderly_next _ _ _ Hnb) as (pre & c & post & Hout & Ha & Hout'). rewrite Hout in Hb. cbn. rewrite Hout'.
    split; [split; [|done]|].
    - rewrite !elem_of_app in *. intros Hi. apply Hb. rewrite elem_of_cons. tauto.
    - intros rc ->. inversion Ha; subst. exfalso. apply Hb. rewrite elem_of_app, elem_of_cons. tauto. }
  destruct (loader (lib w)) as [|x|x Hx]; [by apply Hbase| |by apply Hbase].
  destruct (decide (ended_load x = true)) as [Hx|Hx]; [|by apply Hbase]. by injection Hn as <- <-.
Qed.

Lemma keeps_poll_iter u : kept (poll_iter u).
Proof.
  intros w Hw. unfold poll_iter, bind, gets. destruct (next (lib w)) as [[e l]|] eqn:Hn; [|done].
  destruct (next_asked _ _ _ Hn Hw) as [Hw' Hj]. cbn. assert ((∃ rc, e = json_done rc) ∨ ∀ rc, e ≠ json_done rc) as [(rc & ->)|He] by (destruct e; by eauto).
  - cbn. split; [apply Hw'|]. intros _. by eapply Hj.
  - pose proof (keeps_handle e He _ Hw') as Hh. by destruct (MyFs.handle e _).
Qed.
End asked.
#[export] Hint Resolve keeps_poll_begin keeps_poll_iter : keeps.

Section program.
Context {L E : Type} `{!Spdk L, !SpdkLaws L healthy, !SpdkOrderly L, !Healthy L, !JsonLib, !JsonLaws, !EventLoop E, !Quick E}.
Abbreviation world := (MyFs.world (stacked L E)).
Implicit Types (w : world).


End program.

(** ** The device under its event loop *)
#[export] Instance device_orderly : SpdkOrderly device.
Proof.
  split; [done|]. intros [[|c p] h] e l'; cbn; [done|]. intros [= <- <-]. exists [], c, p. split_and!; [done|apply answer_ok|done].
Defined.
#[export] Instance device_quick : Quick nat.
Proof. unfold Quick. vm_compute. discriminate. Defined.


