(* ===== verification/Nvme.v ===== *)
(** * The NVMe driver as the two example programs use it

    [Nvme] are the calls of the driver, [machine] the memory the programs share
    with it, its state and what was printed.  [NvmeLaws] is a driver that has a
    queue pair and a page whenever it is asked, and controllers that carry out
    every command without an error: reading and writing block 0 of a namespace.
    Mapping a controller's buffer a second time may give the same memory. *)
From stdpp Require Import base gmap list strings.
From S2P Require Import Prelude Bytes.

(** The lines the programs print. *)
Inductive line :=
| env_line (res : Z)
| probe_line (traddr : list Z)
| attach_line
| ns_count_line (num_ns : Z)
| ns_line (nsid gigabytes : Z)
| zmalloc_line
| write_cb_line
| read_cb_line
| io_failed_line
| write_done_line
| read_done_line (text : list Z)
| mmap_line (mmap_io : Z).

(** Controllers, namespaces, queue pairs and addresses are numbers.  Commands
    are for one block at block 0. *)
Class Nvme (L : Type) := {
  get_first_active_ns : Z → Z;
  get_next_active_ns : Z → Z → Z;
  get_ns : Z → Z → option Z;
  get_num_ns : Z → Z;
  ns_get_size : Z → Z;
  alloc_io_qpair : Z → L → option Z * L;
  free_io_qpair : Z → L → L;
  (** address and size of the controller's memory buffer *)
  map_cmb : Z → L → memory → option (Z * Z) * L * memory;
  (** a zeroed page *)
  zmalloc : L → memory → option Z * L * memory;
  ns_cmd_write : Z → Z → Z → L → Z * L;
  ns_cmd_read : Z → Z → Z → L → Z * L;
  (** whether the callback of the command ran *)
  process_completions : Z → L → memory → bool * L * memory
}.

Record machine (L : Type) := Machine { mem : memory; drv : L; out : list line }.
Arguments Machine {L} _ _ _.
Arguments mem {L} _.
Arguments drv {L} _.
Arguments out {L} _.

Definition message : list Z := chars "The test for spdk, 555, 1025, KKK".
Definition PAGE : Z := 0x1000.

Section driver.
Context {L : Type} `{!Nvme L}.
Abbreviation MC := (M (machine L)).

Definition say (x : line) : MC unit := modify (λ s, Machine (mem s) (drv s) (out s ++ [x])).
(** A pointer that is used; a null one is undefined. *)
Definition deref {A} (o : option A) : MC A := λ s, match o with Some a => Ok a s | None => Undef end.

Definition new_qpair (ctrlr : Z) : MC (option Z) := λ s,
  let '(q, l) := alloc_io_qpair ctrlr (drv s) in Ok q (Machine (mem s) l (out s)).
Definition drop_qpair (q : Z) : MC unit := modify (λ s, Machine (mem s) (free_io_qpair q (drv s)) (out s)).
Definition cmb (ctrlr : Z) : MC (option (Z * Z)) := λ s,
  let '(r, l, m) := map_cmb ctrlr (drv s) (mem s) in Ok r (Machine m l (out s)).
Definition page : MC (option Z) := λ s,
  let '(r, l, m) := zmalloc (drv s) (mem s) in Ok r (Machine m l (out s)).
Definition start_write (ns q buf : Z) : MC Z := λ s,
  let '(rc, l) := ns_cmd_write ns q buf (drv s) in Ok rc (Machine (mem s) l (out s)).
Definition start_read (ns q buf : Z) : MC Z := λ s,
  let '(rc, l) := ns_cmd_read ns q buf (drv s) in Ok rc (Machine (mem s) l (out s)).
Definition completions (q : Z) : MC bool := λ s,
  let '(b, l, m) := process_completions q (drv s) (mem s) in Ok b (Machine m l (out s)).

(** Writing bytes, and reading the string at an address. *)
Definition store_bytes (a : Z) (bs : list Z) : MC unit := λ s,
  match write_bytes a bs (mem s) with Some m => Ok tt (Machine m (drv s) (out s)) | None => Undef end.
Fixpoint load_string (fuel : nat) (a : Z) : MC (list Z) :=
  match fuel with
  | 0 => no_fuel
  | S fuel =>
      let* s := gets mem in
      match s !! a with
      | Some (Some b) =>
          if bool_decide (b = 0)%Z then ret []
          else let* bs := load_string fuel (a + 1) in ret (b :: bs)
      | _ => undef
      end
  end.

(** [while (!finished)]: the callback prints and sets the flag. *)
Definition wait_iter (q : Z) (cb : line) (_ : unit) : MC (unit + unit) :=
  let* b := completions q in
  if b : bool then say cb ;; ret (inr tt) else ret (inl tt).
Definition wait (fuel : nat) (q : Z) (cb : line) : MC unit := loop fuel (wait_iter q cb) tt.
End driver.

(** ** Controllers that carry out their commands *)
Inductive request := Write_req (ns buf : Z) | Read_req (ns buf : Z).

Definition region (m : memory) (a n : Z) : Prop := ∀ i : nat, (Z.of_nat i < n)%Z → is_Some (m !! (a + Z.of_nat i)%Z).

(** What a command does to the blocks and to memory. *)
Definition effect (sector : nat) (r : request) (d : Z → list Z) (m : memory) (d' : Z → list Z) (m' : memory) : Prop :=
  match r with
  | Write_req ns buf =>
      m' = m ∧ (∀ ns', ns' ≠ ns → d' ns' = d ns') ∧
      ∀ i b, i < sector → m !! (buf + Z.of_nat i)%Z = Some (Some b) → d' ns !! i = Some b
  | Read_req ns buf =>
      d' = d ∧ (region m buf (Z.of_nat sector) → ∀ i b, d ns !! i = Some b → m' !! (buf + Z.of_nat i)%Z = Some (Some b))
  end.

Class NvmeLaws (L : Type) `{!Nvme L} := {
  sector : nat;
  disk : L → Z → list Z;
  pending : L → Z → option request;
  delay : L → Z → nat;
  latency : nat;
  sector_range : 512 ≤ sector ∧ (Z.of_nat sector ≤ PAGE)%Z;
  alloc_ok c l : ∃ q l', alloc_io_qpair c l = (Some q, l') ∧ pending l' q = None ∧ disk l' = disk l;
  free_ok q l : disk (free_io_qpair q l) = disk l;
  cmb_ok c l m : ∃ r l' m', map_cmb c l m = (r, l', m') ∧ pending l' = pending l ∧ disk l' = disk l ∧
    match r with Some (a, sz) => (PAGE ≤ sz)%Z ∧ region m' a sz | None => True end;
  zmalloc_ok l m : ∃ a l' m', zmalloc l m = (Some a, l', m') ∧ pending l' = pending l ∧ disk l' = disk l ∧ region m' a PAGE;
  write_ok ns q buf l : pending l q = None →
    ∃ l', ns_cmd_write ns q buf l = (0%Z, l') ∧ pending l' q = Some (Write_req ns buf) ∧ disk l' = disk l;
  read_ok ns q buf l : pending l q = None →
    ∃ l', ns_cmd_read ns q buf l = (0%Z, l') ∧ pending l' q = Some (Read_req ns buf) ∧ disk l' = disk l;
  process_ok q l m r : pending l q = Some r →
    ∃ b l' m', process_completions q l m = (b, l', m') ∧
      if b : bool then effect sector r (disk l) m (disk l') m'
      else m' = m ∧ disk l' = disk l ∧ pending l' q = Some r ∧ delay l' q < delay l q;
  delay_latency l q : delay l q ≤ latency
}.

Section laws.
Context {L : Type} `{!Nvme L, !NvmeLaws L}.
Abbreviation machine := (machine L).
Implicit Types (s : machine) (m : memory) (q ns buf : Z).

Lemma wp_say x s (Q : unit → machine → Prop) : Q tt (Machine (mem s) (drv s) (out s ++ [x])) → wp (say x) s Q.
Proof. done. Qed.

Lemma wp_new_qpair c s (Q : option Z → machine → Prop) :
  (∀ q l, pending l q = None → disk l = disk (drv s) → Q (Some q) (Machine (mem s) l (out s))) → wp (new_qpair c) s Q.
Proof. intros HQ. destruct (alloc_ok c (drv s)) as (q & l & Ha & Hp & Hd). unfold wp, new_qpair. rewrite Ha. by apply HQ. Qed.

Lemma wp_wait fuel q cb s r :
  pending (drv s) q = Some r → latency < fuel →
  wp (wait fuel q cb) s (λ _ s', effect sector r (disk (drv s)) (mem s) (disk (drv s')) (mem s') ∧ out s' = out s ++ [cb]).
Proof.
  intros Hp Hf. pose proof (delay_latency (drv s) q) as Hd. assert (delay (drv s) q < fuel) as Hlt by lia. clear Hf Hd.
  revert s Hp Hlt. induction fuel as [|fuel IH]; intros s Hp Hlt; [lia|]. apply wp_loop, wp_bind.
  destruct (process_ok q (drv s) (mem s) r Hp) as (b & l & m & Hrun & Hb).
  eapply wp_pure_run_to; [unfold completions; rewrite Hrun; reflexivity|]. destruct b.
  - apply wp_bind, wp_say, wp_ret. done.
  - destruct Hb as (-> & Hd & Hp' & Hlt'). apply wp_ret.
    eapply wp_mono; [apply (IH (Machine (mem s) l (out s))); simpl; [done|lia]|].
    intros [] s' [He Ho]. simpl in *. by rewrite Hd in He.
Qed.

(** A buffer for one block: the controller's memory, or a page. *)
Lemma wp_buffer c s q (Q : Z → machine → Prop) :
  pending (drv s) q = None →
  (∀ a s', pending (drv s') q = None → disk (drv s') = disk (drv s) → out s' = out s → region (mem s') a PAGE → Q a s') →
  wp (let* r := cmb c in let* p := match r with Some (a, _) => ret (Some a) | None => page end in deref p) s Q.
Proof.
  intros Hq HQ. destruct (cmb_ok c (drv s) (mem s)) as (r & l & m & Hrun & Hp & Hd & Hr). apply wp_bind.
  eapply wp_pure_run_to; [unfold cmb; rewrite Hrun; reflexivity|]. apply wp_bind. destruct r as [[a sz]|].
  - apply wp_ret. destruct Hr as [Hsz Hr]. apply HQ; simpl; [by rewrite Hp|done|done|]. intros i Hi. apply Hr. lia.
  - destruct (zmalloc_ok l m) as (a & l' & m' & Hz & Hp' & Hd' & Hr').
    eapply wp_pure_run_to; [unfold page; simpl; rewrite Hz; reflexivity|]. apply HQ; simpl; [by rewrite Hp', Hp|by rewrite Hd', Hd|done|done].
Qed.

Lemma wp_load_string fuel a (text : list Z) s (Q : list Z → machine → Prop) :
  (∀ i b, (text ++ [0%Z]) !! i = Some b → mem s !! (a + Z.of_nat i)%Z = Some (Some b)) →
  Forall (λ b, b ≠ 0%Z) text → length text < fuel → Q text s → wp (load_string fuel a) s Q.
Proof.
  revert fuel a Q. induction text as [|b text IH]; intros [|fuel] a Q Hm Hnz Hf HQ; simpl in Hf; [lia| |lia|].
  - apply wp_bind, wp_gets. pose proof (Hm 0 0%Z eq_refl) as H0. rewrite Z.add_0_r in H0. rewrite H0. by apply wp_ret.
  - apply wp_bind, wp_gets. pose proof (Hm 0 b eq_refl) as H0. rewrite Z.add_0_r in H0. rewrite H0.
    apply Forall_cons in Hnz as [Hb Hnz]. rewrite bool_decide_eq_false_2 by done. apply wp_bind.
    apply IH; [|done|lia|by apply wp_ret]. intros i c Hi.
    replace (a + 1 + Z.of_nat i)%Z with (a + Z.of_nat (S i))%Z by lia. by apply Hm.
Qed.

(** Writing within a region. *)
Lemma wp_store_bytes a n bs s (Q : unit → machine → Prop) :
  region (mem s) a n → (Z.of_nat (length bs) ≤ n)%Z →
  (∀ m, region m a n → (∀ i b, bs !! i = Some b → m !! (a + Z.of_nat i)%Z = Some (Some b)) → Q tt (Machine m (drv s) (out s))) →
  wp (store_bytes a bs) s Q.
Proof.
  intros Hr Hlen HQ. destruct (write_bytes_Some a bs (mem s)) as [m Hm]; [intros i Hi; apply Hr; lia|].
  unfold wp, store_bytes. rewrite Hm. apply HQ.
  - intros i Hi. by apply (write_bytes_dom _ _ _ _ _ Hm), Hr.
  - intros i b Hb. by eapply write_bytes_same.
Qed.

(** A block that begins with a string. *)
Definition begins (bs text : list Z) : Prop := ∀ i b, (text ++ [0%Z]) !! i = Some b → bs !! i = Some b.
End laws.
