(* ===== verification/NvmeDevice.v ===== *)
(** * A controller that obeys the laws of [NvmeLaws]

    Two namespaces, no memory buffer of its own, blocks of 512 bytes; every
    command is completed by the next look at its queue pair. *)
From stdpp Require Import base gmap list strings.
From S2P Require Import Prelude Bytes Nvme.

Definition SECTOR : nat := 512.

(** Block 0 of every namespace, the command of every queue pair, the next queue
    pair and the next free address. *)
Record controller := Controller {
  blocks : Z → list Z;
  commands : Z → option request;
  next_qpair : Z;
  brk : Z
}.

Definition set_command (q : Z) (r : option request) (l : controller) : controller :=
  Controller (blocks l) (λ q', if bool_decide (q' = q) then r else commands l q') (next_qpair l) (brk l).
Definition set_block (ns : Z) (bs : list Z) (l : controller) : controller :=
  Controller (λ ns', if bool_decide (ns' = ns) then bs else blocks l ns') (commands l) (next_qpair l) (brk l).

Definition fill (a : Z) (n : nat) (m : memory) : memory :=
  foldr (λ i m, <[(a + Z.of_nat i)%Z := Some 0%Z]> m) m (seq 0 n).
Definition fetch (a : Z) (m : memory) : list Z :=
  (λ i : nat, match m !! (a + Z.of_nat i)%Z with Some (Some b) => b | _ => 0%Z end) <$> seq 0 SECTOR.

Definition complete (q : Z) (l : controller) (m : memory) : bool * controller * memory :=
  let l' := set_command q None l in
  match commands l q with
  | None => (false, l, m)
  | Some (Write_req ns buf) => (true, set_block ns (fetch buf m) l', m)
  | Some (Read_req ns buf) => (true, l', default m (write_bytes buf (take SECTOR (blocks l ns)) m))
  end.

#[export] Instance controller_nvme : Nvme controller := {|
  get_first_active_ns _ := 1%Z;
  get_next_active_ns _ nsid := if bool_decide (nsid = 1)%Z then 2%Z else 0%Z;
  get_ns ctrlr nsid := if bool_decide (nsid = 0)%Z then None else Some (10 * ctrlr + nsid)%Z;
  get_num_ns _ := 2%Z;
  ns_get_size _ := (20 * 2 ^ 30)%Z;
  alloc_io_qpair _ l :=
    let q := next_qpair l in
    (Some q, set_command q None (Controller (blocks l) (commands l) (q + 1) (brk l)));
  free_io_qpair _ l := l;
  map_cmb _ l m := (None, l, m);
  zmalloc l m := (Some (brk l), Controller (blocks l) (commands l) (next_qpair l) (brk l + PAGE), fill (brk l) (Z.to_nat PAGE) m);
  ns_cmd_write ns q buf l := (0%Z, set_command q (Some (Write_req ns buf)) l);
  ns_cmd_read ns q buf l := (0%Z, set_command q (Some (Read_req ns buf)) l);
  process_completions := complete
|}.

Lemma fill_region a n m : region (fill a n m) a (Z.of_nat n).
Proof.
  intros i Hi. unfold fill. assert (i ∈ seq 0 n) as Hin by (apply elem_of_seq; lia). revert Hin.
  generalize (seq 0 n). intros l. induction l as [|j l IH]; simpl; intros Hin; [set_solver|].
  destruct (decide (i = j)) as [->|Hij]; [by rewrite lookup_insert_eq|].
  rewrite lookup_insert_ne by lia. apply IH. set_solver.
Qed.

Lemma fetch_lookup a m i b : i < SECTOR → m !! (a + Z.of_nat i)%Z = Some (Some b) → fetch a m !! i = Some b.
Proof. intros Hi Hm. unfold fetch. rewrite list_lookup_fmap, lookup_seq_lt by done. simpl. by rewrite Hm. Qed.

Lemma set_command_same q r l : commands (set_command q r l) q = r.
Proof. simpl. by rewrite bool_decide_eq_true_2. Qed.

Lemma fetch_length a m : length (fetch a m) = SECTOR.
Proof. unfold fetch. by rewrite length_fmap, length_seq. Qed.

Lemma complete_ok q l m r :
  commands l q = Some r →
  ∃ l' m', complete q l m = (true, l', m') ∧
    effect SECTOR r (λ ns, take SECTOR (blocks l ns)) m (λ ns, take SECTOR (blocks l' ns)) m'.
Proof.
  intros Hr. unfold complete. rewrite Hr. destruct r as [ns buf|ns buf]; do 2 eexists; (split; [done|]); simpl.
  - split; [done|]. split.
    + intros ns' Hns. by rewrite bool_decide_eq_false_2.
    + intros i b Hi Hb. rewrite bool_decide_eq_true_2 by done. rewrite take_ge by (rewrite fetch_length; lia).
      by apply fetch_lookup.
  - split; [done|]. intros Hreg i b Hb.
    destruct (write_bytes_Some buf (take SECTOR (blocks l ns)) m) as [m' Hm'].
    { intros j Hj. apply Hreg. rewrite length_take in Hj. lia. }
    rewrite Hm'. simpl. by eapply write_bytes_same.
Qed.

#[export] Instance controller_laws : NvmeLaws controller.
Proof.
  refine {| sector := SECTOR; disk l ns := take SECTOR (blocks l ns); pending l := commands l; delay _ _ := 0; latency := 0 |}.
  - split; [done|by apply (bool_decide_unpack _)].
  - intros c l. do 2 eexists. split; [done|]. split; [apply set_command_same|done].
  - done.
  - intros c l m. by exists None, l, m.
  - intros l m. do 3 eexists. split; [done|]. split_and!; [done|done|]. apply (fill_region _ (Z.to_nat PAGE)).
  - intros ns q buf l _. eexists. split; [done|]. split; [apply set_command_same|done].
  - intros ns q buf l _. eexists. split; [done|]. split; [apply set_command_same|done].
  - intros q l m r Hr. destruct (complete_ok q l m r Hr) as (l' & m' & Hrun & He). by exists true, l', m'.
  - done.
Defined.

Definition start_machine : machine controller := Machine ∅ (Controller (λ _, replicate SECTOR 0%Z) (λ _, None) 1 0x10000) [].
