(* ===== verification/KvMain.v ===== *)
(** * KV_Store/kv_main.cpp: attaching controllers, one write and one read

    The globals of the program around the [machine] of the driver.  The devices
    that [spdk_nvme_probe] finds are an argument of [main]; memory for the list
    entries is always available. *)
From stdpp Require Import base gmap list strings.
From S2P Require Import Prelude Bytes Nvme.

Definition NVME_CONTROLLER_NAME_LENGTH : nat := 5112.

Record ctrlr_entry := CtrlrEntry { e_ctrlr : Z; e_qpair : option Z; e_name : list Z }.
(** [n_entry] is the position of the controller's entry in its list. *)
Record namespace_entry := NsEntry { n_ns : Z; n_entry : nat; n_nsid : Z }.

Record globals (L : Type) := Globals {
  gctrlr : option Z;
  gns : option Z;
  gqpair : option Z;
  g_ctrlr : list ctrlr_entry;
  g_ns : list namespace_entry;
  hw : machine L
}.
Arguments Globals {L} _ _ _ _ _ _.
Arguments gctrlr {L} _.
Arguments gns {L} _.
Arguments gqpair {L} _.
Arguments g_ctrlr {L} _.
Arguments g_ns {L} _.
Arguments hw {L} _.

Section program.
Context {L : Type} `{!Nvme L}.
Abbreviation G := (M (globals L)).

Definition with_hw (m : machine L) (g : globals L) : globals L :=
  Globals (gctrlr g) (gns g) (gqpair g) (g_ctrlr g) (g_ns g) m.
Definition lift {A} (c : M (machine L) A) : G A := λ g,
  match c (hw g) with
  | Ok a m => Ok a (with_hw m g)
  | Throw e m => Throw e (with_hw m g)
  | Undef => Undef
  | NoFuel => NoFuel
  end.

Definition nvme_probe_cb (traddr : list Z) : G bool := lift (say (probe_line traddr)) ;; ret true.

(** The [while] over the active namespaces; a null namespace is not skipped. *)
Definition attach_iter (ctrlr : Z) (entry : nat) (nsid : Z) : G (Z + unit) :=
  if bool_decide (nsid = 0)%Z then ret (inr tt)
  else
    match get_ns ctrlr nsid with
    | None => ret (inl nsid)
    | Some ns =>
        modify (λ g, Globals (gctrlr g) (gns g) (gqpair g) (g_ctrlr g) (g_ns g ++ [NsEntry ns entry nsid]) (hw g)) ;;
        ret (inl (get_next_active_ns ctrlr nsid))
    end.
Definition nvme_attach_cb (fuel : nat) (traddr : list Z) (ctrlr : Z) : G unit :=
  let nsid := get_first_active_ns ctrlr in
  modify (λ g, Globals (Some ctrlr) (get_ns ctrlr nsid) (gqpair g) (g_ctrlr g) (g_ns g) (hw g)) ;;
  let* qpair := lift (new_qpair ctrlr) in
  let* entry := gets (λ g, length (g_ctrlr g)) in
  modify (λ g, Globals (gctrlr g) (gns g) (gqpair g)
    (g_ctrlr g ++ [CtrlrEntry ctrlr qpair (take (NVME_CONTROLLER_NAME_LENGTH - 1) traddr)]) (g_ns g) (hw g)) ;;
  loop fuel (attach_iter ctrlr entry) nsid.

(** [spdk_nvme_probe]: the probe callbacks, then the attach callbacks of the
    devices found. *)
Fixpoint spdk_nvme_probe (fuel : nat) (devs : list (list Z * Z)) : G unit :=
  match devs with
  | [] => ret tt
  | (traddr, ctrlr) :: devs => nvme_attach_cb fuel traddr ctrlr ;; spdk_nvme_probe fuel devs
  end.
Fixpoint probe_all (devs : list (list Z * Z)) : G unit :=
  match devs with
  | [] => ret tt
  | (traddr, _) :: devs => let* _ := nvme_probe_cb traddr in probe_all devs
  end.

Definition io_failed {A} : M (machine L) A := say io_failed_line ;; throw "exit".

(** A buffer that stays null is used; the return code of the command is
    checked, its completion status is not. *)
Definition nvme_opera_read (fuel : nat) (ctrlr ns : Z) : M (machine L) Z :=
  let* qpair := new_qpair ctrlr in
  match qpair with
  | None => ret (-1)%Z
  | Some q =>
      let* rmem := (let* r := cmb ctrlr in
                    let* p := match r with Some (a, _) => ret (Some a) | None => page end in deref p) in
      let* rc := start_read ns q rmem in
      if bool_decide (rc ≠ 0)%Z then io_failed
      else
        wait fuel q read_cb_line ;;
        drop_qpair q ;;
        let* text := load_string fuel rmem in
        say (read_done_line text) ;;
        ret 0%Z
  end.

(** The buffer of [main], its size, and [mmap_io]. *)
Definition main_buffer (ctrlr : Z) : M (machine L) (option Z * Z * Z) :=
  let* r := cmb ctrlr in
  match r with
  | Some (a, sz) => if bool_decide (sz = 0)%Z then
      say zmalloc_line ;; let* p := page in ret (p, PAGE, 0%Z)
      else ret (Some a, sz, 1%Z)
  | None => say zmalloc_line ;; let* p := page in ret (p, PAGE, 0%Z)
  end.

Definition main_io (fuel : nat) (ctrlr ns q buf sz : Z) : M (machine L) unit :=
  store_bytes buf (replicate (Z.to_nat sz) 0%Z) ;;
  store_bytes buf (message ++ [0%Z]) ;;
  let* rc := start_write ns q buf in
  if bool_decide (rc ≠ 0)%Z then io_failed
  else
    wait fuel q write_cb_line ;;
    drop_qpair q ;;
    let* _ := nvme_opera_read fuel ctrlr ns in
    ret tt.

Definition main (fuel : nat) (devs : list (list Z * Z)) : G Z :=
  probe_all devs ;;
  spdk_nvme_probe fuel devs ;;
  let* c := gets gctrlr in
  let* ctrlr := lift (deref c) in
  let* qpair := lift (new_qpair ctrlr) in
  modify (λ g, Globals (gctrlr g) (gns g) qpair (g_ctrlr g) (g_ns g) (hw g)) ;;
  match qpair with
  | None => ret (-1)%Z
  | Some q =>
      let* r := lift (main_buffer ctrlr) in
      let '(buf, sz, mmap_io) := r in
      match buf with
      | None => ret (-1)%Z
      | Some buf =>
          let* n := gets gns in
          let* ns := lift (deref n) in
          lift (main_io fuel ctrlr ns q buf sz) ;;
          lift (say (mmap_line mmap_io)) ;;
          ret 0%Z
      end
  end.
End program.
