(* ===== verification/KvMainSpec.v ===== *)
(** * kv_main.cpp: what attaching and the program do

    Attaching a controller lists its active namespaces, or never ends; with a
    controller that answers, the program prints the message it wrote. *)
From stdpp Require Import base gmap list strings.
From S2P Require Import Prelude Bytes Nvme NvmeDevice KvMain.

(** The active namespaces of a controller from [nsid] on. *)
Inductive active `{!Nvme L} (c : Z) : Z → list (Z * Z) → Prop :=
| active_end : active c 0 []
| active_ns nsid ns ids :
    nsid ≠ 0%Z → get_ns c nsid = Some ns → active c (get_next_active_ns c nsid) ids →
    active c nsid ((nsid, ns) :: ids).

(** An active namespace that the driver does not give out is reached. *)
Inductive stuck `{!Nvme L} (c : Z) : Z → Prop :=
| stuck_here nsid : nsid ≠ 0%Z → get_ns c nsid = None → stuck c nsid
| stuck_later nsid ns : nsid ≠ 0%Z → get_ns c nsid = Some ns → stuck c (get_next_active_ns c nsid) → stuck c nsid.

Section attach.
Context {L : Type} `{!Nvme L}.
Implicit Types (g : globals L) (c nsid : Z).

Definition ns_entries (entry : nat) (ids : list (Z * Z)) : list namespace_entry :=
  (λ '(nsid, ns), NsEntry ns entry nsid) <$> ids.

Lemma attach_loop fuel c entry nsid ids g :
  active c nsid ids → length ids < fuel →
  loop fuel (attach_iter c entry) nsid g =
    Ok tt (Globals (gctrlr g) (gns g) (gqpair g) (g_ctrlr g) (g_ns g ++ ns_entries entry ids) (hw g)).
Proof.
  intros Ha. revert fuel g. induction Ha as [|nsid ns ids Hn Hns Ha IH]; intros [|fuel] g Hf; simpl in Hf; [lia| |lia|].
  - cbn [loop]. unfold bind, attach_iter. rewrite bool_decide_eq_true_2 by done. unfold ret, ns_entries.
    rewrite fmap_nil, app_nil_r. by destruct g.
  - cbn [loop]. unfold bind at 1. unfold attach_iter at 1. rewrite bool_decide_eq_false_2, Hns by done.
    unfold bind at 1. cbn [modify ret]. rewrite IH by lia. cbn. by rewrite <-app_assoc.
Qed.

Lemma attach_stuck fuel c entry nsid g : stuck c nsid → loop fuel (attach_iter c entry) nsid g = NoFuel.
Proof.
  intros Hs. revert fuel g. induction Hs as [nsid Hn Hns|nsid ns Hn Hns Hs IH]; intros fuel g.
  - induction fuel as [|fuel IHf]; [done|]. cbn [loop]. unfold bind at 1. unfold attach_iter at 1.
    rewrite bool_decide_eq_false_2, Hns by done. exact IHf.
  - destruct fuel as [|fuel]; [done|]. cbn [loop]. unfold bind at 1. unfold attach_iter at 1.
    rewrite bool_decide_eq_false_2, Hns by done. unfold bind at 1. cbn [modify ret]. apply IH.
Qed.

(** The globals after a controller was attached; [q] and [l] are what the
    driver returned for its queue pair. *)
Definition attached g (traddr : list Z) c (ids : list (Z * Z)) (q : option Z) (l : L) : globals L :=
  Globals (Some c) (get_ns c (get_first_active_ns c)) (gqpair g)
    (g_ctrlr g ++ [CtrlrEntry c q (take (NVME_CONTROLLER_NAME_LENGTH - 1) traddr)])
    (g_ns g ++ ns_entries (length (g_ctrlr g)) ids) (Machine (mem (hw g)) l (out (hw g))).

Lemma attach_run fuel traddr c g :
  nvme_attach_cb fuel traddr c g =
  loop fuel (attach_iter c (length (g_ctrlr g))) (get_first_active_ns c)
    (let '(q, l) := alloc_io_qpair c (drv (hw g)) in attached g traddr c [] q l).
Proof.
  unfold nvme_attach_cb, bind, modify, gets, lift, new_qpair, attached. simpl.
  destruct (alloc_io_qpair c (drv (hw g))) as [q l]. simpl. by rewrite app_nil_r.
Qed.

Lemma attach_ok fuel traddr c ids g q l :
  active c (get_first_active_ns c) ids → length ids < fuel → alloc_io_qpair c (drv (hw g)) = (q, l) →
  nvme_attach_cb fuel traddr c g = Ok tt (attached g traddr c ids q l).
Proof.
  intros Ha Hf Hq. rewrite attach_run, Hq, (attach_loop _ _ _ _ ids) by done. cbn. by rewrite app_nil_r.
Qed.

(** Attaching a controller enters it at the end of the controller list, and
    its active namespaces, in the order of the driver, at the end of the
    namespace list, each pointing at that entry; the callback ends exactly
    when the driver gives out every active namespace it names, and otherwise
    never ends, however long it runs. *)
Theorem nvme_attach_spec traddr c g :
  (∀ ids q l, active c (get_first_active_ns c) ids → alloc_io_qpair c (drv (hw g)) = (q, l) →
     ∀ fuel, length ids < fuel →
     ∃ g', nvme_attach_cb fuel traddr c g = Ok tt g' ∧ gctrlr g' = Some c ∧
       g_ctrlr g' = g_ctrlr g ++ [CtrlrEntry c q (take (NVME_CONTROLLER_NAME_LENGTH - 1) traddr)] ∧
       g_ns g' = g_ns g ++ ns_entries (length (g_ctrlr g)) ids ∧ gns g' = get_ns c (get_first_active_ns c)) ∧
  (stuck c (get_first_active_ns c) → ∀ fuel, nvme_attach_cb fuel traddr c g = NoFuel).
Proof.
  split.
  - intros ids q l Ha Hq fuel Hf. exists (attached g traddr c ids q l).
    split; [by apply attach_ok|done].
  - intros Hs fuel. rewrite attach_run. by apply attach_stuck.
Qed.
End attach.

(** ** One write and one read *)
Section io.
Context {L : Type} `{!Nvme L, !NvmeLaws L}.
Implicit Types (g : globals L) (s : machine L) (c ns q : Z) (text : list Z).

Lemma wp_lift {A} (m : M (machine L) A) g (Q : A → globals L → Prop) :
  wp m (hw g) (λ a s, Q a (with_hw s g)) → wp (lift m) g Q.
Proof. unfold wp, lift. by destruct (m (hw g)). Qed.

Lemma begins_sector s ns text i b :
  begins (disk (drv s) ns) text → (text ++ [0%Z]) !! i = Some b → disk (drv s) ns !! i = Some b.
Proof. intros H. apply H. Qed.

(** Reading prints the string at the start of the block. *)
Lemma wp_read_text fuel c ns text s :
  begins (disk (drv s) ns) text → Forall (λ b, b ≠ 0%Z) text → latency < fuel → length text < fuel →
  wp (nvme_opera_read fuel c ns) s (λ r s', r = 0%Z ∧ disk (drv s') = disk (drv s) ∧
    out s' = out s ++ [read_cb_line; read_done_line text]).
Proof.
  intros Hb Hnz Hf Hl. unfold nvme_opera_read. apply wp_bind, wp_new_qpair. intros q l Hq Hd.
  apply wp_bind, (wp_buffer _ _ q); [done|]. intros a s1 Hq1 Hd1 Ho1 Hr1. simpl in Hd1, Ho1.
  destruct (read_ok ns q a (drv s1) Hq1) as (l2 & Hrun & Hp2 & Hd2). apply wp_bind.
  eapply wp_pure_run_to; [unfold start_read; rewrite Hrun; reflexivity|]. rewrite bool_decide_eq_false_2 by naive_solver.
  apply wp_bind. eapply wp_mono; [by eapply (wp_wait fuel q read_cb_line (Machine (mem s1) l2 (out s1)))|].
  intros [] s3 [[He1 He2] Ho3]. simpl in He1, He2, Ho3. pose proof sector_range as [_ Hsec].
  apply wp_bind, wp_modify, wp_bind. apply (wp_load_string _ _ text); [|done|done|].
  - simpl. intros i b Hi. apply He2; [intros j Hj; apply Hr1; lia|]. rewrite Hd2, Hd1, Hd. by apply Hb.
  - apply wp_bind, wp_say, wp_ret. simpl. split; [done|]. split; [by rewrite free_ok, He1, Hd2, Hd1, Hd|].
    by rewrite Ho3, Ho1, <-app_assoc.
Qed.

(** Writing a buffer that begins with a string. *)
Lemma wp_write_text {A} fuel ns q a cb text s (k : M (machine L) A) (Q : A → machine L → Prop) :
  pending (drv s) q = Some (Write_req ns a) → latency < fuel → length text < sector →
  (∀ i b, (text ++ [0%Z]) !! i = Some b → mem s !! (a + Z.of_nat i)%Z = Some (Some b)) →
  (∀ s', begins (disk (drv s') ns) text → (∀ ns', ns' ≠ ns → disk (drv s') ns' = disk (drv s) ns') →
     out s' = out s ++ [cb] → wp k s' Q) →
  wp (wait fuel q cb ;; drop_qpair q ;; k) s Q.
Proof.
  intros Hp Hf Hl Hm HQ. apply wp_bind. eapply wp_mono; [by eapply wp_wait|].
  intros [] s' [(Hm' & Hoth & He) Ho]. apply wp_bind, wp_modify, HQ; simpl; [|by rewrite free_ok|done].
  rewrite free_ok. intros i b Hi. apply He; [|by apply Hm].
  apply lookup_lt_Some in Hi. rewrite length_app in Hi. simpl in Hi. lia.
Qed.

Lemma message_nonzero : Forall (λ b, b ≠ 0%Z) message.
Proof. apply (bool_decide_unpack _). by vm_compute. Qed.

Lemma wp_main_buffer c s q :
  pending (drv s) q = None →
  wp (main_buffer c) s (λ '(p, sz, mm) s', ∃ a, p = Some a ∧ (PAGE ≤ sz)%Z ∧ region (mem s') a sz ∧
    pending (drv s') q = None ∧ disk (drv s') = disk (drv s) ∧
    ((mm = 1%Z ∧ out s' = out s) ∨ (mm = 0%Z ∧ out s' = out s ++ [zmalloc_line]))).
Proof.
  intros Hq. destruct (cmb_ok c (drv s) (mem s)) as (r & l & m & Hrun & Hp & Hd & Hr). apply wp_bind.
  eapply wp_pure_run_to; [unfold cmb; rewrite Hrun; reflexivity|]. destruct r as [[a sz]|].
  - destruct Hr as [Hsz Hr]. rewrite bool_decide_eq_false_2 by (unfold PAGE in Hsz; lia). apply wp_ret.
    exists a. split_and!; [done|done|done|by simpl; rewrite Hp|done|by left].
  - apply wp_bind, wp_say, wp_bind. simpl. destruct (zmalloc_ok l m) as (a & l' & m' & Hz & Hp' & Hd' & Hr').
    eapply wp_pure_run_to; [unfold page; simpl; rewrite Hz; reflexivity|]. apply wp_ret.
    exists a. split_and!; [done|done|done|by simpl; rewrite Hp', Hp|by simpl; rewrite Hd', Hd|by right].
Qed.

Lemma wp_main_io fuel c ns q buf sz s :
  pending (drv s) q = None → region (mem s) buf sz → (PAGE ≤ sz)%Z → latency < fuel → length message < fuel →
  wp (main_io fuel c ns q buf sz) s (λ _ s', begins (disk (drv s') ns) message ∧
    (∀ ns', ns' ≠ ns → disk (drv s') ns' = disk (drv s) ns') ∧
    out s' = out s ++ [write_cb_line; read_cb_line; read_done_line message]).
Proof.
  intros Hq Hr Hsz Hf Hl. unfold main_io. assert (length message = 33) as Hlen by done.
  pose proof sector_range as [Hsec _]. unfold PAGE in Hsz.
  apply wp_bind, (wp_store_bytes _ sz); [done|rewrite length_replicate; lia|]. intros m1 Hr1 _.
  apply wp_bind, (wp_store_bytes _ sz); [done|rewrite length_app, Hlen; simpl; lia|]. intros m2 Hr2 Hm2.
  apply wp_bind. destruct (write_ok ns q buf (drv s) Hq) as (l & Hrun & Hp & Hd).
  eapply wp_pure_run_to; [unfold start_write; simpl; rewrite Hrun; reflexivity|]. rewrite bool_decide_eq_false_2 by naive_solver.
  eapply (wp_write_text _ ns q buf _ message); [exact Hp|done|rewrite Hlen; lia|exact Hm2|]. simpl.
  intros s3 Hb Hoth Ho. apply wp_bind. eapply wp_mono; [by apply (wp_read_text _ _ _ message); [|apply message_nonzero|..]|].
  intros r s4 (_ & Hd4 & Ho4). apply wp_ret. rewrite Hd4. split; [done|]. split.
  - intros ns' Hns. by rewrite Hoth, Hd.
  - by rewrite Ho4, Ho, <-app_assoc.
Qed.
End io.

(** ** The program *)
Section program.
Context {L : Type} `{!Nvme L, !NvmeLaws L}.
Implicit Types (g : globals L) (devs : list (list Z * Z)).

(** Every device found has namespaces that the driver gives out. *)
Definition attachable (fuel : nat) devs : Prop :=
  Forall (λ d, ∃ ids, active d.2 (get_first_active_ns d.2) ids ∧ length ids < fuel) devs.

Lemma wp_probe_all devs g :
  wp (probe_all devs) g (λ _ g', g' = with_hw (Machine (mem (hw g)) (drv (hw g)) (out (hw g) ++ (probe_line <$> devs.*1))) g).
Proof.
  revert g. induction devs as [|[traddr c] devs IH]; intros g.
  - apply wp_ret. simpl. rewrite app_nil_r. by destruct g as [? ? ? ? ? []].
  - apply wp_bind, wp_bind, wp_lift, wp_say, wp_ret. eapply wp_mono; [apply IH|]. intros [] g' ->. simpl.
    by rewrite <-app_assoc.
Qed.

Lemma wp_probe fuel devs g :
  attachable fuel devs →
  wp (spdk_nvme_probe fuel devs) g (λ _ g',
    gctrlr g' = (if last devs is Some (_, c) then Some c else gctrlr g) ∧
    gns g' = (if last devs is Some (_, c) then get_ns c (get_first_active_ns c) else gns g) ∧
    e_ctrlr <$> g_ctrlr g' = (e_ctrlr <$> g_ctrlr g) ++ devs.*2 ∧
    disk (drv (hw g')) = disk (drv (hw g)) ∧ out (hw g') = out (hw g)).
Proof.
  revert g. induction devs as [|[traddr c] devs IH]; intros g Ha.
  - apply wp_ret. simpl. by rewrite app_nil_r.
  - apply Forall_cons in Ha as [(ids & Hact & Hlen) Ha]. apply wp_bind.
    destruct (alloc_ok c (drv (hw g))) as (q & l & Hq & _ & Hd).
    eapply wp_pure_run_to; [by eapply attach_ok|]. eapply wp_mono; [by apply IH|].
    intros [] g' (Hc & Hn & He & Hdisk & Ho). rewrite last_cons. split_and!.
    + rewrite Hc. by destruct (last devs) as [[]|].
    + rewrite Hn. by destruct (last devs) as [[]|].
    + rewrite He. cbn. by rewrite fmap_app, <-app_assoc.
    + rewrite Hdisk. cbn. by rewrite Hd.
    + by rewrite Ho.
Qed.

(** C39: When at least one controller is found, the driver gives out all their
    active namespaces, the last controller has one, and every command is carried
    out, [main] attaches the controllers in order and uses the last: it writes
    the message to block 0 of that controller's first namespace, reads the block
    back, possibly into the very memory it was written from, when that is the
    controller's own, and prints the message; no other namespace changes. *)
Theorem kv_main_spec fuel devs g traddr c ns :
  attachable fuel devs → latency < fuel → length message < fuel →
  last devs = Some (traddr, c) → get_ns c (get_first_active_ns c) = Some ns →
  ∃ g' mm, main fuel devs g = Ok 0%Z g' ∧ gctrlr g' = Some c ∧
    e_ctrlr <$> g_ctrlr g' = (e_ctrlr <$> g_ctrlr g) ++ devs.*2 ∧
    begins (disk (drv (hw g')) ns) message ∧
    (∀ ns', ns' ≠ ns → disk (drv (hw g')) ns' = disk (drv (hw g)) ns') ∧
    out (hw g') = out (hw g) ++ (probe_line <$> devs.*1) ++
      (if bool_decide (mm = 0)%Z then [zmalloc_line] else []) ++
      [write_cb_line; read_cb_line; read_done_line message; mmap_line mm].
Proof.
  intros Ha Hf Hl Hlast Hns.
  assert (wp (main fuel devs) g (λ r g', r = 0%Z ∧ ∃ mm, gctrlr g' = Some c ∧
    e_ctrlr <$> g_ctrlr g' = (e_ctrlr <$> g_ctrlr g) ++ devs.*2 ∧ begins (disk (drv (hw g')) ns) message ∧
    (∀ ns', ns' ≠ ns → disk (drv (hw g')) ns' = disk (drv (hw g)) ns') ∧
    out (hw g') = out (hw g) ++ (probe_line <$> devs.*1) ++
      (if bool_decide (mm = 0)%Z then [zmalloc_line] else []) ++
      [write_cb_line; read_cb_line; read_done_line message; mmap_line mm])) as Hwp.
  { unfold main. apply wp_bind. eapply wp_mono; [apply wp_probe_all|]. cbn beta. intros [] g1 Hg1.
    apply wp_bind. eapply wp_mono; [by apply wp_probe|]. cbn beta. intros [] g2 (Hc & Hn & He & Hd & Ho).
    rewrite Hlast in Hc, Hn. rewrite Hns in Hn. subst g1. cbn in He, Hd, Ho.
    apply wp_bind, wp_gets, wp_bind. rewrite Hc. apply wp_lift, wp_ret, wp_bind, wp_lift, wp_new_qpair.
    intros q l Hq Hdl. cbn in Hdl. apply wp_bind, wp_modify, wp_bind, wp_lift.
    eapply wp_mono; [by apply wp_main_buffer|]. cbn beta.
    intros [[p sz] mm] s (a & -> & Hsz & Hr & Hq2 & Hd2 & Hout). cbn in Hd2, Hout.
    apply wp_bind, wp_gets, wp_bind. cbn [gns with_hw]. rewrite Hn. apply wp_lift, wp_ret, wp_bind, wp_lift.
    eapply wp_mono; [by apply wp_main_io|]. cbn beta. intros [] s2 (Hb & Hoth & Ho2). cbn in Hoth, Ho2.
    apply wp_bind, wp_lift, wp_say, wp_ret. split; [done|]. exists mm. cbn. split_and!; [done|done|done| |].
    - intros ns' Hne. by rewrite Hoth, Hd2, Hdl, Hd by done.
    - rewrite Ho2. destruct Hout as [[-> ->]|[-> ->]]; rewrite Ho; simpl; by rewrite <-!app_assoc. }
  apply wp_Ok in Hwp as (r & g' & Hrun & -> & mm & ?). by exists g', mm.
Qed.
End program.

(** ** The program on the device *)
Definition start_globals : globals controller := Globals None None None [] [] start_machine.

Lemma two_active ctrlr : active ctrlr 1 [(1%Z, (10 * ctrlr + 1)%Z); (2%Z, (10 * ctrlr + 2)%Z)].
Proof. by repeat econstructor. Qed.

Lemma nvme_attach_witness : ∃ g', nvme_attach_cb 3 (chars "0000:00:04.0") 5 start_globals = Ok tt g' ∧
  g_ns g' = [NsEntry 51 0 1; NsEntry 52 0 2].
Proof.
  destruct (nvme_attach_spec (chars "0000:00:04.0") 5 start_globals) as [Hok _].
  destruct (Hok _ _ _ (two_active 5) eq_refl 3 ltac:(simpl; lia)) as (g' & Hrun & _ & _ & Hns & _).
  by exists g'.
Defined.

Lemma kv_main_witness : ∃ g' mm, main 34 [(chars "0000:00:04.0", 5%Z)] start_globals = Ok 0%Z g' ∧
  begins (disk (drv (hw g')) 51) message ∧ gctrlr g' = Some 5%Z ∧
  out (hw g') = [probe_line (chars "0000:00:04.0")] ++ (if bool_decide (mm = 0)%Z then [zmalloc_line] else []) ++
    [write_cb_line; read_cb_line; read_done_line message; mmap_line mm].
Proof.
  destruct (kv_main_spec 34 [(chars "0000:00:04.0", 5%Z)] start_globals (chars "0000:00:04.0") 5 51)
    as (g' & mm & Hrun & Hc & _ & Hb & _ & Ho).
  - apply Forall_singleton. eexists. split; [apply two_active|simpl; lia].
  - simpl. lia.
  - by vm_compute.
  - done.
  - done.
  - exists g', mm. split; [exact Hrun|]. split; [exact Hb|]. split; [exact Hc|exact Ho].
Defined.
