(* ===== verification/NvmeOpera.v ===== *)
(** * spdk_nvme/nvme_opera.c: writing and reading every namespace

    The attach callback of the program; the devices that [spdk_nvme_probe]
    finds are an argument of [main]. *)
From stdpp Require Import base gmap list strings.
From S2P Require Import Prelude Bytes Nvme.

Section program.
Context {L : Type} `{!Nvme L}.
Abbreviation MC := (M (machine L)).

Definition io_failed {A} : MC A := say io_failed_line ;; throw "exit".

Definition nvme_opera_probe_callback : MC bool := say (probe_line []) ;; ret true.

(** A buffer that stays null is used; the return code of the command is
    checked, its completion status is not. *)
Definition nvme_opera_write (fuel : nat) (ctrlr ns : Z) : MC Z :=
  let* qpair := new_qpair ctrlr in
  match qpair with
  | None => ret (-1)%Z
  | Some q =>
      let* wmem := (let* r := cmb ctrlr in
                    let* p := match r with Some (a, _) => ret (Some a) | None => page end in deref p) in
      store_bytes wmem (message ++ [0%Z]) ;;
      let* rc := start_write ns q wmem in
      if bool_decide (rc ≠ 0)%Z then io_failed
      else
        wait fuel q write_cb_line ;;
        drop_qpair q ;;
        say write_done_line ;;
        ret 0%Z
  end.

Definition nvme_opera_read (fuel : nat) (ctrlr ns : Z) : MC Z :=
  let* qpair := new_qpair ctrlr in
  match qpair with
  | None => ret (-1)%Z
  | Some q =>
      let* rmem := (let* r := cmb ctrlr in
                    let* p := match r with Some (a, _) => ret (Some a) | None => page end in deref p) in
      let* rc := start_read ns q rmem in
      if bool_decide (rc ≠ 0)%Z then io_failed
      else
        wait fuel q read_cb_line ;;
        drop_qpair q ;;
        let* text := load_string fuel rmem in
        say (read_done_line text) ;;
        ret 0%Z
  end.

(** The [while] over the active namespaces; a null namespace is not skipped. *)
Definition opera_iter (fuel : nat) (ctrlr nsid : Z) : MC (Z + unit) :=
  if bool_decide (nsid = 0)%Z then ret (inr tt)
  else
    match get_ns ctrlr nsid with
    | None => ret (inl nsid)
    | Some ns =>
        say (ns_line nsid (ns_get_size ns / (1024 * 1024 * 1024))) ;;
        let* _ := nvme_opera_write fuel ctrlr ns in
        let* _ := nvme_opera_read fuel ctrlr ns in
        ret (inl (get_next_active_ns ctrlr nsid))
    end.
Definition nvme_opera_attach_callback (fuel : nat) (ctrlr : Z) : MC unit :=
  say attach_line ;;
  say (ns_count_line (get_num_ns ctrlr)) ;;
  loop fuel (opera_iter fuel ctrlr) (get_first_active_ns ctrlr).

(** The probe callbacks, then the attach callbacks of the devices found. *)
Fixpoint probe_all (n : nat) : MC unit :=
  match n with 0 => ret tt | S n => let* _ := nvme_opera_probe_callback in probe_all n end.
Fixpoint attach_all (fuel : nat) (devs : list Z) : MC unit :=
  match devs with
  | [] => ret tt
  | ctrlr :: devs => nvme_opera_attach_callback fuel ctrlr ;; attach_all fuel devs
  end.
(** [res] is what [spdk_env_init] returns. *)
Definition main (fuel : nat) (res : Z) (devs : list Z) : MC Z :=
  say (env_line res) ;;
  probe_all (length devs) ;;
  attach_all fuel devs ;;
  ret 0%Z.
End program.
