(* ===== verification/NvmeOperaSpec.v ===== *)
(** * nvme_opera.c: what the program does

    With controllers that answer, the message is written to and read from every
    active namespace of every device, in order. *)
From stdpp Require Import base gmap list strings.
From S2P Require Import Prelude Bytes Nvme NvmeDevice KvMain KvMainSpec.
From S2P Require NvmeOpera.

Section opera.
Context {L : Type} `{!Nvme L, !NvmeLaws L}.
Implicit Types (s : machine L) (c ns nsid : Z) (ids : list (Z * Z)) (devs : list (Z * list (Z * Z))).

(** Reading is the same code as in kv_main.cpp. *)
Lemma read_same fuel c ns : NvmeOpera.nvme_opera_read (L:=L) fuel c ns = nvme_opera_read fuel c ns.
Proof. done. Qed.

Lemma message_length : length message = 33.
Proof. done. Qed.

Lemma wp_opera_write fuel c ns s :
  latency < fuel →
  wp (NvmeOpera.nvme_opera_write fuel c ns) s (λ r s', r = 0%Z ∧ begins (disk (drv s') ns) message ∧
    (∀ ns', ns' ≠ ns → disk (drv s') ns' = disk (drv s) ns') ∧ out s' = out s ++ [write_cb_line; write_done_line]).
Proof.
  intros Hf. unfold NvmeOpera.nvme_opera_write. pose proof sector_range as [Hsec _]. apply wp_bind, wp_new_qpair. intros q l Hq Hd.
  apply wp_bind, (wp_buffer _ _ q); [done|]. intros a s1 Hq1 Hd1 Ho1 Hr1. simpl in Hd1, Ho1.
  apply wp_bind, (wp_store_bytes _ PAGE); [done|rewrite length_app, message_length; unfold PAGE; simpl; lia|]. intros m Hr Hm.
  destruct (write_ok ns q a (drv s1) Hq1) as (l2 & Hrun & Hp2 & Hd2). apply wp_bind.
  eapply wp_pure_run_to; [unfold start_write; simpl; rewrite Hrun; reflexivity|]. rewrite bool_decide_eq_false_2 by naive_solver.
  eapply (wp_write_text _ ns q a _ message); [exact Hp2|done|rewrite message_length; lia|exact Hm|]. simpl.
  intros s3 Hb Hoth Ho. apply wp_bind, wp_say, wp_ret. simpl. split_and!; [done|done| |].
  - intros ns' Hne. by rewrite Hoth, Hd2, Hd1, Hd.
  - by rewrite Ho, Ho1, <-app_assoc.
Qed.

(** What the visit of the namespaces prints. *)
Definition ns_output ids : list line :=
  ids ≫= λ '(nsid, ns), [ns_line nsid (ns_get_size ns / (1024 * 1024 * 1024)); write_cb_line; write_done_line;
                           read_cb_line; read_done_line message].

(** A run that leaves [text] in the namespaces [nss] and nothing else changed. *)
Definition marked s s' (nss : list Z) : Prop :=
  ∀ ns, if bool_decide (ns ∈ nss) then begins (disk (drv s') ns) message else disk (drv s') ns = disk (drv s) ns.

Lemma marked_app s1 s2 s3 k l : marked s1 s2 k → marked s2 s3 l → marked s1 s3 (k ++ l).
Proof.
  intros H1 H2 ns. specialize (H1 ns). specialize (H2 ns).
  destruct (decide (ns ∈ l)) as [Hl|Hl].
  - rewrite bool_decide_eq_true_2 in H2 by done. by rewrite bool_decide_eq_true_2 by set_solver.
  - rewrite (bool_decide_eq_false_2 (ns ∈ l)) in H2 by done. rewrite H2.
    destruct (decide (ns ∈ k)) as [Hk|Hk].
    + rewrite bool_decide_eq_true_2 in H1 by done. by rewrite bool_decide_eq_true_2 by set_solver.
    + rewrite bool_decide_eq_false_2 in H1 by done. by rewrite bool_decide_eq_false_2 by set_solver.
Qed.

Lemma wp_opera_iter fuel c nsid ns s :
  latency < fuel → length message < fuel → nsid ≠ 0%Z → get_ns c nsid = Some ns →
  wp (NvmeOpera.opera_iter fuel c nsid) s (λ r s', r = inl (get_next_active_ns c nsid) ∧ marked s s' [ns] ∧
    out s' = out s ++ ns_output [(nsid, ns)]).
Proof.
  intros Hf Hl Hn Hns. unfold NvmeOpera.opera_iter. rewrite bool_decide_eq_false_2, Hns by done.
  apply wp_bind, wp_say, wp_bind. eapply wp_mono; [by apply wp_opera_write|]. simpl. intros _ s1 (_ & Hb & Hoth & Ho).
  apply wp_bind. rewrite read_same. eapply wp_mono; [by apply (wp_read_text _ _ _ message); [|apply message_nonzero|..]|].
  intros _ s2 (_ & Hd & Ho2). apply wp_ret. split; [done|]. split.
  - intros ns'. rewrite Hd. case_bool_decide as Hin; [|apply Hoth; set_solver].
    apply list_elem_of_singleton in Hin as ->. exact Hb.
  - rewrite Ho2, Ho. unfold ns_output. simpl. by rewrite <-!app_assoc.
Qed.

Lemma opera_loop fuel n c nsid ids s :
  active c nsid ids → length ids < n → latency < fuel → length message < fuel →
  wp (loop n (NvmeOpera.opera_iter fuel c) nsid) s (λ _ s', marked s s' ids.*2 ∧ out s' = out s ++ ns_output ids).
Proof.
  intros Ha. revert n s. induction Ha as [|nsid ns ids Hn Hns Ha IH]; intros [|n] s Hlen Hf Hl; simpl in Hlen; [lia| |lia|].
  - apply wp_loop. unfold NvmeOpera.opera_iter. rewrite bool_decide_eq_true_2 by done. apply wp_ret.
    split; [|by rewrite app_nil_r]. intros ns. by rewrite bool_decide_eq_false_2 by set_solver.
  - apply wp_loop. eapply wp_mono; [by apply wp_opera_iter|]. cbn beta. intros r s1 (-> & Hm & Ho).
    eapply wp_mono; [apply IH; [lia|done|done]|]. intros [] s2 [Hm2 Ho2]. split.
    + rewrite fmap_cons. exact (marked_app s s1 s2 [ns] _ Hm Hm2).
    + rewrite Ho2, Ho, <-app_assoc. by unfold ns_output.
Qed.

Lemma opera_stuck fuel n c nsid s :
  stuck c nsid → latency < fuel → length message < fuel → loop n (NvmeOpera.opera_iter fuel c) nsid s = NoFuel.
Proof.
  intros Hs Hf Hl. revert n s. induction Hs as [nsid Hn Hns|nsid ns Hn Hns Hs IH]; intros n s.
  - induction n as [|n IHn]; [done|]. cbn [loop]. unfold bind at 1. unfold NvmeOpera.opera_iter at 1.
    rewrite bool_decide_eq_false_2, Hns by done. exact IHn.
  - destruct n as [|n]; [done|]. cbn [loop]. unfold bind at 1.
    pose proof (wp_opera_iter fuel c nsid ns s Hf Hl Hn Hns) as Hit.
    apply wp_Ok in Hit as (r & s' & -> & -> & _). apply IH.
Qed.

Definition dev_output '((c, ids) : Z * list (Z * Z)) : list line :=
  attach_line :: ns_count_line (get_num_ns c) :: ns_output ids.

Lemma wp_attach_all fuel devs s :
  Forall (λ '(c, ids), active c (get_first_active_ns c) ids ∧ length ids < fuel) devs →
  latency < fuel → length message < fuel →
  wp (NvmeOpera.attach_all fuel devs.*1) s (λ _ s', marked s s' ((devs ≫= snd).*2) ∧ out s' = out s ++ (devs ≫= dev_output)).
Proof.
  intros Ha Hf Hl. revert s. induction devs as [|[c ids] devs IH]; intros s.
  - apply wp_ret. split; [|by rewrite app_nil_r]. intros ns. by rewrite bool_decide_eq_false_2 by set_solver.
  - apply Forall_cons in Ha as [[Hact Hlen] Ha]. apply wp_bind, wp_bind, wp_say, wp_bind, wp_say.
    eapply wp_mono; [by eapply opera_loop|]. cbn beta. intros [] s1 [Hm Ho].
    eapply wp_mono; [by apply IH|]. intros [] s2 [Hm2 Ho2]. split.
    + rewrite bind_cons, fmap_app. eapply marked_app; [|exact Hm2]. exact Hm.
    + rewrite Ho2, Ho. simpl. by rewrite <-!app_assoc.
Qed.

Lemma wp_probe_all_lines n s :
  wp (NvmeOpera.probe_all n) s (λ _ s', drv s' = drv s ∧ out s' = out s ++ replicate n (probe_line [])).
Proof.
  revert s. induction n as [|n IH]; intros s.
  - apply wp_ret. by rewrite app_nil_r.
  - apply wp_bind, wp_bind, wp_say, wp_ret. eapply wp_mono; [apply IH|]. intros [] s' [Hd Ho]. split; [done|].
    rewrite Ho. simpl. by rewrite <-app_assoc.
Qed.

(** C38: When the driver gives out every active namespace of the devices found
    and the controllers carry out every command, the program prints the result
    of [spdk_env_init], visits the devices and their active namespaces in the
    order of the driver, and for each one writes the message to block 0, reads
    the block back and prints the message; in the end exactly these namespaces
    hold it.  (When an active namespace is not given out, it hangs, see
    [nvme_opera_hangs].) *)
Theorem nvme_opera_main_spec fuel res devs s :
  Forall (λ '(c, ids), active c (get_first_active_ns c) ids ∧ length ids < fuel) devs →
  latency < fuel → length message < fuel →
  ∃ s', NvmeOpera.main fuel res devs.*1 s = Ok 0%Z s' ∧ marked s s' ((devs ≫= snd).*2) ∧
    out s' = out s ++ [env_line res] ++ replicate (length devs) (probe_line []) ++ (devs ≫= dev_output).
Proof.
  intros Ha Hf Hl.
  assert (wp (NvmeOpera.main fuel res devs.*1) s (λ r s', r = 0%Z ∧ marked s s' ((devs ≫= snd).*2) ∧
    out s' = out s ++ [env_line res] ++ replicate (length devs) (probe_line []) ++ (devs ≫= dev_output))) as Hwp.
  { apply wp_bind, wp_say, wp_bind. eapply wp_mono; [apply wp_probe_all_lines|]. cbn beta. intros [] s1 [Hd Ho]. apply wp_bind.
    eapply wp_mono; [by apply wp_attach_all|]. intros [] s2 [Hm Ho2]. apply wp_ret. split; [done|]. split.
    - intros ns. specialize (Hm ns). by rewrite Hd in Hm.
    - rewrite Ho2, Ho, length_fmap. cbn [out]. by rewrite <-!app_assoc. }
  apply wp_Ok in Hwp as (r & s' & Hrun & -> & ?). by exists s'.
Qed.

(** A device with an active namespace that the driver does not give out
    keeps the program in its attach callback: the namespaces before it are
    served, and then the loop never ends, however long it runs. *)
Theorem nvme_opera_hangs fuel res c (devs : list Z) s :
  stuck c (get_first_active_ns c) → latency < fuel → length message < fuel →
  NvmeOpera.main fuel res (c :: devs) s = NoFuel.
Proof.
  intros Hs Hf Hl. unfold NvmeOpera.main, bind at 1. cbn [say modify]. unfold bind at 1.
  match goal with |- context [NvmeOpera.probe_all _ ?s0] => pose proof (wp_probe_all_lines (length (c :: devs)) s0) as Hp end. apply wp_Ok in Hp as ([] & s1 & -> & _).
  unfold bind at 1. cbn [NvmeOpera.attach_all]. unfold bind at 1. unfold NvmeOpera.nvme_opera_attach_callback, bind at 1.
  cbn [say modify]. unfold bind at 1. cbn [say modify]. by rewrite opera_stuck.
Qed.
End opera.

Lemma nvme_opera_main_witness : ∃ s', NvmeOpera.main 34 0 [5%Z] start_machine = Ok 0%Z s' ∧
  begins (disk (drv s') 51) message ∧ begins (disk (drv s') 52) message ∧
  out s' = [env_line 0; probe_line []; attach_line; ns_count_line 2;
    ns_line 1 20; write_cb_line; write_done_line; read_cb_line; read_done_line message;
    ns_line 2 20; write_cb_line; write_done_line; read_cb_line; read_done_line message].
Proof.
  destruct (nvme_opera_main_spec 34 0 [(5%Z, [(1%Z, 51%Z); (2%Z, 52%Z)])] start_machine) as (s' & Hrun & Hm & Ho).
  - apply Forall_singleton. split; [apply (two_active 5)|simpl; lia].
  - simpl. lia.
  - by vm_compute.
  - exists s'. split; [exact Hrun|]. split; [exact (Hm 51%Z)|]. split; [exact (Hm 52%Z)|exact Ho].
Defined.
