(* ===== verification/EchoServer.v ===== *)
(** * spdk_echo_server: the echo server and its client

    The server's handlers for accepting and listening are the ones of
    KV_Store/spdk_server.c, over the same state; its own are the options, the
    handler of a readable socket and [main].  What the library and the system
    calls return are arguments. *)
From stdpp Require Import base gmap list strings.
From S2P Require Import Prelude Bytes KvServer.

(** *** spdk_server.c *)
Definition EINVAL : Z := 22.

(** The globals set by the options, the host, port and implementation of the
    server's context, and the rest of the server's state. *)
Record echo_server := EchoServer {
  g_host : option (list Z);
  g_port : Z;
  g_sock_impl_name : option (list Z);
  ctx_addr : option (list Z) * Z * option (list Z);
  ctx : server
}.

Definition on_ctx {A} (c : M server A) : M echo_server A := λ g,
  match c (ctx g) with
  | Ok a s => Ok a (EchoServer (g_host g) (g_port g) (g_sock_impl_name g) (ctx_addr g) s)
  | Throw e s => Throw e (EchoServer (g_host g) (g_port g) (g_sock_impl_name g) (ctx_addr g) s)
  | Undef => Undef
  | NoFuel => NoFuel
  end.

(** The handlers that are word for word those of KV_Store/spdk_server.c, but for
    a message that accepting prints. *)
Definition spdk_server_shutdown_callback : M echo_server unit := on_ctx KvServer.spdk_server_shutdown_callback.
Definition spdk_server_accept (waiting : list conn) : M echo_server (Z * list conn) :=
  on_ctx (KvServer.spdk_server_accept waiting).
Definition spdk_server_group_poll (rc : Z) : M echo_server Z := on_ctx (KvServer.spdk_server_group_poll rc).
Definition spdk_server_listen (sock : option Z) : M echo_server Z := on_ctx (KvServer.spdk_server_listen sock).
Definition sdpk_server_start (sock : option Z) : M echo_server unit :=
  let* rc := spdk_server_listen sock in
  when negb (bool_decide (rc = 0)%Z) then on_ctx (log (Stopped (-1))).

Section options.
(** [spdk_strtol(arg, 10)] *)
Context (strtol : list Z → Z).

Definition spdk_server_app_parse (ch : Z) (arg : list Z) : M echo_server Z :=
  if bool_decide (ch = 72)%Z (* H *) then
    modify (λ g, EchoServer (Some arg) (g_port g) (g_sock_impl_name g) (ctx_addr g) (ctx g)) ;;
    ret 0%Z
  else if bool_decide (ch = 80)%Z (* P *) then
    modify (λ g, EchoServer (g_host g) (to_int (strtol arg)) (g_sock_impl_name g) (ctx_addr g) (ctx g)) ;;
    let* p := gets g_port in
    if bool_decide (p < 0)%Z then ret p else ret 0%Z
  else if bool_decide (ch = 78)%Z (* N *) then
    modify (λ g, EchoServer (g_host g) (g_port g) (Some arg) (ctx_addr g) (ctx g)) ;;
    ret 0%Z
  else ret (- EINVAL)%Z.

(** [spdk_app_parse_args] calls it for one option after another until one is
    refused; its own result is not looked at. *)
Fixpoint spdk_app_parse_args (opts : list (Z * list Z)) : M echo_server unit :=
  match opts with
  | [] => ret tt
  | (ch, arg) :: opts =>
      let* rc := spdk_server_app_parse ch arg in
      when bool_decide (rc = 0)%Z then spdk_app_parse_args opts
  end.

(** [main]; [sock] is what [spdk_sock_listen] returns in the start function. *)
Definition main (opts : list (Z * list Z)) (sock : option Z) : M echo_server unit :=
  spdk_app_parse_args opts ;;
  modify (λ g, EchoServer (g_host g) (g_port g) (g_sock_impl_name g)
    (g_host g, g_port g, g_sock_impl_name g) (ctx g)) ;;
  sdpk_server_start sock.
End options.

(** The handler of a readable socket: [n] and [data] are what [spdk_sock_recv]
    returns, [written] what [spdk_sock_writev] returns; the rest of the buffer
    is not looked at. *)
Definition spdk_server_callback (sock : Z) (n : Z) (data : list Z) (written : Z) : M server unit :=
  if bool_decide (n < 0)%Z then ret tt
  else if bool_decide (n = 0)%Z then
    log (Removed sock) ;; log (Closed sock)
  else
    modify (λ s, Server (buf s) (saved s) (to_int (bytes_in s + n)) (bytes_out s) (listener s) (running s) (net s)) ;;
    log (Written sock (take (Z.to_nat n) data)) ;;
    let m := to_int written in
    when bool_decide (m > 0)%Z then count_out m.

(** *** client.cpp *)

(** [std::stoi] *)
Definition is_space (c : Z) : bool := bool_decide (c = 32)%Z || bool_decide (9 <= c <= 13)%Z.
Fixpoint skip_spaces (s : list Z) : list Z :=
  match s with c :: s' => if is_space c then skip_spaces s' else s | [] => [] end.
Fixpoint digits (s : list Z) : list Z :=
  match s with
  | c :: s' => if bool_decide (48 <= c <= 57)%Z then (c - 48)%Z :: digits s' else []
  | [] => []
  end.
Definition stoi {S} (s : list Z) : M S Z :=
  let s := skip_spaces s in
  let '(sign, s) :=
    match s with
    | c :: s' => if bool_decide (c = 45)%Z then ((-1)%Z, s') else if bool_decide (c = 43)%Z then (1%Z, s') else (1%Z, s)
    | [] => (1%Z, [])
    end in
  match digits s with
  | [] => throw "invalid_argument"
  | ds =>
      let v := (sign * foldl (λ a d, 10 * a + d) 0 ds)%Z in
      if bool_decide (- 2 ^ 31 <= v < 2 ^ 31)%Z then ret v else throw "out_of_range"
  end.

(** What the client prints, and the closing of its socket. *)
Inductive cline :=
| c_connecting (host : list Z) (port : Z)
| c_socket_error
| c_invalid (host : list Z)
| c_connect_failed
| c_connected
| c_sending (message : list Z)
| c_send_failed
| c_sent (n : Z)
| c_recv_failed
| c_peer_closed
| c_received (text : list Z)
| c_close (sock : Z)
| c_closed.

(** The results of the system calls; [r_recv len] is the result and the bytes
    of a [recv] of at most [len] bytes. *)
Record syscalls := Syscalls {
  r_socket : Z;
  r_pton : list Z → Z;
  r_connect : list Z → Z → Z;
  r_send : list Z → Z;
  r_recv : nat → Z * list Z
}.

Definition cprint (x : cline) : M (list cline) unit := modify (λ o, o ++ [x]).
Definition CLIENT_BUFFER : nat := 1024.

(** The last part of [main]: the echo. *)
Definition client_receive (k : syscalls) : M (list cline) unit :=
  let '(bytes_received, data) := r_recv k (CLIENT_BUFFER - 1) in
  if bool_decide (bytes_received < 0)%Z then cprint c_recv_failed
  else if bool_decide (bytes_received = 0)%Z then cprint c_peer_closed
  else
    match cstring (take (Z.to_nat bytes_received) data ++ [0%Z]) with
    | Some text => cprint (c_received text)
    | None => undef
    end.

(** [argv], the program's name first. *)
Definition client_main (k : syscalls) (argv : list (list Z)) : M (list cline) Z :=
  let host := default (chars "127.0.0.1") (argv !! 1) in
  let* port := match argv !! 2 with Some a => stoi a | None => ret 8888%Z end in
  let message := default (chars "Hello SPDK Server!") (argv !! 3) in
  cprint (c_connecting host port) ;;
  let sockfd := r_socket k in
  if bool_decide (sockfd < 0)%Z then cprint c_socket_error ;; ret 1%Z
  else if bool_decide (r_pton k host <= 0)%Z && negb (bool_decide (host = chars "localhost")) then
    cprint (c_invalid host) ;; cprint (c_close sockfd) ;; ret 1%Z
  else if bool_decide (r_connect k host port < 0)%Z then
    cprint c_connect_failed ;; cprint (c_close sockfd) ;; ret 1%Z
  else
    cprint c_connected ;;
    cprint (c_sending message) ;;
    let bytes_sent := r_send k message in
    if bool_decide (bytes_sent < 0)%Z then cprint c_send_failed ;; cprint (c_close sockfd) ;; ret 1%Z
    else
      cprint (c_sent bytes_sent) ;;
      client_receive k ;;
      cprint (c_close sockfd) ;;
      cprint c_closed ;;
      ret 0%Z.
