(* ===== verification/EchoServerSpec.v ===== *)
(** * The echo server and its client together

    A session over a connection that delivers what was sent: with the echo
    server the client prints its message, with the key-value server only the
    first word of it. *)
From stdpp Require Import base gmap list strings.
From S2P Require Import Prelude Bytes KvServer KvServerSpec EchoServer.

(** Calls that succeed: [reply] is what the server wrote. *)
Definition connection (message reply : list Z) (k : syscalls) : Prop :=
  (0 ≤ r_socket k)%Z ∧ (∀ h, (0 < r_pton k h)%Z) ∧ (∀ h p, (0 ≤ r_connect k h p)%Z) ∧
  r_send k message = Z.of_nat (length message) ∧
  ∀ n, r_recv k n = (Z.of_nat (length (take n reply)), take n reply).

(** The client's lines when it prints [text]. *)
Definition session (sock : Z) (host message text : list Z) (p : Z) : list cline :=
  [c_connecting host p; c_connected; c_sending message; c_sent (Z.of_nat (length message)); c_received text;
   c_close sock; c_closed].

Lemma cstring_text (l : list Z) : cstring (l ++ [0%Z]) = Some (text l).
Proof.
  induction l as [|c l IH]; simpl; [done|]. case_bool_decide; [done|]. by rewrite IH.
Qed.

Lemma client_run k name host port message reply p :
  connection message reply k → reply ≠ [] → stoi (S:=list cline) port [] = Ok p [] →
  client_main k [name; host; port; message] [] =
    Ok 0%Z (session (r_socket k) host message (text (take (CLIENT_BUFFER - 1) reply)) p).
Proof.
  intros (Hs & Hp & Hc & Hsend & Hrecv) Hr Hport. unfold client_main. simpl. unfold bind at 1. rewrite Hport.
  specialize (Hp host). specialize (Hc host p). rewrite !bool_decide_eq_false_2 by lia. simpl.
  rewrite Hsend. unfold bind, cprint, modify. rewrite bool_decide_eq_false_2 by lia. unfold client_receive.
  rewrite Hrecv. assert (0 < length (take (CLIENT_BUFFER - 1) reply)) as Hlen.
  { rewrite length_take. destruct reply; [done|]. unfold CLIENT_BUFFER. simpl. lia. }
  rewrite !bool_decide_eq_false_2 by lia. rewrite Nat2Z.id, (take_ge (take _ _)) by done.
  rewrite cstring_text. reflexivity.
Qed.

(** The spaces and the first word of a message. *)
Fixpoint first_word (inside : bool) (l : list Z) : list Z :=
  match l with
  | [] => []
  | c :: l' =>
      if bool_decide (c = space) then if inside then [] else c :: first_word false l'
      else c :: first_word true l'
  end.

Lemma text_cut b l : Forall (λ c, c ≠ 0%Z) l → text (cut b l) = first_word b l.
Proof.
  intros Hl. revert b. induction Hl as [|c l Hc Hl IH]; intros b; simpl; [done|].
  case_bool_decide as Hs; simpl; [|by rewrite bool_decide_eq_false_2, IH].
  destruct b; simpl; [done|]. by rewrite bool_decide_eq_false_2, IH.
Qed.

Lemma text_all l : Forall (λ c, c ≠ 0%Z) l → text l = l.
Proof. induction 1 as [|c l Hc Hl IH]; simpl; [done|]. by rewrite bool_decide_eq_false_2, IH. Qed.

Lemma echo_all l : Forall (λ c, c ≠ 0%Z) l → echo l = cut false l.
Proof. intros Hl. unfold echo. rewrite (text_all l Hl), drop_all. apply app_nil_r. Qed.

Lemma take_nonzero n l : Forall (λ c, c ≠ 0%Z) l → Forall (λ c : Z, c ≠ 0%Z) (take n l).
Proof. apply Forall_take. Qed.

Lemma echo_callback_run sock data s :
  data ≠ [] → (Z.of_nat (length data) < 2 ^ 31)%Z →
  (0 ≤ bytes_out s)%Z → (bytes_out s + Z.of_nat (length data) < 2 ^ 31)%Z →
  spdk_server_callback sock (Z.of_nat (length data)) data (Z.of_nat (length data)) s =
    Ok tt (Server (buf s) (saved s) (to_int (bytes_in s + Z.of_nat (length data)))
      (bytes_out s + Z.of_nat (length data)) (listener s) (running s) (net s ++ [Written sock data])).
Proof.
  intros Hd Hl Ho Hof. assert (0 < length data) by (destruct data; [done|simpl; lia]).
  assert (to_int (Z.of_nat (length data)) = Z.of_nat (length data)) as Hint.
  { unfold to_int. rewrite Z.mod_small by lia. lia. }
  unfold spdk_server_callback. rewrite !bool_decide_eq_false_2 by lia. unfold bind, modify, log.
  rewrite Hint, bool_decide_eq_true_2 by lia.
  unfold count_out, add_int, is_int, bind, gets. unfold modify. cbn [bytes_out]. rewrite (bool_decide_eq_true_2 (- 2 ^ 31 <= _ < _)%Z) by lia. cbn. by rewrite Nat2Z.id, take_ge.
Qed.

(** A server's handler that writes [reply] for the bytes it received. *)
Definition replies (run : M server unit) (s : server) (sock : Z) (reply : list Z) : Prop :=
  ∃ s', run s = Ok tt s' ∧ net s' = net s ++ [Written sock reply].

Lemma kv_replies fuel sock message s :
  message ≠ [] → Forall (λ c, c ≠ 0%Z) message → length message < BUFFER_SIZE → BUFFER_SIZE + 1 < fuel →
  length (words message) ≤ MAX_TOKENS →
  (0 ≤ bytes_out s)%Z → (bytes_out s + Z.of_nat (length message) < 2 ^ 31)%Z →
  replies (KvServer.spdk_server_callback fuel sock (Z.of_nat (length message)) message (Z.of_nat (length message)))
    s sock (cut false message).
Proof.
  intros Hne Hnz Hm Hf Hw Ho Hof. assert (0 < length message) as H0 by (destruct message; [done|simpl; lia]).
  pose proof (callback_data fuel sock message (Z.of_nat (length message)) s H0 ltac:(lia) ltac:(lia) ltac:(by right)) as Hp.
  rewrite (text_all message Hnz), (echo_all message Hnz) in Hp. unfold wpu in Hp. unfold replies.
  assert (out_fits (Z.of_nat (length message)) s) as Hfit.
  { unfold out_fits, to_int. right. unfold BUFFER_SIZE in Hm. rewrite Z.mod_small by lia. lia. }
  destruct (KvServer.spdk_server_callback fuel sock _ message _ s) as [[] s'| | |]; [|done| |done];
    [|by destruct Hp as [?|[]]; [lia|]].
  exists s'. by destruct Hp as (_ & Hnet & _).
Qed.

(** C40: A client's session with a message of non-zero bytes, at least one, to a
    port that is a number, over a connection that delivers what was sent, while the server's count of written bytes fits
    an [int].  The echo server writes back the bytes it received and the client
    prints its own message, up to 1023 bytes of it.  The key-value server, when
    the message is shorter than its buffer and has at most 16 words, writes back
    the buffer its parser cut into words: the same client prints the first word
    only. *)
Theorem echo_session fuel sock s k name host port message p :
  message ≠ [] → Forall (λ c, c ≠ 0%Z) message → stoi (S:=list cline) port [] = Ok p [] →
  BUFFER_SIZE + 1 < fuel → (0 ≤ bytes_out s)%Z → (bytes_out s + Z.of_nat BUFFER_SIZE < 2 ^ 31)%Z →
  let data := take BUFFER_SIZE message in
  let n := Z.of_nat (length data) in
  (replies (spdk_server_callback sock n data n) s sock data ∧
   (connection message data k →
    client_main k [name; host; port; message] [] =
      Ok 0%Z (session (r_socket k) host message (take (CLIENT_BUFFER - 1) message) p))) ∧
  (length message < BUFFER_SIZE → length (words message) ≤ MAX_TOKENS →
   replies (KvServer.spdk_server_callback fuel sock n data n) s sock (cut false message) ∧
   (connection message (cut false message) k →
    client_main k [name; host; port; message] [] =
      Ok 0%Z (session (r_socket k) host message (first_word false message) p))).
Proof.
  intros Hne Hnz Hport Hfuel Ho Hof data n. assert (length data ≤ BUFFER_SIZE) as Hlen by (unfold data; rewrite length_take; lia).
  assert (data ≠ []) as Hd by (unfold data, BUFFER_SIZE; by destruct message).
  assert (0 < length data) as H0 by (destruct data; [done|simpl; lia]). split.
  - split; [|intros Hk].
    + eexists. split; [apply echo_callback_run; [done|unfold BUFFER_SIZE in Hlen; lia|done|lia]|done].
    + rewrite (client_run k name host port message data p) by done. unfold data.
      rewrite take_take. replace (_ `min` _) with (CLIENT_BUFFER - 1) by done.
      by rewrite text_all by by apply Forall_take.
  - intros Hm Hw. assert (data = message) as Hdm by (unfold data; apply take_ge; lia).
    split; [|intros Hk].
    + unfold n. rewrite Hdm. apply kv_replies; [done..|lia].
    + rewrite (client_run k name host port message (cut false message) p); [|done| |done].
      * rewrite take_ge by (rewrite length_cut; unfold CLIENT_BUFFER; unfold BUFFER_SIZE in Hm; lia). by rewrite text_cut.
      * destruct message; [done|]. simpl. by case_bool_decide.
Qed.

Lemma echo_session_witness :
  replies (spdk_server_callback 7 6 (chars "BGET k") 6) sample_server 7 (chars "BGET k") ∧
  replies (KvServer.spdk_server_callback 1026 7 6 (chars "BGET k") 6) sample_server 7 (chars "BGET" ++ [0%Z] ++ chars "k") ∧
  client_main (Syscalls 7 (λ _, 1%Z) (λ _ _, 0%Z) (λ m, Z.of_nat (length m))
      (λ n, let r := take n (chars "BGET" ++ [0%Z] ++ chars "k") in (Z.of_nat (length r), r)))
    [chars "client"; chars "127.0.0.1"; chars " +8888"; chars "BGET k"] [] =
    Ok 0%Z (session 7 (chars "127.0.0.1") (chars "BGET k") (chars "BGET") 8888).
Proof.
  destruct (echo_session 1026 7 sample_server
    (Syscalls 7 (λ _, 1%Z) (λ _ _, 0%Z) (λ m, Z.of_nat (length m))
      (λ n, let r := take n (chars "BGET" ++ [0%Z] ++ chars "k") in (Z.of_nat (length r), r)))
    (chars "client") (chars "127.0.0.1") (chars " +8888") (chars "BGET k") 8888)
    as [[Hecho _] Hkv]; [done|by repeat constructor|by vm_compute|unfold BUFFER_SIZE; lia|by vm_compute|by vm_compute|].
  destruct Hkv as [Hrep Hrun]; [by vm_compute; lia|by vm_compute; lia|].
  split; [exact Hecho|]. split; [exact Hrep|]. apply Hrun. by split_and!.
Defined.

(** A negative port ends the option parsing, but the server starts with it. *)
Lemma negative_port_is_used strtol arg opts g sock :
  (to_int (strtol arg) < 0)%Z →
  ∃ g', main strtol ((80%Z, arg) :: opts) (Some sock) g = Ok tt g' ∧
    ctx_addr g' = (g_host g, to_int (strtol arg), g_sock_impl_name g) ∧ running (ctx g') = true.
Proof.
  intros Hp. unfold main. cbn [spdk_app_parse_args]. unfold spdk_server_app_parse.
  rewrite (bool_decide_eq_false_2 (80 = 72)%Z), (bool_decide_eq_true_2 (80 = 80)%Z) by done.
  unfold bind, modify, gets, ret. cbn [g_port]. rewrite (bool_decide_eq_true_2 (to_int (strtol arg) < 0)%Z) by done.
  rewrite bool_decide_eq_false_2 by lia. by eexists.
Qed.
