(* ===== verification/ServerLoop.v ===== *)
(** * The two servers in their event loop

    Accept polls, readable sockets and the shutdown in any order, on top of the
    handlers of KV_Store/spdk_server.c and spdk_echo_server/spdk_server.c.  The
    handler of a readable socket is an interface, [SockHandler], that both
    programs implement; the loop follows a set of clients. *)
From stdpp Require Import base gmap list strings.
From S2P Require Import Prelude Bytes EchoServer KvServer KvServerSpec.

(** What a handler of a readable socket promises: [accepts] are the messages
    it takes, [answer] what it writes for one. *)
Class SockHandler := {
  handler (sock n : Z) (data : list Z) (written : Z) : M server unit;
  accepts : list Z → Prop;
  answer : list Z → list Z;
  handler_spec sock n data written s :
    (Z.of_nat (length data) = Z.max 0 n)%Z → length data ≤ BUFFER_SIZE → (0 < n → accepts data ∧ out_fits written s)%Z →
    wp (handler sock n data written) s (λ _ s',
      net s' = net s ++ (if bool_decide (n < 0)%Z then [] else
        if bool_decide (n = 0)%Z then [Removed sock; Closed sock] else [Written sock (answer data)]) ∧
      bytes_in s' = (if bool_decide (0 < n)%Z then to_int (bytes_in s + n) else bytes_in s) ∧
      bytes_out s' = (if bool_decide (0 < n)%Z then (bytes_out s + Z.max 0 (to_int written))%Z else bytes_out s) ∧
      listener s' = listener s)
}.

(** ** The loop *)
Inductive loop_event :=
| accept_poll (waiting : list conn)
| readable (sock n : Z) (data : list Z) (written : Z)
| shutdown.

(** The clients of the group, all sockets accepted so far, and the bytes
    received and sent. *)
Record clients := Clients { members : gset Z; seen : gset Z; received : Z; sent : Z }.
Definition no_clients : clients := Clients ∅ ∅ 0 0.

Section loop.
Context `{!SockHandler}.

Definition serve (e : loop_event) : M server unit :=
  match e with
  | accept_poll waiting => let* _ := spdk_server_accept waiting in ret tt
  | readable sock n data written => handler sock n data written
  | shutdown => spdk_server_shutdown_callback
  end.
Fixpoint serve_all (evs : list loop_event) : M server unit :=
  match evs with [] => ret tt | e :: evs => serve e ;; serve_all evs end.

(** The connections that are taken become clients; the first that cannot be
    added ends the poll. *)
Fixpoint take_waiting (waiting : list conn) (a : clients) : clients :=
  match waiting with
  | [] => a
  | c :: waiting =>
      let seen' := {[c_sock c]} ∪ seen a in
      if bool_decide (c_add c < 0)%Z then Clients (members a) seen' (received a) (sent a)
      else take_waiting waiting (Clients ({[c_sock c]} ∪ members a) seen' (received a) (sent a))
  end.
Definition abs_step (a : clients) (e : loop_event) : clients :=
  match e with
  | accept_poll waiting => take_waiting waiting a
  | readable sock n data written =>
      if bool_decide (n = 0)%Z then Clients (members a ∖ {[sock]}) (seen a) (received a) (sent a)
      else if bool_decide (0 < n)%Z then
        Clients (members a) (seen a) (received a + n) (sent a + Z.max 0 (to_int written))
      else a
  | shutdown => a
  end.

(** New sockets are new and have an address; only clients become readable, their
    messages are ones the handler takes, and the bytes written to all of them
    so far can be counted in an [int]. *)
Definition friendly (a : clients) (e : loop_event) : Prop :=
  match e with
  | accept_poll waiting =>
      NoDup (c_sock <$> waiting) ∧ ∀ c, c ∈ waiting → (0 ≤ c_getaddr c)%Z ∧ c_sock c ∉ seen a
  | readable sock n data written =>
      sock ∈ members a ∧ (Z.of_nat (length data) = Z.max 0 n)%Z ∧ length data ≤ BUFFER_SIZE ∧
      (0 < n → accepts data ∧ sent a + Z.max 0 (to_int written) < 2 ^ 31)%Z
  | shutdown => True
  end.
Fixpoint friendly_all (a : clients) (evs : list loop_event) : Prop :=
  match evs with [] => True | e :: evs => friendly a e ∧ friendly_all (abs_step a e) evs end.

(** ** The socket protocol *)

(** A socket is added once, written to and removed only while it is in the
    group, closed once and not while it is in the group: the group and the
    closed sockets after a log that keeps to this. *)
Definition protocol_step (g : gset Z * gset Z) (e : event) : option (gset Z * gset Z) :=
  let '(group, closed) := g in
  match e with
  | Added x => if bool_decide (x ∉ group ∪ closed) then Some ({[x]} ∪ group, closed) else None
  | Written x _ => if bool_decide (x ∈ group) then Some g else None
  | Removed x => if bool_decide (x ∈ group) then Some (group ∖ {[x]}, closed) else None
  | Closed x => if bool_decide (x ∉ group ∪ closed) then Some (group, {[x]} ∪ closed) else None
  | Registered | Stopped _ => Some g
  end.
Fixpoint protocol (g : gset Z * gset Z) (l : list event) : option (gset Z * gset Z) :=
  match l with [] => Some g | e :: l => g' ← protocol_step g e; protocol g' l end.

Lemma protocol_app g l k : protocol g (l ++ k) = g' ← protocol g l; protocol g' k.
Proof. revert g. induction l as [|e l IH]; intros g; simpl; [done|]. by destruct (protocol_step g e); simpl. Qed.

(** The server keeps to the protocol, its group is the set of clients, every
    other socket it accepted is closed, and its counters are the bytes received,
    modulo their width, and sent. *)
Definition follows (ls : Z) (a : clients) (s : server) : Prop :=
  (∃ closed, protocol (∅, ∅) (net s) = Some (members a, closed) ∧ seen a = members a ∪ closed ∧ members a ## closed) ∧
  bytes_in s = to_int (received a) ∧ (bytes_out s = sent a ∧ 0 ≤ sent a)%Z ∧ listener s = Some ls.

Lemma to_int_add a b : to_int (to_int a + b) = to_int (a + b).
Proof.
  unfold to_int. f_equal. replace (((a + 2 ^ 31) mod 2 ^ 32 - 2 ^ 31 + b + 2 ^ 31))%Z with ((a + 2 ^ 31) mod 2 ^ 32 + b)%Z by lia.
  rewrite Zplus_mod_idemp_l. f_equal. lia.
Qed.

Lemma follows_log ls a s s' es a' closed closed' :
  protocol (∅, ∅) (net s) = Some (members a, closed) → net s' = net s ++ es →
  protocol (members a, closed) es = Some (members a', closed') → seen a' = members a' ∪ closed' → members a' ## closed' →
  bytes_in s' = to_int (received a') → (bytes_out s' = sent a' ∧ 0 ≤ sent a')%Z → listener s' = Some ls → follows ls a' s'.
Proof. intros Hp Hn He Hs Hd ???. split; [|done]. exists closed'. by rewrite Hn, protocol_app, Hp. Qed.

Lemma accept_follows ls waiting count a s :
  follows ls a s → friendly a (accept_poll waiting) →
  wp (spdk_server_accept_loop waiting count) s (λ _ s', follows ls (take_waiting waiting a) s').
Proof.
  revert count a s. induction waiting as [|c waiting IH]; intros count a s Hf [Hnd Hw]; pose proof Hf as [(closed & Hp & Hs & Hd) (Hi & Ho & Hl)].
  - apply wp_bind, wp_gets. rewrite Hl. by apply wp_ret.
  - apply wp_bind, wp_gets. rewrite Hl. destruct (Hw c) as [Hga Hc]; [set_solver|]. apply NoDup_cons in Hnd as [Hni Hnd].
    rewrite bool_decide_eq_false_2 by lia. cbn [take_waiting]. rewrite Hs in Hc. case_bool_decide as Hadd.
    + apply wp_bind, wp_modify, wp_ret. eapply (follows_log _ a s _ [Closed (c_sock c)]); [done|done| | | |done..]; simpl.
      * by rewrite bool_decide_eq_true_2.
      * rewrite Hs. set_solver.
      * set_solver.
    + apply wp_bind, wp_modify. apply IH.
      * eapply (follows_log _ a s _ [Added (c_sock c)]); [done|done| | | |done..]; simpl.
        -- by rewrite bool_decide_eq_true_2.
        -- rewrite Hs. set_solver.
        -- set_solver.
      * split; [done|]. intros c' Hc'. destruct (Hw c') as [? Hc'']; [set_solver|]. split; [done|]. simpl.
        assert (c_sock c' ≠ c_sock c) by (intros He; apply Hni; rewrite <-He; by apply list_elem_of_fmap_2). set_solver.
Qed.

Lemma serve_follows ls e a s : follows ls a s → friendly a e → wp (serve e) s (λ _ s', follows ls (abs_step a e) s').
Proof.
  intros Hf He. destruct e as [waiting|sock n data written|].
  - apply wp_bind. eapply wp_mono; [by apply accept_follows|]. intros r s' Hf'. by apply wp_ret.
  - destruct He as (Hin & Hlen & Hmax & Hacc). pose proof Hf as [(closed & Hp & Hs & Hd) (Hi & Ho & Hl)].
    destruct Ho as [Ho Ho0]. eapply wp_mono; [apply handler_spec; [done|done|]|].
    { intros Hn. destruct (Hacc Hn) as [? Hfit]. split; [done|]. unfold out_fits. rewrite Ho. lia. }
    intros [] s' (Hn & Hi' & Ho' & Hl'). simpl.
    destruct (decide (n = 0)%Z) as [->|H0]; [|destruct (decide (0 < n)%Z) as [Hpos|Hneg]].
    + eapply (follows_log _ a s _ [Removed sock; Closed sock]); [done|done| | | |rewrite Hi'; done|rewrite Ho'; done|by rewrite Hl']; simpl.
      * rewrite bool_decide_eq_true_2 by done. simpl. by rewrite bool_decide_eq_true_2 by set_solver.
      * rewrite Hs. apply set_eq. intros x. destruct (decide (x = sock)); set_solver.
      * set_solver.
    + rewrite bool_decide_eq_false_2, (bool_decide_eq_true_2 (0 < n)%Z) by lia.
      rewrite (bool_decide_eq_false_2 (n < 0)%Z), (bool_decide_eq_false_2 (n = 0)%Z) in Hn by lia.
      rewrite bool_decide_eq_true_2 in Hi', Ho' by lia.
      eapply (follows_log _ a s _ [Written sock (answer data)]); [done|done| |exact Hs|exact Hd| | |by rewrite Hl']; simpl.
      * by rewrite bool_decide_eq_true_2.
      * by rewrite Hi', Hi, to_int_add.
      * rewrite Ho', Ho. lia.
    + rewrite bool_decide_eq_false_2, (bool_decide_eq_false_2 (0 < n)%Z) by lia.
      rewrite (bool_decide_eq_true_2 (n < 0)%Z) in Hn by lia. rewrite bool_decide_eq_false_2 in Hi', Ho' by lia.
      eapply (follows_log _ a s _ []); [done|done|done|exact Hs|exact Hd|by rewrite Hi'|by rewrite Ho'|by rewrite Hl'].
  - by apply wp_modify.
Qed.

Lemma serve_all_follows ls evs a s :
  follows ls a s → friendly_all a evs → wp (serve_all evs) s (λ _ s', follows ls (foldl abs_step a evs) s').
Proof.
  revert a s. induction evs as [|e evs IH]; intros a s Hf Hev; [by apply wp_ret|]. destruct Hev as [He Hev].
  apply wp_bind. eapply wp_mono; [by apply serve_follows|]. intros [] s' Hf'. by apply IH.
Qed.

Lemma start_follows ls s :
  net s = [] → bytes_in s = 0%Z → bytes_out s = 0%Z → wp (sdpk_server_start (Some ls)) s (λ _ s', follows ls no_clients s').
Proof.
  intros Hn Hi Ho. unfold sdpk_server_start, spdk_server_listen. apply wp_bind, wp_bind, wp_modify, wp_bind, wp_modify, wp_bind, wp_modify, wp_ret.
  rewrite bool_decide_eq_true_2 by done. apply wp_ret. split; [|by split_and!]. exists ∅. simpl. rewrite Hn. split_and!; [done|set_solver..].
Qed.
End loop.

(** ** The two handlers *)

(** Messages the key-value server takes: of at most 16 words, and shorter than
    its buffer or with a NUL in it. *)
#[export] Program Instance kv_handler : SockHandler := {|
  handler sock n data written := KvServer.spdk_server_callback (BUFFER_SIZE + 2) sock n data written;
  accepts data := (0%Z ∈ data ∨ length data < BUFFER_SIZE) ∧ length (words (KvServerSpec.text data)) ≤ MAX_TOKENS;
  answer := KvServerSpec.echo
|}.
Next Obligation.
  intros sock n data written s Hn Hmax Hacc. destruct (decide (0 < n)%Z) as [Hpos|Hneg].
  - destruct (Hacc Hpos) as [[Hz Hw] Hfit]. assert (n = Z.of_nat (length data)) as -> by lia.
    rewrite !bool_decide_eq_false_2, (bool_decide_eq_true_2 (0 < _)%Z) by lia.
    pose proof (callback_data (BUFFER_SIZE + 2) sock data written s ltac:(lia) Hmax ltac:(lia) Hz) as Hp.
    unfold wpu in Hp. unfold wp. destruct (KvServer.spdk_server_callback _ _ _ _ _ _); [|done|unfold MAX_TOKENS in *; destruct Hp; [lia|done]|done].
    by destruct Hp as (_ & ? & ? & _ & Ho & ? & _).
  - rewrite (bool_decide_eq_false_2 (0 < n)%Z) by done. unfold KvServer.spdk_server_callback. apply wp_bind, wp_modify.
    case_bool_decide as H0; [apply wp_ret; cbn; by rewrite app_nil_r|].
    rewrite !(bool_decide_eq_true_2 (n = 0)%Z) by lia. apply wp_bind, wp_modify, wp_modify. cbn. by rewrite <-app_assoc.
Qed.

(** The echo server takes every message and writes it back. *)
#[export] Program Instance echo_handler : SockHandler := {|
  handler := EchoServer.spdk_server_callback;
  accepts _ := True;
  answer data := data
|}.
Next Obligation.
  intros sock n data written s Hn Hmax Hacc. unfold EchoServer.spdk_server_callback.
  case_bool_decide as H1; [rewrite bool_decide_eq_false_2 by lia; apply wp_ret; by rewrite app_nil_r|].
  case_bool_decide as H2; [rewrite bool_decide_eq_false_2 by lia; apply wp_bind, wp_modify, wp_modify; cbn; by rewrite <-app_assoc|].
  rewrite (bool_decide_eq_true_2 (0 < n)%Z), take_ge by lia. apply wp_bind, wp_modify, wp_bind, wp_modify.
  destruct (Hacc ltac:(lia)) as [_ Hfit]. match goal with |- wp _ ?s1 _ => pose proof (count_out_ok written s1) as Hp end.
  unfold wpu in Hp. unfold wp. cbn zeta. match type of Hp with match ?m with _ => _ end => destruct m end; [|done|by destruct Hp|done].
  by destruct Hp as [_ ->].
Qed.

(** The servers as they are loaded. *)
Definition kv_image : server := Server [] None 0 0 None false [].
Definition echo_image : echo_server := EchoServer None 0 None (None, 0%Z, None) kv_image.

Lemma wp_on_ctx {A} (m : M server A) g (Q : A → server → Prop) :
  wp m (ctx g) Q → wp (on_ctx m) g (λ a g', Q a (ctx g')).
Proof. unfold wp, on_ctx. by destruct (m (ctx g)). Qed.

Lemma wp_options strtol opts g (P : server → Prop) : P (ctx g) → wp (spdk_app_parse_args strtol opts) g (λ _ g', P (ctx g')).
Proof.
  revert g. induction opts as [|[ch arg] opts IH]; intros g Hg; [by apply wp_ret|]. cbn [spdk_app_parse_args]. apply wp_bind.
  assert (wp (spdk_server_app_parse strtol ch arg) g (λ _ g', P (ctx g'))) as Hp.
  { unfold spdk_server_app_parse. repeat (case_bool_decide || apply wp_bind || apply wp_modify || apply wp_gets || apply wp_ret); done. }
  eapply wp_mono; [exact Hp|]. intros rc g' Hg'. case_bool_decide; [by apply IH|by apply wp_ret].
Qed.

Lemma echo_start ls : EchoServer.sdpk_server_start (Some ls) = on_ctx (sdpk_server_start (Some ls)).
Proof. reflexivity. Qed.

(** C33: Both servers, started as their programs start them, handle every
    sequence of accept polls, readable sockets and shutdowns without undefined
    behaviour, as long as the library's calls for new connections succeed, the
    handler takes the messages and fewer than 2^31 bytes are written in all: a
    socket is added once, written to only as a client, removed and then closed
    once; every connection accepted is a client or closed; the counters are the
    bytes received, modulo 2^32, and the bytes written. *)
Theorem servers_follow_protocol ls evs :
  (∀ listen, listen (chars "0.0.0.0") 8888%Z (chars "posix") = Some ls → friendly_all (H:=kv_handler) no_clients evs →
    wp (start_server true listen ;; serve_all (H:=kv_handler) evs) kv_image
      (λ _ s, follows ls (foldl abs_step no_clients evs) s)) ∧
  (∀ strtol opts, friendly_all (H:=echo_handler) no_clients evs →
    wp (main strtol opts (Some ls) ;; on_ctx (serve_all (H:=echo_handler) evs)) echo_image
      (λ _ g, follows ls (foldl abs_step no_clients evs) (ctx g))).
Proof.
  split.
  - intros listen Hl Hev. apply wp_bind, wp_bind, wp_modify. cbn iota. rewrite Hl.
    eapply wp_mono; [by apply start_follows|]. intros [] s Hf. by apply serve_all_follows.
  - intros strtol opts Hev. apply wp_bind, wp_bind. eapply wp_mono; [by apply (wp_options strtol opts _ (λ s, s = kv_image))|].
    intros [] g Hg. apply wp_bind, wp_modify. rewrite echo_start.
    eapply wp_mono; [apply wp_on_ctx, (start_follows ls); simpl; by rewrite Hg|].
    intros [] g' Hf. eapply wp_mono; [by apply wp_on_ctx, serve_all_follows|]. done.
Qed.

(** Two clients connect, a third is refused; one sends a message and leaves. *)
Definition sample_events : list loop_event :=
  [accept_poll [Conn 5 0 0; Conn 6 0 0]; readable 5 4 (chars "BGET") 4; accept_poll [Conn 7 0 (-1); Conn 8 0 0]; readable 5 0 [] 0; shutdown].

Lemma sample_friendly `{!SockHandler} : accepts (chars "BGET") → friendly_all no_clients sample_events.
Proof.
  intros Ha. unfold sample_events. cbn [friendly_all friendly]. rewrite <-!Forall_forall.
  split_and!; try done; try (apply (bool_decide_unpack _); vm_compute; done). all: cbn; unfold BUFFER_SIZE; lia.
Qed.

Lemma servers_follow_protocol_witness :
  wp (start_server true (λ _ _ _, Some 3%Z) ;; serve_all (H:=kv_handler) sample_events) kv_image
    (λ _ s, follows 3 (Clients {[6%Z]} {[5; 6; 7]}%Z 4 4) s) ∧
  wp (main (λ _, 0%Z) [] (Some 3%Z) ;; on_ctx (serve_all (H:=echo_handler) sample_events)) echo_image
    (λ _ g, follows 3 (Clients {[6%Z]} {[5; 6; 7]}%Z 4 4) (ctx g)).
Proof.
  assert (foldl abs_step no_clients sample_events = Clients {[6%Z]} {[5; 6; 7]}%Z 4 4) as He by (vm_compute; reflexivity).
  rewrite <-He. split.
  - apply (proj1 (servers_follow_protocol 3 sample_events)); [done|]. apply (sample_friendly (H:=kv_handler)).
    split; [right|]; vm_compute; lia.
  - apply (proj2 (servers_follow_protocol 3 sample_events)). by apply (sample_friendly (H:=echo_handler)).
Defined.
