(* ===== verification/Singleton.v ===== *)
(** * Sigleton/Singleton.cpp: a lazy and an eager singleton

    The objects have no members: what there is to see is when they are built
    and destroyed, and which object a reference denotes.  An eager instance is
    built before [main]; a function-local static when the call first reaches
    it; at the end the statics are destroyed in the reverse order of their
    construction. *)
From stdpp Require Import base list sets.
From S2P Require Import Prelude.

(** The two objects with static storage. *)
Inductive object := lazy_instance | eager_instance.
#[global] Instance object_eq_dec : EqDecision object.
Proof. solve_decision. Defined.

Inductive lifetime := Built (o : object) | Destroyed (o : object).

(** The statics built so far, the last one first, and what happened. *)
Record statics := Statics { built : list object; happened : list lifetime }.

Definition construct (o : object) : M statics unit := modify (λ s, Statics (o :: built s) (happened s ++ [Built o])).
(** A reference to an object that is not alive is undefined. *)
Definition refer (o : object) : M statics object := λ s, if bool_decide (o ∈ built s) then Ok o s else Undef.

(** The guard of the local static is its having been built. *)
Definition Singleton_getInstance : M statics object :=
  let* b := gets built in
  when negb (bool_decide (lazy_instance ∈ b)) then construct lazy_instance ;;
  refer lazy_instance.
Definition SingletonEager_getInstance : M statics object := refer eager_instance.

(** The dynamic initialisation before [main]. *)
Definition static_init : M statics unit := construct eager_instance.
Definition destroy_statics : M statics unit := modify (λ s, Statics [] (happened s ++ (Destroyed <$> built s))).

Definition main : M statics (list object) :=
  let* s1 := Singleton_getInstance in
  let* s2 := Singleton_getInstance in
  let* s3 := SingletonEager_getInstance in
  let* s4 := SingletonEager_getInstance in
  ret [s1; s2; s3; s4].
Definition program : M statics (list object) :=
  static_init ;; let* rs := main in destroy_statics ;; ret rs.

(** *** Any sequence of calls *)
Inductive call := lazy | eager.
#[global] Instance call_eq_dec : EqDecision call.
Proof. solve_decision. Defined.
Definition getInstance (c : call) : M statics object :=
  match c with lazy => Singleton_getInstance | eager => SingletonEager_getInstance end.
Fixpoint calls (cs : list call) : M statics (list object) :=
  match cs with
  | [] => ret []
  | c :: cs => let* o := getInstance c in let* os := calls cs in ret (o :: os)
  end.
Definition denotes (c : call) : object := match c with lazy => lazy_instance | eager => eager_instance end.

Lemma calls_run cs s :
  eager_instance ∈ built s →
  calls cs s = Ok (denotes <$> cs)
    (if bool_decide (lazy_instance ∈ built s) || negb (existsb (λ c, match c with lazy => true | eager => false end) cs)
     then s else Statics (lazy_instance :: built s) (happened s ++ [Built lazy_instance])).
Proof.
  revert s. induction cs as [|c cs IH]; intros s He; [simpl; rewrite orb_true_r; done|].
  destruct c; cbn [calls getInstance existsb fmap list_fmap denotes]; unfold bind at 1.
  - unfold Singleton_getInstance, bind, gets. simpl. case_bool_decide as Hl; simpl.
    + unfold refer. rewrite bool_decide_eq_true_2 by done. rewrite IH by done. by rewrite bool_decide_eq_true_2.
    + rewrite IH by (cbn; set_solver). cbn [built]. by rewrite bool_decide_eq_true_2 by set_solver.
  - unfold SingletonEager_getInstance, refer. rewrite bool_decide_eq_true_2 by done. unfold bind. by rewrite IH.
Qed.

(** However often they are called, in whatever order, the two functions return
    their one object each, and the lazy one is built at its first call only. *)
Theorem singletons_once cs :
  (static_init ;; calls cs) (Statics [] []) =
    Ok (denotes <$> cs)
      (if decide (lazy ∈ cs) then Statics [lazy_instance; eager_instance] [Built eager_instance; Built lazy_instance]
       else Statics [eager_instance] [Built eager_instance]).
Proof.
  unfold bind, static_init, construct, modify. simpl. rewrite calls_run by (cbn; set_solver). f_equal. simpl.
  destruct (decide (lazy ∈ cs)) as [Hl|Hl].
  - replace (existsb _ cs) with true; [done|]. symmetry. apply existsb_exists. exists lazy. by rewrite <-list_elem_of_In.
  - replace (existsb _ cs) with false; [done|]. symmetry. apply not_true_iff_false. intros ([] & Hc & Hx)%existsb_exists; [|done].
    by rewrite <-list_elem_of_In in Hc.
Qed.

Example singleton_program :
  program (Statics [] []) = Ok [lazy_instance; lazy_instance; eager_instance; eager_instance]
    (Statics [] [Built eager_instance; Built lazy_instance; Destroyed lazy_instance; Destroyed eager_instance]).
Proof. vm_compute. reflexivity. Qed.
